(* ===== verification/_CoqProject ===== *)
-Q . S2P
Prelude.v
GoStrings.v
Hash.v
ConsistentHash.v
TimingWheel.v
TimingWheelInv.v
TimingWheelSpec.v
Json.v
JsonText.v
Messages.v
Typing.v
GateId.v
Digest.v
Channel.v
ChannelSpec.v
ChannelFrame.v
ChannelRace.v
Subscription.v
WorldChannel.v
Credentials.v
Gate.v
Interfaces.v
UserState.v
Rpc.v
RpcSpec.v
RpcRouting.v
Transport.v
Stores.v
Examples.v
Messaging.v
MessagingSpec.v
GateFrame.v
GateSpec.v
Reader.v
GateTyping.v
ExitRace.v
GateProps.v
Heartbeat.v
Conn.v
Listeners.v
Pipeline.v
System.v
SystemSpec.v
Startup.v
Delivery.v
ChatDelivery.v
EndToEnd.v
