(* ===== verification/Prelude.v ===== *)
(** * Glide: a verification library for the instant-messaging server

    Glide is a messaging server. Clients keep a connection to a _gateway_, authenticate with
    credentials their business service encrypted, and send messages; _messaging_ handles each message:
    it pushes chat messages to their receivers and publishes group messages to _channels_
    (subscriptions), whose worker hands them to the gateway again. Business services reach the gateway and
    the channels over RPC. This library models those parts as executable Rocq definitions and proves
    what they promise, one by one and then together in one process.

    ** Where each part of the program is

    - [Prelude], [GoStrings], [Json], [JsonText]: the vocabulary. Go errors, fixed-width integers, the state and
      panic monad [GoM]; the functions of [strings], [strconv], [fmt], [hex] and
      [encoding/json] the server calls ([JsonText]: the values its reader cuts out of a text are values
      by themselves).
    - [Hash], [ConsistentHash]: [pkg/hash/hash.go] and [consisten_hash.go], the murmur hash and the ring
      of nodes ([Add], [Remove], [Get]).
    - [TimingWheel], [TimingWheelInv], [TimingWheelSpec]: [pkg/timingwheel], which times the heartbeats.
    - [Messages], [Typing]: [pkg/messages], the messages, their actions and their JSON codec; the type of
      payload each action has.
    - [GateId]: [ID] and the errors of [pkg/gate] ([client.go], [id.go], [errors.go]).
    - [Digest], [Credentials]: MD5, SHA-1, and the encryption of [pkg/gate/authenticator.go].
    - [Gate], [GateSpec], [GateTyping], [GateFrame], [GateProps]: [client_impl.go], [gateway.go], [reader.go] and the interceptors of
      [authenticator.go]. A client is a record in a store, [Impl]'s map holds references to it; the
      goroutines [runRead], [runWrite], the heartbeat and the flush started by [Exit] are steps.
    - [ExitRace]: [Exit] and [ExitClient] again, action by action and interleaved, as the code holds no lock in [Exit].
    - [Reader]: the goroutine of [reader.go] a client reads through, with its channel and the pool of results.
    - [Heartbeat]: the timers of the clients of [client_impl.go], gateway and timing wheel in one state.
    - [Conn], [Listeners], [Pipeline]: [pkg/conn], the connections over the socket libraries, and what becomes of a frame;
      the servers that accept connections, and the gateway's own;
      the way of a message from a client's queue to its connection.
    - [Channel], [ChannelSpec], [ChannelFrame], [Subscription]: [pkg/subscription] and its [subscription_impl]: a channel
      ([chan.go], [perm.go], [message.go]), then the directory of channels ([subscription.go]) and the
      interface its callers use ([wrap.go]). [ChannelFrame] says what an operation leaves as it was;
      [ChannelRace] takes the queue, the running flag and the numbers apart, one atomic operation of the code at a time.
    - [WorldChannel]: [internal/world_channel], the channel every user is in while online.
    - [UserState], [Messaging], [MessagingSpec]: [pkg/messaging], the chain of handlers and the pool that
      runs it; who is told that a user came online.
    - [Interfaces]: [gate.Gateway] and [subscription_impl.SubscribeWrap] as type classes, with their
      implementations and combinators to place a component in a larger state.
    - [Rpc], [RpcSpec]: [im_service/server] and [im_service/client]. [RpcRouting],
      [Transport]: [pkg/rpc], the choice of a server, the metadata of a call, and how servers and clients
      are built and run.
    - [Stores]: [pkg/store] and [internal/message_store_db].
    - [Examples]: [example], the samples, as scripts over the clients of [Transport] and [Rpc].
    - [System], [SystemSpec], [Delivery], [ChatDelivery], [EndToEnd]: [cmd/im_service/main.go], the components in one
      state, and the properties that need several of them.
    - [Startup]: [config/viper.go], [internal/pkg/db] and [main] itself, up to the state [System] starts from.

    ** How the code is modelled

    A Go function that changes state is a function in [GoM S]: it takes a state, returns a value or a
    panic, and the state reached; a function that returns an error returns it as a value, like the code.
    Objects shared by pointer (clients, timer tasks, metadata maps) live in a store and are
    referred to by number, so an update through one pointer is seen through the others. Goroutines
    are steps: an [Inductive] relation per component says which operation or goroutine may run next,
    and an invariant is proved over every sequence of them. An operation is one step: where the code holds
    a mutex, the mutex is what makes it one; where the code takes none, interleavings inside the
    operation are not covered, but for [Exit] ([ExitRace]), the queue of a channel ([ChannelRace])
    and the readers ([Reader]). Time is an argument of what reads the clock. Random bytes and the
    order in which Go ranges over a map are arguments too, unless a file says which order it fixes.
    Log lines are dropped.

    A component that calls another is written against a type class ([Gateway_], [ChanEnv],
    [Subscribe_], [SubscribeWrap_], [MsgEnv]): its theorems hold for whatever implements the class,
    and [System] supplies the real components. Code the repository only imports is a parameter:
    [BlockCipher] (AES, with decryption the inverse of encryption), [rpcx_Call] (with [reliable], the
    transport runs the handler on the arguments sent), [RpcxServer_], [RpcxClient_], [Kafka_], [db_Exec],
    [Redis_], [Websocket_] and [TcpSocket_] (the sockets), [Platform_] (what [main] opens). [System] runs with
    any implementation of [Store_]; [main_store] is the one the configuration asks for.

    ** What is proved

    - The process: the gateway's and the channels' invariants survive every interleaving of all
      components, and the gateway's interface never panics ([process_invariant]); every message that waits
      anywhere has the payload its action says ([messages_are_typed]); a group message reaches
      the queue of each connected reader once, in its sender's name and with the number its channel
      gave it ([group_message_reaches_the_readers]); a chat message goes from its sender's text to
      a text on each connection of its receiver ([chat_message_end_to_end]) or is kept ([chat_message_kept_offline]). [main]
      starts that process exactly when its file has the sections it reads ([main_starts_the_process]).
    - The gateway ([GateSpec], [GateProps]): IDs and clients correspond one to one in every reachable state
      ([gate_invariant]); nothing panics; authentication takes a free ID or kicks out its holder; a
      message needs its ticket; [Exit] unregisters once, its flush writes what was queued and ends; what was submitted for a client is written once, in
      whatever order the pool runs ([submitted_messages_are_written]); which frames end a connection
      ([frame_outcome]).
    - Readers: in every interleaving a client takes its own frames, in order and from clean results
      ([reader_delivers]), and none is lost ([no_frame_is_lost]); a reader nobody listens to hangs
      ([abandoned_reader_hangs]). Every accepted connection becomes a client ([gateway_serves_connections]).
    - Overlapping exits: calls of [Exit] and [ExitClient] never block one another for ever ([exit_calls_return]); a
      client is closed once unless two calls pass the check of its state together ([exit_closes_once]), which
      the code allows ([overlapping_exits_crash]); a call that nothing interleaves with is the one step of [Gate]
      ([exit_alone_is_Exit]).
    - Heartbeats, with the timing wheel ticking: every running client's read timer is pending
      ([heartbeat_timers_armed]), and a silent client is disconnected within its patience
      ([silent_client_is_disconnected]).
    - Timing wheels: refinement of a table of deadlines ([wheel_refines_timers]), firing exactly
      once on time, cancelling, and the timeouts the wheels lose.
    - The ring: refinement of a set of nodes, minimal movement of keys, [Remove] undoes [Add].
    - Messages and credentials: round trips through the codec, and through encryption.
    - Channels: bounded queue and worker invariant, absence of panics, who may publish and join,
      consecutive numbers across segments, delivery once to each reader, the stuck worker after its drain
      loop; channels of the directory do not touch each other. However publications overlap, the queue loses and
      repeats nothing ([queue_is_conserved]), the running flag is never set for nobody ([running_flag_is_owned]) and
      numbers are consecutive within a segment ([numbers_are_consecutive]); order needs publications that do not
      overlap ([one_worker_in_order]), and a message can wait for the next one ([waiting_message_without_worker]).
      The steps of [Channel] are runs of those ([channel_steps_are_runs]).
    - Messaging: what a chat, group or unknown message leads to, whatever its environment answers; the
      order of registration of the handlers does not matter; who is notified of a user's state.
    - RPC: the client, over a reliable transport, implements the gateway and the directory of the server,
      up to the fields the protocol does not carry; round-robin selection is fair; a server stops at
      the first call that fails ([server_stops_at_the_first_error]).
    - Stores: what the producer stores reaches the callback of the consumer once.
    - The samples, against a server: the group of the API's sample has nobody who may write to it
      ([api_sample_makes_a_silent_group]); the sample of the channels cannot succeed ([subscriber_sample_never_succeeds]).

    ** Bounds and fuel

    [int64], [int32] and [uint32] arithmetic wraps. The JSON readers recurse with fuel one more than
    the length of the text, and each of their steps consumes a character ([skip_value] and the readers
    of members are proved to read back whatever was written within that fuel). [tick] of a timing wheel climbs at most
    as many levels as there are wheels; the other loops are structural, on the levels, on an offset, on a
    list or on the bytes of a text. The flush after [Exit] is iterated once per queued message and once more, and
    [flush_writes_the_queue] proves that it ends; a channel's worker and the goroutines of the gateway run
    one step at a time and need no fuel.

    ** Not modelled

    What the sockets and [net/http] do, past the calls [pkg/conn] makes of them (their answers are
    parameters); the protobuf codec and the generated [*.pb.go] (records of the same fields
    stand for the messages); the inside of rpcx, etcd, viper, gorm, sql, Redis, sarama and ants; log lines;
    the login of the API's sample, whose package is missing. In [Heartbeat] the goroutines wait when the wheel signals them (the code drops a
    signal nobody waits for), the wheel has ticked once before the first connection, and the durations are
    those the wheel can hold ([duration_ok]). Outside [ExitRace] the mutexes are not modelled: what a mutex protects is one step. In
    [System] the pool may run a message's handlers at any later time and in any order, and the goroutines of
    the world channel run call by call, so its runs include those of the program. *)

From Stdlib Require Export Ascii ZArith Lia.
From stdpp Require Export base list gmap strings sorting fin_maps.

#[global] Open Scope Z_scope.

(** ** Go errors

    A Go [error] is [nil] or a value whose observable content is the string
    [Error()] returns; the program compares errors only through that string. *)

Abbreviation error := (option string).
Abbreviation nil_error := (@None string).

Definition errors_New (msg : string) : error := Some msg.

(** ** Machine integers

    [int64], [int32] and [uint32] values are integers in [Z] kept in range by the
    wrap-around Go specifies for overflow. *)

Definition int64 (z : Z) : Z := (z + 2 ^ 63) mod 2 ^ 64 - 2 ^ 63.
Definition int32 (z : Z) : Z := (z + 2 ^ 31) mod 2 ^ 32 - 2 ^ 31.
Definition uint32 (z : Z) : Z := z mod 2 ^ 32.

Definition MaxInt64 : Z := 2 ^ 63 - 1.

Definition in_int64 (z : Z) : Prop := - 2 ^ 63 <= z < 2 ^ 63.

Lemma int64_small z : in_int64 z -> int64 z = z.
Proof. unfold in_int64, int64. intros Hz. rewrite Z.mod_small by lia. lia. Qed.

(** ** Stateful Go code

    [GoM S A] is the type of a Go function body that reads and writes a state [S],
    returns an [A], or panics. The state reached when a panic starts is kept, as
    it is in Go when a caller recovers. *)

Inductive res (A : Type) : Type :=
  | Val (a : A)
  | Panics (why : string).
Arguments Val {A} _.
Arguments Panics {A} _.

Definition GoM (S A : Type) : Type := S -> res A * S.

Definition ret {S A} (a : A) : GoM S A := fun s => (Val a, s).

Definition bind {S A B} (m : GoM S A) (k : A -> GoM S B) : GoM S B :=
  fun s =>
    match m s with
    | (Val a, s') => k a s'
    | (Panics why, s') => (Panics why, s')
    end.

Definition get {S} : GoM S S := fun s => (Val s, s).
Definition put {S} (s : S) : GoM S unit := fun _ => (Val tt, s).
Definition modify {S} (f : S -> S) : GoM S unit := fun s => (Val tt, f s).
Definition gets {S A} (f : S -> A) : GoM S A := fun s => (Val (f s), s).
Definition panic {S A} (why : string) : GoM S A := fun s => (Panics why, s).

Declare Scope go_scope.
Delimit Scope go_scope with go.
Notation "'let!' x ':=' m 'in' k" := (bind m (fun x => k))
  (at level 10, x pattern, m at level 100, k at level 200,
   format "'[v' 'let!'  x  ':='  m  'in' '/' k ']'") : go_scope.
Notation "m ';;;' k" := (bind m (fun _ => k))
  (at level 199, right associativity) : go_scope.
Notation "'when' b 'then' m" := (if b then m else ret tt)
  (at level 198, b at level 100, m at level 198) : go_scope.

(** [foreach l body] is [for _, x := range l { body(x) }]. *)
Fixpoint foreach {S A} (l : list A) (body : A -> GoM S unit) : GoM S unit :=
  match l with
  | [] => ret tt
  | x :: l' => bind (body x) (fun _ => foreach l' body)
  end.

(** [if err != nil { panic(err) }]. *)
Definition must {S} (m : GoM S error) : GoM S unit :=
  bind m (fun err => match err with Some e => panic e | None => ret tt end).

(** A dereference. *)
Definition deref {S A} (o : option A) : GoM S A :=
  match o with Some a => ret a | None => panic "invalid memory address or nil pointer dereference" end.

(** [defer d()] before [body]: [d] runs however [body] ends; a panic of [d] replaces the outcome. *)
Definition deferring {S A} (d : GoM S unit) (body : GoM S A) : GoM S A := fun s =>
  let '(r, s') := body s in
  match d s' with (Val _, s'') => (r, s'') | (Panics why, s'') => (Panics why, s'') end.

(** *** Invariants

    [preserves I m]: running [m] from a state where [I] holds ends in one where it holds,
    whether it returns or panics. *)

Definition preserves {S A} (I : S -> Prop) (m : GoM S A) : Prop := forall s, I s -> I (m s).2.

(** [returns m s a s']: from [s], [m] returns [a] in state [s']. *)
Definition returns {S A} (m : GoM S A) (s : S) (a : A) (s' : S) : Prop := m s = (Val a, s').

Section preserves.
Context {S : Type} (I : S -> Prop).

Lemma preserves_ret {A} (a : A) : preserves I (ret a).
Proof. by intros s. Qed.
Lemma preserves_panic {A} why : preserves I (@panic S A why).
Proof. by intros s. Qed.
Lemma preserves_gets {A} (f : S -> A) : preserves I (gets f).
Proof. by intros s. Qed.
Lemma preserves_get : preserves I get.
Proof. by intros s. Qed.
Lemma preserves_modify f : (forall s, I s -> I (f s)) -> preserves I (modify f).
Proof. intros Hf s. apply Hf. Qed.
Lemma preserves_bind {A B} (m : GoM S A) (k : A -> GoM S B) :
  preserves I m -> (forall a, preserves I (k a)) -> preserves I (bind m k).
Proof.
  intros Hm Hk s Hs. unfold bind. specialize (Hm s Hs). destruct (m s) as [[a | why] s']; [| done].
  by apply Hk.
Qed.
Lemma preserves_foreach {A} (l : list A) body : (forall a, preserves I (body a)) -> preserves I (foreach l body).
Proof.
  intros Hb. induction l as [| a l IH]; [apply preserves_ret |]. simpl. by apply preserves_bind.
Qed.
End preserves.

Create HintDb preserves discriminated.
#[export] Hint Resolve preserves_ret preserves_panic preserves_gets preserves_get preserves_bind preserves_foreach : preserves.

Lemma bind_Val {S A B} (m : GoM S A) (k : A -> GoM S B) s a s' :
  m s = (Val a, s') -> bind m k s = k a s'.
Proof. intros H. unfold bind. by rewrite H. Qed.

Lemma bind_Val_inv {S A B} (m : GoM S A) (k : A -> GoM S B) s b s' :
  bind m k s = (Val b, s') -> exists a s1, m s = (Val a, s1) /\ k a s1 = (Val b, s').
Proof. unfold bind. destruct (m s) as [[a | why] s1]; [eauto | done]. Qed.

(** Split the conditionals and matches of a body, one at a time. *)
Ltac preserves_step :=
  match goal with
  | |- preserves _ (bind _ _) => apply preserves_bind; [| intros ?]
  | |- preserves _ (let '(_, _) := ?x in _) => destruct x
  | |- preserves _ (match ?x with _ => _ end) => destruct x
  | _ => solve [eauto with preserves]
  end.

(** ** Operations on one component of a state *)

Definition zoom {S T A} (get : T -> S) (set : S -> T -> T) (m : GoM S A) : GoM T A :=
  fun t => let '(r, s) := m (get t) in (r, set s t).

Lemma zoom_Val {S T A} (get : T -> S) (set : S -> T -> T) (m : GoM S A) t a s :
  m (get t) = (Val a, s) -> zoom get set m t = (Val a, set s t).
Proof. intros E. unfold zoom. by rewrite E. Qed.

(** ** Lists *)

Section list_facts.
Context {A : Type} (P : A -> Prop) `{!forall x, Decision (P x)}.
Implicit Types l : list A.

Lemma filter_none l : (forall x, x ∈ l -> ~ P x) -> filter P l = [].
Proof.
  induction l as [| a l IH]; intros Hl; [done |].
  rewrite filter_cons_False by (apply Hl; constructor).
  apply IH. intros. apply Hl. by constructor.
Qed.

Lemma filter_all l : (forall x, x ∈ l -> P x) -> filter P l = l.
Proof.
  induction l as [| a l IH]; intros Hl; [done |].
  rewrite filter_cons_True by (apply Hl; constructor).
  f_equal. apply IH. intros. apply Hl. by constructor.
Qed.
End list_facts.

Lemma removelast_snoc {A} (l : list A) x : removelast (l ++ [x]) = l.
Proof. apply removelast_last. Qed.

Lemma list_snoc_inv {A} (l : list A) : l = [] \/ exists l' x, l = l' ++ [x].
Proof. destruct l as [| x l _] using rev_ind; [by left |]. right. eauto. Qed.
