(* ===== verification/GoStrings.v ===== *)
(** * The parts of Go's [strings], [strconv], [fmt], [unicode/utf8] and [encoding/hex] the server uses

    A Go string is a sequence of bytes: [string] of [ascii]. *)

From stdpp Require Export pretty.
From S2P Require Import Prelude.

(** ** Splitting and joining *)

(** [strings.Split(s, sep)] for the one-byte separators the program uses. *)
Fixpoint strings_Split (s : string) (sep : ascii) : list string :=
  match s with
  | EmptyString => [EmptyString]
  | String c s' =>
      if decide (c = sep) then EmptyString :: strings_Split s' sep
      else match strings_Split s' sep with
           | [] => [String c EmptyString]
           | p :: ps => String c p :: ps
           end
  end.

Fixpoint strings_Join (l : list string) (sep : string) : string :=
  match l with
  | [] => EmptyString
  | [x] => x
  | x :: l' => x +:+ sep +:+ strings_Join l' sep
  end.

Fixpoint has_byte (c : ascii) (s : string) : bool :=
  match s with
  | EmptyString => false
  | String c' s' => bool_decide (c = c') || has_byte c s'
  end.

(** ** Prefixes, suffixes, substrings *)

Fixpoint strings_HasPrefix (s prefix : string) : bool :=
  match prefix, s with
  | EmptyString, _ => true
  | String c p, String d t => bool_decide (c = d) && strings_HasPrefix t p
  | String _ _, EmptyString => false
  end.

Fixpoint string_drop (n : nat) (s : string) : string :=
  match n, s with
  | O, _ => s
  | S n', String _ s' => string_drop n' s'
  | S _, EmptyString => EmptyString
  end.

Definition strings_HasSuffix (s suffix : string) : bool :=
  (String.length suffix <=? String.length s)%nat &&
  bool_decide (string_drop (String.length s - String.length suffix) s = suffix).

Fixpoint strings_Contains (s sub : string) : bool :=
  strings_HasPrefix s sub ||
  match s with EmptyString => false | String _ s' => strings_Contains s' sub end.

(** [strings.ToUpper] on ASCII text. *)
Definition upper_byte (c : ascii) : ascii :=
  let n := Ascii.N_of_ascii c in
  if (97 <=? n)%N && (n <=? 122)%N then Ascii.ascii_of_N (n - 32) else c.

Fixpoint strings_ToUpper (s : string) : string :=
  match s with
  | EmptyString => EmptyString
  | String c s' => String (upper_byte c) (strings_ToUpper s')
  end.

(** [%d] of [fmt] and [strconv.FormatInt(_, 10)]. *)
Definition Itoa (z : Z) : string := pretty z.

(** ** Hexadecimal *)

Definition hex_digit (d : Z) : ascii :=
  Ascii.ascii_of_N (Z.to_N (if d <? 10 then 48 + d else 87 + d)).

(** [hex.EncodeToString] and [%x]. *)
Fixpoint hex_Encode (bytes : list Z) : string :=
  match bytes with
  | [] => EmptyString
  | b :: bs => String (hex_digit (b / 16)) (String (hex_digit (b mod 16)) (hex_Encode bs))
  end.

(** ** UTF-8 *)

Definition byte_of (z : Z) : ascii := Ascii.ascii_of_N (Z.to_N z).
Definition code (c : ascii) : Z := Z.of_N (Ascii.N_of_ascii c).

(** [utf8.EncodeRune]. *)
Definition utf8 (n : Z) : string :=
  if n <? 128 then String (byte_of n) ""
  else if n <? 2048 then
    String (byte_of (192 + n / 64)) (String (byte_of (128 + n mod 64)) "")
  else if n <? 65536 then
    String (byte_of (224 + n / 4096)) (String (byte_of (128 + n / 64 mod 64))
      (String (byte_of (128 + n mod 64)) ""))
  else
    String (byte_of (240 + n / 262144)) (String (byte_of (128 + n / 4096 mod 64))
      (String (byte_of (128 + n / 64 mod 64)) (String (byte_of (128 + n mod 64)) ""))).

(** The byte sequences of two, three and four bytes [utf8.DecodeRune] accepts: no overlong ones, no surrogates,
    nothing past U+10FFFF. *)
Definition between (a b n : Z) : bool := (a <=? n) && (n <=? b).
Definition tail_byte (c : ascii) : bool := between 128 191 (code c).
Definition rune2 (c d : ascii) : bool := between 194 223 (code c) && tail_byte d.
Definition rune3 (c d e : ascii) : bool :=
  between 224 239 (code c) &&
  between (if code c =? 224 then 160 else 128) (if code c =? 237 then 159 else 191) (code d) && tail_byte e.
Definition rune4 (c d e f : ascii) : bool :=
  between 240 244 (code c) &&
  between (if code c =? 240 then 144 else 128) (if code c =? 244 then 143 else 191) (code d) && tail_byte e && tail_byte f.

(** What a range over a string yields: the bytes of a rune, or a byte that starts none. *)
Inductive rune := Rune (bytes : string) | Bad (c : ascii).

Fixpoint runes (s : string) : list rune :=
  match s with
  | EmptyString => []
  | String c s1 =>
      if code c <? 128 then Rune (String c "") :: runes s1
      else
        match s1 with
        | EmptyString => [Bad c]
        | String d s2 =>
            if rune2 c d then Rune (String c (String d "")) :: runes s2
            else
              match s2 with
              | EmptyString => Bad c :: runes s1
              | String e s3 =>
                  if rune3 c d e then Rune (String c (String d (String e ""))) :: runes s3
                  else
                    match s3 with
                    | EmptyString => Bad c :: runes s1
                    | String f s4 =>
                        if rune4 c d e f then Rune (String c (String d (String e (String f "")))) :: runes s4
                        else Bad c :: runes s1
                    end
              end
        end
  end.

(** U+FFFD stands for what is no rune. *)
Definition RuneError : string := utf8 65533.
Definition rune_text (r : rune) : string := match r with Rune b => b | Bad _ => RuneError end.
Definition rune_bytes (r : rune) : string := match r with Rune b => b | Bad c => String c "" end.
Definition write_runes (f : rune -> string) (l : list rune) : string := foldr (fun r s => f r +:+ s) "" l.

(** [strings.ToValidUTF8] byte by byte, as the JSON coders do it. *)
Definition to_valid (s : string) : string := write_runes rune_text (runes s).

(** [utf8.ValidString]. *)
Definition utf8_valid (s : string) : bool := forallb (fun r => if r is Rune _ then true else false) (runes s).

(** ** Facts *)

Lemma app_nil_l_string s : "" +:+ s = s.
Proof. done. Qed.

Lemma app_cons_string c s t : String c s +:+ t = String c (s +:+ t).
Proof. done. Qed.

Lemma app_nil_r_string s : s +:+ "" = s.
Proof. induction s as [| c s IH]; [done |]. by rewrite app_cons_string, IH. Qed.

Lemma app_assoc_string s t u : (s +:+ t) +:+ u = s +:+ (t +:+ u).
Proof. induction s as [| c s IH]; [done |]. by rewrite !app_cons_string, IH. Qed.

Lemma length_app_string s t : String.length (s +:+ t) = (String.length s + String.length t)%nat.
Proof. induction s as [| c s IH]; [done |]. rewrite app_cons_string. simpl. by rewrite IH. Qed.

Lemma app_inj_tail_string s t u : s +:+ u = t +:+ u -> s = t.
Proof.
  revert t. induction s as [| c s IH]; intros [| d t] E; [done | ..].
  - apply (f_equal String.length) in E. rewrite !length_app_string in E. simpl in E. lia.
  - apply (f_equal String.length) in E. rewrite !length_app_string in E. simpl in E. lia.
  - rewrite !app_cons_string in E. simplify_eq. f_equal. by apply IH.
Qed.

Lemma app_inj_head_string s t u : s +:+ t = s +:+ u -> t = u.
Proof. induction s as [| c s IH]; [done |]. rewrite !app_cons_string. intros E. simplify_eq. auto. Qed.

Lemma HasPrefix_spec s p : strings_HasPrefix s p = true <-> exists t, s = p +:+ t.
Proof.
  revert s. induction p as [| c p IH]; intros s; simpl.
  - split; [eauto | by destruct s].
  - destruct s as [| d t]; simpl; [split; [done | by intros [? ?]] |].
    rewrite andb_true_iff, bool_decide_eq_true, IH. split.
    + intros [-> [u ->]]. by exists u.
    + intros [u E]. rewrite app_cons_string in E. simplify_eq. eauto.
Qed.

Lemma HasPrefix_app p t : strings_HasPrefix (p +:+ t) p = true.
Proof. apply HasPrefix_spec. eauto. Qed.

Lemma string_drop_app s t : string_drop (String.length s) (s +:+ t) = t.
Proof. induction s as [| c s IH]; [by destruct t | done]. Qed.

Lemma string_split_at n s :
  (n <= String.length s)%nat -> exists a, s = a +:+ string_drop n s /\ String.length a = n.
Proof.
  revert s. induction n as [| n IH]; intros s Hn.
  - exists "". by destruct s.
  - destruct s as [| c s]; simpl in Hn; [lia |].
    destruct (IH s ltac:(lia)) as (a & Ea & Hl).
    exists (String c a). simpl string_drop. rewrite app_cons_string, <- Ea. simpl. auto.
Qed.

Lemma HasSuffix_spec s p : strings_HasSuffix s p = true <-> exists t, s = t +:+ p.
Proof.
  unfold strings_HasSuffix. rewrite andb_true_iff, bool_decide_eq_true, Nat.leb_le. split.
  - intros [Hl E]. destruct (string_split_at (String.length s - String.length p) s ltac:(lia))
      as (a & Ea & _). exists a. by rewrite E in Ea.
  - intros [t ->]. rewrite length_app_string. split; [lia |].
    replace (String.length t + String.length p - String.length p)%nat with (String.length t) by lia.
    apply string_drop_app.
Qed.

Lemma has_byte_app c s t : has_byte c (s +:+ t) = has_byte c s || has_byte c t.
Proof. induction s as [| d s IH]; [done |]. rewrite app_cons_string. simpl. by rewrite IH, orb_assoc. Qed.

Lemma Split_no_sep s sep : has_byte sep s = false -> strings_Split s sep = [s].
Proof.
  induction s as [| c s IH]; simpl; [done |].
  rewrite orb_false_iff, bool_decide_eq_false. intros [Hc Hs].
  case_decide; [congruence |]. by rewrite IH.
Qed.

Lemma Split_cons s t sep :
  has_byte sep s = false ->
  strings_Split (s +:+ String sep t) sep = s :: strings_Split t sep.
Proof.
  induction s as [| c s IH]; intros Hs.
  - rewrite app_nil_l_string. simpl. by case_decide.
  - simpl in Hs. rewrite orb_false_iff, bool_decide_eq_false in Hs. destruct Hs as [Hc Hs].
    rewrite app_cons_string. simpl. case_decide; [congruence |]. by rewrite IH.
Qed.

(** [Split] undoes [Join] when no part holds the separator. *)
Lemma Split_Join l sep :
  l <> [] -> Forall (fun p => has_byte sep p = false) l ->
  strings_Split (strings_Join l (String sep "")) sep = l.
Proof.
  induction l as [| x l IH]; [done |]. intros _ Hl. apply Forall_cons in Hl as [Hx Hl].
  destruct l as [| y l]; [by apply Split_no_sep |].
  change (strings_Join (x :: y :: l) (String sep ""))
    with (x +:+ String sep (strings_Join (y :: l) (String sep ""))).
  rewrite Split_cons by done. f_equal. by apply IH.
Qed.

Lemma Split_nonempty s sep : strings_Split s sep <> [].
Proof. destruct s as [| c s]; simpl; [done |]. case_decide; [done |]. by destruct (strings_Split s sep). Qed.

(** [Join] undoes [Split], always. *)
Lemma Join_Split s sep : strings_Join (strings_Split s sep) (String sep "") = s.
Proof.
  induction s as [| c s IH]; simpl; [done |].
  pose proof (Split_nonempty s sep) as Hne. case_decide as Hc.
  - subst c. destruct (strings_Split s sep) as [| p ps]; [done |].
    change (strings_Join ("" :: p :: ps) (String sep ""))
      with (String sep (strings_Join (p :: ps) (String sep ""))). by rewrite IH.
  - destruct (strings_Split s sep) as [| p ps]; [done |].
    rewrite <- IH. by destruct ps.
Qed.

Lemma Split_parts_no_sep s sep : Forall (fun p => has_byte sep p = false) (strings_Split s sep).
Proof.
  induction s as [| c s IH]; simpl; [by repeat constructor |].
  case_decide as Hc; [by constructor |].
  destruct (strings_Split s sep) as [| p ps]; [by repeat constructor; simpl; rewrite bool_decide_eq_false_2 |].
  apply Forall_cons in IH as [Hp Hps]. constructor; [| done].
  simpl. rewrite Hp, bool_decide_eq_false_2 by congruence. done.
Qed.

#[global] Instance Itoa_inj : Inj (=) (=) Itoa.
Proof. unfold Itoa. apply _. Qed.

Lemma length_hex_Encode bs : String.length (hex_Encode bs) = (2 * length bs)%nat.
Proof. induction bs as [| b bs IH]; simpl; [done |]. rewrite IH. lia. Qed.

(** ** Facts on UTF-8 *)

Inductive is_rune : string -> Prop :=
  | is_rune1 c : code c < 128 -> is_rune (String c "")
  | is_rune2 c d : rune2 c d = true -> is_rune (String c (String d ""))
  | is_rune3 c d e : rune3 c d e = true -> is_rune (String c (String d (String e "")))
  | is_rune4 c d e f : rune4 c d e f = true -> is_rune (String c (String d (String e (String f "")))).

Definition rune_ok (r : rune) : Prop := match r with Rune b => is_rune b | Bad c => 128 <= code c end.

Ltac rune_bits :=
  unfold rune2, rune3, rune4, tail_byte, between in *;
  repeat match goal with H : context [if ?b then _ else _] |- _ => destruct b end.

(** A rune is read back in front of any text. *)
Lemma runes_rune b t : is_rune b -> runes (b +:+ t) = Rune b :: runes t.
Proof.
  intros []; rewrite !app_cons_string, app_nil_l_string; cbn [runes].
  - by rewrite (proj2 (Z.ltb_lt _ _)).
  - rewrite (proj2 (Z.ltb_ge _ _)) by (rune_bits; lia). by rewrite H.
  - rewrite (proj2 (Z.ltb_ge _ _)) by (rune_bits; lia).
    assert (rune2 c d = false) as -> by (rune_bits; lia). by rewrite H.
  - rewrite (proj2 (Z.ltb_ge _ _)) by (rune_bits; lia).
    assert (rune2 c d = false) as -> by (rune_bits; lia).
    assert (rune3 c d e = false) as -> by (rune_bits; lia). by rewrite H.
Qed.

(** Induction on the runes of a string. *)
Lemma runes_ind (P : string -> list rune -> Prop) :
  P "" [] ->
  (forall b s, is_rune b -> P s (runes s) -> P (b +:+ s) (Rune b :: runes s)) ->
  (forall c s, 128 <= code c -> P s (runes s) -> P (String c s) (Bad c :: runes s)) ->
  forall s, P s (runes s).
Proof.
  intros H0 Hr Hb s. remember (String.length s) as n eqn:Hn. revert s Hn.
  induction (Nat.lt_wf_0 n) as [n _ IH]. intros s ->.
  destruct s as [| c s1]; [exact H0 |].
  assert (IH1 : forall t, (String.length t < String.length (String c s1))%nat -> P t (runes t)) by (intros t Ht; by eapply IH).
  clear IH. cbn [runes]. destruct (Z.ltb_spec (code c) 128) as [Hc | Hc].
  { apply (Hr (String c "") s1); [by constructor | apply IH1; cbn; lia]. }
  assert (Hbad : P (String c s1) (Bad c :: runes s1)) by (apply Hb; [done | apply IH1; cbn; lia]).
  destruct s1 as [| d s2]; [exact Hbad |]. destruct (rune2 c d) eqn:E2.
  { apply (Hr (String c (String d "")) s2); [by constructor | apply IH1; cbn; lia]. }
  destruct s2 as [| e s3]; [exact Hbad |]. destruct (rune3 c d e) eqn:E3.
  { apply (Hr (String c (String d (String e ""))) s3); [by constructor | apply IH1; cbn; lia]. }
  destruct s3 as [| f s4]; [exact Hbad |]. destruct (rune4 c d e f) eqn:E4; [| exact Hbad].
  apply (Hr (String c (String d (String e (String f "")))) s4); [by constructor | apply IH1; cbn; lia].
Qed.

Lemma runes_ok s : Forall rune_ok (runes s).
Proof. apply (runes_ind (fun _ l => Forall rune_ok l)); by constructor. Qed.

Lemma write_runes_cons f r l : write_runes f (r :: l) = f r +:+ write_runes f l.
Proof. done. Qed.

(** The runes of a string hold its bytes. *)
Lemma runes_bytes s : write_runes rune_bytes (runes s) = s.
Proof. apply (runes_ind (fun s l => write_runes rune_bytes l = s)); [done | |]; intros ? t _ E; by rewrite write_runes_cons, E. Qed.

Lemma is_rune_RuneError : is_rune RuneError.
Proof. by apply is_rune3. Qed.

Lemma to_valid_rune b s : is_rune b -> to_valid (b +:+ s) = b +:+ to_valid s.
Proof. intros Hb. unfold to_valid. by rewrite runes_rune. Qed.

(** What [to_valid] makes is valid, and it leaves a valid string alone. *)
Lemma runes_to_valid s : runes (to_valid s) = (fun r => Rune (rune_text r)) <$> runes s.
Proof.
  unfold to_valid. apply (runes_ind (fun _ l => runes (write_runes rune_text l) = (fun r => Rune (rune_text r)) <$> l)); [done | |].
  - intros b t Hb E. rewrite write_runes_cons. cbn [rune_text]. by rewrite runes_rune, fmap_cons, <- E.
  - intros c t _ E. rewrite write_runes_cons. cbn [rune_text]. rewrite runes_rune by apply is_rune_RuneError. by rewrite fmap_cons, <- E.
Qed.

Lemma to_valid_valid s : utf8_valid (to_valid s) = true.
Proof. unfold utf8_valid. rewrite runes_to_valid. by induction (runes s). Qed.

Lemma to_valid_id s : utf8_valid s = true -> to_valid s = s.
Proof.
  intros Hs. rewrite <- (runes_bytes s) at 2. unfold to_valid, utf8_valid in *.
  induction (runes s) as [| [b | c] l IH]; [done | | done].
  rewrite !write_runes_cons. cbn [forallb andb] in Hs. by rewrite IH.
Qed.

Lemma to_valid_twice s : to_valid (to_valid s) = to_valid s.
Proof. apply to_valid_id, to_valid_valid. Qed.

Lemma to_valid_empty s : to_valid s = "" <-> s = "".
Proof.
  split; [| by intros ->]. unfold to_valid. rewrite <- (runes_bytes s) at 2.
  pose proof (runes_ok s) as Hl. destruct Hl as [| r l Hr _]; [done |]. by destruct r as [b | c]; [destruct Hr |].
Qed.
