(* ===== verification/Hash.v ===== *)
(** * The 32-bit hash of [pkg/hash/hash.go]

    [Hash] is MurmurHash3 (x86, 32 bits) over a byte slice. Bytes and 32-bit words
    are integers in [Z]; every arithmetic step wraps as [uint32] does in Go. The
    unsafe pointer walk over the slice reads little-endian words, four bytes at a
    time. [SHA1] lives with the ticket check that uses it. *)

From S2P Require Import Prelude.

Definition c1_32 : Z := 0xcc9e2d51.
Definition c2_32 : Z := 0x1b873593.

(** [bits.RotateLeft32] of the Go standard library. *)
Definition RotateLeft32 (x : Z) (k : Z) : Z :=
  Z.lor (uint32 (Z.shiftl x k)) (Z.shiftr x (32 - k)).

(** The little-endian word [*( *uint32)(unsafe.Pointer(p))]. *)
Definition load32 (b0 b1 b2 b3 : Z) : Z :=
  b0 + Z.shiftl b1 8 + Z.shiftl b2 16 + Z.shiftl b3 24.

(** The scrambling of a block, shared by the loop and the tail. *)
Definition mix_k1 (k1 : Z) : Z :=
  let k1 := uint32 (k1 * c1_32) in
  let k1 := RotateLeft32 k1 15 in
  uint32 (k1 * c2_32).

(** One iteration of the block loop on the accumulator. *)
Definition mix_h1 (h1 k1 : Z) : Z :=
  let h1 := Z.lxor h1 (mix_k1 k1) in
  let h1 := RotateLeft32 h1 13 in
  uint32 (uint32 (h1 * 4) + h1 + 0xe6546b64).

(** The loop [for ; p < p1; p += 4]: the accumulator after the whole blocks of
    [data], and the remaining [tail]. *)
Fixpoint hash_blocks (data : list Z) (h1 : Z) : Z * list Z :=
  match data with
  | b0 :: b1 :: b2 :: b3 :: rest => hash_blocks rest (mix_h1 h1 (load32 b0 b1 b2 b3))
  | tail => (h1, tail)
  end.

(** The [switch len(tail) & 3] with its fallthroughs. *)
Definition hash_tail (tail : list Z) (h1 : Z) : Z :=
  match tail with
  | [t0; t1; t2] =>
      Z.lxor h1 (mix_k1 (Z.lxor (Z.lxor (Z.shiftl t2 16) (Z.shiftl t1 8)) t0))
  | [t0; t1] => Z.lxor h1 (mix_k1 (Z.lxor (Z.shiftl t1 8) t0))
  | [t0] => Z.lxor h1 (mix_k1 t0)
  | _ => h1
  end.

Definition fmix32 (h1 : Z) : Z :=
  let h1 := Z.lxor h1 (Z.shiftr h1 16) in
  let h1 := uint32 (h1 * 0x85ebca6b) in
  let h1 := Z.lxor h1 (Z.shiftr h1 13) in
  let h1 := uint32 (h1 * 0xc2b2ae35) in
  Z.lxor h1 (Z.shiftr h1 16).

Definition Hash (data : list Z) (seed : Z) : Z :=
  let '(h1, tail) := hash_blocks data seed in
  let h1 := hash_tail tail h1 in
  fmix32 (Z.lxor h1 (uint32 (Z.of_nat (length data)))).

(** [[]byte(s)] for a Go string. *)
Definition bytes_of_string (s : string) : list Z :=
  map (fun c => Z.of_N (Ascii.N_of_ascii c)) (String.list_ascii_of_string s).

(** ** Words stay in range *)

Definition is_u32 (z : Z) : Prop := 0 <= z < 2 ^ 32.
Definition is_byte (z : Z) : Prop := 0 <= z < 2 ^ 8.

Lemma uint32_range z : is_u32 (uint32 z).
Proof. unfold is_u32, uint32. apply Z.mod_pos_bound. lia. Qed.

Lemma uint32_small z : is_u32 z -> uint32 z = z.
Proof. intros H. apply Z.mod_small, H. Qed.

Lemma u32_lxor x y : is_u32 x -> is_u32 y -> is_u32 (Z.lxor x y).
Proof.
  unfold is_u32. intros Hx Hy. split; [apply Z.lxor_nonneg; lia |].
  destruct (decide (Z.lxor x y = 0)) as [-> | Hne]; [lia |].
  assert (0 <= Z.lxor x y) by (apply Z.lxor_nonneg; lia).
  assert (Hlog : forall z, 0 <= z < 2 ^ 32 -> Z.log2 z < 32).
  { intros z Hz. destruct (decide (z = 0)) as [-> |]; [by vm_compute |].
    apply Z.log2_lt_pow2; lia. }
  apply Z.log2_lt_pow2; [lia |].
  pose proof (Z.log2_lxor x y ltac:(lia) ltac:(lia)).
  pose proof (Hlog x Hx). pose proof (Hlog y Hy). lia.
Qed.

Lemma u32_shiftr x k : 0 <= k -> is_u32 x -> is_u32 (Z.shiftr x k).
Proof.
  unfold is_u32. intros Hk Hx. rewrite Z.shiftr_div_pow2 by done.
  pose proof (Z.pow_pos_nonneg 2 k ltac:(lia) Hk).
  split; [apply Z.div_pos; lia |].
  apply Z.le_lt_trans with x; [apply Z.div_le_upper_bound; nia | lia].
Qed.

(** A rotation splits the word in a high and a low part and swaps them. *)
Lemma RotateLeft32_arith x k :
  0 < k < 32 -> is_u32 x ->
  RotateLeft32 x k = (x mod 2 ^ (32 - k)) * 2 ^ k + x / 2 ^ (32 - k).
Proof.
  unfold RotateLeft32, uint32, is_u32. intros Hk Hx.
  rewrite Z.shiftl_mul_pow2, Z.shiftr_div_pow2 by lia.
  assert (E : 2 ^ 32 = 2 ^ (32 - k) * 2 ^ k) by (rewrite <- Z.pow_add_r by lia; f_equal; lia).
  rewrite E at 1. rewrite Z.mul_mod_distr_r by (apply Z.pow_nonzero; lia).
  assert (Hq : 0 <= x / 2 ^ (32 - k) < 2 ^ k).
  { split; [apply Z.div_pos; lia |]. apply Z.div_lt_upper_bound; lia. }
  set (r := x mod 2 ^ (32 - k)). set (q := x / 2 ^ (32 - k)) in *.
  rewrite <- Z.lxor_lor, <- Z.add_nocarry_lxor; [done | |];
    apply Z.bits_inj'; intros i Hi; rewrite Z.land_spec, Z.bits_0;
    (destruct (Z.ltb_spec i k) as [Hlt | Hge];
     [ rewrite Z.mul_pow2_bits_low by lia; done
     | replace q with (q mod 2 ^ k) by (apply Z.mod_small; lia);
       rewrite (Z.mod_pow2_bits_high q k i) by lia; apply andb_false_r ]).
Qed.

Lemma RotateLeft32_range x k : 0 < k < 32 -> is_u32 x -> is_u32 (RotateLeft32 x k).
Proof.
  intros Hk Hx. unfold RotateLeft32, is_u32.
  assert (Hs : is_u32 (Z.shiftr x (32 - k))) by (apply u32_shiftr; [lia | done]).
  assert (Hu := uint32_range (Z.shiftl x k)).
  rewrite <- Z.lxor_lor; [by apply u32_lxor |].
  unfold uint32. apply Z.bits_inj'. intros i Hi. rewrite Z.land_spec, Z.bits_0.
  destruct (Z.ltb_spec i k) as [Hlt | Hge].
  - destruct (Z.ltb_spec i 32); [| lia].
    rewrite Z.mod_pow2_bits_low, Z.shiftl_spec_low by lia. done.
  - rewrite Z.shiftr_spec by lia.
    replace x with (x mod 2 ^ 32) at 2 by (apply Z.mod_small, Hx).
    rewrite (Z.mod_pow2_bits_high x 32) by lia. apply andb_false_r.
Qed.

Create HintDb u32.
#[export] Hint Resolve uint32_range u32_lxor u32_shiftr RotateLeft32_range : u32.
#[export] Hint Extern 2 (_ <= _) => lia : u32.
#[export] Hint Extern 2 (_ < _ < _) => lia : u32.

Lemma mix_k1_range k : is_u32 (mix_k1 k).
Proof. unfold mix_k1. auto with u32. Qed.

Lemma mix_h1_range h k : is_u32 (mix_h1 h k).
Proof. unfold mix_h1. auto with u32. Qed.
#[export] Hint Resolve mix_k1_range mix_h1_range : u32.

Lemma fmix32_range h : is_u32 h -> is_u32 (fmix32 h).
Proof. unfold fmix32. auto 8 with u32. Qed.

Lemma blocks_ind (P : list Z -> Prop) :
  (forall l, (length l < 4)%nat -> P l) ->
  (forall b0 b1 b2 b3 l, P l -> P (b0 :: b1 :: b2 :: b3 :: l)) ->
  forall l, P l.
Proof.
  intros Hshort Hstep. fix IH 1. intros [| b0 [| b1 [| b2 [| b3 l]]]].
  1-4: apply Hshort; simpl; lia. apply Hstep, IH.
Qed.

Lemma hash_blocks_short l h : (length l < 4)%nat -> hash_blocks l h = (h, l).
Proof. destruct l as [| ? [| ? [| ? [| ? ?]]]]; simpl; intros; (done || lia). Qed.

Lemma hash_blocks_range data h : is_u32 h -> is_u32 (hash_blocks data h).1.
Proof.
  revert h. induction data as [l Hl | b0 b1 b2 b3 l IH] using blocks_ind; intros h Hh.
  - by rewrite hash_blocks_short.
  - simpl. auto with u32.
Qed.

Lemma hash_tail_range tail h : is_u32 h -> is_u32 (hash_tail tail h).
Proof. destruct tail as [| ? [| ? [| ? [| ? ?]]]]; simpl; auto with u32. Qed.
#[export] Hint Resolve hash_blocks_range hash_tail_range fmix32_range : u32.

Theorem Hash_range data seed : is_u32 seed -> is_u32 (Hash data seed).
Proof.
  intros Hs. unfold Hash. pose proof (hash_blocks_range data seed Hs) as Hb.
  destruct (hash_blocks data seed) as [h1 tail]. auto with u32.
Qed.

#[export] Hint Extern 2 (_ < _) => lia : u32.
Ltac u32 := solve [auto 15 with u32].

(** ** Every step is a bijection on words *)

Lemma mul_odd_inj c inv x y :
  (c * inv) mod 2 ^ 32 = 1 -> is_u32 x -> is_u32 y ->
  uint32 (x * c) = uint32 (y * c) -> x = y.
Proof.
  intros Hinv Hx Hy E.
  assert (Hback : forall z, is_u32 z -> uint32 (uint32 (z * c) * inv) = z).
  { intros z Hz. unfold uint32. rewrite Z.mul_mod_idemp_l by lia.
    rewrite <- Z.mul_assoc, <- Z.mul_mod_idemp_r, Hinv, Z.mul_1_r by lia.
    by apply Z.mod_small. }
  rewrite <- (Hback x Hx), <- (Hback y Hy). by rewrite E.
Qed.

Lemma lxor_inj_r a x y : Z.lxor x a = Z.lxor y a -> x = y.
Proof.
  intros E. rewrite <- (Z.lxor_0_r x), <- (Z.lxor_0_r y), <- (Z.lxor_nilpotent a).
  by rewrite <- !Z.lxor_assoc, E.
Qed.

Lemma lxor_inj_l a x y : Z.lxor a x = Z.lxor a y -> x = y.
Proof. rewrite !(Z.lxor_comm a). apply lxor_inj_r. Qed.

Lemma xorshift_inj n x y :
  0 < n -> is_u32 x -> is_u32 y ->
  Z.lxor x (Z.shiftr x n) = Z.lxor y (Z.shiftr y n) -> x = y.
Proof.
  intros Hn Hx Hy E. apply Z.lxor_eq.
  set (d := Z.lxor x y). assert (Hd : is_u32 d) by (unfold d; u32).
  assert (Ed : d = Z.shiftr d n).
  { unfold d. rewrite Z.shiftr_lxor. apply lxor_inj_r with (Z.lxor (Z.shiftr x n) y).
    rewrite Z.lxor_assoc, (Z.lxor_comm y), Z.lxor_assoc, Z.lxor_nilpotent, Z.lxor_0_r.
    rewrite E. rewrite <- !Z.lxor_assoc.
    rewrite (Z.lxor_comm (Z.lxor (Z.shiftr x n) (Z.shiftr y n))).
    rewrite <- Z.lxor_assoc, Z.lxor_nilpotent, Z.lxor_0_l. apply Z.lxor_comm. }
  rewrite Z.shiftr_div_pow2 in Ed by lia.
  destruct (decide (d = 0)) as [-> | Hne]; [done |].
  unfold is_u32 in Hd. assert (d / 2 ^ n < d); [| lia].
  apply Z.div_lt; [lia |]. apply (Z.pow_gt_1 2 n); lia.
Qed.

Lemma RotateLeft32_inj k x y :
  0 < k < 32 -> is_u32 x -> is_u32 y ->
  RotateLeft32 x k = RotateLeft32 y k -> x = y.
Proof.
  intros Hk Hx Hy. rewrite !RotateLeft32_arith by done.
  assert (Hq : forall z, is_u32 z -> 0 <= z / 2 ^ (32 - k) < 2 ^ k).
  { unfold is_u32. intros z Hz. split; [apply Z.div_pos; lia |].
    apply Z.div_lt_upper_bound; [lia |]. rewrite <- Z.pow_add_r by lia.
    replace (32 - k + k) with 32 by lia. lia. }
  assert (Hdiv : forall r q, 0 <= q < 2 ^ k -> (r * 2 ^ k + q) / 2 ^ k = r).
  { intros r q Hr. rewrite Z.div_add_l, (Z.div_small q) by lia. lia. }
  intros E. assert (Er : x mod 2 ^ (32 - k) = y mod 2 ^ (32 - k)).
  { apply (f_equal (fun z => z / 2 ^ k)) in E. by rewrite !Hdiv in E by auto. }
  rewrite Er in E. apply Z.add_reg_l in E.
  pose proof (Z.pow_pos_nonneg 2 (32 - k) ltac:(lia) ltac:(lia)).
  rewrite (Z.div_mod x (2 ^ (32 - k))), (Z.div_mod y (2 ^ (32 - k))) by lia.
  by rewrite Er, E.
Qed.

Lemma mix_k1_inj x y : is_u32 x -> is_u32 y -> mix_k1 x = mix_k1 y -> x = y.
Proof.
  intros Hx Hy E. unfold mix_k1 in E.
  apply (mul_odd_inj c2_32 1458385051) in E; [| done | u32 ..].
  apply RotateLeft32_inj in E; [| u32 ..].
  by apply (mul_odd_inj c1_32 3739302833) in E.
Qed.

Lemma mix_h1_eq h k :
  mix_h1 h k = uint32 (RotateLeft32 (Z.lxor h (mix_k1 k)) 13 * 5 + 0xe6546b64).
Proof.
  unfold mix_h1, uint32. rewrite <- Z.add_assoc, Z.add_mod_idemp_l by lia.
  f_equal. lia.
Qed.

Lemma uint32_add_inj c x y :
  is_u32 x -> is_u32 y -> uint32 (x + c) = uint32 (y + c) -> x = y.
Proof.
  intros Hx Hy E.
  assert (Hback : forall z, is_u32 z -> uint32 (uint32 (z + c) - c) = z).
  { intros z Hz. unfold uint32. rewrite Zminus_mod_idemp_l.
    replace (z + c - c) with z by lia. by apply Z.mod_small. }
  rewrite <- (Hback x Hx), <- (Hback y Hy). by rewrite E.
Qed.

Lemma mix_h1_lxor_inj h k h' k' :
  is_u32 h -> is_u32 h' -> mix_h1 h k = mix_h1 h' k' ->
  Z.lxor h (mix_k1 k) = Z.lxor h' (mix_k1 k').
Proof.
  intros Hh Hh'. rewrite !mix_h1_eq. unfold uint32.
  rewrite <- !(Z.add_mod_idemp_l (_ * 5)) by lia. fold (uint32 (RotateLeft32 (Z.lxor h (mix_k1 k)) 13 * 5)).
  intros E. apply uint32_add_inj in E; [| apply uint32_range ..].
  apply (mul_odd_inj 5 3435973837) in E; [| done | u32 ..].
  by apply RotateLeft32_inj in E; u32.
Qed.

Lemma mix_h1_inj_h h h' k : is_u32 h -> is_u32 h' -> mix_h1 h k = mix_h1 h' k -> h = h'.
Proof. intros Hh Hh' E%mix_h1_lxor_inj; [| done ..]. by apply lxor_inj_r in E. Qed.

Lemma mix_h1_inj_k h k k' :
  is_u32 h -> is_u32 k -> is_u32 k' -> mix_h1 h k = mix_h1 h k' -> k = k'.
Proof.
  intros Hh Hk Hk' E%mix_h1_lxor_inj; [| done ..].
  apply lxor_inj_l in E. by apply mix_k1_inj.
Qed.

Lemma fmix32_inj x y : is_u32 x -> is_u32 y -> fmix32 x = fmix32 y -> x = y.
Proof.
  intros Hx Hy E. unfold fmix32 in E.
  apply xorshift_inj in E; [| u32 ..].
  apply (mul_odd_inj 0xc2b2ae35 2127672349) in E; [| done | u32 ..].
  apply xorshift_inj in E; [| u32 ..].
  apply (mul_odd_inj 0x85ebca6b 2781581891) in E; [| done | u32 ..].
  apply xorshift_inj in E; [done | lia | done ..].
Qed.

Lemma hash_tail_inj tail h h' : hash_tail tail h = hash_tail tail h' -> h = h'.
Proof.
  destruct tail as [| ? [| ? [| ? [| ? ?]]]]; simpl; try apply lxor_inj_r; done.
Qed.

(** The accumulator determines the accumulator before the loop, and the tail
    returned does not depend on it. *)
Lemma hash_blocks_inj data h h' :
  is_u32 h -> is_u32 h' ->
  (hash_blocks data h).1 = (hash_blocks data h').1 -> h = h'.
Proof.
  revert h h'. induction data as [l Hl | b0 b1 b2 b3 l IH] using blocks_ind;
    intros h h' Hh Hh' E.
  - by rewrite !hash_blocks_short in E.
  - simpl in E. apply IH in E; [| apply mix_h1_range ..]. by apply mix_h1_inj_h in E.
Qed.

Lemma hash_blocks_tail data h h' : (hash_blocks data h).2 = (hash_blocks data h').2.
Proof.
  revert h h'. induction data as [l Hl | b0 b1 b2 b3 l IH] using blocks_ind; intros h h'.
  - by rewrite !hash_blocks_short.
  - simpl. apply IH.
Qed.

Lemma hash_blocks_app pre rest h :
  (length pre mod 4 = 0)%nat ->
  hash_blocks (pre ++ rest) h = hash_blocks rest (hash_blocks pre h).1.
Proof.
  revert h. induction pre as [l Hl | b0 b1 b2 b3 l IH] using blocks_ind; intros h Hm.
  - rewrite Nat.mod_small in Hm by done. by destruct l.
  - simpl app. cbn [hash_blocks]. apply IH. revert Hm.
    replace (length (b0 :: b1 :: b2 :: b3 :: l)) with (length l + 1 * 4)%nat by (simpl; lia).
    by rewrite Nat.Div0.mod_add.
Qed.

Lemma load32_range b0 b1 b2 b3 :
  Forall is_byte [b0; b1; b2; b3] -> is_u32 (load32 b0 b1 b2 b3).
Proof.
  rewrite !Forall_cons. unfold is_byte, is_u32, load32.
  rewrite !Z.shiftl_mul_pow2 by lia. lia.
Qed.

Lemma load32_inj b0 b1 b2 b3 c0 c1 c2 c3 :
  Forall is_byte [b0; b1; b2; b3] -> Forall is_byte [c0; c1; c2; c3] ->
  load32 b0 b1 b2 b3 = load32 c0 c1 c2 c3 -> [b0; b1; b2; b3] = [c0; c1; c2; c3].
Proof.
  rewrite !Forall_cons. unfold is_byte, load32. rewrite !Z.shiftl_mul_pow2 by lia.
  intros Hb Hc E. repeat f_equal; lia.
Qed.

Lemma hash_blocks_cons b0 b1 b2 b3 l h :
  hash_blocks (b0 :: b1 :: b2 :: b3 :: l) h = hash_blocks l (mix_h1 h (load32 b0 b1 b2 b3)).
Proof. done. Qed.

Lemma Hash_unfold data seed :
  Hash data seed = fmix32 (Z.lxor (hash_tail (hash_blocks data seed).2 (hash_blocks data seed).1)
                             (uint32 (Z.of_nat (length data)))).
Proof. unfold Hash. by destruct (hash_blocks data seed). Qed.

(** Two equally long inputs that differ in exactly one aligned four-byte block never
    collide, whatever the seed: no round of the hash loses information. *)
Theorem Hash_one_block seed pre b b' post :
  is_u32 seed -> (length pre mod 4 = 0)%nat ->
  length b = 4%nat -> length b' = 4%nat -> Forall is_byte b -> Forall is_byte b' ->
  Hash (pre ++ b ++ post) seed = Hash (pre ++ b' ++ post) seed -> b = b'.
Proof.
  intros Hs Hm Hlb Hlb' Hb Hb'.
  destruct b as [| b0 [| b1 [| b2 [| b3 [|]]]]]; try discriminate Hlb.
  destruct b' as [| c0 [| c1 [| c2 [| c3 [|]]]]]; try discriminate Hlb'.
  rewrite !Hash_unfold, !(hash_blocks_app pre) by done. simpl app. rewrite !hash_blocks_cons.
  replace (length (pre ++ c0 :: c1 :: c2 :: c3 :: post))
    with (length (pre ++ b0 :: b1 :: b2 :: b3 :: post)) by (rewrite !length_app; done).
  pose proof (hash_blocks_range pre seed Hs) as Hp.
  generalize dependent (hash_blocks pre seed).1. intros h Hh.
  rewrite (hash_blocks_tail post (mix_h1 h (load32 b0 b1 b2 b3))
             (mix_h1 h (load32 c0 c1 c2 c3))).
  intros E. apply fmix32_inj in E; [| u32 ..].
  apply lxor_inj_r, hash_tail_inj, hash_blocks_inj, mix_h1_inj_k, load32_inj in E;
    solve [auto using load32_range with u32].
Qed.

Lemma Hash_one_block_witness :
  Hash (bytes_of_string "nodeA_#1") 0xabcd1234 <> Hash (bytes_of_string "nodeB_#1") 0xabcd1234.
Proof.
  intros E.
  pose proof (Hash_one_block 0xabcd1234 (bytes_of_string "node") (bytes_of_string "A_#1")
    (bytes_of_string "B_#1") []) as H.
  discriminate H; try reflexivity; try (repeat constructor; done).
Defined.

Lemma bytes_of_string_bytes s : Forall is_byte (bytes_of_string s).
Proof.
  unfold bytes_of_string. induction (String.list_ascii_of_string s); constructor; [| done].
  unfold is_byte. pose proof (Ascii.N_ascii_bounded a). lia.
Qed.
