(* ===== verification/ConsistentHash.v ===== *)
(** * The consistent-hash ring of [pkg/hash/consisten_hash.go]

    The ring is the slice [nodes], kept sorted by hash, together with the map
    [nodeMap] from a node id to its real node and its virtual nodes. *)

From Equations Require Import Equations.
From S2P Require Import Prelude GoStrings Hash.

Local Open Scope Z_scope.

Definition duplicateVirtual : Z := 100.
Definition seed : Z := 0xabcd1234.

Definition errNodeExist : error := errors_New "node already exist".

(** [real] is the pointer to the real node of a virtual one; a real node holds [nil]. *)
#[warnings="-register-all"]
Inductive Node : Type :=
  MkNode { Val' : string; hash : Z; virtual : bool; real : option Node }.

Record Nodes := MkNodes { nd : Node; virtuals : list Node; hit : Z }.

Definition appendVirtual (n : Nodes) (node : Node) : Nodes :=
  {| nd := nd n; virtuals := virtuals n ++ [node]; hit := hit n |}.

Record ConsistentHash := MkConsistentHash {
  nodes : list Node;
  nodeMap : gmap string Nodes;
  virtual_count : Z }.

Definition set_nodes (l : list Node) (c : ConsistentHash) : ConsistentHash :=
  {| nodes := l; nodeMap := nodeMap c; virtual_count := virtual_count c |}.
Definition set_nodeMap (m : gmap string Nodes) (c : ConsistentHash) : ConsistentHash :=
  {| nodes := nodes c; nodeMap := m; virtual_count := virtual_count c |}.

Definition NewConsistentHash2 (virtual : Z) : ConsistentHash :=
  {| nodes := []; nodeMap := ∅; virtual_count := virtual |}.
Definition NewConsistentHash : ConsistentHash := NewConsistentHash2 duplicateVirtual.

(** ** Searching the ring *)

(** The [LOOP] of [findIndex]; [None] is an index out of range. *)
Equations? findIndex_loop (ns : list Node) (h : Z) (left_ right_ : nat) (exist_ : bool)
  : option (nat * bool) by wf (right_ - left_)%nat lt :=
  findIndex_loop ns h left_ right_ exist_ with decide (left_ < right_)%nat => {
    | right _ := Some (left_, exist_);
    | left _ with ns !! ((left_ + right_) / 2)%nat => {
      | None := None;
      | Some n with Z.compare (hash n) h => {
        | Lt := findIndex_loop ns h ((left_ + right_) / 2 + 1)%nat right_ exist_;
        | Eq := findIndex_loop ns h ((left_ + right_) / 2 + 1)%nat right_ true;
        | Gt := findIndex_loop ns h left_ ((left_ + right_) / 2)%nat exist_ } } }.
Proof.
  all: pose proof (Nat.div_mod_eq (left_ + right_) 2);
       pose proof (Nat.mod_upper_bound (left_ + right_) 2 ltac:(done));
       match goal with |- context [?a / 2] => idtac | _ => idtac end; lia.
Qed.

(** ** Operations *)

Local Open Scope go_scope.

Definition findIndex (h : Z) : GoM ConsistentHash (nat * bool) := fun c =>
  match findIndex_loop (nodes c) h 0 (length (nodes c)) false with
  | Some r => (Val r, c)
  | None => (Panics "index out of range", c)
  end.

(** [addNode]: a fresh slice holding [p1], the node, then [p2]. *)
Definition addNode (n : Node) : GoM ConsistentHash unit :=
  let! (index, _) := findIndex (hash n) in
  modify (fun c => set_nodes (take index (nodes c) ++ [n] ++ drop index (nodes c)) c).

(** The [range p2] loop of [removeIndex], which appends in place: the slice and
    [p2] share one backing array, so iteration [k] reads cell [index+1+k] and
    writes cell [index+k] of it. *)
Fixpoint shift_down (arr : list Node) (dst : nat) (count : nat) : list Node :=
  match count with
  | O => arr
  | S count' =>
      match arr !! S dst with
      | Some n => shift_down (<[dst := n]> arr) (S dst) count'
      | None => arr
      end
  end.

Definition removeIndex (index : nat) : GoM ConsistentHash unit := fun c =>
  let len := length (nodes c) in
  if decide (len <= index)%nat then (Panics "slice bounds out of range", c)
  else if decide (S index = len) then (Val tt, set_nodes (take (len - 1) (nodes c)) c)
  else
    let count := (len - S index)%nat in
    (Val tt, set_nodes (take (index + count) (shift_down (nodes c) index count)) c).

Definition vNodeID (id : string) (i : nat) : string := id +:+ "_#" +:+ Itoa (Z.of_nat i).

Definition mkVNode (r : Node) (i : nat) : Node :=
  let id := vNodeID (Val' r) i in
  {| Val' := id; hash := Hash (bytes_of_string id) seed; virtual := true; real := Some r |}.

(** The loop of [addVirtual] from counter [i], [count] iterations left. *)
Fixpoint addVirtual_loop (r : Node) (i count : nat) : GoM ConsistentHash unit :=
  match count with
  | O => ret tt
  | S count' =>
      addNode (mkVNode r i) ;;;
      let! m := gets nodeMap in
      match m !! Val' r with
      | Some nds =>
          modify (fun c => set_nodeMap (<[Val' r := appendVirtual nds (mkVNode r i)]> (nodeMap c)) c) ;;;
          addVirtual_loop r (S i) count'
      | None => panic "nil pointer dereference"
      end
  end.

Definition addVirtual (r : Node) (duplicate : Z) : GoM ConsistentHash unit :=
  addVirtual_loop r 0 (Z.to_nat duplicate).

Definition mkRealNode (id : string) : Node :=
  {| Val' := id; hash := Hash (bytes_of_string id) seed; virtual := false; real := None |}.

Definition Add (id : string) : GoM ConsistentHash error :=
  let! m := gets nodeMap in
  match m !! id with
  | Some _ => ret (errors_New ("node already exist, id=" +:+ id))
  | None =>
      let n := mkRealNode id in
      modify (fun c => set_nodeMap (<[id := {| nd := n; virtuals := []; hit := 0 |}]> (nodeMap c)) c) ;;;
      addNode n ;;;
      let! c := get in
      addVirtual n (virtual_count c) ;;;
      ret nil_error
  end.

(** The loop of [Remove] over the virtual nodes; it returns early on an error. *)
Fixpoint removeVirtuals (vs : list Node) : GoM ConsistentHash error :=
  match vs with
  | [] => ret nil_error
  | v :: vs' =>
      let! (ndIndex, ok) := findIndex (hash v) in
      if ok : bool then
        let index := (ndIndex - 1)%nat in
        let! ns := gets nodes in
        match ns !! index with
        | None => panic "index out of range"
        | Some n =>
            if negb (hash n =? hash v)
            then ret (errors_New ("could not find virtual node, id:" +:+ Val' v))
            else removeIndex index ;;; removeVirtuals vs'
        end
      else ret (errors_New ("virtual node does not exist, id:" +:+ Val' v))
  end.

Definition Remove (id : string) : GoM ConsistentHash error :=
  let! m := gets nodeMap in
  match m !! id with
  | None => ret (errors_New ("node does not exist, id:" +:+ id))
  | Some ns =>
      let! err := removeVirtuals (virtuals ns) in
      match err with
      | Some _ => ret err
      | None =>
          let! (index, ok) := findIndex (hash (nd ns)) in
          if ok : bool then
            removeIndex (index - 1) ;;;
            modify (fun c => set_nodeMap (delete id (nodeMap c)) c) ;;;
            ret nil_error
          else ret (errors_New "real node not fund")
      end
  end.

(** [get]: an empty ring is an error; the index past the end is clamped to the
    last node; a virtual node answers with its real node. *)
Definition get_node (index : nat) : GoM ConsistentHash (option Node * error) := fun c =>
  let len := length (nodes c) in
  if decide (len = 0%nat) then (Val (None, errNodeExist), c)
  else
    let index := if decide (index = len) then (len - 1)%nat else index in
    match nodes c !! index with
    | None => (Panics "index out of range", c)
    | Some n => if virtual n then (Val (real n, nil_error), c) else (Val (Some n, nil_error), c)
    end.

Definition Get (data : string) : GoM ConsistentHash (option Node * error) :=
  let! (index, _) := findIndex (Hash (bytes_of_string data) seed) in
  get_node index.

(** ** The sorted ring *)

Definition hash_le (a b : Node) : Prop := hash a <= hash b.
Abbreviation sorted := (StronglySorted hash_le).

(** The two halves [findIndex] separates. *)
Definition below (h : Z) (ns : list Node) : list Node := filter (fun n => hash n <= h) ns.
Definition above (h : Z) (ns : list Node) : list Node := filter (fun n => h < hash n) ns.
(** The nodes at one point of the ring, in ring order. *)
Definition group (h : Z) (ns : list Node) : list Node := filter (fun n => hash n = h) ns.

(** Reference operations on the sorted list. *)
Definition ins (n : Node) (ns : list Node) : list Node :=
  below (hash n) ns ++ [n] ++ above (hash n) ns.
Definition del (h : Z) (ns : list Node) : list Node :=
  removelast (below h ns) ++ above h ns.
Definition ring_get (h : Z) (ns : list Node) : option Node :=
  match above h ns with
  | x :: _ => Some x
  | [] => last ns
  end.

Lemma sorted_app (l1 l2 : list Node) :
  sorted (l1 ++ l2) <->
  sorted l1 /\ sorted l2 /\ (forall x y, x ∈ l1 -> y ∈ l2 -> hash_le x y).
Proof.
  induction l1 as [| a l1 IH]; simpl.
  - split; [| tauto]. intros H. repeat split; [constructor | done |]. intros x y Hx. set_solver.
  - split.
    + intros H. inversion H as [| ? ? Hs Hf]; subst. apply IH in Hs as (H1 & H2 & H3).
      rewrite Forall_app in Hf. destruct Hf as [Hf1 Hf2].
      split; [by constructor |]. split; [done |].
      intros x y [->|Hx]%elem_of_cons Hy; [| by apply H3].
      rewrite Forall_forall in Hf2. by apply Hf2.
    + intros (H1 & H2 & H3). inversion H1 as [| ? ? Hs Hf]; subst. constructor.
      * apply IH. split; [done |]. split; [done |]. intros. apply H3; [by constructor | done].
      * apply Forall_app. split; [done |]. apply Forall_forall. intros. apply H3; [by constructor | done].
Qed.

Lemma below_above h ns : sorted ns -> ns = below h ns ++ above h ns.
Proof.
  unfold below, above. induction 1 as [| n ns Hs IH Hf]; [done |].
  rewrite !filter_cons. destruct (decide (hash n <= h)) as [Hle | Hgt].
  - rewrite (decide_False (P := h < hash n)) by lia. simpl. by f_equal.
  - rewrite (decide_True (P := h < hash n)) by lia.
    assert (Hall : forall x, x ∈ ns -> h < hash x).
    { intros x Hx. rewrite Forall_forall in Hf. specialize (Hf x Hx). unfold hash_le in Hf. lia. }
    assert (filter (fun n => hash n <= h) ns = []) as ->.
    { apply filter_none. intros x Hx%Hall. lia. }
    simpl. f_equal. symmetry. by apply filter_all.
Qed.

Lemma elem_of_below h ns x : x ∈ below h ns <-> hash x <= h /\ x ∈ ns.
Proof. unfold below. rewrite list_elem_of_filter. done. Qed.
Lemma elem_of_above h ns x : x ∈ above h ns <-> h < hash x /\ x ∈ ns.
Proof. unfold above. rewrite list_elem_of_filter. done. Qed.
Lemma elem_of_group h ns x : x ∈ group h ns <-> hash x = h /\ x ∈ ns.
Proof. unfold group. rewrite list_elem_of_filter. done. Qed.

Lemma sorted_halves h ns : sorted ns -> sorted (below h ns) /\ sorted (above h ns).
Proof. intros H. rewrite (below_above h ns) in H by done. apply sorted_app in H. tauto. Qed.

Lemma ins_sorted n ns : sorted ns -> sorted (ins n ns).
Proof.
  intros Hs. unfold ins. pose proof (sorted_halves (hash n) ns Hs) as [Hb Ha].
  apply sorted_app. split; [done |]. split.
  - apply sorted_app. split; [repeat constructor |]. split; [done |].
    intros x y ->%list_elem_of_singleton Hy%elem_of_above. unfold hash_le. lia.
  - intros x y Hx%elem_of_below [->%list_elem_of_singleton | Hy%elem_of_above]%elem_of_app;
      unfold hash_le; lia.
Qed.

Lemma ins_perm n ns : sorted ns -> ins n ns ≡ₚ n :: ns.
Proof.
  intros Hs. unfold ins. rewrite (below_above (hash n) ns) at 3 by done. by rewrite Permutation_middle.
Qed.

Lemma del_sorted h ns : sorted ns -> sorted (del h ns).
Proof.
  intros Hs. rewrite (below_above h ns) in Hs by done. unfold del.
  destruct (list_snoc_inv (below h ns)) as [E | (l & x & E)]; rewrite E in *; [done |].
  rewrite removelast_snoc. apply sorted_app in Hs as (Hl & Ha & Hla). apply sorted_app in Hl as (Hl & _).
  apply sorted_app. split; [done |]. split; [done |]. intros. apply Hla; [by apply elem_of_app; left | done].
Qed.

Lemma group_filter_app h l1 l2 : group h (l1 ++ l2) = group h l1 ++ group h l2.
Proof. apply filter_app. Qed.

Lemma group_none h l : (forall x, x ∈ l -> hash x <> h) -> group h l = [].
Proof. apply filter_none. Qed.

Lemma group_ins h n ns :
  sorted ns -> group h (ins n ns) = group h ns ++ (if decide (hash n = h) then [n] else []).
Proof.
  intros Hs. unfold ins. rewrite !group_filter_app.
  rewrite (below_above (hash n) ns) at 3 by done. rewrite group_filter_app, <- app_assoc. f_equal.
  unfold group at 1. rewrite filter_cons, filter_nil. case_decide as Hh; simpl; [| by rewrite app_nil_r].
  rewrite group_none; [done |]. intros x Hx%elem_of_above. lia.
Qed.

(** The last node of the lower half is the last one of its group. *)
Lemma below_last h ns x :
  sorted ns -> x ∈ ns -> hash x = h ->
  exists l y, below h ns = l ++ [y] /\ hash y = h.
Proof.
  intros Hs Hx Hh. pose proof (sorted_halves h ns Hs) as [Hb _].
  assert (Hin : x ∈ below h ns) by (apply elem_of_below; split; [lia | done]).
  destruct (list_snoc_inv (below h ns)) as [E | (l & y & E)]; [by rewrite E in Hin; inversion Hin |].
  exists l, y. split; [done |].
  assert (Hy : y ∈ below h ns) by (rewrite E; set_solver). apply elem_of_below in Hy as [Hy _].
  rewrite E in Hb, Hin. apply sorted_app in Hb as (_ & _ & Hl).
  apply elem_of_app in Hin as [Hin | ->%list_elem_of_singleton]; [| done].
  specialize (Hl x y Hin ltac:(set_solver)). unfold hash_le in Hl. lia.
Qed.

Lemma group_del h h' ns x :
  sorted ns -> x ∈ ns -> hash x = h ->
  group h' (del h ns) = if decide (h' = h) then removelast (group h ns) else group h' ns.
Proof.
  intros Hs Hx Hh. destruct (below_last h ns x Hs Hx Hh) as (l & y & E & Hy).
  assert (G : forall k, group k ns = group k (below h ns) ++ group k (above h ns)).
  { intros k. by rewrite <- group_filter_app, <- below_above. }
  assert (Hya : group h (above h ns) = []).
  { apply group_none. intros z Hz%elem_of_above. lia. }
  rewrite !G. unfold del. rewrite E, removelast_snoc, !group_filter_app.
  assert (Ey : forall k, group k [y] = if decide (k = h) then [y] else []).
  { intros k. unfold group. rewrite filter_cons, filter_nil. repeat case_decide; congruence. }
  rewrite !Ey. rewrite (decide_True (P := h = h)) by done.
  case_decide as Hd; [subst h'; by rewrite Hya, !app_nil_r, removelast_snoc | by rewrite app_nil_r].
Qed.

(** A sorted ring is determined by its groups. *)
Lemma sorted_ext l1 l2 :
  sorted l1 -> sorted l2 -> (forall h, group h l1 = group h l2) -> l1 = l2.
Proof.
  intros H1. revert l2. induction H1 as [| a l1 Hs1 IH Hf1]; intros l2 H2 E.
  - destruct l2 as [| b l2]; [done |]. specialize (E (hash b)). unfold group in E.
    by rewrite filter_cons_True in E.
  - destruct H2 as [| b l2 Hs2 Hf2].
    { specialize (E (hash a)). unfold group in E. by rewrite filter_cons_True in E. }
    assert (Hab : hash a = hash b).
    { rewrite Forall_forall in Hf1, Hf2. unfold hash_le in *.
      assert (Ha : a ∈ group (hash a) (b :: l2)) by (rewrite <- E; apply elem_of_group; set_solver).
      assert (Hb : b ∈ group (hash b) (a :: l1)) by (rewrite E; apply elem_of_group; set_solver).
      apply elem_of_group in Ha as [_ [-> | Ha]%elem_of_cons]; [done |].
      apply elem_of_group in Hb as [_ [-> | Hb]%elem_of_cons]; [done |].
      specialize (Hf1 _ Hb). specialize (Hf2 _ Ha). lia. }
    assert (a = b) as ->.
    { pose proof (E (hash a)) as Eh. unfold group in Eh.
      rewrite !filter_cons_True in Eh by done. by simplify_eq. }
    f_equal. apply IH; [done |]. intros h. specialize (E h). unfold group in *.
    rewrite !filter_cons in E. case_decide; by simplify_eq.
Qed.

(** ** The code computes the reference operations *)

Lemma sorted_lookup ns i j x y :
  sorted ns -> (i <= j)%nat -> ns !! i = Some x -> ns !! j = Some y -> hash x <= hash y.
Proof.
  intros Hs Hij Hx Hy. destruct (decide (i = j)) as [-> | Hne]; [simplify_eq; lia |].
  revert i j Hij Hx Hy Hne. induction Hs as [| a l Hs IH Hf]; intros i j Hij Hx Hy Hne; [done |].
  destruct j as [| j]; [lia |]. simpl in Hy. destruct i as [| i]; simpl in Hx.
  - simplify_eq. rewrite Forall_forall in Hf. apply Hf. by eapply list_elem_of_lookup_2.
  - eapply IH; [| done | done |]; lia.
Qed.

(** The loop's invariant: everything before [left] is at most [h], everything from
    [right] on is above it, and the flag says whether [h] was met before [left]. *)
Lemma findIndex_loop_spec ns h lo hi ex :
  sorted ns -> (lo <= hi <= length ns)%nat ->
  (forall i x, (i < lo)%nat -> ns !! i = Some x -> hash x <= h) ->
  (forall i x, (hi <= i)%nat -> ns !! i = Some x -> h < hash x) ->
  (ex = true <-> exists i x, (i < lo)%nat /\ ns !! i = Some x /\ hash x = h) ->
  exists idx ex', findIndex_loop ns h lo hi ex = Some (idx, ex') /\ (idx <= length ns)%nat /\
    (forall i x, (i < idx)%nat -> ns !! i = Some x -> hash x <= h) /\
    (forall i x, (idx <= i)%nat -> ns !! i = Some x -> h < hash x) /\
    (ex' = true <-> exists i x, (i < idx)%nat /\ ns !! i = Some x /\ hash x = h).
Proof.
  intros Hs. funelim (findIndex_loop ns h lo hi ex); intros Hb Hlo Hhi Hex.
  1: { exists left_, exist_. replace right_ with left_ in * by lia. split_and!; auto; lia. }
  all: assert (Hmid : (left_ <= (left_ + right_) / 2 < right_)%nat)
    by (pose proof (Nat.div_mod_eq (left_ + right_) 2);
        pose proof (Nat.mod_upper_bound (left_ + right_) 2 ltac:(done)); lia).
  all: clear Heqcall; set (mid := ((left_ + right_) / 2)%nat) in *.
  1: { exfalso. destruct (lookup_lt_is_Some_2 ns mid ltac:(lia)) as [x Hx]. congruence. }
  all: match goal with IH : sorted _ -> _ |- _ => apply IH end; try done; try lia.
  - apply Z.compare_eq_iff in Heq. intros i x Hi Hx.
    enough (hash x <= hash n) by lia. apply (sorted_lookup ns i mid); auto; lia.
  - apply Z.compare_eq_iff in Heq. split; [| done]. intros _. exists mid, n. split_and!; [lia | done | done].
  - rewrite Z.compare_lt_iff in Heq. intros i x Hi Hx.
    enough (hash x <= hash n) by lia. apply (sorted_lookup ns i mid); auto; lia.
  - rewrite Z.compare_lt_iff in Heq. rewrite Hex. split; intros (i & x & Hi & Hx & E).
    + exists i, x. split_and!; [lia | done | done].
    + exfalso. assert (hash x <= hash n) by (apply (sorted_lookup ns i mid); auto; lia). lia.
  - rewrite Z.compare_gt_iff in Heq. intros i x Hi Hx.
    enough (hash n <= hash x) by lia. apply (sorted_lookup ns mid i); auto; lia.
Qed.

(** An index that separates the list at [h] is the length of the lower half. *)
Lemma split_index ns h idx :
  (idx <= length ns)%nat ->
  (forall i x, (i < idx)%nat -> ns !! i = Some x -> hash x <= h) ->
  (forall i x, (idx <= i)%nat -> ns !! i = Some x -> h < hash x) ->
  below h ns = take idx ns /\ above h ns = drop idx ns.
Proof.
  intros Hl Hlo Hhi. unfold below, above. rewrite <- (take_drop idx ns) at 1 3.
  assert (Hb : forall x, x ∈ take idx ns -> hash x <= h).
  { intros x [i Hi]%list_elem_of_lookup. apply lookup_take_Some in Hi as [Hi ?]. by eapply Hlo. }
  assert (Ha : forall x, x ∈ drop idx ns -> h < hash x).
  { intros x [i Hi]%list_elem_of_lookup. rewrite lookup_drop in Hi. eapply Hhi; [| done]. lia. }
  rewrite !filter_app. split.
  - rewrite filter_all, (filter_none _ (drop idx ns)), app_nil_r; [done | intros x Hx%Ha; lia | done].
  - rewrite filter_none, filter_all; [done | done | intros x Hx%Hb; lia].
Qed.

Lemma findIndex_run c h :
  sorted (nodes c) ->
  findIndex h c = (Val (length (below h (nodes c)), bool_decide (group h (nodes c) <> [])), c).
Proof.
  intros Hs. unfold findIndex.
  destruct (findIndex_loop_spec (nodes c) h 0 (length (nodes c)) false Hs) as
    (idx & ex & -> & Hl & Hlo & Hhi & Hex); [lia | intros; lia | | |].
  { intros i x Hi Hx%lookup_lt_Some. lia. }
  { split; [done |]. intros (i & x & Hi & _). lia. }
  destruct (split_index (nodes c) h idx Hl Hlo Hhi) as [Eb _].
  rewrite Eb, length_take, Nat.min_l by done. do 3 f_equal.
  apply eq_true_iff_eq. rewrite Hex, bool_decide_eq_true. split.
  - intros (i & x & Hi & Hx & Eh). intros En.
    assert (Hin : x ∈ group h (nodes c)) by (apply elem_of_group; split; [done | by eapply list_elem_of_lookup_2]).
    rewrite En in Hin. inversion Hin.
  - intros Hne. destruct (group h (nodes c)) as [| x l] eqn:Eg; [done |].
    assert (Hin : x ∈ group h (nodes c)) by (rewrite Eg; constructor).
    apply elem_of_group in Hin as [Hx Hin]. apply list_elem_of_lookup in Hin as [i Hi].
    exists i, x. split_and!; [| done | done]. destruct (decide (i < idx)%nat); [done |].
    specialize (Hhi i x ltac:(lia) Hi). lia.
Qed.

(** The two halves as the prefix and suffix the code slices. *)
Lemma below_take ns h : sorted ns -> take (length (below h ns)) ns = below h ns.
Proof. intros Hs. rewrite (below_above h ns) at 2 by done. by rewrite take_app_length. Qed.
Lemma above_drop ns h : sorted ns -> drop (length (below h ns)) ns = above h ns.
Proof. intros Hs. rewrite (below_above h ns) at 2 by done. by rewrite drop_app_length. Qed.

Lemma addNode_run c n :
  sorted (nodes c) -> addNode n c = (Val tt, set_nodes (ins n (nodes c)) c).
Proof.
  intros Hs. unfold addNode, bind. rewrite findIndex_run by done. unfold modify, ins.
  by rewrite below_take, above_drop.
Qed.

(** The in-place shift reads ahead of what it overwrites: it moves the tail one cell
    down and leaves the last cell doubled. *)
Lemma shift_down_spec l1 x l2 :
  shift_down (l1 ++ x :: l2) (length l1) (length l2) = l1 ++ l2 ++ [default x (last l2)].
Proof.
  revert l1 x. induction l2 as [| y l2 IH]; intros l1 x; [done |].
  simpl length. cbn [shift_down].
  rewrite lookup_app_r by lia. replace (S (length l1) - length l1)%nat with 1%nat by lia.
  cbn [lookup list_lookup]. rewrite insert_app_r_alt, Nat.sub_diag by lia.
  cbn [insert list_insert]. rewrite (cons_middle y l1), app_assoc.
  replace (S (length l1)) with (length (l1 ++ [y])) by (rewrite length_app; simpl; lia).
  rewrite IH, <- app_assoc. rewrite last_cons. by destruct (last l2).
Qed.

Lemma removeIndex_run c index :
  (index < length (nodes c))%nat ->
  removeIndex index c = (Val tt, set_nodes (take index (nodes c) ++ drop (S index) (nodes c)) c).
Proof.
  intros Hi. unfold removeIndex. rewrite decide_False by lia. case_decide as Hlast.
  - rewrite drop_ge by lia. rewrite app_nil_r. by replace (length (nodes c) - 1)%nat with index by lia.
  - destruct (lookup_lt_is_Some_2 (nodes c) index Hi) as [x Hx].
    pose proof (take_drop_middle (nodes c) index x Hx) as E.
    set (l1 := take index (nodes c)) in *. set (l2 := drop (S index) (nodes c)) in *.
    assert (H1 : length l1 = index) by (unfold l1; rewrite length_take; lia).
    assert (H2 : length l2 = (length (nodes c) - S index)%nat) by (unfold l2; by rewrite length_drop).
    pose proof (shift_down_spec l1 x l2) as G. rewrite E, H1, H2 in G. rewrite G.
    by rewrite app_assoc, take_app_le, take_ge by (rewrite length_app; lia).
Qed.

(** ** Whole operations *)

Definition ins_all (ns new : list Node) : list Node := foldl (fun acc n => ins n acc) ns new.
Definition del_all (ns : list Node) (hs : list Z) : list Node := foldl (fun acc h => del h acc) ns hs.

(** The nodes one id contributes to the ring, in the order they are added. *)
Definition virtual_nodes (id : string) (v : nat) : list Node := mkVNode (mkRealNode id) <$> seq 0 v.
Definition entry_nodes (id : string) (v : nat) : list Node := mkRealNode id :: virtual_nodes id v.

#[local] Arguments entry_nodes : simpl never.
#[local] Arguments ins_all : simpl never.
#[local] Arguments del_all : simpl never.

Lemma ins_all_sorted ns new : sorted ns -> sorted (ins_all ns new).
Proof. revert ns. induction new as [| n new IH]; intros ns Hs; [done |]. by apply IH, ins_sorted. Qed.

Lemma ins_all_perm ns new : sorted ns -> ins_all ns new ≡ₚ new ++ ns.
Proof.
  revert ns. induction new as [| n new IH]; intros ns Hs; [done |].
  change (ins_all ns (n :: new)) with (ins_all (ins n ns) new).
  rewrite IH, ins_perm by auto using ins_sorted. simpl. by rewrite Permutation_middle.
Qed.

Lemma group_ins_all h ns new : sorted ns -> group h (ins_all ns new) = group h ns ++ group h new.
Proof.
  revert ns. induction new as [| n new IH]; intros ns Hs; [by rewrite app_nil_r |].
  change (ins_all ns (n :: new)) with (ins_all (ins n ns) new).
  rewrite IH, group_ins, <- app_assoc by auto using ins_sorted. f_equal.
  unfold group at 2. rewrite filter_cons. by case_decide.
Qed.

Lemma addVirtual_loop_run c r i count nds :
  sorted (nodes c) -> nodeMap c !! Val' r = Some nds ->
  addVirtual_loop r i count c =
    (Val tt, {| nodes := ins_all (nodes c) (mkVNode r <$> seq i count);
                nodeMap := <[Val' r := {| nd := nd nds;
                                          virtuals := virtuals nds ++ (mkVNode r <$> seq i count);
                                          hit := hit nds |}]> (nodeMap c);
                virtual_count := virtual_count c |}).
Proof.
  revert c i nds. induction count as [| count IH]; intros c i nds Hs Hm; simpl.
  - rewrite app_nil_r. unfold ret. do 2 f_equal. destruct c, nds; simpl in *. by rewrite insert_id.
  - unfold bind at 1. rewrite addNode_run by done. unfold bind, gets, modify. simpl. rewrite Hm.
    erewrite IH; [| by apply ins_sorted | simpl; apply lookup_insert_eq].
    simpl. rewrite insert_insert_eq. by rewrite <- app_assoc.
Qed.

Lemma Add_run c id :
  sorted (nodes c) -> nodeMap c !! id = None ->
  Add id c =
    (Val nil_error, {| nodes := ins_all (nodes c) (entry_nodes id (Z.to_nat (virtual_count c)));
                       nodeMap := <[id := {| nd := mkRealNode id;
                                             virtuals := virtual_nodes id (Z.to_nat (virtual_count c));
                                             hit := 0 |}]> (nodeMap c);
                       virtual_count := virtual_count c |}).
Proof.
  intros Hs Hm. unfold Add, bind at 1, gets. rewrite Hm. unfold bind, modify, get, addVirtual. simpl.
  rewrite addNode_run by done. simpl.
  erewrite addVirtual_loop_run; [| by apply ins_sorted | simpl; apply lookup_insert_eq].
  simpl. by rewrite insert_insert_eq.
Qed.

Lemma Add_present c id ns :
  nodeMap c !! id = Some ns -> Add id c = (Val (errors_New ("node already exist, id=" +:+ id)), c).
Proof. intros Hm. unfold Add, bind, gets. by rewrite Hm. Qed.

Lemma del_perm ns h x :
  sorted ns -> x ∈ ns -> hash x = h -> h :: (hash <$> del h ns) ≡ₚ hash <$> ns.
Proof.
  intros Hs Hx Hh. destruct (below_last h ns x Hs Hx Hh) as (l & y & E & <-).
  rewrite (below_above (hash y) ns) at 2 by done. unfold del. rewrite E, removelast_snoc.
  rewrite !fmap_app. simpl. by rewrite <- app_assoc, Permutation_middle.
Qed.

Lemma del_index c h x :
  sorted (nodes c) -> x ∈ nodes c -> hash x = h ->
  let index := (length (below h (nodes c)) - 1)%nat in
  (exists y, nodes c !! index = Some y /\ hash y = h) /\
  removeIndex index c = (Val tt, set_nodes (del h (nodes c)) c).
Proof.
  intros Hs Hx Hh index. destruct (below_last h (nodes c) x Hs Hx Hh) as (l & y & E & Hy).
  assert (Hi : index = length l) by (unfold index; rewrite E, length_app; simpl; lia).
  pose proof (below_above h (nodes c) Hs) as En. unfold del.
  rewrite E, <- app_assoc in En. simpl in En. rewrite E, removelast_snoc.
  generalize dependent (above h (nodes c)). intros a En. rewrite Hi. split.
  - exists y. split; [| done]. rewrite En. by apply list_lookup_middle.
  - rewrite removeIndex_run by (rewrite En, length_app; simpl; lia). rewrite En.
    rewrite take_app_length, cons_middle, app_assoc.
    by rewrite drop_app_length' by (rewrite length_app; simpl; lia).
Qed.

Lemma removeVirtuals_run c vs :
  sorted (nodes c) -> hash <$> vs ⊆+ hash <$> nodes c ->
  removeVirtuals vs c = (Val nil_error, set_nodes (del_all (nodes c) (hash <$> vs)) c).
Proof.
  revert c. induction vs as [| v vs IH]; intros c Hs Hsub; simpl; [by destruct c |].
  assert (Hin : hash v ∈ hash <$> nodes c).
  { eapply elem_of_submseteq; [| done]. constructor. }
  apply list_elem_of_fmap in Hin as (x & Hx & Hin).
  unfold bind at 1. rewrite findIndex_run by done.
  rewrite bool_decide_true by (intros E; assert (Hg : x ∈ group (hash v) (nodes c))
    by (by apply elem_of_group); rewrite E in Hg; inversion Hg).
  destruct (del_index c (hash v) x Hs Hin ltac:(done)) as [(y & Hy & Hhy) Hrun].
  unfold bind at 1, gets. rewrite Hy, Hhy, Z.eqb_refl. simpl. unfold bind. rewrite Hrun.
  rewrite IH; [done | by apply del_sorted |]. simpl.
  rewrite <- (del_perm (nodes c) (hash v) x) in Hsub by done.
  by apply (submseteq_app_inv_l _ _ [hash v]) in Hsub.
Qed.

Lemma del_all_sorted ns hs : sorted ns -> sorted (del_all ns hs).
Proof. revert ns. induction hs as [| h hs IH]; intros ns Hs; [done |]. by apply IH, del_sorted. Qed.

Lemma del_all_perm ns hs :
  sorted ns -> hs ⊆+ hash <$> ns -> hs ++ (hash <$> del_all ns hs) ≡ₚ hash <$> ns.
Proof.
  revert ns. induction hs as [| h hs IH]; intros ns Hs Hsub; [done |].
  assert (Hin : h ∈ hash <$> ns) by (eapply elem_of_submseteq; [constructor | done]).
  apply list_elem_of_fmap in Hin as (x & Hx & Hin).
  rewrite <- (del_perm ns h x) in Hsub |- * by done.
  apply (submseteq_app_inv_l _ _ [h]) in Hsub. simpl app. constructor.
  change (del_all ns (h :: hs)) with (del_all (del h ns) hs).
  apply IH; [by apply del_sorted | done].
Qed.

Lemma Remove_run c id ns :
  sorted (nodes c) -> nodeMap c !! id = Some ns ->
  (hash <$> virtuals ns) ++ [hash (nd ns)] ⊆+ hash <$> nodes c ->
  Remove id c =
    (Val nil_error, {| nodes := del_all (nodes c) ((hash <$> virtuals ns) ++ [hash (nd ns)]);
                       nodeMap := delete id (nodeMap c);
                       virtual_count := virtual_count c |}).
Proof.
  intros Hs Hm Hsub. unfold Remove, bind at 1, gets. rewrite Hm. unfold bind at 1.
  assert (Hv : hash <$> virtuals ns ⊆+ hash <$> nodes c).
  { etrans; [| exact Hsub]. by apply submseteq_inserts_r. }
  rewrite removeVirtuals_run by done.
  set (c1 := set_nodes _ c).
  assert (Hs1 : sorted (nodes c1)) by (by apply del_all_sorted).
  rewrite <- (del_all_perm (nodes c) (hash <$> virtuals ns)) in Hsub by done.
  apply submseteq_app_inv_l in Hsub.
  assert (Hin : hash (nd ns) ∈ hash <$> nodes c1) by (eapply elem_of_submseteq; [constructor | done]).
  apply list_elem_of_fmap in Hin as (x & Hx & Hin).
  unfold bind at 1. rewrite findIndex_run by done.
  rewrite bool_decide_true by (intros E; assert (Hg : x ∈ group (hash (nd ns)) (nodes c1))
    by (by apply elem_of_group); rewrite E in Hg; inversion Hg).
  destruct (del_index c1 (hash (nd ns)) x Hs1 Hin ltac:(done)) as [_ Hrun].
  unfold bind. rewrite Hrun. unfold modify, ret. simpl. unfold del_all.
  by rewrite foldl_snoc.
Qed.

(** ** The ring and its node map agree *)

Definition entry_ok (v : nat) (id : string) (ns : Nodes) : Prop :=
  nd ns = mkRealNode id /\ virtuals ns = virtual_nodes id v.

Definition ring_hashes (m : gmap string Nodes) (v : nat) : list Z :=
  map_to_list m ≫= fun '(id, _) => hash <$> entry_nodes id v.

(** Holds after any sequence of operations, hash collisions or not. *)
Record ring_wf (c : ConsistentHash) : Prop := {
  wf_sorted : sorted (nodes c);
  wf_entries : map_Forall (entry_ok (Z.to_nat (virtual_count c))) (nodeMap c);
  wf_hashes : hash <$> nodes c ≡ₚ ring_hashes (nodeMap c) (Z.to_nat (virtual_count c)) }.

Lemma New_wf v : ring_wf (NewConsistentHash2 v).
Proof. split; simpl; [constructor | apply map_Forall_empty | done]. Qed.

Lemma ring_hashes_insert m v id ns :
  m !! id = None -> ring_hashes (<[id := ns]> m) v ≡ₚ (hash <$> entry_nodes id v) ++ ring_hashes m v.
Proof. intros Hm. unfold ring_hashes. by rewrite map_to_list_insert. Qed.

Lemma ring_hashes_delete m v id ns :
  m !! id = Some ns -> ring_hashes m v ≡ₚ (hash <$> entry_nodes id v) ++ ring_hashes (delete id m) v.
Proof.
  intros Hm. rewrite <- (insert_delete_id m id ns) at 1 by done.
  apply ring_hashes_insert, lookup_delete_eq.
Qed.

Lemma Add_wf c id :
  ring_wf c -> nodeMap c !! id = None ->
  exists c', Add id c = (Val nil_error, c') /\ ring_wf c' /\
    virtual_count c' = virtual_count c /\ dom (nodeMap c') = {[id]} ∪ dom (nodeMap c).
Proof.
  intros [Hs He Hh] Hm. rewrite Add_run by done. eexists. split; [done |]. split_and!; simpl; [| done |].
  - split; simpl.
    + by apply ins_all_sorted.
    + apply map_Forall_insert_2; [by split | done].
    + rewrite ins_all_perm, fmap_app, Hh by done. by rewrite ring_hashes_insert.
  - by rewrite dom_insert_L.
Qed.

Lemma Remove_wf c id :
  ring_wf c -> is_Some (nodeMap c !! id) ->
  exists c', Remove id c = (Val nil_error, c') /\ ring_wf c' /\
    virtual_count c' = virtual_count c /\ dom (nodeMap c') = dom (nodeMap c) ∖ {[id]}.
Proof.
  intros [Hs He Hh] [ns Hm]. destruct (He _ _ Hm) as [Hnd Hv].
  assert (Hperm : (hash <$> virtuals ns) ++ [hash (nd ns)]
    ≡ₚ hash <$> entry_nodes id (Z.to_nat (virtual_count c))).
  { rewrite Hnd, Hv. by rewrite Permutation_app_comm. }
  assert (Hsub : (hash <$> virtuals ns) ++ [hash (nd ns)] ⊆+ hash <$> nodes c).
  { rewrite Hh, (ring_hashes_delete _ _ id ns), Hperm by done. by apply submseteq_inserts_r. }
  rewrite (Remove_run c id ns) by done.
  eexists. split; [done |]. split_and!; simpl; [| done | by rewrite dom_delete_L].
  split; simpl; [by apply del_all_sorted | by apply map_Forall_delete |].
  pose proof (del_all_perm (nodes c) _ Hs Hsub) as Hd.
  rewrite Hh, (ring_hashes_delete _ _ id ns) in Hd by done.
  apply (Permutation_app_inv_l (hash <$> entry_nodes id (Z.to_nat (virtual_count c)))).
  rewrite <- Hd. by apply Permutation_app_tail.
Qed.

Lemma Remove_absent c id :
  nodeMap c !! id = None -> Remove id c = (Val (errors_New ("node does not exist, id:" +:+ id)), c).
Proof. intros Hm. unfold Remove, bind, gets. by rewrite Hm. Qed.

(** ** Abstract specification: a set of ids *)

Inductive ring_op := OpAdd (id : string) | OpRemove (id : string).

Definition run_op (op : ring_op) : GoM ConsistentHash error :=
  match op with OpAdd id => Add id | OpRemove id => Remove id end.

(** What a caller relies on: [Add] succeeds on a new id, [Remove] on a known one. *)
Definition spec_op (op : ring_op) (s : gset string) : bool * gset string :=
  match op with
  | OpAdd id => if decide (id ∈ s) then (false, s) else (true, {[id]} ∪ s)
  | OpRemove id => if decide (id ∈ s) then (true, s ∖ {[id]}) else (false, s)
  end.

Fixpoint run_ops (ops : list ring_op) : GoM ConsistentHash (list bool) :=
  match ops with
  | [] => ret []
  | op :: ops' =>
      let! err := run_op op in
      let! oks := run_ops ops' in
      ret (bool_decide (err = nil_error) :: oks)
  end%go.

Fixpoint spec_ops (ops : list ring_op) (s : gset string) : list bool * gset string :=
  match ops with
  | [] => ([], s)
  | op :: ops' => let '(ok, s') := spec_op op s in
                  let '(oks, s'') := spec_ops ops' s' in (ok :: oks, s'')
  end.

Lemma run_op_refines c op :
  ring_wf c ->
  exists err c', run_op op c = (Val err, c') /\ ring_wf c' /\
    (bool_decide (err = nil_error), dom (nodeMap c')) = spec_op op (dom (nodeMap c)).
Proof.
  intros Hwf. destruct op as [id | id]; simpl; destruct (nodeMap c !! id) as [ns |] eqn:Hm.
  - rewrite (Add_present c id ns), decide_True by (done || by apply elem_of_dom; eauto). eauto.
  - destruct (Add_wf c id Hwf Hm) as (c' & -> & Hwf' & _ & Hd).
    rewrite decide_False by (by apply not_elem_of_dom). rewrite <- Hd. eauto.
  - destruct (Remove_wf c id Hwf ltac:(eauto)) as (c' & -> & Hwf' & _ & Hd).
    rewrite decide_True by (apply elem_of_dom; eauto). rewrite <- Hd. eauto.
  - rewrite (Remove_absent c id), decide_False by (done || by apply not_elem_of_dom). eauto.
Qed.

(** C20: any sequence of [Add] and [Remove] on a fresh ring runs without a panic and
    without an internal error: each call succeeds exactly when the same call on a plain
    set of ids does, and the map's keys are that set. Colliding hashes change nothing. *)
Theorem ring_refines_set v ops :
  exists c oks, run_ops ops (NewConsistentHash2 v) = (Val oks, c) /\
    (oks, dom (nodeMap c)) = spec_ops ops ∅ /\ ring_wf c.
Proof.
  change (∅ : gset string) with (dom (nodeMap (NewConsistentHash2 v))).
  generalize (New_wf v). generalize (NewConsistentHash2 v).
  induction ops as [| op ops IH]; intros c Hwf; simpl; [by exists c, [] |].
  destruct (run_op_refines c op Hwf) as (err & c' & Hrun & Hwf' & <-).
  destruct (IH c' Hwf') as (c'' & oks & Hrun' & E & Hwf'').
  unfold bind. rewrite Hrun, Hrun', <- E. unfold ret. eauto 6.
Qed.

(** ** Looking a key up *)

(** The id of the real node that answers for a ring node. *)
Definition owner (n : Node) : option Node := if virtual n then real n else Some n.

Lemma get_node_run c h :
  sorted (nodes c) -> nodes c <> [] ->
  get_node (length (below h (nodes c))) c = (Val (ring_get h (nodes c) ≫= owner, nil_error), c).
Proof.
  intros Hs Hne. unfold get_node. rewrite decide_False by (by destruct (nodes c)).
  unfold ring_get. pose proof (below_above h (nodes c) Hs) as E.
  generalize dependent (below h (nodes c)). intros b E.
  destruct (above h (nodes c)) as [| x l].
  - rewrite app_nil_r in E. rewrite decide_True by (by rewrite <- E). rewrite last_lookup, <- Nat.sub_1_r.
    destruct (lookup_lt_is_Some_2 (nodes c) (length (nodes c) - 1)) as [n Hn];
      [destruct (nodes c); [done | simpl; lia] |].
    rewrite Hn. simpl. unfold owner. by destruct (virtual n).
  - rewrite decide_False by (rewrite E, length_app; simpl; lia).
    assert (nodes c !! length b = Some x) as -> by (rewrite E; by apply list_lookup_middle).
    simpl. unfold owner. by destruct (virtual x).
Qed.

Definition key_hash (data : string) : Z := Hash (bytes_of_string data) seed.

Lemma Get_run c data :
  sorted (nodes c) -> nodes c <> [] ->
  Get data c = (Val (ring_get (key_hash data) (nodes c) ≫= owner, nil_error), c).
Proof. intros Hs Hne. unfold Get, bind. rewrite findIndex_run by done. by apply get_node_run. Qed.

Lemma Get_empty c data : nodes c = [] -> Get data c = (Val (None, errNodeExist), c).
Proof.
  intros E. unfold Get, bind. rewrite findIndex_run by (rewrite E; constructor).
  unfold get_node. by rewrite E.
Qed.

Lemma last_app_ne {A} (l1 l2 : list A) : l2 <> [] -> last (l1 ++ l2) = last l2.
Proof. intros H. destruct (list_snoc_inv l2) as [-> | (l & x & ->)]; [done |]. by rewrite app_assoc, !last_snoc. Qed.

Lemma ring_get_ins h n ns :
  sorted ns -> ring_get h (ins n ns) = ring_get h ns \/ ring_get h (ins n ns) = Some n.
Proof.
  intros Hs. unfold ring_get. pose proof (below_above (hash n) ns Hs) as E.
  unfold ins. set (b := below (hash n) ns) in *. set (a := above (hash n) ns) in *.
  unfold above at 1 3. rewrite !filter_app, filter_cons, filter_nil.
  assert (Ea : above h ns = filter (fun x => h < hash x) b ++ filter (fun x => h < hash x) a).
  { rewrite E at 1. apply filter_app. }
  rewrite Ea. destruct (filter (fun x => h < hash x) b) as [| x l]; [| by left]. simpl.
  case_decide; [by right |]. simpl.
  destruct (filter (fun x => h < hash x) a) as [| x l]; [| by left].
  destruct a as [| y a'].
  - right. apply last_snoc.
  - left. rewrite E. by rewrite !last_app_ne.
Qed.

Lemma ring_get_ins_all h ns new :
  sorted ns -> ring_get h (ins_all ns new) = ring_get h ns \/
               exists n, n ∈ new /\ ring_get h (ins_all ns new) = Some n.
Proof.
  revert ns. induction new as [| n new IH]; intros ns Hs; [by left |].
  change (ins_all ns (n :: new)) with (ins_all (ins n ns) new).
  destruct (IH (ins n ns) (ins_sorted n ns Hs)) as [E | (n' & Hn' & E)].
  - rewrite E. destruct (ring_get_ins h n ns Hs) as [-> | ->]; [by left |]. right. exists n. set_solver.
  - right. exists n'. set_solver.
Qed.

Lemma entry_owner id v n : n ∈ entry_nodes id v -> owner n = Some (mkRealNode id).
Proof.
  unfold entry_nodes, virtual_nodes. intros [-> | Hn]%elem_of_cons; [done |].
  apply list_elem_of_fmap in Hn as (i & -> & _). done.
Qed.

Lemma ins_all_nonempty ns id v : sorted ns -> ins_all ns (entry_nodes id v) <> [].
Proof.
  intros Hs E. pose proof (ins_all_perm ns (entry_nodes id v) Hs) as Hp.
  rewrite E in Hp. by apply Permutation_nil_cons in Hp.
Qed.

(** adding a node moves keys only to that node. A key answered by some node before
    [Add id] is answered by the same node or by [id] after it. *)
Theorem Add_moves_keys_to_new_node c c' id data :
  ring_wf c -> nodes c <> [] -> Add id c = (Val nil_error, c') ->
  (Get data c').1 = (Get data c).1 \/
  (Get data c').1 = Val (Some (mkRealNode id), nil_error).
Proof.
  intros [Hs He Hh] Hne Hadd. destruct (nodeMap c !! id) as [ns |] eqn:Hm.
  { by rewrite (Add_present c id ns) in Hadd. }
  rewrite Add_run in Hadd by done. simplify_eq.
  rewrite !Get_run by (simpl; auto using ins_all_sorted, ins_all_nonempty). simpl.
  destruct (ring_get_ins_all (key_hash data) (nodes c)
    (entry_nodes id (Z.to_nat (virtual_count c))) Hs) as [-> | (n & Hn & ->)]; [by left |].
  right. simpl. by rewrite (entry_owner id _ n Hn).
Qed.

(** ** Distinct hashes *)

(** The ring nodes are exactly those of the map's entries. *)
Definition ring_exact (c : ConsistentHash) : Prop :=
  nodes c ≡ₚ map_to_list (nodeMap c) ≫= fun '(id, _) => entry_nodes id (Z.to_nat (virtual_count c)).

Lemma Add_exact c c' id :
  ring_wf c -> ring_exact c -> nodeMap c !! id = None -> Add id c = (Val nil_error, c') -> ring_exact c'.
Proof.
  intros [Hs _ _] Hx Hm Hadd. rewrite Add_run in Hadd by done. simplify_eq.
  unfold ring_exact in *. simpl. rewrite ins_all_perm, map_to_list_insert by done. simpl. by rewrite Hx.
Qed.

Lemma del_filter ns h n :
  sorted ns -> NoDup (hash <$> ns) -> n ∈ ns -> hash n = h ->
  del h ns = filter (fun x => hash x <> h) ns.
Proof.
  intros Hs Hnd Hin Hh. destruct (below_last h ns n Hs Hin Hh) as (l & y & E & Hy).
  pose proof (below_above h ns Hs) as En. unfold del. rewrite E, removelast_snoc in *.
  assert (Ha : forall x, x ∈ above h ns -> hash x <> h) by (intros x Hx%elem_of_above; lia).
  generalize dependent (above h ns). intros a En Ha. rewrite En in Hnd |- *.
  rewrite !filter_app, filter_cons_False, filter_nil by (intros C; done).
  rewrite (filter_all _ a Ha), app_nil_r. f_equal. symmetry. apply filter_all.
  intros x Hx Hxh. rewrite !fmap_app in Hnd. apply NoDup_app in Hnd as (Hnd & _ & _).
  apply NoDup_app in Hnd as (_ & Hnd & _). apply (Hnd (hash x)); [by apply list_elem_of_fmap_2 |].
  simpl. rewrite Hxh, Hy. constructor.
Qed.

Lemma del_all_filter ns hs :
  sorted ns -> NoDup (hash <$> ns) -> NoDup hs -> (forall h, h ∈ hs -> h ∈ hash <$> ns) ->
  del_all ns hs = filter (fun x => hash x ∉ hs) ns.
Proof.
  revert ns. induction hs as [| h hs IH]; intros ns Hs Hnd Hndh Hin.
  - symmetry. apply filter_all. set_solver.
  - apply NoDup_cons in Hndh as [Hh Hndh].
    destruct (proj1 (list_elem_of_fmap _ _ _) (Hin h ltac:(set_solver))) as (n & Hn & Hnin).
    change (del_all ns (h :: hs)) with (del_all (del h ns) hs).
    assert (Ed : del h ns = filter (fun x => hash x <> h) ns) by (by eapply del_filter).
    rewrite IH; [| by apply del_sorted | | done |].
    + rewrite Ed, list_filter_filter. apply list_filter_iff. intros x. rewrite not_elem_of_cons. tauto.
    + rewrite <- (del_perm ns h n) in Hnd by done. by apply NoDup_cons in Hnd as [_ Hnd].
    + intros k Hk. rewrite Ed. specialize (Hin k ltac:(set_solver)).
      apply list_elem_of_fmap in Hin as (x & -> & Hx). apply list_elem_of_fmap_2, list_elem_of_filter.
      split; [| done]. intros E. congruence.
Qed.

Lemma ring_get_filter h ns P `{!forall x : Node, Decision (P x)} x :
  ring_get h ns = Some x -> P x -> ring_get h (filter P ns) = Some x.
Proof.
  unfold ring_get. intros E HP.
  assert (Ea : above h (filter P ns) = filter P (above h ns)).
  { unfold above. rewrite !list_filter_filter. apply list_filter_iff. intros y. tauto. }
  rewrite Ea. destruct (above h ns) as [| y l].
  - simpl. apply last_Some in E as [l ->]. rewrite filter_app, filter_cons_True by done. apply last_snoc.
  - simplify_eq. by rewrite filter_cons_True.
Qed.

Lemma NoDup_fmap_eq {A B} (f : A -> B) l x y :
  NoDup (f <$> l) -> x ∈ l -> y ∈ l -> f x = f y -> x = y.
Proof.
  intros Hnd [i Hi]%list_elem_of_lookup [j Hj]%list_elem_of_lookup E.
  assert (i = j) as ->; [| by simplify_eq].
  apply (NoDup_lookup _ i j (f x) Hnd); rewrite list_lookup_fmap; [by rewrite Hi | by rewrite Hj, E].
Qed.

Lemma elem_of_ring c n :
  ring_exact c -> n ∈ nodes c <->
  exists id, id ∈ dom (nodeMap c) /\ n ∈ entry_nodes id (Z.to_nat (virtual_count c)).
Proof.
  unfold ring_exact. intros Hx. rewrite Hx, list_elem_of_bind. split.
  - intros ([id ns] & Hn & Hin%elem_of_map_to_list). exists id. split; [apply elem_of_dom; eauto | done].
  - intros (id & [ns Hm]%elem_of_dom & Hn). exists (id, ns). split; [done | by apply elem_of_map_to_list].
Qed.

(** Without collisions, [Remove id] leaves exactly the ring nodes of the other ids. *)
Lemma Remove_filter c id :
  ring_wf c -> ring_exact c -> NoDup (hash <$> nodes c) -> is_Some (nodeMap c !! id) ->
  exists c', Remove id c = (Val nil_error, c') /\ sorted (nodes c') /\
    nodes c' = filter (fun x => hash x ∉ hash <$> entry_nodes id (Z.to_nat (virtual_count c))) (nodes c).
Proof.
  intros [Hs He Hh] Hx Hnd [ns Hm]. destruct (He _ _ Hm) as [En Ev].
  set (hs := (hash <$> virtuals ns) ++ [hash (nd ns)]).
  assert (Hperm : hs ≡ₚ hash <$> entry_nodes id (Z.to_nat (virtual_count c))).
  { unfold hs. rewrite En, Ev. by rewrite Permutation_app_comm. }
  assert (Hsub : hs ⊆+ hash <$> nodes c).
  { rewrite Hh, (ring_hashes_delete _ _ id ns), Hperm by done. by apply submseteq_inserts_r. }
  rewrite (Remove_run c id ns) by done. eexists. split; [done |]. simpl. fold hs.
  split; [by apply del_all_sorted |]. rewrite del_all_filter; [| done | done | |].
  - apply list_filter_iff. intros x. by rewrite Hperm.
  - apply submseteq_Permutation in Hsub as [k Hk]. rewrite Hk in Hnd. by apply NoDup_app in Hnd as [? _].
  - intros h Hin. by eapply elem_of_submseteq.
Qed.

Lemma other_owner_hash c id id' x :
  ring_exact c -> NoDup (hash <$> nodes c) -> id ∈ dom (nodeMap c) ->
  x ∈ nodes c -> owner x = Some (mkRealNode id') -> id' <> id ->
  hash x ∉ hash <$> entry_nodes id (Z.to_nat (virtual_count c)).
Proof.
  intros Hx Hnd Hid Hin Ho Hne (y & E & Hy)%list_elem_of_fmap.
  assert (Hyin : y ∈ nodes c) by (apply elem_of_ring; eauto).
  assert (x = y) as -> by (by eapply NoDup_fmap_eq). rewrite (entry_owner id _ y Hy) in Ho.
  unfold mkRealNode in Ho. by simplify_eq.
Qed.

Lemma ring_get_elem h ns x : ring_get h ns = Some x -> x ∈ ns.
Proof.
  unfold ring_get. destruct (above h ns) as [| y l] eqn:Ea.
  - intros E. apply last_Some in E as [l ->]. set_solver.
  - intros E. simplify_eq. assert (Hy : x ∈ above h ns) by (rewrite Ea; constructor).
    apply elem_of_above in Hy. tauto.
Qed.

Lemma ring_get_some h ns : ns <> [] -> is_Some (ring_get h ns).
Proof. intros Hne. unfold ring_get. destruct (above h ns); [by apply last_is_Some | eauto]. Qed.

(** A non-empty ring whose nodes are those of its entries always answers with the real
    node of one of them. *)
Lemma Get_member c data :
  ring_wf c -> ring_exact c -> nodes c <> [] ->
  exists id, id ∈ dom (nodeMap c) /\ Get data c = (Val (Some (mkRealNode id), nil_error), c).
Proof.
  intros [Hs _ _] Hx Hne. rewrite Get_run by done.
  destruct (ring_get_some (key_hash data) (nodes c) Hne) as [x E].
  pose proof (ring_get_elem _ _ _ E) as Hin. apply (elem_of_ring c x Hx) in Hin as (id & Hid & Hin).
  exists id. split; [done |]. rewrite E. simpl. by rewrite (entry_owner id _ x Hin).
Qed.

Definition hcount (h : Z) (hs : list Z) : nat := length (filter (fun k => k = h) hs).

Lemma group_hcount h ns : length (group h ns) = hcount h (hash <$> ns).
Proof.
  unfold group, hcount. induction ns as [| n ns IH]; [done |].
  rewrite fmap_cons, !filter_cons. by case_decide; simpl; rewrite IH.
Qed.

Lemma removelast_take {A} (l : list A) : removelast l = take (length l - 1) l.
Proof. rewrite Nat.sub_1_r. apply removelast_firstn_len. Qed.

Lemma group_del_all h ns hs :
  sorted ns -> hs ⊆+ hash <$> ns ->
  group h (del_all ns hs) = take (length (group h ns) - hcount h hs) (group h ns).
Proof.
  revert ns. induction hs as [| k hs IH]; intros ns Hs Hsub.
  - change (hcount h []) with 0%nat. by rewrite Nat.sub_0_r, take_ge.
  - change (del_all ns (k :: hs)) with (del_all (del k ns) hs).
    assert (Hin : k ∈ hash <$> ns) by (eapply elem_of_submseteq; [constructor | done]).
    apply list_elem_of_fmap in Hin as (x & Hx & Hin).
    rewrite <- (del_perm ns k x) in Hsub by done. apply (submseteq_app_inv_l _ _ [k]) in Hsub.
    rewrite IH by auto using del_sorted. rewrite (group_del k h ns x) by done.
    unfold hcount. rewrite (filter_cons _ k hs). case_decide as Hd.
    + rewrite decide_True by done. subst h. rewrite removelast_take, length_take, take_take.
      f_equal. simpl. lia.
    + by rewrite decide_False.
Qed.

(** ** Removing the node just added *)

(** [Remove id] right after a successful [Add id] restores the ring exactly, even when the
    new nodes collide with existing ones: the search returns the last node of a group
    and new nodes are inserted at the end of theirs. *)
Theorem Remove_undoes_Add c c1 id :
  ring_wf c -> nodeMap c !! id = None -> Add id c = (Val nil_error, c1) ->
  Remove id c1 = (Val nil_error, c).
Proof.
  intros Hwf Hm Hadd. pose proof (Add_wf c id Hwf Hm) as (c2 & Hadd' & Hwf1 & _).
  rewrite Hadd in Hadd'. simplify_eq. destruct Hwf as [Hs He Hh].
  rewrite Add_run in Hadd by done. simplify_eq. simpl in *.
  set (v := Z.to_nat (virtual_count c)) in *. set (ns := ins_all _ _) in *.
  assert (Hns : sorted ns) by (by apply ins_all_sorted).
  set (hs := (hash <$> virtual_nodes id v) ++ [hash (mkRealNode id)]).
  assert (Hperm : hs ≡ₚ hash <$> entry_nodes id v) by (unfold hs; by rewrite Permutation_app_comm).
  assert (Hsub : hs ⊆+ hash <$> ns).
  { unfold ns. rewrite ins_all_perm, fmap_app, Hperm by done. by apply submseteq_inserts_r. }
  erewrite Remove_run; [| done | simpl; apply lookup_insert_eq | done].
  cbn [nodes virtuals nd nodeMap virtual_count]. fold hs.
  rewrite delete_insert_id by done. do 2 f_equal. destruct c as [n0 m0 v0]. simpl in *. f_equal.
  apply sorted_ext; [by apply del_all_sorted | done |]. intros h.
  rewrite group_del_all by done. unfold ns. rewrite group_ins_all by done.
  assert (Hc : hcount h hs = length (group h (entry_nodes id v))).
  { rewrite group_hcount. unfold hcount. by rewrite Hperm. }
  rewrite Hc, length_app, Nat.add_sub. apply take_app_length.
Qed.

Lemma Remove_undoes_Add_witness :
  exists c c1, ring_wf c /\ nodes c <> [] /\ Add "B" c = (Val nil_error, c1) /\
    Remove "B" c1 = (Val nil_error, c).
Proof.
  pose proof (Add_wf (NewConsistentHash2 2) "A" (New_wf 2) eq_refl) as (c & Hadd & Hwf & _).
  assert (Ec : c = (Add "A" (NewConsistentHash2 2)).2) by (by rewrite Hadd).
  assert (Hm : nodeMap c !! "B" = None) by (rewrite Ec; by vm_compute).
  pose proof (Add_wf c "B" Hwf Hm) as (c1 & Hadd1 & _).
  exists c, c1. split; [exact Hwf |]. split; [by rewrite Ec; vm_compute |].
  split; [exact Hadd1 |]. exact (Remove_undoes_Add c c1 "B" Hwf Hm Hadd1).
Defined.

(** ** Consistency under removal *)

(** without hash collisions, removing a node leaves every key of another node where it is. *)
Theorem Remove_keeps_other_keys c c' id id' data :
  ring_wf c -> ring_exact c -> NoDup (hash <$> nodes c) ->
  Remove id c = (Val nil_error, c') ->
  (Get data c).1 = Val (Some (mkRealNode id'), nil_error) -> id' <> id ->
  (Get data c').1 = Val (Some (mkRealNode id'), nil_error).
Proof.
  intros Hwf Hx Hnd Hrem Hget Hne. destruct (nodeMap c !! id) as [ns |] eqn:Hm.
  2: { by rewrite (Remove_absent c id Hm) in Hrem. }
  destruct (Remove_filter c id Hwf Hx Hnd ltac:(eauto)) as (c2 & Hrem' & Hs' & En).
  rewrite Hrem in Hrem'. simplify_eq. destruct Hwf as [Hs _ _].
  assert (Hne0 : nodes c <> []).
  { intros E. by rewrite (Get_empty c data E) in Hget. }
  rewrite Get_run in Hget by done. simpl in Hget.
  destruct (ring_get (key_hash data) (nodes c)) as [x |] eqn:Ex; [| done]. simpl in Hget.
  injection Hget as Ho. pose proof (other_owner_hash c id id' x Hx Hnd ltac:(apply elem_of_dom; eauto)
    (ring_get_elem _ _ _ Ex) Ho Hne) as Hh.
  assert (Ex' : ring_get (key_hash data) (nodes c2) = Some x).
  { rewrite En. by apply ring_get_filter. }
  rewrite Get_run; [by rewrite Ex'; simpl; rewrite Ho | done |].
  intros E. apply ring_get_elem in Ex'. rewrite E in Ex'. inversion Ex'.
Qed.

Definition demo_ring (ids : list string) (v : Z) : ConsistentHash :=
  (run_ops (OpAdd <$> ids) (NewConsistentHash2 v)).2.

Lemma run_ops_cons op ops c err c' :
  run_op op c = (Val err, c') -> (run_ops (op :: ops) c).2 = (run_ops ops c').2.
Proof. intros E. simpl. unfold bind. rewrite E. by destruct (run_ops ops c') as [[|]]. Qed.

(** A ring grown by [Add] alone is exact. *)
Lemma demo_ring_ok ids v : ring_wf (demo_ring ids v) /\ ring_exact (demo_ring ids v).
Proof.
  unfold demo_ring. assert (H0 : ring_wf (NewConsistentHash2 v) /\ ring_exact (NewConsistentHash2 v)).
  { split; [apply New_wf |]. unfold ring_exact. simpl. by rewrite map_to_list_empty. }
  revert H0. generalize (NewConsistentHash2 v). induction ids as [| id ids IH]; intros c [Hwf Hx]; [done |].
  rewrite fmap_cons. destruct (nodeMap c !! id) as [ns |] eqn:Hm.
  - erewrite run_ops_cons; [by apply IH |]. by apply (Add_present c id ns).
  - destruct (Add_wf c id Hwf Hm) as (c1 & E & Hwf1 & _).
    erewrite run_ops_cons; [| exact E]. apply IH. split; [done |]. exact (Add_exact c c1 id Hwf Hx Hm E).
Qed.

Lemma Add_moves_keys_to_new_node_witness :
  exists c c', Add "C" c = (Val nil_error, c') /\ nodes c <> [] /\
  ((Get "7" c').1 = (Get "7" c).1 \/ (Get "7" c').1 = Val (Some (mkRealNode "C"), nil_error)).
Proof.
  set (c := demo_ring ["A"; "B"] 3). exists c, (Add "C" c).2.
  assert (E : Add "C" c = (Val nil_error, (Add "C" c).2)) by (by vm_compute).
  assert (Hne : nodes c <> []) by (by vm_compute).
  split; [exact E |]. split; [exact Hne |].
  exact (Add_moves_keys_to_new_node c _ "C" "7" (proj1 (demo_ring_ok ["A"; "B"] 3)) Hne E).
Defined.

Lemma Remove_keeps_other_keys_witness :
  exists c c', Remove "A" c = (Val nil_error, c') /\
    (Get "1" c).1 = Val (Some (mkRealNode "B"), nil_error) /\
    (Get "1" c').1 = Val (Some (mkRealNode "B"), nil_error).
Proof.
  set (c := demo_ring ["A"; "B"; "C"] 3). exists c, (Remove "A" c).2.
  assert (E : Remove "A" c = (Val nil_error, (Remove "A" c).2)) by (by vm_compute).
  assert (G : (Get "1" c).1 = Val (Some (mkRealNode "B"), nil_error)) by (by vm_compute).
  split; [exact E |]. split; [exact G |].
  refine (Remove_keeps_other_keys c _ "A" "B" "1" (proj1 (demo_ring_ok ["A"; "B"; "C"] 3))
    (proj2 (demo_ring_ok ["A"; "B"; "C"] 3)) _ E G _); [| done].
  apply (bool_decide_unpack _). by vm_compute.
Defined.

(** when the hashes of two ids collide, [Remove] takes the other id's ring point: the removed
    node keeps answering for keys although the map no longer knows it. *)
Theorem Remove_collision_keeps_removed_node :
  exists c, run_ops [OpAdd "node53351"; OpAdd "node122883"; OpRemove "node53351"]
              (NewConsistentHash2 1) = (Val [true; true; true], c) /\
    nodeMap c !! "node53351" = None /\
    Get "bob" c = (Val (Some (mkRealNode "node53351"), nil_error), c).
Proof. eexists. split; [by vm_compute |]. split; by vm_compute. Qed.
