(* ===== verification/TimingWheel.v ===== *)
(** * The hierarchical timing wheel of [pkg/timingwheel/timingwheel.go]

    A wheel of the Go code is a ring of slots and a pointer [slot] to the current one;
    wheels are linked by [parent] and [child]. Here the wheels are a list, level 0
    being the leaf (the wheel without a child) and the last one the wheel
    [TimingWheel.wheel] points to; a ring is a list of slots and the index of the
    current one. Tasks are shared by reference: a slot holds task references
    ([nat]) and the tasks live in a store, where their [offset] and their slot
    pointer [s] are updated in place.

    [Executor] starts a goroutine; the tasks given to it wait in [pending] until
    [run_executor] runs them. The observable effects of a task, the call of its
    callback and the signal on its channel, are appended to [trace].

    A slot's [map[*Task]interface{}] is a [gset]; Go iterates over it in an
    unspecified order, here the order of [elements]. *)

From S2P Require Import Prelude.

Local Open Scope Z_scope.
Local Open Scope go_scope.

Record Task := MkTask {
  offset : Z;
  s : option (nat * nat);  (* the level and ring index of the slot that holds it *)
  fn : bool;               (* a callback is set *)
  at_ : Z }.

Record wheel := MkWheel {
  slotCap : Z;
  remain : Z;
  circulate : bool;
  cur : nat;
  slots : list (gset nat) }.

Inductive event := Callback_called (v : nat) | Signalled (v : nat).

Record tw_state := MkTW {
  wheels : list wheel;
  tasks : gmap nat Task;
  pending : list nat;
  trace : list event;
  interval : Z;     (* nanoseconds *)
  maxTimeout : Z }.

Definition set_wheels (l : list wheel) (st : tw_state) : tw_state :=
  MkTW l (tasks st) (pending st) (trace st) (interval st) (maxTimeout st).
Definition set_tasks (m : gmap nat Task) (st : tw_state) : tw_state :=
  MkTW (wheels st) m (pending st) (trace st) (interval st) (maxTimeout st).
Definition set_pending (l : list nat) (st : tw_state) : tw_state :=
  MkTW (wheels st) (tasks st) l (trace st) (interval st) (maxTimeout st).
Definition add_trace (l : list event) (st : tw_state) : tw_state :=
  MkTW (wheels st) (tasks st) (pending st) (trace st ++ l) (interval st) (maxTimeout st).

Definition set_slots (l : list (gset nat)) (w : wheel) : wheel :=
  MkWheel (slotCap w) (remain w) (circulate w) (cur w) l.
Definition set_remain (r : Z) (w : wheel) : wheel :=
  MkWheel (slotCap w) r (circulate w) (cur w) (slots w).
Definition set_cur (i : nat) (w : wheel) : wheel :=
  MkWheel (slotCap w) (remain w) (circulate w) i (slots w).

Definition set_offset (o : Z) (t : Task) : Task := MkTask o (s t) (fn t) (at_ t).
Definition set_s (p : option (nat * nat)) (t : Task) : Task := MkTask (offset t) p (fn t) (at_ t).
Definition set_fn (b : bool) (t : Task) : Task := MkTask (offset t) (s t) b (at_ t).

(** Dereferences; a dangling reference panics as a nil pointer would. *)
Definition get_wheel (k : nat) : GoM tw_state wheel := fun st =>
  match wheels st !! k with Some w => (Val w, st) | None => (Panics "nil wheel", st) end.
Definition get_task (v : nat) : GoM tw_state Task := fun st =>
  match tasks st !! v with Some t => (Val t, st) | None => (Panics "nil task", st) end.

Definition upd_wheel (k : nat) (f : wheel -> wheel) : GoM tw_state unit :=
  modify (fun st => set_wheels (alter f k (wheels st)) st).
Definition upd_task (v : nat) (f : Task -> Task) : GoM tw_state unit :=
  modify (fun st => set_tasks (alter f v (tasks st)) st).

(** ** Slots *)

Definition slot_remove (k j v : nat) : GoM tw_state unit :=
  upd_wheel k (fun w => set_slots (alter (fun vs => vs ∖ {[v]}) j (slots w)) w).

Definition slot_store (k j v : nat) : GoM tw_state unit :=
  upd_wheel k (fun w => set_slots (alter (fun vs => {[v]} ∪ vs) j (slots w)) w) ;;;
  upd_task v (set_s (Some (k, j))).

(** [slot.put] from ring index [j] of level [k]: walks [off] slots ahead; an offset that
    does not fit is returned, reduced, and nothing is stored. *)
Fixpoint slot_put_nat (k j off v : nat) : GoM tw_state Z :=
  let! w := get_wheel k in
  let len := length (slots w) in
  if negb (circulate w) && bool_decide (j = len) && bool_decide (0 < off)%nat
  then ret (Z.of_nat off)
  else
    match off with
    | O => slot_store k j v ;;; ret 0
    | S off' =>
        if decide (len <= off)%nat then ret (Z.of_nat off - Z.of_nat len)
        else slot_put_nat k ((j + 1) mod len)%nat off' v
    end.

Definition slot_put (k j : nat) (off : Z) (v : nat) : GoM tw_state Z :=
  if decide (off < 0) then panic "offset less the zero"
  else slot_put_nat k j (Z.to_nat off) v.

(** ** Tasks *)

Definition Cancel (v : nat) : GoM tw_state unit :=
  let! t := get_task v in
  match s t with
  | Some (k, j) => slot_remove k j v ;;; upd_task v (set_s None)
  | None => ret tt
  end.

Definition Callback (v : nat) : GoM tw_state unit := upd_task v (set_fn true).

(** [Task.call] hands the task to the executor. *)
Definition call (v : nat) : GoM tw_state unit :=
  let! t := get_task v in
  match s t with
  | None => ret tt
  | Some _ => modify (fun st => set_pending (pending st ++ [v]) st)
  end.

(** The body of the goroutine [call] starts. *)
Definition exec (v : nat) : GoM tw_state unit :=
  Cancel v ;;;
  let! t := get_task v in
  (if fn t then modify (add_trace [Callback_called v]) else ret tt) ;;;
  modify (add_trace [Signalled v]).

Definition run_executor : GoM tw_state unit :=
  let! vs := gets pending in
  modify (set_pending []) ;;;
  foreach vs exec.

(** ** Wheels *)

Definition slotAt (k : nat) : GoM tw_state (list nat) :=
  let! w := get_wheel k in
  match slots w !! cur w with
  | Some vs => ret (elements vs)
  | None => panic "nil slot"
  end.

(** [slot.callAndRm]; despite its name it removes nothing itself: the executor's
    [Cancel] does. *)
Definition callAndRm (k : nat) : GoM tw_state unit :=
  let! vs := slotAt k in foreach vs call.

(** [wheel.tick] up the parent chain; [fuel] bounds the number of wheels above. *)
Fixpoint tick (fuel k : nat) : GoM tw_state unit :=
  match fuel with
  | O => ret tt
  | S fuel' =>
      let! ws := gets wheels in
      if decide (S k < length ws)%nat then
        upd_wheel k (fun w =>
          let r := remain w - 1 in
          set_remain (if r <=? 0 then slotCap w * Z.of_nat (length (slots w)) else r) w) ;;;
        tick fuel' (S k)
      else ret tt
  end.

Fixpoint wheel_put (k v : nat) : GoM tw_state unit :=
  let! w := get_wheel k in
  let! t := get_task v in
  let sl := offset t / slotCap w in
  if sl =? 0 then
    match k with
    | O => call v
    | S k' => wheel_put k' v
    end
  else
    match k with
    | O => ret tt
    | S k' =>
        let! c := get_wheel k' in
        upd_task v (set_offset (offset t - ((sl - 1) * slotCap w + remain c - 1) - 1))
    end ;;;
    let! _ := slot_put k (cur w) sl v in
    ret tt.

Fixpoint wheel_put2 (k v : nat) : GoM tw_state unit :=
  let! w := get_wheel k in
  let! t := get_task v in
  let sl := offset t / slotCap w in
  if sl =? 0 then
    match k with
    | S k' =>
        let! c := get_wheel k' in
        if offset t <? remain c then wheel_put2 k' v
        else
          upd_task v (set_offset (offset t - remain c)) ;;;
          let! _ := slot_put k (cur w) 1 v in ret tt
    | O =>
        let! _ := slot_put k (cur w) sl v in
        call v
    end
  else
    match k with
    | S k' =>
        let! c := get_wheel k' in
        let o := offset t - ((sl - 1) * slotCap w + remain c - 1) - 1 in
        let '(sl, o) := if slotCap w <=? o then (sl + 1, o - slotCap w) else (sl, o) in
        upd_task v (set_offset o) ;;;
        let! _ := slot_put k (cur w) sl v in ret tt
    | O => let! _ := slot_put k (cur w) sl v in ret tt
    end.

Definition advance (k : nat) : GoM tw_state unit :=
  upd_wheel k (fun w => set_cur ((cur w + 1) mod length (slots w))%nat w).

(** [for _, v := range w.slot.valueArray() { w.slot.remove(v); w.child.put(v) }]
    for the wheel above level [k']. *)
Definition drain (k' : nat) : GoM tw_state unit :=
  let! w := get_wheel (S k') in
  let! vs := slotAt (S k') in
  foreach vs (fun v => slot_remove (S k') (cur w) v ;;; wheel_put k' v).

Definition at_start (k : nat) : GoM tw_state bool :=
  let! w := get_wheel k in ret (bool_decide (cur w = 0%nat)).

Fixpoint wheel_move (k : nat) : GoM tw_state bool :=
  match k with
  | O =>
      let! ws := gets wheels in
      tick (length ws) 0 ;;;
      advance 0 ;;;
      callAndRm 0 ;;;
      at_start 0
  | S k' =>
      drain k' ;;;
      let! wrapped := wheel_move k' in
      if wrapped : bool then
        advance k ;;;
        drain k' ;;;
        at_start k
      else ret false
  end.

(** ** The timing wheel *)

(** [newWheel(buckets, dep, wheels, _)]; [newSlot] returns the last slot of the ring. *)
Definition newWheel (buckets dep wheels : nat) : wheel :=
  let cap := Z.of_nat buckets ^ Z.of_nat dep / Z.of_nat buckets in
  {| slotCap := cap;
     remain := if decide (dep = wheels) then cap * Z.of_nat buckets else 0;
     circulate := bool_decide (dep = wheels);
     cur := (buckets - 1)%nat;
     slots := replicate buckets ∅ |}.

Definition NewTimingWheel (itv : Z) (nwheels nslots : nat) : tw_state :=
  {| wheels := (fun i => newWheel nslots i nwheels) <$> seq 1 nwheels;
     tasks := ∅; pending := []; trace := [];
     interval := itv;
     maxTimeout := int64 (itv * Z.of_nat nwheels ^ Z.of_nat nslots) |}.

Definition onTicker : GoM tw_state bool :=
  let! ws := gets wheels in wheel_move (length ws - 1).

(** [time.Duration.Milliseconds]. *)
Definition Milliseconds (d : Z) : Z := Z.quot d 1000000.

(** The offset in ticks of a timeout: the quotient rounded to the nearest integer. *)
Definition tick_offset (timeout itv : Z) : Z :=
  (2 * Milliseconds timeout + Milliseconds itv) / (2 * Milliseconds itv).

(** [After] at time [now], for the task reference [v] the allocation returns. *)
Definition After (v : nat) (now timeout : Z) : GoM tw_state nat :=
  let! st := get in
  if decide (maxTimeout st <= timeout) then panic "maxTimeout"
  else
    let t := {| offset := tick_offset timeout (interval st); s := None; fn := false;
                at_ := now + timeout |} in
    modify (fun st => set_tasks (<[v := t]> (tasks st)) st) ;;;
    wheel_put2 (length (wheels st) - 1) v ;;;
    ret v.

(** One tick of the ticker, the executor's goroutines having run before the next. *)
Definition tick_round : GoM tw_state unit := let! _ := onTicker in run_executor.
Fixpoint ticks (n : nat) : GoM tw_state unit :=
  match n with O => ret tt | S n' => tick_round ;;; ticks n' end.


(** ** The goroutine of the wheel

    [run] waits for a tick or for [quit], which [Stop] closes; a [select] that can take both takes either. *)

Record tw_run := MkTwRun {
  quit : bool;                       (* [w.quit] is closed *)
  looping : bool;                    (* the goroutine has not returned, and the ticker is not stopped *)
  tw_of : tw_state }.

Definition Stop : GoM tw_run unit :=
  let! w := get in
  if quit w then panic "close of closed channel" else put (MkTwRun true (looping w) (tw_of w)).

Inductive run_step : tw_run -> tw_run -> Prop :=
  | run_tick q st st' : tick_round st = (Val tt, st') -> run_step (MkTwRun q true st) (MkTwRun q true st')
  | run_quit st : run_step (MkTwRun true true st) (MkTwRun true false st).

(** The goroutine returns only when it was asked to, and from then on nothing moves: a task that has not fired
    never does. Until [Stop], only ticks happen. *)
Lemma run_until_Stop w w' :
  rtc run_step w w' ->
  quit w' = quit w /\ (looping w = false -> w' = w) /\
  (looping w = true -> quit w = false -> looping w' = true /\ exists n, ticks n (tw_of w) = (Val tt, tw_of w')).
Proof.
  induction 1 as [w | w w1 w2 Hs Hr (Hq & Hdead & Hlive)].
  - split_and!; [done | done |]. intros Hl _. split; [done |]. by exists O.
  - destruct Hs as [q st st' Ht | st]; cbn in *.
    + split_and!; [done | done |]. intros _ Hq0. destruct (Hlive eq_refl Hq0) as [Hl [n Hn]]. split; [done |].
      exists (Datatypes.S n). cbn [ticks]. by rewrite (bind_Val _ _ _ _ _ Ht).
    + split_and!; [done | done | done].
Qed.

(** [Stop] ends the goroutine at its next choice of [quit]; a second [Stop] panics. *)
Lemma Stop_ends st :
  Stop (MkTwRun false true st) = (Val tt, MkTwRun true true st) /\
  run_step (MkTwRun true true st) (MkTwRun true false st) /\
  forall l st', Stop (MkTwRun true l st') = (Panics "close of closed channel", MkTwRun true l st').
Proof. split_and!; [done | apply run_quit | done]. Qed.
