(* ===== verification/TimingWheelInv.v ===== *)
(** * The invariant of the timing wheels

    The ring arithmetic of [TimingWheel]: what the primitive steps do, the invariant
    [steady] that places every pending task by the digits of its deadline in base
    "slots per wheel", and its preservation by [put], [put2], [move], the executor,
    [After], [Cancel] and [Callback]. *)

From S2P Require Import Prelude TimingWheel.

Local Open Scope Z_scope.
Local Open Scope go_scope.

(** ** Running the primitive steps *)

Lemma get_wheel_run st k w : wheels st !! k = Some w -> get_wheel k st = (Val w, st).
Proof. intros H. unfold get_wheel. by rewrite H. Qed.

Lemma get_task_run st v t : tasks st !! v = Some t -> get_task v st = (Val t, st).
Proof. intros H. unfold get_task. by rewrite H. Qed.

(** [v] is stored in ring slot [j] of level [k]. *)
Definition in_slot (st : tw_state) (k j v : nat) : Prop :=
  exists w vs, wheels st !! k = Some w /\ slots w !! j = Some vs /\ v ∈ vs.

Definition store (k j v : nat) (st : tw_state) : tw_state :=
  set_tasks (alter (set_s (Some (k, j))) v (tasks st))
    (set_wheels (alter (fun w => set_slots (alter (fun vs => {[v]} ∪ vs) j (slots w)) w) k (wheels st)) st).

Definition unstore (k j v : nat) (st : tw_state) : tw_state :=
  set_wheels (alter (fun w => set_slots (alter (fun vs => vs ∖ {[v]}) j (slots w)) w) k (wheels st)) st.

Lemma slot_store_run k j v st : slot_store k j v st = (Val tt, store k j v st).
Proof. done. Qed.

Lemma slot_remove_run k j v st : slot_remove k j v st = (Val tt, unstore k j v st).
Proof. done. Qed.

Lemma in_slot_store st k j v w k' j' v' :
  wheels st !! k = Some w -> (j < length (slots w))%nat ->
  in_slot (store k j v st) k' j' v' <-> in_slot st k' j' v' \/ (k' = k /\ j' = j /\ v' = v).
Proof.
  intros Hw Hj. destruct (lookup_lt_is_Some_2 (slots w) j Hj) as [vs Hvs].
  unfold in_slot, store. simpl. split.
  - intros (w' & vs' & Hw' & Hvs' & Hin). destruct (decide (k' = k)) as [-> | Hk].
    + rewrite list_lookup_alter_eq, Hw in Hw'. simplify_eq/=.
      destruct (decide (j' = j)) as [-> | Hjj].
      * rewrite list_lookup_alter_eq, Hvs in Hvs'. simplify_eq/=.
        apply elem_of_union in Hin as [->%elem_of_singleton | Hin]; [by right | left; eauto].
      * rewrite list_lookup_alter_ne in Hvs' by congruence. left; eauto.
    + rewrite list_lookup_alter_ne in Hw' by congruence. left; eauto.
  - intros [(w' & vs' & Hw' & Hvs' & Hin) | (-> & -> & ->)].
    + destruct (decide (k' = k)) as [-> | Hk].
      * simplify_eq. rewrite list_lookup_alter_eq, Hw. destruct (decide (j' = j)) as [-> | Hjj].
        -- eexists _, _. split; [done |]. simpl. rewrite list_lookup_alter_eq, Hvs'.
           split; [done |]. set_solver.
        -- eexists _, _. split; [done |]. simpl. rewrite list_lookup_alter_ne by congruence.
           split; eassumption.
      * rewrite list_lookup_alter_ne by congruence. eexists _, _. split_and!; eassumption.
    + rewrite list_lookup_alter_eq, Hw. eexists _, _. split; [done |]. simpl.
      rewrite list_lookup_alter_eq, Hvs. split; [done |]. set_solver.
Qed.

Lemma in_slot_unstore st k j v k' j' v' :
  in_slot (unstore k j v st) k' j' v' <-> in_slot st k' j' v' /\ ~ (k' = k /\ j' = j /\ v' = v).
Proof.
  unfold in_slot, unstore. simpl. split.
  - intros (w' & vs' & Hw' & Hvs' & Hin). destruct (decide (k' = k)) as [-> | Hk].
    + rewrite list_lookup_alter_eq in Hw'. destruct (wheels st !! k) as [w |] eqn:Hw; simplify_eq/=.
      destruct (decide (j' = j)) as [-> | Hjj].
      * rewrite list_lookup_alter_eq in Hvs'. destruct (slots w !! j) as [vs |] eqn:Hvs; simplify_eq/=.
        apply elem_of_difference in Hin as [Hin Hne]. split; [eauto |].
        intros (_ & _ & ->). set_solver.
      * rewrite list_lookup_alter_ne in Hvs' by congruence. split; [eauto | intros (? & ? & ?); congruence].
    + rewrite list_lookup_alter_ne in Hw' by congruence. split; [eauto | intros (? & ? & ?); congruence].
  - intros [(w' & vs' & Hw' & Hvs' & Hin) Hne]. destruct (decide (k' = k)) as [-> | Hk].
    + rewrite list_lookup_alter_eq, Hw'. destruct (decide (j' = j)) as [-> | Hjj].
      * eexists _, _. split; [done |]. simpl. rewrite list_lookup_alter_eq, Hvs'.
        split; [done |]. set_solver.
      * eexists _, _. split; [done |]. simpl. rewrite list_lookup_alter_ne by congruence.
        split; eassumption.
    + rewrite list_lookup_alter_ne by congruence. eexists _, _. split_and!; eassumption.
Qed.

(** [slot.put] stores [off] slots ahead when [off] is less than the ring's length ... *)
Lemma slot_put_nat_run st k w j off v :
  wheels st !! k = Some w -> (j < length (slots w))%nat -> (off < length (slots w))%nat ->
  slot_put_nat k j off v st = (Val 0, store k ((j + off) mod length (slots w)) v st).
Proof.
  intros Hw. revert j. induction off as [| off IH]; intros j Hj Ho.
  - simpl. unfold bind at 1. rewrite (get_wheel_run _ _ _ Hw).
    rewrite (bool_decide_false (j = _)), andb_false_r by lia. simpl.
    unfold bind. rewrite slot_store_run. by rewrite Nat.add_0_r, Nat.mod_small.
  - cbn [slot_put_nat]. unfold bind at 1. rewrite (get_wheel_run _ _ _ Hw).
    rewrite (bool_decide_false (j = _)), andb_false_r by lia. simpl.
    rewrite decide_False by lia. rewrite IH; [| apply Nat.mod_upper_bound; lia | lia].
    rewrite Nat.Div0.add_mod_idemp_l. do 3 f_equal. lia.
Qed.

(** ... and drops the task otherwise. *)
Lemma slot_put_nat_drop st k w j off v :
  wheels st !! k = Some w -> (j < length (slots w))%nat -> (length (slots w) <= off)%nat ->
  slot_put_nat k j off v st = (Val (Z.of_nat off - Z.of_nat (length (slots w))), st).
Proof.
  intros Hw Hj Ho. destruct off as [| off]; [lia |]. cbn [slot_put_nat]. unfold bind at 1.
  rewrite (get_wheel_run _ _ _ Hw). rewrite (bool_decide_false (j = _)), andb_false_r by lia.
  by rewrite decide_True by lia.
Qed.

Lemma slot_put_run st k w j off v :
  wheels st !! k = Some w -> (j < length (slots w))%nat -> 0 <= off < Z.of_nat (length (slots w)) ->
  slot_put k j off v st = (Val 0, store k ((j + Z.to_nat off) mod length (slots w)) v st).
Proof.
  intros Hw Hj Ho. unfold slot_put. rewrite decide_False by lia.
  apply (slot_put_nat_run st k w); [done | done | lia].
Qed.

Lemma slot_put_drop st k w j off v :
  wheels st !! k = Some w -> (j < length (slots w))%nat -> Z.of_nat (length (slots w)) <= off ->
  exists r, slot_put k j off v st = (Val r, st).
Proof.
  intros Hw Hj Ho. unfold slot_put. rewrite decide_False by lia.
  eexists. apply (slot_put_nat_drop st k w); [done | done | lia].
Qed.

(** ** The odometer *)

Section arith.
Context (b : Z) (Hb : 0 < b).

Lemma div_succ u : (u + 1) / b = u / b + (if decide ((u + 1) mod b = 0) then 1 else 0).
Proof.
  pose proof (Z.div_mod u b ltac:(lia)). pose proof (Z.mod_pos_bound u b Hb).
  pose proof (Z.div_mod (u + 1) b ltac:(lia)). pose proof (Z.mod_pos_bound (u + 1) b Hb).
  case_decide; nia.
Qed.

Lemma mod_succ u : (u + 1) mod b = if decide ((u + 1) mod b = 0) then 0 else u mod b + 1.
Proof.
  pose proof (Z.div_mod u b ltac:(lia)). pose proof (Z.mod_pos_bound u b Hb).
  pose proof (Z.div_mod (u + 1) b ltac:(lia)). pose proof (Z.mod_pos_bound (u + 1) b Hb).
  pose proof (div_succ u) as E. case_decide; [done |]. rewrite E in *. nia.
Qed.

Lemma mod_succ_0 u : (u + 1) mod b = 0 <-> u mod b = b - 1.
Proof.
  pose proof (Z.div_mod u b ltac:(lia)). pose proof (Z.mod_pos_bound u b Hb).
  pose proof (Z.div_mod (u + 1) b ltac:(lia)). pose proof (Z.mod_pos_bound (u + 1) b Hb).
  pose proof (div_succ u) as E. pose proof (mod_succ u) as E'. case_decide; [| lia].
  split; [| done]. intros _. rewrite E in *. nia.
Qed.
End arith.

(** ** The invariant

    [B] slots per wheel, [n] wheels. [u] counts the ticks so far, less one: the ring is
    created on its last slot and the first tick brings it to index 0. *)

Section invariant.
Context (B : Z) (n : nat).
Context (HB : 2 <= B) (Hn : (1 <= n)%nat).

#[local] Abbreviation bk k := (Z.pow B (Z.of_nat k)).

(** Level [k] of a wheel that has seen tick [u]; [ur] is the tick the [remain]
    counters, all advanced at the start of a move, have seen. *)
Record wheel_ok (u ur : Z) (k : nat) (w : wheel) : Prop := {
  wo_cap : slotCap w = bk k;
  wo_len : Z.of_nat (length (slots w)) = B;
  wo_cur : Z.of_nat (cur w) = (u / bk k) mod B;
  wo_remain : (S k < n)%nat ->
    remain w = bk (S k) - ur mod bk (S k) \/ (ur = -1 /\ remain w = 0) }.

(** A task due at tick [D] stored at level [k], ring index [j], with offset [off]. *)
Definition loc_ok (lb u D : Z) (k j : nat) (off : Z) : Prop :=
  lb <= D / bk k - u / bk k <= B - 1 /\ Z.of_nat j = (D / bk k) mod B /\
  (k <> 0%nat -> off = D mod bk k).

(** [uf k] is the tick level [k] has seen, [lb k] the least distance of its tasks from
    the current slot, [dl] the deadlines of the stored tasks. *)
Record tinv (uf : nat -> Z) (ur : Z) (lb : nat -> Z) (dl : gmap nat Z) (st : tw_state) : Prop := {
  ti_len : length (wheels st) = n;
  ti_wheel : forall k w, wheels st !! k = Some w -> wheel_ok (uf k) ur k w;
  ti_slot : forall k j v, in_slot st k j v -> exists t,
    tasks st !! v = Some t /\ s t = Some (k, j) /\
    ((k = 0%nat /\ v ∈ pending st) \/
     exists D, dl !! v = Some D /\ loc_ok (lb k) (uf k) D k j (offset t));
  ti_dl : forall v D, dl !! v = Some D -> (v ∉ pending st) /\ (exists k j, in_slot st k j v);
  ti_pend : forall v, v ∈ pending st -> is_Some (tasks st !! v) }.

(** Between rounds every level agrees and no task waits in the executor. *)
Definition steady (u : Z) (dl : gmap nat Z) (st : tw_state) : Prop :=
  -1 <= u /\ tinv (fun _ => u) u (fun _ => 1) dl st /\ pending st = [].

Lemma bk_pos k : 0 < bk k.
Proof. apply Z.pow_pos_nonneg; lia. Qed.

Lemma bk_S k : bk (S k) = B * bk k.
Proof. rewrite Nat2Z.inj_succ, Z.pow_succ_r by lia. done. Qed.

Lemma bk_0 : bk 0 = 1.
Proof. done. Qed.

Lemma div_bk_S u k : u / bk (S k) = u / bk k / B.
Proof. pose proof (bk_pos k). rewrite bk_S, (Z.mul_comm B). by rewrite Z.div_div by lia. Qed.

(** The digit wraps exactly when the whole lower part does. *)
Lemma wrap_digit x k : x mod bk (S k) = 0 <-> x mod bk k = 0 /\ (x / bk k) mod B = 0.
Proof.
  pose proof (bk_pos k). rewrite bk_S, (Z.mul_comm B), Z.rem_mul_r by lia.
  pose proof (Z.mod_pos_bound x (bk k) ltac:(lia)).
  pose proof (Z.mod_pos_bound (x / bk k) B ltac:(lia)). nia.
Qed.

(** A task at the current slot of its level is due within that slot's span. *)
Lemma loc_at_cur u D k j :
  0 <= D / bk k - u / bk k <= B - 1 -> Z.of_nat j = (D / bk k) mod B ->
  Z.of_nat j = (u / bk k) mod B -> D / bk k = u / bk k.
Proof.
  intros Hd Hj Hu. rewrite Hu in Hj. set (a := D / bk k) in *. set (c := u / bk k) in *.
  pose proof (Z.div_mod a B ltac:(lia)). pose proof (Z.div_mod c B ltac:(lia)).
  assert (a / B = c / B \/ a / B >= c / B + 1 \/ a / B <= c / B - 1) by lia. nia.
Qed.

(** ** Tracking the tasks handed to the executor *)

(** Callbacks are set by [Callback] only; the wheel never changes them. *)
Definition same_fn (st st' : tw_state) : Prop :=
  forall v, fn <$> tasks st' !! v = fn <$> tasks st !! v.

(** [F] went from the deadlines [dl] to the executor, all of them due at [x]. *)
Definition handed (x : Z) (st : tw_state) (dl : gmap nat Z) (st' : tw_state) (dl' : gmap nat Z) : Prop :=
  exists F, pending st' = pending st ++ F /\ trace st' = trace st /\ NoDup F /\
    (forall v, v ∈ F -> dl !! v = Some x) /\
    (forall v, dl' !! v = if decide (v ∈ F) then None else dl !! v) /\
    interval st' = interval st /\ maxTimeout st' = maxTimeout st /\ same_fn st st'.

Lemma handed_same x st dl st' :
  pending st' = pending st -> trace st' = trace st -> interval st' = interval st ->
  maxTimeout st' = maxTimeout st -> same_fn st st' -> handed x st dl st' dl.
Proof.
  intros Hp Ht Hi Hm Hf. exists []. rewrite app_nil_r.
  split_and!; [done | done | constructor | set_solver | | done | done | done].
  intros v. by rewrite decide_False by set_solver.
Qed.

Lemma handed_refl x st dl : handed x st dl st dl.
Proof. by apply handed_same. Qed.

Lemma handed_one x st dl v :
  handed x st (<[v := x]> dl) (set_pending (pending st ++ [v]) st) (delete v dl).
Proof.
  exists [v]. simpl. split_and!; [done | done | apply NoDup_singleton | | | done | done | done].
  - intros v' ->%list_elem_of_singleton. by rewrite lookup_insert_eq.
  - intros v'. case_decide as Hv; rewrite list_elem_of_singleton in Hv.
    + subst. apply lookup_delete_eq.
    + by rewrite lookup_delete_ne, lookup_insert_ne.
Qed.

Lemma handed_trans x st dl st1 dl1 st2 dl2 :
  handed x st dl st1 dl1 -> handed x st1 dl1 st2 dl2 -> handed x st dl st2 dl2.
Proof.
  intros (F1 & P1 & T1 & N1 & D1 & L1 & I1 & M1 & S1) (F2 & P2 & T2 & N2 & D2 & L2 & I2 & M2 & S2).
  exists (F1 ++ F2). rewrite P2, P1, <- app_assoc. split_and!; try congruence.
  - apply NoDup_app. split_and!; [done | | done]. intros v Hv1 Hv2.
    specialize (D2 v Hv2). rewrite L1, decide_True in D2 by done. done.
  - intros v [Hv | Hv]%elem_of_app; [by apply D1 |].
    specialize (D2 v Hv). rewrite L1 in D2. case_decide; [done | done].
  - intros v. rewrite L2, L1. repeat case_decide; try done; rewrite elem_of_app in *; tauto.
Qed.

Lemma same_fn_alter st v (f : Task -> Task) :
  (forall t, fn (f t) = fn t) -> same_fn st (set_tasks (alter f v (tasks st)) st).
Proof.
  intros Hf v'. simpl. destruct (decide (v' = v)) as [-> |].
  - rewrite lookup_alter_eq. destruct (tasks st !! v); simpl; [by rewrite Hf | done].
  - by rewrite lookup_alter_ne.
Qed.

Lemma tinv_ext uf uf' ur lb lb' dl st :
  (forall k, (k < n)%nat -> uf k / bk k = uf' k / bk k) ->
  (forall k, (k < n)%nat -> lb' k <= lb k) ->
  tinv uf ur lb dl st -> tinv uf' ur lb' dl st.
Proof.
  intros Hu Hl [Hlen Hw Hs Hd Hp]. split; [done | | | done | done].
  - intros k w Hk. destruct (Hw k w Hk) as [H1 H2 H3 H4]. split; [done | done | | done].
    rewrite <- Hu; [done |]. rewrite <- Hlen. by eapply lookup_lt_Some.
  - intros k j v Hin. assert (Hk : (k < n)%nat).
    { destruct Hin as (w & vs & Hk & _). rewrite <- Hlen. by eapply lookup_lt_Some. }
    destruct (Hs k j v Hin) as (t & Ht & Hst & [Hpd | (D & HD & H1 & H2 & H3)]);
      exists t; split_and!; try done; [by left |].
    right. exists D. split; [done |]. unfold loc_ok. rewrite <- Hu by done. specialize (Hl k Hk).
    split_and!; [lia | lia | done | done].
Qed.

(** ** Elementary steps *)

Lemma wheel_ok_set_slots u ur k w l :
  wheel_ok u ur k w -> length l = length (slots w) -> wheel_ok u ur k (set_slots l w).
Proof. intros [H1 H2 H3 H4] Hl. split; simpl; [done | by rewrite Hl | done | done]. Qed.

Lemma in_slot_len st k j v : in_slot st k j v -> (k < length (wheels st))%nat.
Proof. intros (w & vs & Hk & _). by eapply lookup_lt_Some. Qed.

Lemma tinv_place uf ur lb dl st k j v k' j' :
  tinv uf ur lb dl st -> in_slot st k j v -> in_slot st k' j' v -> k' = k /\ j' = j.
Proof.
  intros [_ _ Hs _ _] H1 H2. destruct (Hs _ _ _ H1) as (t1 & E1 & S1 & _).
  destruct (Hs _ _ _ H2) as (t2 & E2 & S2 & _). by simplify_eq.
Qed.

(** Changing the record of a task that is in no slot. *)
Lemma tinv_upd_task uf ur lb dl st v f :
  (forall k j, ~ in_slot st k j v) -> tinv uf ur lb dl st ->
  tinv uf ur lb dl (set_tasks (alter f v (tasks st)) st).
Proof.
  intros Hno [Hlen Hw Hs Hd Hp]. split; [done | done | | done |]; simpl.
  - intros k j v' Hin. assert (v' <> v) by (intros ->; by eapply Hno).
    destruct (Hs k j v' Hin) as (t & Ht & Hrest). exists t. by rewrite lookup_alter_ne.
  - intros v' Hv'. destruct (Hp v' Hv') as [t Ht]. destruct (decide (v' = v)) as [-> |].
    + rewrite lookup_alter_eq, Ht. eauto.
    + by rewrite lookup_alter_ne.
Qed.

Lemma tinv_unstore uf ur lb dl st k j v :
  tinv uf ur lb dl st -> (forall k' j', in_slot st k' j' v -> k' = k /\ j' = j) ->
  tinv uf ur lb (delete v dl) (unstore k j v st) /\
  (forall k' j', ~ in_slot (unstore k j v st) k' j' v).
Proof.
  intros Hinv Hin. pose proof Hinv as [Hlen Hw Hs Hd Hp]. split.
  - split; simpl; [by rewrite length_alter | | | | done].
    + intros k' w Hk'. destruct (decide (k' = k)) as [-> |].
      * rewrite list_lookup_alter_eq in Hk'. destruct (wheels st !! k) as [w0 |] eqn:E; simplify_eq/=.
        apply wheel_ok_set_slots; [by apply Hw | by rewrite length_alter].
      * rewrite list_lookup_alter_ne in Hk' by congruence. by apply Hw.
    + intros k' j' v' [Hin' Hne]%in_slot_unstore. assert (Hv : v' <> v).
      { intros ->. apply Hne. destruct (Hin _ _ Hin'). auto. }
      destruct (Hs k' j' v' Hin') as (t & Ht & Hst & Hor). exists t. split_and!; [done | done |].
      by rewrite lookup_delete_ne.
    + intros v' D [HD Hv]%lookup_delete_Some. destruct (Hd v' D) as (Hnp & k' & j' & Hin'); [by simplify_map_eq |].
      split; [done |]. exists k', j'. apply in_slot_unstore. split; [done |]. intros (_ & _ & ->). by simplify_map_eq.
  - intros k' j' [Hin' Hne]%in_slot_unstore. apply Hne.
    destruct (Hin _ _ Hin'). auto.
Qed.

Lemma tinv_store uf ur lb dl st k j v w t D :
  tinv uf ur lb dl st -> (forall k' j', ~ in_slot st k' j' v) -> v ∉ pending st ->
  dl !! v = None -> tasks st !! v = Some t -> wheels st !! k = Some w ->
  (j < length (slots w))%nat -> loc_ok (lb k) (uf k) D k j (offset t) ->
  tinv uf ur lb (<[v := D]> dl) (store k j v st).
Proof.
  intros [Hlen Hw Hs Hd Hp] Hno Hnp Hdl Ht Hk Hj Hloc.
  split; simpl; [by rewrite length_alter | | | |].
  - intros k' w' Hk'. destruct (decide (k' = k)) as [-> |].
    + rewrite list_lookup_alter_eq, Hk in Hk'. simplify_eq/=.
      apply wheel_ok_set_slots; [by apply Hw | by rewrite length_alter].
    + rewrite list_lookup_alter_ne in Hk' by congruence. by apply Hw.
  - intros k' j' v' [Hin' | (-> & -> & ->)]%(in_slot_store st k j v w _ _ _ Hk Hj).
    + assert (Hv : v' <> v) by (intros ->; by eapply Hno).
      destruct (Hs k' j' v' Hin') as (t' & Ht' & Hrest). exists t'.
      by rewrite lookup_alter_ne, lookup_insert_ne.
    + exists (set_s (Some (k, j)) t). rewrite lookup_alter_eq, Ht. split_and!; [done | done |].
      right. exists D. by rewrite lookup_insert_eq.
  - intros v' D' HD'. destruct (decide (v' = v)) as [-> |].
    + split; [done |]. exists k, j. apply (in_slot_store st k j v w _ _ _ Hk Hj). by right.
    + rewrite lookup_insert_ne in HD' by done. destruct (Hd v' D' HD') as (Hnp' & k' & j' & Hin').
      split; [done |]. exists k', j'. apply (in_slot_store st k j v w _ _ _ Hk Hj). by left.
  - intros v' Hv'. destruct (Hp v' Hv') as [t' Ht']. destruct (decide (v' = v)) as [-> |].
    + rewrite lookup_alter_eq, Ht'. eauto.
    + by rewrite lookup_alter_ne.
Qed.

(** Handing a task to the executor; it may still sit in a leaf slot. *)
Lemma tinv_call uf ur lb dl st v t :
  tinv uf ur lb dl st -> tasks st !! v = Some t ->
  (forall k j, in_slot st k j v -> k = 0%nat) ->
  tinv uf ur lb (delete v dl) (set_pending (pending st ++ [v]) st).
Proof.
  intros [Hlen Hw Hs Hd Hp] Ht Hleaf. split; [done | done | | |]; simpl.
  - intros k j v' Hin. destruct (Hs k j v' Hin) as (t' & Ht' & Hst & Hor). exists t'. split_and!; [done | done |].
    destruct (decide (v' = v)) as [-> | Hne].
    + left. split; [by eapply Hleaf | set_solver].
    + rewrite lookup_delete_ne by done. destruct Hor as [[-> Hpd] | Hor]; [left; set_solver | by right].
  - intros v' D HD. apply lookup_delete_Some in HD as [Hv HD].
    destruct (Hd v' D HD) as [Hnp Hin]. split; [set_solver | done].
  - intros v' [Hv' | ->%list_elem_of_singleton]%elem_of_app; [by apply Hp | eauto].
Qed.

Lemma call_run st v t p : tasks st !! v = Some t -> s t = Some p ->
  call v st = (Val tt, set_pending (pending st ++ [v]) st).
Proof. intros Ht Hst. unfold call, bind. rewrite (get_task_run _ _ _ Ht), Hst. done. Qed.
Lemma upd_task_run v f st : upd_task v f st = (Val tt, set_tasks (alter f v (tasks st)) st).
Proof. done. Qed.

(** ** [put] from the level above: when the wheel above has just moved *)

Definition upper_same (k' : nat) (st st' : tw_state) : Prop :=
  forall i j v, (k' < i)%nat -> in_slot st' i j v <-> in_slot st i j v.

Lemma tinv_get uf ur lb dl st k :
  tinv uf ur lb dl st -> (k < n)%nat -> exists w, wheels st !! k = Some w /\ wheel_ok (uf k) ur k w.
Proof.
  intros Hinv Hk. destruct (lookup_lt_is_Some_2 (wheels st) k) as [w Hw].
  { by rewrite (ti_len _ _ _ _ _ Hinv). }
  exists w. split; [done |]. by apply (ti_wheel _ _ _ _ _ Hinv).
Qed.

(** Storing [sl] slots ahead of the current one puts a task [sl] steps away. *)
Lemma store_index u ur k w D sl :
  wheel_ok u ur k w -> sl = D / bk k - u / bk k -> 0 <= sl <= B - 1 ->
  ((cur w + Z.to_nat sl) mod length (slots w) < length (slots w))%nat /\
  Z.of_nat ((cur w + Z.to_nat sl) mod length (slots w)) = (D / bk k) mod B.
Proof.
  intros [Hc Hl Hcur _] -> Hsl. split; [apply Nat.mod_upper_bound; lia |].
  rewrite Nat2Z.inj_mod, Nat2Z.inj_add, Hl, Hcur, Z2Nat.id by lia.
  rewrite Zplus_mod_idemp_l. f_equal. lia.
Qed.

Lemma handed_store x st dl dl' k j v : dl' = dl -> handed x st dl (store k j v st) dl'.
Proof. intros ->. apply handed_same; try done. by apply (same_fn_alter st v (set_s (Some (k, j)))). Qed.

Lemma upper_same_store st k j v w :
  wheels st !! k = Some w -> (j < length (slots w))%nat -> upper_same k st (store k j v st).
Proof.
  intros Hw Hj i j' v' Hi. rewrite (in_slot_store _ _ _ _ _ _ _ _ Hw Hj).
  split; [intros [? | (? & _)]; [done | lia] | auto].
Qed.

Lemma in_slot_set_tasks st m k j v : in_slot (set_tasks m st) k j v <-> in_slot st k j v.
Proof. done. Qed.

(** The digit of [D] at level [k] is both the quotient [put] computes and the
    distance to the current slot, once the levels up to [k] are at index 0. *)
Lemma transit k x D :
  x mod bk (S k) = 0 -> D / bk (S k) = x / bk (S k) ->
  (D mod bk (S k)) / bk k = (D / bk k) mod B /\ D / bk k - x / bk k = (D / bk k) mod B.
Proof.
  intros Hx HD. pose proof (bk_pos k). destruct (proj1 (wrap_digit _ _) Hx) as [Hxl Hxd].
  rewrite !div_bk_S in HD. split.
  - rewrite bk_S, (Z.mul_comm B), Z.rem_mul_r, (Z.mul_comm (bk k)), Z.div_add by lia.
    rewrite Z.div_small by (apply Z.mod_pos_bound; lia). lia.
  - pose proof (Z.div_mod (D / bk k) B ltac:(lia)). pose proof (Z.div_mod (x / bk k) B ltac:(lia)). lia.
Qed.

Lemma cur_lt u ur k w : wheel_ok u ur k w -> (cur w < length (slots w))%nat.
Proof. intros [_ Hl Hc _]. pose proof (Z.mod_pos_bound (u / bk k) B ltac:(lia)). lia. Qed.

Lemma slot_put_ok u ur k w v st sl :
  wheels st !! k = Some w -> wheel_ok u ur k w -> 0 <= sl <= B - 1 ->
  slot_put k (cur w) sl v st =
    (Val 0, store k ((cur w + Z.to_nat sl) mod length (slots w)) v st).
Proof.
  intros Hw Hok Hsl. apply slot_put_run; [done | by eapply cur_lt |].
  rewrite (wo_len _ _ _ _ Hok). lia.
Qed.

Lemma no_slot_upd st v f :
  (forall i j, ~ in_slot st i j v) ->
  (forall i j, ~ in_slot (set_tasks (alter f v (tasks st)) st) i j v).
Proof. done. Qed.

Lemma mod_mod_bk D k : (D / bk k) mod B = 0 -> D mod bk (S k) = D mod bk k.
Proof. intros E. pose proof (bk_pos k). rewrite bk_S, (Z.mul_comm B), Z.rem_mul_r by lia. lia. Qed.

(** Storing at level [k] a task [sl] steps away. *)
Lemma put_at_level x uf lb dl st k w v t D :
  tinv uf x lb dl st -> wheels st !! k = Some w -> wheel_ok (uf k) x k w ->
  1 <= D / bk k - uf k / bk k <= B - 1 -> lb k <= 1 -> (k <> 0%nat -> offset t = D mod bk k) ->
  tasks st !! v = Some t -> (forall i j, ~ in_slot st i j v) ->
  v ∉ pending st -> dl !! v = None ->
  exists st', slot_put k (cur w) (D / bk k - uf k / bk k) v st = (Val 0, st') /\
    tinv uf x lb (<[v := D]> dl) st' /\ handed x st (<[v := D]> dl) st' (<[v := D]> dl) /\
    (forall k', (k <= k')%nat -> upper_same k' st st').
Proof.
  intros Hinv Hw Hok Hd Hlb Hoff Ht Hno Hnp Hdl.
  destruct (store_index _ _ _ _ D _ Hok eq_refl) as [Hj HjD]; [lia |].
  rewrite (slot_put_ok _ _ _ _ _ _ _ Hw Hok) by lia.
  eexists. split; [done |]. split_and!.
  - eapply tinv_store; try done. split_and!; [lia | lia | done | done].
  - by apply handed_store.
  - intros k' Hk'. intros i j v' Hi. eapply upper_same_store; [done | done | lia].
Qed.

Lemma tinv_call_handed x uf lb dl st v t p :
  tinv uf x lb dl st -> tasks st !! v = Some t -> s t = Some p ->
  (forall i j, ~ in_slot st i j v) -> v ∉ pending st -> dl !! v = None ->
  exists st', call v st = (Val tt, st') /\ tinv uf x lb dl st' /\
    handed x st (<[v := x]> dl) st' dl /\ (forall k', upper_same k' st st').
Proof.
  intros Hinv Ht Hst Hno Hnp Hdl. rewrite (call_run st v t p Ht Hst). eexists. split; [done |].
  split_and!; [| | done].
  - rewrite <- (delete_id dl v Hdl). eapply tinv_call; [done | done |].
    intros i j Hin. by apply Hno in Hin.
  - rewrite <- (delete_id dl v Hdl) at 2. apply handed_one.
Qed.

Lemma wheel_put_ok k' : forall x uf lb dl st v t p D,
  (k' < n)%nat -> 0 <= x -> x mod bk (S k') = 0 ->
  tinv uf x lb dl st ->
  (forall i, (i <= k')%nat -> uf i = x /\ lb i <= 1) ->
  tasks st !! v = Some t -> s t = Some p -> (forall i j, ~ in_slot st i j v) ->
  v ∉ pending st -> dl !! v = None ->
  D / bk (S k') = x / bk (S k') -> offset t = D mod bk (S k') ->
  exists st' dl', wheel_put k' v st = (Val tt, st') /\ tinv uf x lb dl' st' /\
    handed x st (<[v := D]> dl) st' dl' /\ upper_same k' st st'.
Proof.
  induction k' as [| k IH]; intros x uf lb dl st v t p D Hk Hx Hx0 Hinv Huf Ht Hst Hno Hnp Hdl HD Hoff;
    destruct (Huf _ (le_n _)) as [Hu Hlb];
    destruct (tinv_get _ _ _ _ _ _ Hinv Hk) as (w & Hw & Hok);
    pose proof (wo_cap _ _ _ _ Hok) as Hcap;
    destruct (proj1 (wrap_digit _ _) Hx0) as [Hxl Hxd];
    destruct (transit _ _ _ Hx0 HD) as [Hsl Hdist].
  - (* leaf *)
    pose proof (Z.mod_pos_bound (D / bk 0) B ltac:(lia)) as Hdb.
    cbn [wheel_put]. unfold bind at 1. rewrite (get_wheel_run _ _ _ Hw). unfold bind at 1.
    rewrite (get_task_run _ _ _ Ht), Hoff, Hcap, Hsl.
    destruct (Z.eqb_spec ((D / bk 0) mod B) 0) as [E | E].
    + assert (D = x) as -> by (rewrite bk_0, !Z.div_1_r in *; lia).
      destruct (tinv_call_handed _ _ _ _ _ _ _ _ Hinv Ht Hst Hno Hnp Hdl) as (st' & -> & H1 & H2 & H3). eauto 10.
    + destruct (put_at_level x uf lb dl st 0 w v t D)
        as (st' & Hp & H1 & H2 & H3); try done; [rewrite Hu; lia |].
      unfold bind, ret. rewrite Hu, Hdist in Hp. rewrite Hp. eauto 10.
  - pose proof (Z.mod_pos_bound (D / bk (S k)) B ltac:(lia)) as Hdb.
    cbn [wheel_put]. unfold bind at 1. rewrite (get_wheel_run _ _ _ Hw). unfold bind at 1.
    rewrite (get_task_run _ _ _ Ht), Hoff, Hcap, Hsl.
    destruct (Z.eqb_spec ((D / bk (S k)) mod B) 0) as [E | E].
    + destruct (IH x uf lb dl st v t p D) as (st' & dl' & Hr & H1 & H2 & H3); try done;
        [lia | intros i Hi; apply Huf; lia | lia | by rewrite Hoff, mod_mod_bk |].
      eexists _, _. split_and!; [done | done | done |]. intros i j v' Hi. apply H3. lia.
    + destruct (tinv_get _ _ _ _ _ k Hinv) as (c & Hc & Hcok); [lia |].
      pose proof (bk_pos (S k)).
      assert (Hrem : remain c = bk (S k)).
      { destruct (wo_remain _ _ _ _ Hcok ltac:(lia)) as [-> | [? _]]; lia. }
      unfold bind at 1. unfold bind at 1. rewrite (get_wheel_run _ _ _ Hc).
      assert (Ho : offset t - (((D / bk (S k)) mod B - 1) * slotCap w + remain c - 1) - 1 = D mod bk (S k)).
      { rewrite Hoff, Hcap, Hrem, (bk_S (S k)), (Z.mul_comm B), Z.rem_mul_r by lia. lia. }
      rewrite upd_task_run. cbv beta iota.
      match goal with |- context [alter ?g v (tasks st)] => set (f := g) end.
      set (st1 := set_tasks (alter f v (tasks st)) st).
      assert (Ht1 : tasks st1 !! v = Some (f t)) by (simpl; by rewrite lookup_alter_eq, Ht).
      destruct (put_at_level x uf lb dl st1 (S k) w v (f t) D) as (st' & Hp & H1 & H2 & H3);
        [by apply tinv_upd_task | done | done | rewrite Hu; lia | done | intros _; simpl; congruence
        | done | done | done | done |].
      rewrite Hu, Hdist in Hp. unfold bind, ret. rewrite Hp. eexists _, _. split; [done |].
      split_and!; [done | | by apply H3].
      eapply handed_trans; [| exact H2]. apply handed_same; try done. by apply same_fn_alter.
Qed.
(** ** [drain]: the slot a wheel has reached is spread over the wheels below *)

Lemma at_cur_due u ur k w D j lo off :
  wheel_ok u ur k w -> 0 <= lo -> loc_ok lo u D k j off -> j = cur w -> D / bk k = u / bk k.
Proof.
  intros Hok Hlo (Hd & Hj & _) ->. apply loc_at_cur with (j := cur w); [lia | done |].
  apply (wo_cur _ _ _ _ Hok).
Qed.

Lemma drain_loop x uf lb k c vs : forall dl st,
  (S k < n)%nat -> 0 <= x -> x mod bk (S k) = 0 -> (forall i, (i <= S k)%nat -> uf i = x) ->
  (forall i, (i <= k)%nat -> lb i <= 1) -> 0 <= lb (S k) ->
  Z.of_nat c = (x / bk (S k)) mod B ->
  tinv uf x lb dl st -> NoDup vs -> (forall v, v ∈ vs -> in_slot st (S k) c v) ->
  exists st' dl',
    foreach vs (fun v => (slot_remove (S k) c v ;;; wheel_put k v)%go) st = (Val tt, st') /\
    tinv uf x lb dl' st' /\ handed x st dl st' dl' /\
    (forall v, in_slot st' (S k) c v <-> in_slot st (S k) c v /\ v ∉ vs).
Proof.
  induction vs as [| v vs IH]; intros dl st Hk Hx Hx0 Huf Hlb Hlb0 Hc Hinv Hnd Hin.
  { eexists _, _. split_and!; [done | done | apply handed_refl |].
    intros v. split; [intros; split; [done | set_solver] | tauto]. }
  apply NoDup_cons in Hnd as [Hv Hnd].
  assert (Hvin : in_slot st (S k) c v) by (apply Hin; set_solver).
  destruct (ti_slot _ _ _ _ _ Hinv _ _ _ Hvin) as (t & Ht & Hst & [[? _] | (D & HD & Hloc)]); [done |].
  destruct (tinv_get _ _ _ _ _ (S k) Hinv) as (w & Hw & Hok); [lia |].
  assert (Hcw : c = cur w). { pose proof (wo_cur _ _ _ _ Hok). rewrite Huf in * by lia. lia. }
  pose proof (at_cur_due _ _ _ _ _ _ _ _ Hok Hlb0 Hloc Hcw) as HDx. rewrite Huf in HDx by lia.
  destruct (tinv_unstore _ _ _ _ _ _ _ _ Hinv (fun _ _ => tinv_place _ _ _ _ _ _ _ _ _ _ Hinv Hvin)) as [Hinv1 Hno].
  destruct (wheel_put_ok k x uf lb (delete v dl) (unstore (S k) c v st) v t (S k, c) D)
    as (st1 & dl1 & Hr & Hinv2 & Hh & Hup); try done; [lia | | | | |].
  { intros i Hi. split; [apply Huf; lia | by apply Hlb]. }
  { apply (ti_dl _ _ _ _ _ Hinv _ _ HD). }
  { apply lookup_delete_eq. }
  { by apply Hloc. }
  rewrite insert_delete_id in Hh by done.
  destruct (IH dl1 st1) as (st' & dl' & Hr' & Hinv' & Hh' & Hin'); try done.
  { intros v' Hv'. apply Hup; [lia |]. apply in_slot_unstore. split; [apply Hin; set_solver |].
    intros (_ & _ & ->). done. }
  exists st', dl'. split_and!; [| done | eapply handed_trans; eassumption |].
  - cbn [foreach]. unfold bind at 1. unfold bind at 1. rewrite slot_remove_run, Hr. exact Hr'.
  - intros v'. rewrite Hin', (Hup (S k) c v'), in_slot_unstore by lia. set_solver.
Qed.

Lemma in_slot_elements st k j w vs v :
  wheels st !! k = Some w -> slots w !! j = Some vs -> in_slot st k j v <-> v ∈ vs.
Proof.
  intros Hw Hvs. split.
  - intros (w' & vs' & Hw' & Hvs' & Hin). by simplify_eq.
  - intros Hin. by exists w, vs.
Qed.

Lemma cur_slot uf ur lb dl st k :
  tinv uf ur lb dl st -> (k < n)%nat ->
  exists w vs, wheels st !! k = Some w /\ wheel_ok (uf k) ur k w /\ slots w !! cur w = Some vs /\
    slotAt k st = (Val (elements vs), st) /\ (forall v, in_slot st k (cur w) v <-> v ∈ vs).
Proof.
  intros Hinv Hk. destruct (tinv_get _ _ _ _ _ k Hinv Hk) as (w & Hw & Hok).
  destruct (lookup_lt_is_Some_2 (slots w) (cur w)) as [vs Hvs]; [by eapply cur_lt |].
  exists w, vs. split_and!; try done.
  - unfold slotAt, bind. by rewrite (get_wheel_run _ _ _ Hw), Hvs.
  - intros v. by apply (in_slot_elements _ _ _ w vs).
Qed.

Lemma tinv_lb uf ur lb lb' dl st k :
  (forall i, i <> k -> lb' i = lb i) -> lb' k <= lb k + 1 ->
  (forall j v, in_slot st k j v -> (k = 0%nat /\ v ∈ pending st) \/
     exists D, dl !! v = Some D /\ D / bk k - uf k / bk k <> lb k) ->
  tinv uf ur lb dl st -> tinv uf ur lb' dl st.
Proof.
  intros Heq Hle Hne [Hlen Hw Hs Hd Hp]. split; try done.
  intros k' j v Hin. destruct (Hs k' j v Hin) as (t & Ht & Hst & Hor). exists t. split_and!; [done | done |].
  destruct Hor as [? | (D & HD & Hl)]; [by left |]. destruct (decide (k' = k)) as [-> | Hk].
  - destruct (Hne j v Hin) as [? | (D' & HD' & HneD)]; [by left | right]. simplify_eq.
    exists D. split; [done |]. destruct Hl as (H1 & H2 & H3). split_and!; [lia | lia | done | done].
  - right. exists D. rewrite Heq by done. done.
Qed.

(** A task of distance 0 sits on the current slot. *)
Lemma due_at_cur u ur k w D j lo off :
  wheel_ok u ur k w -> loc_ok lo u D k j off -> D / bk k = u / bk k -> j = cur w.
Proof.
  intros Hok (_ & Hj & _) HD. pose proof (wo_cur _ _ _ _ Hok) as Hc. rewrite HD in Hj. lia.
Qed.

Definition lb_set (k : nat) (z : Z) (lb : nat -> Z) (i : nat) : Z := if decide (i = k) then z else lb i.

Lemma drain_ok x uf lb dl st k :
  (S k < n)%nat -> 0 <= x -> x mod bk (S k) = 0 -> (forall i, (i <= S k)%nat -> uf i = x) ->
  (forall i, (i <= k)%nat -> lb i <= 1) -> lb (S k) = 0 -> tinv uf x lb dl st ->
  exists st' dl', drain k st = (Val tt, st') /\ tinv uf x (lb_set (S k) 1 lb) dl' st' /\
    handed x st dl st' dl'.
Proof.
  intros Hk Hx Hx0 Huf Hlb Hlb0 Hinv.
  destruct (cur_slot _ _ _ _ _ (S k) Hinv) as (w & vs & Hw & Hok & Hvs & Hat & Hin); [lia |].
  assert (Hc : Z.of_nat (cur w) = (x / bk (S k)) mod B).
  { rewrite (wo_cur _ _ _ _ Hok), Huf by lia. done. }
  destruct (drain_loop x uf lb k (cur w) (elements vs) dl st) as (st' & dl' & Hr & Hinv' & Hh & Hin');
    try done; [lia | apply NoDup_elements | |].
  { intros v Hv. apply Hin. by apply elem_of_elements. }
  exists st', dl'. split_and!; [| | done].
  - unfold drain. unfold bind at 1. rewrite (get_wheel_run _ _ _ Hw). unfold bind at 1. rewrite Hat. exact Hr.
  - eapply (tinv_lb _ _ lb _ _ _ (S k)); [| | | done].
    + intros i Hi. unfold lb_set. by rewrite decide_False.
    + unfold lb_set. rewrite decide_True by done. lia.
    + intros j v Hv. right.
      destruct (ti_slot _ _ _ _ _ Hinv' _ _ _ Hv) as (t & Ht & Hst & [[? _] | (D & HD & Hloc)]); [done |].
      exists D. split; [done |]. intros E.
      destruct (tinv_get _ _ _ _ _ (S k) Hinv') as (w' & Hw' & Hok'); [lia |].
      assert (Hj : j = cur w'). { eapply due_at_cur; [done | done | lia]. }
      assert (Hcc : cur w' = cur w).
      { pose proof (wo_cur _ _ _ _ Hok'). rewrite Huf in * by lia. lia. }
      rewrite Hj, Hcc in Hv. apply Hin' in Hv as [Hv Hn']. apply Hn', elem_of_elements, Hin, Hv.
Qed.

(** Before the wheel moves, the current slot is empty and [drain] does nothing. *)
Lemma drain_idle uf ur lb dl st k :
  (S k < n)%nat -> 1 <= lb (S k) -> tinv uf ur lb dl st -> drain k st = (Val tt, st).
Proof.
  intros Hk Hlb Hinv.
  destruct (cur_slot _ _ _ _ _ (S k) Hinv) as (w & vs & Hw & Hok & Hvs & Hat & Hin); [lia |].
  assert (vs = ∅) as ->.
  { apply elem_of_equiv_empty_L. intros v Hv%Hin.
    destruct (ti_slot _ _ _ _ _ Hinv _ _ _ Hv) as (t & _ & _ & [[? _] | (D & _ & Hloc)]); [done |].
    assert (H0 : 0 <= lb (S k)) by lia.
    pose proof (at_cur_due _ _ _ _ _ _ _ _ Hok H0 Hloc eq_refl). destruct Hloc as [? _]. lia. }
  unfold drain. unfold bind at 1. rewrite (get_wheel_run _ _ _ Hw). unfold bind at 1. rewrite Hat.
  by rewrite elements_empty.
Qed.
(** ** [tick]: the [remain] counters count down to the end of each wheel's cycle *)

Definition tick_remain (w : wheel) : wheel :=
  let r := remain w - 1 in
  set_remain (if r <=? 0 then slotCap w * Z.of_nat (length (slots w)) else r) w.

Lemma tick_run fuel : forall k st,
  exists ws, tick fuel k st = (Val tt, set_wheels ws st) /\ length ws = length (wheels st) /\
    forall i w, ws !! i = Some w -> exists w0, wheels st !! i = Some w0 /\
      w = if decide (k <= i < k + fuel /\ S i < length (wheels st))%nat then tick_remain w0 else w0.
Proof.
  induction fuel as [| fuel IH]; intros k st.
  { exists (wheels st). destruct st. split_and!; [done | done |].
    intros i w Hi. exists w. split; [done |]. by rewrite decide_False by lia. }
  cbn [tick]. unfold bind at 1, gets at 1. case_decide as Hk.
  - unfold bind at 1, upd_wheel, modify.
    set (st1 := set_wheels _ st).
    assert (Hl1 : length (wheels st1) = length (wheels st)) by (simpl; by rewrite length_alter).
    destruct (IH (S k) st1) as (ws & Hr & Hlen & Hws).
    exists ws. rewrite Hr. split_and!; [done | lia |].
    intros i w Hi. destruct (Hws i w Hi) as (w1 & Hw1 & ->). rewrite Hl1. simpl in Hw1.
    destruct (decide (i = k)) as [-> | Hik].
    + rewrite list_lookup_alter_eq in Hw1. destruct (wheels st !! k) as [w0 |]; simplify_eq/=.
      exists w0. split; [done |]. rewrite decide_False, decide_True by lia. done.
    + rewrite list_lookup_alter_ne in Hw1 by congruence. exists w1. split; [done |].
      repeat case_decide; try done; lia.
  - exists (wheels st). destruct st. split_and!; [done | done |].
    intros i w Hi. exists w. split; [done |]. simpl in *. by rewrite decide_False by lia.
Qed.

Lemma tick_remain_ok uf u k w :
  -1 <= u -> (S k < n)%nat -> wheel_ok uf u k w -> wheel_ok uf (u + 1) k (tick_remain w).
Proof.
  intros Hu Hk [Hc Hl Hcur Hr]. split; simpl; [done | done | done |]. intros _. left.
  pose proof (bk_pos (S k)) as Hp. pose proof (Z.mod_pos_bound u _ Hp).
  pose proof (mod_succ _ Hp u) as E. pose proof (mod_succ_0 _ Hp u) as E0.
  rewrite Hc, Hl, (Z.mul_comm _ B), <- bk_S. destruct (Hr Hk) as [-> | [-> ->]].
  - destruct (Z.leb_spec (bk (S k) - u mod bk (S k) - 1) 0); case_decide; lia.
  - simpl. rewrite Z.mod_0_l by lia. lia.
Qed.

Lemma tick_ok uf u lb dl st :
  -1 <= u -> tinv uf u lb dl st ->
  exists st', tick (length (wheels st)) 0 st = (Val tt, st') /\ tinv uf (u + 1) lb dl st' /\
    handed (u + 1) st dl st' dl /\ pending st' = pending st.
Proof.
  intros Hu [Hlen Hw Hs Hd Hp]. destruct (tick_run (length (wheels st)) 0 st) as (ws & Hr & Hl & Hws).
  assert (Hin : forall k j v, in_slot (set_wheels ws st) k j v <-> in_slot st k j v).
  { intros k j v. split.
    - intros (w & vs & Hk & Hvs & Hv). simpl in Hk. destruct (Hws _ _ Hk) as (w0 & Hw0 & ->).
      exists w0, vs. split_and!; [done | | done]. by case_decide.
    - intros (w & vs & Hk & Hvs & Hv). destruct (lookup_lt_is_Some_2 ws k) as [w' Hw'].
      { rewrite Hl. by eapply lookup_lt_Some. }
      destruct (Hws _ _ Hw') as (w0 & Hw0 & E). rewrite Hk in Hw0. simplify_eq.
      eexists _, vs. split_and!; [exact Hw' | | done]. by case_decide. }
  eexists. split; [exact Hr |]. split; [| split; [| done]].
  - split; simpl; [by rewrite Hl | | | | done].
    + intros k w Hk. destruct (Hws _ _ Hk) as (w0 & Hw0 & ->). specialize (Hw _ _ Hw0).
      assert (k < n)%nat by (rewrite <- Hlen; by eapply lookup_lt_Some).
      case_decide as E; [apply tick_remain_ok; [done | lia | done] |].
      destruct Hw as [H1 H2 H3 H4]. split; [done | done | done | lia].
    + intros k j v Hv%Hin. by apply Hs.
    + intros v D HD. destruct (Hd v D HD) as (Hnp & k & j & Hv). split; [done |].
      exists k, j. by apply Hin.
  - by apply handed_same.
Qed.

(** ** [advance] *)

Definition uf_set (k : nat) (z : Z) (uf : nat -> Z) (i : nat) : Z := if decide (i = k) then z else uf i.

Lemma advance_ok uf ur lb dl st k :
  (k < n)%nat -> (uf k + 1) mod bk k = 0 -> lb k = 1 -> tinv uf ur lb dl st ->
  exists st', advance k st = (Val tt, st') /\ tinv (uf_set k (uf k + 1) uf) ur (lb_set k 0 lb) dl st' /\
    pending st' = pending st /\ trace st' = trace st /\
    interval st' = interval st /\ maxTimeout st' = maxTimeout st /\ same_fn st st'.
Proof.
  intros Hk Hwrap Hlb Hinv. pose proof Hinv as [Hlen Hw Hs Hd Hp].
  pose proof (bk_pos k) as Hb. pose proof (div_succ _ Hb (uf k)) as Hdiv.
  rewrite decide_True in Hdiv by done.
  unfold advance, upd_wheel, modify. set (g := fun w : wheel => set_cur _ w).
  assert (Hin : forall k' j v, in_slot (set_wheels (alter g k (wheels st)) st) k' j v <-> in_slot st k' j v).
  { intros k' j v. unfold in_slot. simpl. destruct (decide (k' = k)) as [-> | Hne].
    - rewrite list_lookup_alter_eq. destruct (wheels st !! k) as [w0 |]; simpl; [| naive_solver].
      split; intros (w & vs & [= <-] & ? & ?); eauto.
    - by rewrite list_lookup_alter_ne by congruence. }
  eexists. split; [done |]. split_and!; [| done..].
  split; simpl; [by rewrite length_alter | | | | done].
  - intros k' w Hk'. unfold uf_set. destruct (decide (k' = k)) as [-> | Hne].
    + rewrite list_lookup_alter_eq in Hk'. destruct (wheels st !! k) as [w0 |] eqn:E; simplify_eq/=.
      destruct (Hw _ _ E) as [H1 H2 H3 H4]. split; simpl; [done | done | | done].
      rewrite Nat2Z.inj_mod, Nat2Z.inj_add, H2, H3, Hdiv, Zplus_mod_idemp_l. done.
    + rewrite list_lookup_alter_ne in Hk' by congruence. by apply Hw.
  - intros k' j v Hv%Hin. destruct (Hs _ _ _ Hv) as (t & Ht & Hst & Hor). exists t.
    split_and!; [done | done |]. destruct Hor as [? | (D & HD & Hl)]; [by left | right].
    exists D. split; [done |]. unfold uf_set, lb_set. case_decide as E; [subst k' | done].
    destruct Hl as (H1 & H2 & H3). split_and!; [lia | lia | done | done].
  - intros v D HD. destruct (Hd _ _ HD) as (Hnp & k' & j & Hv). split; [done |].
    exists k', j. by apply Hin.
Qed.

(** ** [callAndRm] on the leaf *)

Lemma call_loop x uf ur lb vs : forall dl st,
  tinv uf ur lb dl st -> NoDup vs ->
  (forall v, v ∈ vs -> dl !! v = Some x /\ exists j, in_slot st 0 j v) ->
  exists st' dl', foreach vs call st = (Val tt, st') /\ tinv uf ur lb dl' st' /\
    handed x st dl st' dl' /\ pending st' = pending st ++ vs /\ wheels st' = wheels st.
Proof.
  induction vs as [| v vs IH]; intros dl st Hinv Hnd Hvs.
  { eexists _, _. split_and!; [done | done | apply handed_refl | by rewrite app_nil_r | done]. }
  apply NoDup_cons in Hnd as [Hv Hnd].
  destruct (Hvs v) as [HD [j Hin]]; [set_solver |].
  destruct (ti_slot _ _ _ _ _ Hinv _ _ _ Hin) as (t & Ht & Hst & _).
  assert (Hinv1 : tinv uf ur lb (delete v dl) (set_pending (pending st ++ [v]) st)).
  { eapply tinv_call; [done | done |]. intros k j' Hin'.
    by destruct (tinv_place _ _ _ _ _ _ _ _ _ _ Hinv Hin Hin'). }
  destruct (IH (delete v dl) (set_pending (pending st ++ [v]) st)) as (st' & dl' & Hr & Hinv' & Hh & Hpd & Hwh);
    [done | done | |].
  { intros v' Hv'. destruct (Hvs v') as [HD' Hin']; [set_solver |]. split; [| done].
    rewrite lookup_delete_ne; [done |]. by intros ->. }
  exists st', dl'. split_and!; [| done | | by rewrite Hpd; simpl; rewrite <- app_assoc | done].
  - cbn [foreach]. unfold bind at 1. by rewrite (call_run _ _ _ _ Ht Hst).
  - eapply handed_trans; [| exact Hh]. rewrite <- (insert_id dl v x HD) at 1. apply handed_one.
Qed.

Lemma callAndRm_ok uf ur lb dl st :
  pending st = [] -> lb 0%nat = 0 -> tinv uf ur lb dl st ->
  exists st' dl', callAndRm 0 st = (Val tt, st') /\ tinv uf ur (lb_set 0 1 lb) dl' st' /\
    handed (uf 0%nat) st dl st' dl'.
Proof.
  intros Hpd Hlb Hinv.
  destruct (cur_slot _ _ _ _ _ 0 Hinv) as (w & vs & Hw & Hok & Hvs & Hat & Hin); [lia |].
  destruct (call_loop (uf 0%nat) uf ur lb (elements vs) dl st) as (st' & dl' & Hr & Hinv' & Hh & Hpd' & Hwh);
    [done | apply NoDup_elements | |].
  { intros v Hv%elem_of_elements%Hin.
    destruct (ti_slot _ _ _ _ _ Hinv _ _ _ Hv) as (t & _ & _ & [[_ Hc] | (D & HD & Hloc)]).
    { rewrite Hpd in Hc. set_solver. }
    assert (H0 : 0 <= lb 0%nat) by lia.
    pose proof (at_cur_due _ _ _ _ _ _ _ _ Hok H0 Hloc eq_refl) as E. rewrite bk_0, !Z.div_1_r in E.
    subst. eauto. }
  exists st', dl'. split_and!; [| | done].
  - unfold callAndRm, bind at 1. rewrite Hat. exact Hr.
  - eapply (tinv_lb _ _ lb _ _ _ 0); [| | | done].
    + intros i Hi. unfold lb_set. by rewrite decide_False.
    + unfold lb_set. rewrite decide_True by done. lia.
    + intros j v Hv. destruct (decide (j = cur w)) as [-> | Hj].
      * left. split; [done |]. rewrite Hpd'. apply elem_of_app. right. apply elem_of_elements, Hin.
        unfold in_slot in *. by rewrite Hwh in Hv.
      * right. destruct (ti_slot _ _ _ _ _ Hinv' _ _ _ Hv) as (t & _ & _ & [[_ Hc] | (D & HD & Hloc)]).
        -- rewrite Hpd', Hpd in Hc. simpl in Hc. apply elem_of_elements, Hin in Hc.
           assert (Hv' : in_slot st 0 j v) by (unfold in_slot in *; by rewrite Hwh in Hv).
           destruct (tinv_place _ _ _ _ _ _ _ _ _ _ Hinv Hc Hv') as [_ ?]. done.
        -- exists D. split; [done |]. intros E. apply Hj. eapply due_at_cur; [done | done |]. lia.
Qed.
(** ** [wheel.move] *)

Lemma at_start_ok uf ur lb dl st k :
  (k < n)%nat -> tinv uf ur lb dl st ->
  at_start k st = (Val (bool_decide ((uf k / bk k) mod B = 0)), st).
Proof.
  intros Hk Hinv. destruct (tinv_get _ _ _ _ _ k Hinv Hk) as (w & Hw & Hok).
  unfold at_start, bind. rewrite (get_wheel_run _ _ _ Hw). unfold ret. repeat f_equal.
  apply bool_decide_ext. rewrite <- (wo_cur _ _ _ _ Hok). lia.
Qed.

Definition below (k : nat) (u : Z) (i : nat) : Z := if decide (i <= k)%nat then u + 1 else u.

Lemma wheel_move_ok k : forall u dl st,
  (k < n)%nat -> -1 <= u -> pending st = [] -> tinv (fun _ => u) u (fun _ => 1) dl st ->
  exists st' dl', wheel_move k st = (Val (bool_decide ((u + 1) mod bk (S k) = 0)), st') /\
    tinv (below k u) (u + 1) (fun _ => 1) dl' st' /\ handed (u + 1) st dl st' dl'.
Proof.
  induction k as [| k IH]; intros u dl st Hk Hu Hpd Hinv.
  - destruct (tick_ok _ _ _ _ _ Hu Hinv) as (st1 & Hr1 & Hinv1 & Hh1 & Hpd1).
    destruct (advance_ok _ _ _ _ _ 0 Hk ltac:(by rewrite bk_0, Z.mod_1_r) eq_refl Hinv1)
      as (st2 & Hr2 & Hinv2 & Hp2 & Ht2 & Hi2 & Hm2 & Hf2).
    assert (Hpd2 : pending st2 = []) by congruence.
    destruct (callAndRm_ok _ _ _ _ _ Hpd2 eq_refl Hinv2) as (st3 & dl3 & Hr3 & Hinv3 & Hh3).
    exists st3, dl3. split_and!.
    + cbn [wheel_move]. unfold bind at 1, gets at 1. unfold bind at 1. rewrite Hr1.
      unfold bind at 1. rewrite Hr2. unfold bind at 1. rewrite Hr3.
      rewrite (at_start_ok _ _ _ _ _ 0 Hk Hinv3). unfold uf_set. simpl.
      rewrite Z.div_1_r, Z.pow_1_r. done.
    + eapply tinv_ext; [| | exact Hinv3]; intros i Hi; unfold uf_set, below, lb_set; repeat case_decide; lia || done.
    + eapply handed_trans; [exact Hh1 |]. eapply handed_trans; [by apply handed_same | exact Hh3].
  - destruct (IH u dl st) as (st1 & dl1 & Hr1 & Hinv1 & Hh1); try done; [lia |].
    cbn [wheel_move]. unfold bind at 1.
    rewrite (drain_idle _ _ _ _ _ k Hk (Z.le_refl 1) Hinv). unfold bind at 1. rewrite Hr1.
    pose proof (bk_pos (S k)) as Hb. case_bool_decide as Hw.
    + destruct (advance_ok (below k u) (u + 1) (fun _ => 1) dl1 st1 (S k)) as (st2 & Hr2 & Hinv2 & Hp2 & Ht2 & Hi2 & Hm2 & Hf2);
        [done | unfold below; by rewrite decide_False by lia | done | done |].
      destruct (drain_ok (u + 1) (uf_set (S k) (below k u (S k) + 1) (below k u)) (lb_set (S k) 0 (fun _ => 1)) dl1 st2 k)
        as (st3 & dl3 & Hr3 & Hinv3 & Hh3); try done; [lia | | | |].
      { intros i Hi. unfold uf_set, below. repeat case_decide; lia. }
      { intros i Hi. unfold lb_set. case_decide; lia. }
      { unfold lb_set. by rewrite decide_True. }
      exists st3, dl3. split_and!.
      * unfold bind at 1. rewrite Hr2. unfold bind at 1. rewrite Hr3.
        rewrite (at_start_ok _ _ _ _ _ (S k) Hk Hinv3). repeat f_equal. apply bool_decide_ext.
        unfold uf_set, below. rewrite !decide_True, decide_False by lia.
        rewrite (wrap_digit (u + 1) (S k)). tauto.
      * eapply tinv_ext; [| | exact Hinv3]; intros i Hi; unfold uf_set, below, lb_set; repeat case_decide; try lia; f_equal; lia.
      * eapply handed_trans; [exact Hh1 |]. eapply handed_trans; [by apply handed_same | exact Hh3].
    + exists st1, dl1. split_and!; [| | done].
      * unfold ret. repeat f_equal. symmetry. apply bool_decide_eq_false_2.
        rewrite (wrap_digit (u + 1) (S k)). tauto.
      * eapply tinv_ext; [| | exact Hinv1]; intros i Hi; [| lia].
        unfold below. repeat case_decide; try lia; try done. assert (i = S k) as -> by lia.
        pose proof (div_succ _ Hb u) as E. rewrite decide_False in E by done. lia.
Qed.

(** ** The executor *)

Definition events (ts : gmap nat Task) (v : nat) : list event :=
  (match ts !! v with Some t => if fn t then [Callback_called v] else [] | None => [] end)
    ++ [Signalled v].

Lemma tinv_unpend uf ur lb dl st P v :
  (forall k j, ~ in_slot st k j v) -> tinv uf ur lb dl (set_pending P st) ->
  tinv uf ur lb dl (set_pending (filter (fun v' => v' <> v) P) st).
Proof.
  intros Hno [Hlen Hw Hs Hd Hp]. split; [done | done | | |]; simpl in *.
  - intros k j v' Hin. destruct (Hs k j v' Hin) as (t & Ht & Hst & Hor). exists t.
    split_and!; [done | done |]. destruct Hor as [[-> Hpd] | ?]; [left | by right].
    split; [done |]. apply list_elem_of_filter. split; [| done]. intros ->. by eapply Hno.
  - intros v' D HD. destruct (Hd v' D HD) as [Hnp Hin]. split; [| done].
    rewrite list_elem_of_filter. tauto.
  - intros v' [_ Hv']%list_elem_of_filter. by apply Hp.
Qed.

Lemma Cancel_ok uf ur lb dl st P v t :
  tinv uf ur lb dl (set_pending P st) -> tasks st !! v = Some t ->
  exists st', Cancel v st = (Val tt, st') /\
    tinv uf ur lb (delete v dl) (set_pending (filter (fun v' => v' <> v) P) st') /\
    (forall k j, ~ in_slot st' k j v) /\
    pending st' = pending st /\ trace st' = trace st /\ same_fn st st' /\
    interval st' = interval st /\ maxTimeout st' = maxTimeout st.
Proof.
  intros Hinv Ht. unfold Cancel, bind at 1. rewrite (get_task_run _ _ _ Ht).
  destruct (s t) as [[k j] |] eqn:Hst.
  - unfold bind at 1. rewrite slot_remove_run, upd_task_run. eexists. split; [done |].
    destruct (tinv_unstore _ _ _ _ (set_pending P st) k j v Hinv) as [Hinv' Hno].
    { intros k' j' Hin. destruct (ti_slot _ _ _ _ _ Hinv _ _ _ Hin) as (t' & Ht' & Hst' & _).
      simpl in Ht'. by simplify_eq. }
    split_and!; [| done | done | done | | done | done].
    + apply (tinv_unpend _ _ _ _ _ P); [done |].
      apply (tinv_upd_task _ _ _ _ _ v (set_s None) Hno Hinv').
    + apply (same_fn_alter (unstore k j v st)). done.
  - assert (Hno : forall k j, ~ in_slot st k j v).
    { intros k j Hin. destruct (ti_slot _ _ _ _ _ Hinv k j v Hin) as (t' & Ht' & Hst' & _).
      simpl in Ht'. by simplify_eq. }
    eexists. split; [done |]. split_and!; try done. apply (tinv_unpend _ _ _ _ _ P); [done |].
    rewrite delete_id; [done |]. destruct (dl !! v) as [D |] eqn:E; [| done].
    destruct (ti_dl _ _ _ _ _ Hinv _ _ E) as (_ & k & j & Hin). by apply Hno in Hin.
Qed.

Lemma events_same_fn st st' v : same_fn st st' -> events (tasks st') v = events (tasks st) v.
Proof.
  intros Hs. unfold events. specialize (Hs v).
  destruct (tasks st' !! v) as [t' |], (tasks st !! v) as [t |]; simpl in Hs; try congruence.
  injection Hs as ->. done.
Qed.

Lemma tinv_trace uf ur lb dl st P l :
  tinv uf ur lb dl (set_pending P st) -> tinv uf ur lb dl (set_pending P (add_trace l st)).
Proof. intros [H1 H2 H3 H4 H5]. by split. Qed.

Lemma exec_ok uf ur lb dl st P v :
  tinv uf ur lb dl (set_pending (v :: P) st) -> v ∉ P -> dl !! v = None ->
  exists st', exec v st = (Val tt, st') /\ tinv uf ur lb dl (set_pending P st') /\
    pending st' = pending st /\ trace st' = trace st ++ events (tasks st) v /\ same_fn st st' /\
    interval st' = interval st /\ maxTimeout st' = maxTimeout st.
Proof.
  intros Hinv Hv Hdl. destruct (ti_pend _ _ _ _ _ Hinv v) as [t Ht]; [simpl; set_solver |]. simpl in Ht.
  destruct (Cancel_ok _ _ _ _ _ _ _ _ Hinv Ht) as (st1 & Hr & Hinv1 & _ & Hp1 & Ht1 & Hf1 & Hi1 & Hm1).
  rewrite filter_cons_False, filter_all in Hinv1 by (try intros ? ?; naive_solver).
  rewrite delete_id in Hinv1 by done.
  pose proof (Hf1 v) as Hfv. rewrite Ht in Hfv.
  destruct (tasks st1 !! v) as [t1 |] eqn:Ht1v; [| done].
  injection Hfv as Hfv.
  unfold exec, bind at 1. rewrite Hr. unfold bind at 1. rewrite (get_task_run _ _ _ Ht1v), Hfv.
  unfold events. rewrite Ht. destruct (fn t); eexists; (split; [reflexivity |]); simpl;
    (split_and!; [repeat apply tinv_trace; exact Hinv1 | done | by rewrite Ht1, <- ?app_assoc | done | done | done]).
Qed.

Lemma foreach_exec uf ur lb vs : forall dl st,
  tinv uf ur lb dl (set_pending vs st) -> NoDup vs ->
  exists st', foreach vs exec st = (Val tt, st') /\ tinv uf ur lb dl (set_pending [] st') /\
    pending st' = pending st /\ trace st' = trace st ++ concat (events (tasks st) <$> vs) /\ same_fn st st' /\
    interval st' = interval st /\ maxTimeout st' = maxTimeout st.
Proof.
  induction vs as [| v vs IH]; intros dl st Hinv Hnd.
  { exists st. simpl. rewrite app_nil_r. by split_and!. }
  apply NoDup_cons in Hnd as [Hv Hnd].
  assert (Hdl : dl !! v = None).
  { destruct (dl !! v) as [D |] eqn:E; [| done]. destruct (ti_dl _ _ _ _ _ Hinv _ _ E) as [Hn' _].
    exfalso. apply Hn'. simpl. set_solver. }
  destruct (exec_ok _ _ _ _ _ _ _ Hinv Hv Hdl) as (st1 & Hr1 & Hinv1 & Hp1 & Ht1 & Hf1 & Hi1 & Hm1).
  destruct (IH dl st1 Hinv1 Hnd) as (st2 & Hr2 & Hinv2 & Hp2 & Ht2 & Hf2 & Hi2 & Hm2).
  exists st2. split_and!; [| done | congruence | | | congruence | congruence].
  - cbn [foreach]. unfold bind. by rewrite Hr1.
  - rewrite Ht2, Ht1, <- app_assoc. do 2 f_equal. simpl. f_equal. f_equal.
    apply list_fmap_ext. intros i v' _. by apply events_same_fn.
  - intros v'. by rewrite Hf2, Hf1.
Qed.
(** ** One tick *)

Lemma steady_after u dl st v D : steady u dl st -> dl !! v = Some D -> u < D.
Proof.
  intros (Hu & Hinv & Hpd) HD. destruct (ti_dl _ _ _ _ _ Hinv _ _ HD) as (_ & k & j & Hin).
  destruct (ti_slot _ _ _ _ _ Hinv _ _ _ Hin) as (t & _ & _ & [[_ Hc] | (D' & HD' & (Hd & _))]).
  - rewrite Hpd in Hc. set_solver.
  - simplify_eq. destruct (Z_lt_dec u D) as [| Hge]; [done |].
    pose proof (bk_pos k). pose proof (Z.div_le_mono D u (bk k) ltac:(lia) ltac:(lia)). lia.
Qed.

Lemma onTicker_run st : onTicker st = wheel_move (length (wheels st) - 1) st.
Proof. done. Qed.

Definition settled (x : Z) (dl : gmap nat Z) : gmap nat Z := filter (fun p : nat * Z => p.2 <> x) dl.

Lemma tick_round_ok u dl st :
  steady u dl st ->
  exists st' F, tick_round st = (Val tt, st') /\ steady (u + 1) (settled (u + 1) dl) st' /\
    NoDup F /\ (forall v, v ∈ F <-> dl !! v = Some (u + 1)) /\
    trace st' = trace st ++ concat (events (tasks st) <$> F) /\ same_fn st st' /\
    interval st' = interval st /\ maxTimeout st' = maxTimeout st.
Proof.
  intros (Hu & Hinv & Hpd).
  destruct (wheel_move_ok (n - 1) u dl st) as (st1 & dl1 & Hr1 & Hinv1 & F & HP & HT & HN & HF & Hdl & HI & HM & HS);
    try done; [lia |].
  rewrite Hpd in HP. simpl in HP.
  assert (Hinv2 : tinv (fun _ => u + 1) (u + 1) (fun _ => 1) dl1 (set_pending F (set_pending [] st1))).
  { assert (E : set_pending F (set_pending [] st1) = st1) by (rewrite <- HP; by destruct st1).
    rewrite E. eapply tinv_ext; [| | exact Hinv1]; intros i Hi; unfold below; [| lia].
    rewrite decide_True by lia. done. }
  destruct (foreach_exec _ _ _ F dl1 _ Hinv2 HN) as (st2 & Hr2 & Hinv3 & Hp2 & Ht2 & Hf2 & Hi2 & Hm2).
  assert (E3 : set_pending [] st2 = st2) by (destruct st2; simpl in *; by subst).
  rewrite E3 in Hinv3.
  assert (Hst : steady (u + 1) dl1 st2) by (split_and!; [lia | done | done]).
  exists st2, F. split_and!; [| | done | | | | simpl in *; congruence | simpl in *; congruence].
  - unfold tick_round, bind at 1. rewrite onTicker_run, (ti_len _ _ _ _ _ Hinv), Hr1.
    unfold run_executor, bind at 1, gets at 1. rewrite HP. unfold bind at 1, modify at 1. done.
  - enough (dl1 = settled (u + 1) dl) as <- by done. apply map_eq. intros v.
    rewrite Hdl. unfold settled. destruct (decide (v ∈ F)) as [Hv | Hv].
    + symmetry. apply map_lookup_filter_None_2. right. intros D HD.
      rewrite (HF v Hv) in HD. simplify_eq/=. tauto.
    + destruct (dl !! v) as [D |] eqn:HD.
      * symmetry. apply map_lookup_filter_Some_2; [done |]. simpl. intros ->.
        assert (Hc : dl1 !! v = Some (u + 1)) by (by rewrite Hdl, decide_False).
        pose proof (steady_after _ _ _ _ _ Hst Hc). lia.
      * symmetry. apply map_lookup_filter_None_2. by left.
  - intros v. split; [by apply HF |]. intros HD. destruct (decide (v ∈ F)) as [| Hv]; [done |].
    assert (Hc : dl1 !! v = Some (u + 1)) by (by rewrite Hdl, decide_False).
    pose proof (steady_after _ _ _ _ _ Hst Hc). lia.
  - rewrite Ht2. simpl. rewrite HT. do 2 f_equal. apply list_fmap_ext. intros i v _.
    by apply (events_same_fn st).
  - intros v. rewrite Hf2. apply HS.
Qed.

(** ** [After] *)

(** The state after a task that fires at [dl'] came in, and nothing fired. *)
Definition entered (u : Z) (dl' : gmap nat Z) (st st' : tw_state) : Prop :=
  steady u dl' st' /\ trace st' = trace st /\ same_fn st st' /\ interval st' = interval st /\ maxTimeout st' = maxTimeout st.

Lemma steady_store k u dl st w v t D sl :
  (k < n)%nat -> steady u dl st -> wheels st !! k = Some w -> tasks st !! v = Some t -> dl !! v = None ->
  (forall i j, ~ in_slot st i j v) -> (k <> 0%nat -> offset t = D mod bk k) ->
  sl = D / bk k - u / bk k -> 1 <= sl <= B - 1 ->
  exists st', slot_put k (cur w) sl v st = (Val 0, st') /\ entered u (<[v := D]> dl) st st'.
Proof.
  intros Hk (Hu & Hinv & Hpd) Hw Ht Hdl Hno Hoff -> Hsl.
  destruct (tinv_get _ _ _ _ _ _ Hinv Hk) as (w' & Hw' & Hok). assert (w' = w) as -> by congruence.
  destruct (put_at_level u (fun _ => u) (fun _ => 1) dl st k w v t D Hinv Hw Hok)
    as (st' & Hp & H1 & (F & P1 & P2 & P3 & P4 & P5 & P6 & P7 & P8) & _); try done; [rewrite Hpd; set_solver |].
  exists st'. split; [done |]. unfold entered. split_and!; try done. split_and!; [done | done |].
  assert (F = []) as ->; [| by rewrite P1, Hpd].
  destruct F as [| v' F]; [done |]. exfalso. specialize (P5 v'). rewrite decide_True in P5 by set_solver.
  rewrite P4 in P5; [done | set_solver].
Qed.

(** With the offset the wheel stores. *)
Lemma steady_store_offset k u dl st w v t D o sl :
  (k < n)%nat -> steady u dl st -> wheels st !! k = Some w -> tasks st !! v = Some t -> dl !! v = None ->
  (forall i j, ~ in_slot st i j v) -> o = D mod bk k -> sl = D / bk k - u / bk k -> 1 <= sl <= B - 1 ->
  exists st', (upd_task v (set_offset o) ;;; let! _ := slot_put k (cur w) sl v in ret tt)%go st = (Val tt, st') /\
    entered u (<[v := D]> dl) st st'.
Proof.
  intros Hk Hst Hw Ht Hdl Hno -> Hsl Hb. unfold bind at 1. rewrite upd_task_run.
  set (st1 := set_tasks (alter (set_offset (D mod bk k)) v (tasks st)) st).
  destruct (steady_store k u dl st1 w v (set_offset (D mod bk k) t) D sl) as (st' & Hp & H1 & H2 & H3 & H4 & H5); try done.
  - destruct Hst as (Hu & Hinv & Hpd). split_and!; [done | by apply tinv_upd_task | done].
  - simpl. by rewrite lookup_alter_eq, Ht.
  - unfold bind. rewrite Hp. exists st'. split; [done |]. unfold entered. split_and!; try done.
    intros v'. rewrite H3. by apply same_fn_alter.
Qed.

(** The wheel below has gone [u mod bk (S k)] of its way. *)
Lemma remain_below u dl st k c :
  (S k < n)%nat -> steady u dl st -> 0 <= u -> wheels st !! k = Some c -> remain c = bk (S k) - u mod bk (S k).
Proof.
  intros Hk (_ & Hinv & _) Hu Hc. destruct (tinv_get _ _ _ _ _ k Hinv ltac:(lia)) as (c' & Hc' & Hok).
  assert (c' = c) as -> by congruence. destruct (wo_remain _ _ _ _ Hok Hk) as [-> | [? _]]; lia.
Qed.

Lemma wheel_put2_ok k : forall u dl st v t,
  (k < n)%nat -> steady u dl st -> 0 <= u -> tasks st !! v = Some t -> dl !! v = None ->
  (forall i j, ~ in_slot st i j v) ->
  1 <= offset t -> (u + offset t) / bk k - u / bk k <= B - 1 ->
  exists st', wheel_put2 k v st = (Val tt, st') /\ entered u (<[v := u + offset t]> dl) st st'.
Proof.
  induction k as [| k IH]; intros u dl st v t Hk Hst Hu0 Ht Hdl Hno Ho Hfit; pose proof Hst as (Hu & Hinv & Hpd);
    destruct (tinv_get _ _ _ _ _ _ Hinv Hk) as (w & Hw & Hok);
    pose proof (wo_cap _ _ _ _ Hok) as Hcap; set (D := u + offset t) in *.
  - cbn [wheel_put2]. unfold bind at 1. rewrite (get_wheel_run _ _ _ Hw). unfold bind at 1.
    rewrite (get_task_run _ _ _ Ht), Hcap, bk_0, Z.div_1_r.
    rewrite (proj2 (Z.eqb_neq _ _)) by lia. rewrite bk_0, !Z.div_1_r in Hfit.
    destruct (steady_store 0 u dl st w v t D (offset t)) as (st' & Hp & H1); try done; [rewrite bk_0, !Z.div_1_r; lia | lia |].
    unfold bind. rewrite Hp. by exists st'.
  - destruct (tinv_get _ _ _ _ _ k Hinv) as (c & Hc & _); [lia |].
    pose proof (remain_below u dl st k c Hk Hst Hu0 Hc) as Hrem. pose proof (bk_pos (S k)) as Hb.
    pose proof (Z.div_mod u (bk (S k)) ltac:(lia)) as Eu. pose proof (Z.mod_pos_bound u (bk (S k)) Hb) as Bu.
    pose proof (Z.div_mod (offset t) (bk (S k)) ltac:(lia)) as Eo. pose proof (Z.mod_pos_bound (offset t) (bk (S k)) Hb) as Bo.
    pose proof (Z.div_mod D (bk (S k)) ltac:(lia)) as ED. pose proof (Z.mod_pos_bound D (bk (S k)) Hb) as BD.
    cbn [wheel_put2]. unfold bind at 1. rewrite (get_wheel_run _ _ _ Hw). unfold bind at 1.
    rewrite (get_task_run _ _ _ Ht), Hcap.
    destruct (Z.eqb_spec (offset t / bk (S k)) 0) as [E | E]; unfold bind at 1; rewrite (get_wheel_run _ _ _ Hc).
    + destruct (Z.ltb_spec (offset t) (remain c)) as [Hlt | Hge].
      * apply IH; try done; [lia |]. fold D.
        assert (HDu : D / bk (S k) = u / bk (S k))
          by (symmetry; apply (Z.div_unique D (bk (S k)) (u / bk (S k)) (u mod bk (S k) + offset t)); lia).
        rewrite !div_bk_S in HDu.
        pose proof (Z.mod_pos_bound (D / bk k) B ltac:(lia)). pose proof (Z.mod_pos_bound (u / bk k) B ltac:(lia)).
        pose proof (Z.div_mod (D / bk k) B ltac:(lia)). pose proof (Z.div_mod (u / bk k) B ltac:(lia)). lia.
      * assert (HDu : D / bk (S k) = u / bk (S k) + 1)
          by (symmetry; apply (Z.div_unique D (bk (S k)) _ (offset t - remain c)); lia).
        rewrite HDu in ED. apply (steady_store_offset _ _ _ _ _ _ t); try done; lia.
    + assert (0 < offset t / bk (S k)) by (pose proof (Z.div_pos (offset t) (bk (S k)) ltac:(lia) ltac:(lia)); lia).
      case_match eqn:Eif. destruct (Z.leb_spec (bk (S k))
        (offset t - ((offset t / bk (S k) - 1) * bk (S k) + remain c - 1) - 1)) as [Hle | Hlt]; injection Eif as <- <-.
      * assert (HDu : D / bk (S k) = u / bk (S k) + offset t / bk (S k) + 1)
          by (symmetry; apply (Z.div_unique D (bk (S k)) _ (u mod bk (S k) + offset t mod bk (S k) - bk (S k))); lia).
        rewrite HDu in ED. apply (steady_store_offset _ _ _ _ _ _ t); try done; lia.
      * assert (HDu : D / bk (S k) = u / bk (S k) + offset t / bk (S k))
          by (symmetry; apply (Z.div_unique D (bk (S k)) _ (u mod bk (S k) + offset t mod bk (S k))); lia).
        rewrite HDu in ED. apply (steady_store_offset _ _ _ _ _ _ t); try done; lia.
Qed.

(** ** The operations on a steady wheel *)

Lemma tinv_new_task uf ur lb dl st v t :
  tasks st !! v = None -> tinv uf ur lb dl st ->
  tinv uf ur lb dl (set_tasks (<[v := t]> (tasks st)) st).
Proof.
  intros Hv [Hlen Hw Hs Hd Hp]. split; [done | done | | done |]; simpl.
  - intros k j v' Hin. destruct (Hs k j v' Hin) as (t' & Ht' & Hrest). exists t'.
    rewrite lookup_insert_ne by congruence. done.
  - intros v' Hv'. destruct (Hp v' Hv') as [t' Ht']. rewrite lookup_insert_ne by congruence. eauto.
Qed.

Lemma fresh_task u dl st v :
  steady u dl st -> tasks st !! v = None -> dl !! v = None /\ forall i j, ~ in_slot st i j v.
Proof.
  intros (_ & Hinv & _) Hv.
  assert (Hno : forall i j, ~ in_slot st i j v).
  { intros i j Hin. destruct (ti_slot _ _ _ _ _ Hinv _ _ _ Hin) as (t & Ht & _). congruence. }
  split; [| done]. destruct (dl !! v) as [D |] eqn:E; [| done].
  destruct (ti_dl _ _ _ _ _ Hinv _ _ E) as (_ & i & j & Hin). by apply Hno in Hin.
Qed.

Lemma steady_new_task u dl st v t :
  tasks st !! v = None -> steady u dl st -> steady u dl (set_tasks (<[v := t]> (tasks st)) st).
Proof. intros Hv (Hu & Hinv & Hpd). split_and!; [done | by apply tinv_new_task | done]. Qed.

Lemma After_ok u dl st v now timeout :
  let o := tick_offset timeout (interval st) in
  steady u dl st -> 0 <= u -> tasks st !! v = None -> timeout < maxTimeout st ->
  1 <= o -> (u + o) / bk (n - 1) - u / bk (n - 1) <= B - 1 ->
  exists st', After v now timeout st = (Val v, st') /\ steady u (<[v := u + o]> dl) st' /\
    trace st' = trace st /\ fn <$> tasks st' = <[v := false]> (fn <$> tasks st) /\
    interval st' = interval st /\ maxTimeout st' = maxTimeout st.
Proof.
  intros o Hst Hu Hv Hmax Ho Hfit.
  unfold After, bind at 1, get. rewrite decide_False by lia.
  match goal with |- context [<[v := ?t0]> _] => set (t := t0) end.
  set (st1 := set_tasks (<[v := t]> (tasks st)) st).
  destruct (fresh_task _ _ _ _ Hst Hv) as [Hdl Hno].
  destruct (wheel_put2_ok (n - 1) u dl st1 v t) as (st' & Hr & H1 & H2 & H3 & H4 & H5);
    try done; [lia | by apply steady_new_task | simpl; by rewrite lookup_insert_eq |].
  exists st'. split_and!; try done.
  - unfold bind at 1, modify. unfold bind at 1.
    rewrite (ti_len _ _ _ _ _ (proj1 (proj2 Hst))). fold st1. by rewrite Hr.
  - apply map_eq. intros v'. rewrite lookup_fmap, H3. simpl.
    destruct (decide (v' = v)) as [-> |]; by simplify_map_eq.
Qed.

Lemma Cancel_steady u dl st v t :
  steady u dl st -> tasks st !! v = Some t ->
  exists st', Cancel v st = (Val tt, st') /\ steady u (delete v dl) st' /\
    trace st' = trace st /\ same_fn st st' /\
    interval st' = interval st /\ maxTimeout st' = maxTimeout st.
Proof.
  intros (Hu & Hinv & Hpd) Ht.
  assert (E : set_pending [] st = st) by (destruct st; simpl in *; by subst). rewrite <- E in Hinv.
  destruct (Cancel_ok _ _ _ _ _ _ _ _ Hinv Ht) as (st' & Hr & Hinv' & _ & Hp & Htr & Hf & Hi & Hm).
  exists st'. split_and!; try done. split; [done |]. split; [| congruence].
  rewrite Hpd in Hp. by destruct st'; simpl in *; subst.
Qed.

Lemma Callback_steady u dl st v :
  steady u dl st ->
  steady u dl (set_tasks (alter (set_fn true) v (tasks st)) st).
Proof.
  intros (Hu & [Hlen Hw Hs Hd Hp] & Hpd). split; [done |]. split; [| done].
  split; [done | done | | done |]; simpl.
  - intros k j v' Hin. destruct (Hs k j v' Hin) as (t & Ht & Hst & Hor).
    destruct (decide (v' = v)) as [-> |].
    + exists (set_fn true t). rewrite lookup_alter_eq, Ht. by split_and!.
    + exists t. by rewrite lookup_alter_ne.
  - intros v' Hv'. rewrite Hpd in Hv'. set_solver.
Qed.

(** An offset that reaches past the last wheel is dropped by [slot.put]. *)
Lemma wheel_put2_drop u dl st v t :
  steady u dl st -> 0 <= u -> tasks st !! v = Some t -> dl !! v = None ->
  (forall i j, ~ in_slot st i j v) -> B <= (u + offset t) / bk (n - 1) - u / bk (n - 1) ->
  exists st', wheel_put2 (n - 1) v st = (Val tt, st') /\ steady u dl st' /\
    trace st' = trace st /\ same_fn st st' /\
    interval st' = interval st /\ maxTimeout st' = maxTimeout st.
Proof.
  intros (Hu & Hinv & Hpd) Hu0 Ht Hdl Hno Hbig.
  assert (Hk : (n - 1 < n)%nat) by lia. revert Hk Hbig. generalize (n - 1)%nat as k. intros k Hk Hbig.
  destruct (tinv_get _ _ _ _ _ _ Hinv Hk) as (w & Hw & Hok).
  pose proof (wo_cap _ _ _ _ Hok) as Hcap. pose proof (wo_len _ _ _ _ Hok) as Hlen.
  pose proof (cur_lt _ _ _ _ Hok) as Hcur.
  destruct k as [| k].
  - cbn [wheel_put2]. unfold bind at 1. rewrite (get_wheel_run _ _ _ Hw). unfold bind at 1.
    rewrite (get_task_run _ _ _ Ht), Hcap, bk_0, Z.div_1_r. rewrite bk_0, !Z.div_1_r in Hbig.
    rewrite (proj2 (Z.eqb_neq _ _)) by lia.
    destruct (slot_put_drop st 0 w (cur w) (offset t) v Hw Hcur) as [r Hr]; [lia |].
    unfold bind. rewrite Hr. exists st. split_and!; done.
  - destruct (tinv_get _ _ _ _ _ k Hinv) as (c & Hc & Hcok); [lia |].
    pose proof (bk_pos (S k)) as Hb.
    assert (Hrem : remain c = bk (S k) - u mod bk (S k)).
    { destruct (wo_remain _ _ _ _ Hcok ltac:(lia)) as [-> | [? _]]; lia. }
    cbn [wheel_put2]. unfold bind at 1. rewrite (get_wheel_run _ _ _ Hw). unfold bind at 1.
    rewrite (get_task_run _ _ _ Ht), Hcap.
    assert (Hsum : (u + offset t) / bk (S k) = u / bk (S k) + offset t / bk (S k) +
      (u mod bk (S k) + offset t mod bk (S k)) / bk (S k)).
    { rewrite (Z.div_mod u (bk (S k))) at 1 by lia. rewrite (Z.div_mod (offset t) (bk (S k))) at 1 by lia.
      match goal with |- ?x / _ = _ => replace x with (u mod bk (S k) + offset t mod bk (S k) +
        (u / bk (S k) + offset t / bk (S k)) * bk (S k)) by lia end.
      rewrite Z.div_add by lia. lia. }
    pose proof (Z.mod_pos_bound u (bk (S k)) Hb) as Bu.
    pose proof (Z.mod_pos_bound (offset t) (bk (S k)) Hb) as Bo.
    pose proof (Z.div_mod (offset t) (bk (S k)) ltac:(lia)) as Eo.
    assert (Hcarry : (u mod bk (S k) + offset t mod bk (S k)) / bk (S k) =
      if decide (bk (S k) <= u mod bk (S k) + offset t mod bk (S k)) then 1 else 0).
    { case_decide.
      - symmetry. apply (Z.div_unique _ _ _ (u mod bk (S k) + offset t mod bk (S k) - bk (S k))); lia.
      - by apply Z.div_small; lia. }
    rewrite (proj2 (Z.eqb_neq _ _)) by (case_decide; lia).
    unfold bind at 1. rewrite (get_wheel_run _ _ _ Hc).
    destruct (if bk (S k) <=? _ then _ else _) as [sl o] eqn:Eif. unfold bind at 1. rewrite upd_task_run.
    set (st1 := set_tasks _ st).
    destruct (slot_put_drop st1 (S k) w (cur w) sl v Hw Hcur) as [r Hr].
    { destruct (Z.leb_spec (bk (S k)) (offset t - ((offset t / bk (S k) - 1) * bk (S k) + remain c - 1) - 1));
        injection Eif as <- <-; case_decide; lia. }
    unfold bind. rewrite Hr. exists st1. split_and!; try done.
    + split; [done |]. split; [by apply tinv_upd_task | done].
    + by apply same_fn_alter.
Qed.

Lemma NewTimingWheel_steady (Hn' : B = Z.of_nat (Z.to_nat B)) itv :
  steady (-1) ∅ (NewTimingWheel itv n (Z.to_nat B)).
Proof.
  split; [done |]. split; [| done].
  assert (Hlk : forall k w, wheels (NewTimingWheel itv n (Z.to_nat B)) !! k = Some w ->
    (k < n)%nat /\ w = newWheel (Z.to_nat B) (S k) n).
  { intros k w Hk. simpl in Hk. rewrite list_lookup_fmap in Hk.
    destruct (seq 1 n !! k) as [i |] eqn:E; [| done]. apply lookup_seq in E as [-> ?]. by simplify_eq/=. }
  assert (Hno : forall k j v, ~ in_slot (NewTimingWheel itv n (Z.to_nat B)) k j v).
  { intros k j v (w & vs & Hk & Hvs & Hin). destruct (Hlk k w Hk) as [_ ->].
    simpl in Hvs. apply lookup_replicate in Hvs as [-> _]. set_solver. }
  split.
  - simpl. by rewrite length_fmap, length_seq.
  - intros k w Hk. destruct (Hlk k w Hk) as [Hkn ->]. pose proof (bk_pos k) as Hb.
    assert (Hcap : Z.of_nat (Z.to_nat B) ^ Z.of_nat (S k) / Z.of_nat (Z.to_nat B) = bk k).
    { rewrite <- Hn', bk_S, Z.mul_comm, Z.div_mul; lia. }
    split; cbn [newWheel slotCap slots cur remain].
    + done.
    + rewrite length_replicate. done.
    + replace (-1 / bk k) with (-1); [| apply (Z.div_unique _ _ _ (bk k - 1)); lia].
      replace (-1 mod B) with (B - 1); [lia | apply (Z.mod_unique _ _ (-1)); lia].
    + intros Hsk. right. split; [done |]. by rewrite decide_False by lia.
  - intros k j v Hin. by apply Hno in Hin.
  - intros v D HD. by rewrite lookup_empty in HD.
  - intros v Hv. simpl in Hv. set_solver.
Qed.
End invariant.
