(* ===== verification/TimingWheelSpec.v ===== *)
(** * The timing wheels implement a table of deadlines

    The abstract timers of [pkg/timingwheel]: a clock, the deadline of each pending task and
    which tasks have a callback. The wheels refine them; when a task fires, that a
    cancelled one does not, and what happens past the last wheel follow. *)

From S2P Require Import Prelude TimingWheel TimingWheelInv.

Local Open Scope Z_scope.
Local Open Scope go_scope.
(** ** The specification: a clock and a finite map of deadlines

    [due] maps the reference of every pending task to the tick at which it must fire;
    [callbacks] records, for every task created, whether it has a callback. *)

Record timers := MkTimers {
  clock : Z;
  due : gmap nat Z;
  callbacks : gmap nat bool;
  period : Z;
  limit : Z }.

Inductive timer_op :=
  | OpAfter (v : nat) (now timeout : Z)
  | OpCallback (v : nat)
  | OpCancel (v : nat)
  | OpTick.

Definition fired_events (cb : gmap nat bool) (v : nat) : list event :=
  (if cb !! v is Some true then [Callback_called v] else []) ++ [Signalled v].

Definition timer_next (a : timers) (op : timer_op) : timers :=
  match op with
  | OpAfter v _ timeout =>
      MkTimers (clock a) (<[v := clock a + tick_offset timeout (period a)]> (due a))
        (<[v := false]> (callbacks a)) (period a) (limit a)
  | OpCallback v => MkTimers (clock a) (due a) (alter (fun _ => true) v (callbacks a)) (period a) (limit a)
  | OpCancel v => MkTimers (clock a) (delete v (due a)) (callbacks a) (period a) (limit a)
  | OpTick => MkTimers (clock a + 1) (filter (fun p : nat * Z => p.2 <> clock a + 1) (due a))
                (callbacks a) (period a) (limit a)
  end.

(** A tick fires, in an unspecified order, exactly the tasks due at it. *)
Definition timer_events (a : timers) (op : timer_op) (evs : list event) : Prop :=
  match op with
  | OpTick => exists F, NoDup F /\ (forall v, v ∈ F <-> due a !! v = Some (clock a + 1)) /\
      evs = concat (fired_events (callbacks a) <$> F)
  | _ => evs = []
  end.

Inductive timer_run : timers -> list timer_op -> list event -> timers -> Prop :=
  | run_nil a : timer_run a [] [] a
  | run_cons a op ops evs evs' a' :
      timer_events a op evs -> timer_run (timer_next a op) ops evs' a' ->
      timer_run a (op :: ops) (evs ++ evs') a'.

(** What a client must respect, with [n] wheels of [B] slots: [After] allocates a new
    task, with a timeout of at least one tick that the wheels can hold. *)
Definition fits (B : Z) (n : nat) (u o : Z) : Prop :=
  (u + o) / B ^ Z.of_nat (n - 1) - u / B ^ Z.of_nat (n - 1) <= B - 1.

Definition op_ok (B : Z) (n : nat) (a : timers) (op : timer_op) : Prop :=
  match op with
  | OpAfter v _ timeout =>
      callbacks a !! v = None /\ 0 <= clock a /\ timeout < limit a /\
      1 <= tick_offset timeout (period a) /\ fits B n (clock a) (tick_offset timeout (period a))
  | OpCallback v | OpCancel v => is_Some (callbacks a !! v)
  | OpTick => True
  end.

Fixpoint ops_ok (B : Z) (n : nat) (a : timers) (ops : list timer_op) : Prop :=
  match ops with
  | [] => True
  | op :: ops' => op_ok B n a op /\ ops_ok B n (timer_next a op) ops'
  end.

(** The same operations on the wheels. *)
Definition run_op (op : timer_op) : GoM tw_state unit :=
  match op with
  | OpAfter v now timeout => let! _ := After v now timeout in ret tt
  | OpCallback v => Callback v
  | OpCancel v => Cancel v
  | OpTick => tick_round
  end.


(** ** Refinement *)

(** The wheels [st] hold exactly the deadlines of [a]. *)
Definition wheel_rep (B : Z) (n : nat) (a : timers) (st : tw_state) : Prop :=
  steady B n (clock a) (due a) st /\ callbacks a = fn <$> tasks st /\
  period a = interval st /\ limit a = maxTimeout st.

Definition new_timers (itv : Z) (nwheels nslots : nat) : timers :=
  MkTimers (-1) ∅ ∅ itv (int64 (itv * Z.of_nat nwheels ^ Z.of_nat nslots)).

Lemma events_fired st cb v : cb = fn <$> tasks st -> events (tasks st) v = fired_events cb v.
Proof.
  intros ->. unfold events, fired_events. rewrite lookup_fmap.
  by destruct (tasks st !! v) as [[? ? [] ?] |].
Qed.

Lemma step_refines B n a st op :
  2 <= B -> (1 <= n)%nat -> wheel_rep B n a st -> op_ok B n a op ->
  exists st' evs, run_op op st = (Val tt, st') /\ trace st' = trace st ++ evs /\
    timer_events a op evs /\ wheel_rep B n (timer_next a op) st'.
Proof.
  intros HB Hn (Hst & Hcb & Hper & Hlim) Hok. destruct op as [v now timeout | v | v |]; simpl in Hok.
  - destruct Hok as (Hv & Hc & Hlt & Ho & Hfit).
    destruct (After_ok B n HB Hn (clock a) (due a) st v now timeout) as (st' & Hr & H1 & H2 & H3 & H4 & H5);
      try done; [| congruence | by rewrite <- Hper | by rewrite <- Hper |].
    { rewrite Hcb, lookup_fmap in Hv. by destruct (tasks st !! v). }
    exists st', []. rewrite app_nil_r. split_and!; [| done | done |].
    + unfold run_op, bind. by rewrite Hr.
    + split_and!; simpl; [by rewrite Hper | congruence | congruence | congruence].
  - eexists _, []. rewrite app_nil_r. split_and!; [reflexivity | done | done |].
    split_and!; simpl; [by apply Callback_steady | | done | done].
    apply map_eq. intros v'. rewrite Hcb, lookup_fmap. destruct (decide (v' = v)) as [-> |].
    + rewrite !lookup_alter_eq, lookup_fmap. by destruct (tasks st !! v).
    + by rewrite !lookup_alter_ne, lookup_fmap.
  - destruct Hok as [b Hb]. rewrite Hcb, lookup_fmap in Hb.
    destruct (tasks st !! v) as [t |] eqn:Ht; [| done].
    destruct (Cancel_steady _ _ _ _ _ _ _ Hst Ht) as (st' & Hr & H1 & H2 & H3 & H4 & H5).
    exists st', []. rewrite app_nil_r. split_and!; [done | done | done |].
    split_and!; simpl; [done | | congruence | congruence].
    rewrite Hcb. apply map_eq. intros v'. by rewrite !lookup_fmap, H3.
  - destruct (tick_round_ok B n HB Hn _ _ _ Hst) as (st' & F & Hr & H1 & HN & HF & HT & H3 & H4 & H5).
    exists st', (concat (events (tasks st) <$> F)). split_and!; [done | done | |].
    + exists F. split_and!; [done | done |]. f_equal. apply list_fmap_ext. intros i v _.
      by apply events_fired.
    + split_and!; simpl; [done | | congruence | congruence].
      rewrite Hcb. apply map_eq. intros v'. by rewrite !lookup_fmap, H3.
Qed.

Lemma run_refines B n ops : forall a st,
  2 <= B -> (1 <= n)%nat -> wheel_rep B n a st -> ops_ok B n a ops ->
  exists st' evs a', foreach ops run_op st = (Val tt, st') /\ trace st' = trace st ++ evs /\
    timer_run a ops evs a' /\ wheel_rep B n a' st'.
Proof.
  induction ops as [| op ops IH]; intros a st HB Hn Hrep Hok.
  { exists st, [], a. rewrite app_nil_r. split_and!; [done | done | constructor | done]. }
  destruct Hok as [Hop Hops].
  destruct (step_refines _ _ _ _ _ HB Hn Hrep Hop) as (st1 & evs1 & Hr1 & Ht1 & He1 & Hrep1).
  destruct (IH _ _ HB Hn Hrep1 Hops) as (st2 & evs2 & a' & Hr2 & Ht2 & He2 & Hrep2).
  exists st2, (evs1 ++ evs2), a'. split_and!; [| | by econstructor | done].
  - cbn [foreach]. unfold bind. by rewrite Hr1.
  - by rewrite Ht2, Ht1, app_assoc.
Qed.

Lemma new_rep B n itv :
  2 <= B -> (1 <= n)%nat -> wheel_rep B n (new_timers itv n (Z.to_nat B)) (NewTimingWheel itv n (Z.to_nat B)).
Proof.
  intros HB Hn. split_and!; [| done | done | done].
  apply NewTimingWheel_steady; [done | done | lia].
Qed.

(** C14: a wheel of [n] levels of [B] slots behaves as the table of deadlines it implements: any
    sequence of [After], [Callback], [Cancel] and ticks runs without a panic and
    produces the events the table prescribes, each pending task firing at its own tick. *)
Theorem wheel_refines_timers B n itv ops :
  2 <= B -> (1 <= n)%nat -> ops_ok B n (new_timers itv n (Z.to_nat B)) ops ->
  exists st' a', foreach ops run_op (NewTimingWheel itv n (Z.to_nat B)) = (Val tt, st') /\
    timer_run (new_timers itv n (Z.to_nat B)) ops (trace st') a' /\ wheel_rep B n a' st'.
Proof.
  intros HB Hn Hok.
  destruct (run_refines _ _ _ _ _ HB Hn (new_rep B n itv HB Hn) Hok) as (st' & evs & a' & Hr & Ht & Hrun & Hrep).
  exists st', a'. simpl in Ht. by rewrite Ht.
Qed.

(** Ticks of 10 ms, 3 wheels of 4 slots: a task of 21 ticks with a callback and a cancelled one. *)
Definition demo_ops : list timer_op :=
  [OpTick; OpAfter 0 0 210000000; OpCallback 0; OpAfter 1 0 30000000; OpTick; OpCancel 1]
    ++ replicate 20 OpTick.

Lemma wheel_refines_timers_witness :
  exists st' a', foreach demo_ops run_op (NewTimingWheel 10000000 3 4) = (Val tt, st') /\
    timer_run (new_timers 10000000 3 4) demo_ops (trace st') a' /\ wheel_rep 4 3 a' st'.
Proof.
  apply (wheel_refines_timers 4 3 10000000 demo_ops); [lia | lia |].
  unfold demo_ops. vm_compute. repeat split; try discriminate; eauto.
Defined.

Lemma timer_run_cons_inv a op ops evs a' :
  timer_run a (op :: ops) evs a' ->
  exists e1 e2, evs = e1 ++ e2 /\ timer_events a op e1 /\ timer_run (timer_next a op) ops e2 a'.
Proof. inversion 1; subst; eauto. Qed.

(** ** When a task fires *)

#[global] Instance event_eq_dec : EqDecision event.
Proof. solve_decision. Defined.

Definition signals (v : nat) (evs : list event) : nat := length (filter (fun e => e = Signalled v) evs).

Definition is_tick (op : timer_op) : bool := match op with OpTick => true | _ => false end.
Definition tick_count (ops : list timer_op) : Z := Z.of_nat (length (filter (fun op => is_tick op = true) ops)).

Lemma signals_app v e1 e2 : signals v (e1 ++ e2) = (signals v e1 + signals v e2)%nat.
Proof. unfold signals. by rewrite filter_app, length_app. Qed.

Lemma signals_fired cb v F :
  NoDup F -> signals v (concat (fired_events cb <$> F)) = if decide (v ∈ F) then 1%nat else 0%nat.
Proof.
  induction 1 as [| v' F Hv' Hnd IH]; [done |]. rewrite fmap_cons. cbn [concat]. rewrite signals_app, IH.
  assert (E : signals v (fired_events cb v') = if decide (v = v') then 1%nat else 0%nat).
  { unfold signals, fired_events. destruct (cb !! v') as [[] |]; simpl;
      rewrite ?filter_cons, ?filter_nil; repeat case_decide; simplify_eq; done. }
  rewrite E. repeat case_decide; subst; try done; set_solver.
Qed.

Lemma tick_count_cons op ops : tick_count (op :: ops) = (if is_tick op then 1 else 0) + tick_count ops.
Proof. unfold tick_count. rewrite filter_cons. destruct op; simpl; lia. Qed.

Lemma tick_count_nonneg ops : 0 <= tick_count ops.
Proof. unfold tick_count. lia. Qed.

(** A created task that is not cancelled fires once, when its deadline is reached. *)
Lemma run_signals B n v ops : forall a evs a',
  timer_run a ops evs a' -> ops_ok B n a ops -> is_Some (callbacks a !! v) ->
  (forall D, due a !! v = Some D -> clock a < D) ->
  (OpCancel v ∈ ops -> due a !! v = None) ->
  signals v evs = match due a !! v with
                  | Some D => if decide (D - clock a <= tick_count ops) then 1%nat else 0%nat
                  | None => 0%nat
                  end.
Proof.
  induction ops as [| op ops IH]; intros a evs a' Hrun Hok Hcb Hdue Hcan; inversion Hrun; subst; clear Hrun.
  { unfold signals, tick_count. simpl. destruct (due a' !! v) as [D |] eqn:E; [| done].
    rewrite decide_False; [done |]. specialize (Hdue D eq_refl). lia. }
  destruct Hok as [Hop Hops]. rewrite signals_app.
  match goal with H : timer_run _ _ _ _ |- _ => rename H into Hrun end.
  match goal with H : timer_events _ _ _ |- _ => rename H into Hev end.
  rewrite tick_count_cons.
  pose proof (tick_count_nonneg ops).
  destruct op as [v' now timeout | v' | v' |]; simpl in Hev, Hop; cbn [is_tick].
  - subst. assert (Hne : v' <> v) by (intros ->; destruct Hcb; destruct Hop; congruence).
    rewrite (IH _ _ _ Hrun Hops); simpl; rewrite ?lookup_insert_ne by done; try done.
    intros Hin. apply Hcan. set_solver.
  - subst. rewrite (IH _ _ _ Hrun Hops); simpl; try done.
    + destruct (decide (v' = v)) as [-> |]; [rewrite lookup_alter_eq | by rewrite lookup_alter_ne].
      destruct Hcb as [b ->]. eauto.
    + intros Hin. apply Hcan. set_solver.
  - subst. assert (Hdel : delete v' (due a) !! v = due a !! v).
    { destruct (decide (v' = v)) as [-> |]; [| by rewrite lookup_delete_ne].
      rewrite lookup_delete_eq. symmetry. apply Hcan. set_solver. }
    rewrite (IH _ _ _ Hrun Hops); simpl; rewrite ?Hdel; try done.
    intros Hin. apply Hcan. set_solver.
  - destruct Hev as (F & HN & HF & ->). rewrite signals_fired by done.
    rewrite (IH _ _ _ Hrun Hops); simpl; [| done | |].
    + destruct (due a !! v) as [D |] eqn:E.
      * specialize (Hdue D eq_refl). destruct (decide (D = clock a + 1)) as [-> | Hne].
        -- rewrite map_lookup_filter, E. simpl.
           rewrite decide_True by (apply HF; congruence). rewrite decide_True by lia.
           rewrite option_guard_False by tauto. done.
        -- rewrite map_lookup_filter, E. simpl. rewrite option_guard_True by done.
           rewrite decide_False by (rewrite HF; congruence). simpl.
           repeat case_decide; lia || done.
      * rewrite map_lookup_filter, E. simpl. rewrite decide_False by (rewrite HF; congruence). done.
    + intros D [HD Hne]%map_lookup_filter_Some. simpl in Hne. specialize (Hdue D HD). lia.
    + intros Hin. rewrite map_lookup_filter, Hcan by set_solver. done.
Qed.

(** a task created by [After] fires exactly once, on the tick its rounded timeout
    asks for and not before, whatever the other tasks do meanwhile, unless it is cancelled. *)
Theorem After_fires_once_on_time B n a st v now timeout ops :
  2 <= B -> (1 <= n)%nat -> wheel_rep B n a st ->
  op_ok B n a (OpAfter v now timeout) -> ops_ok B n (timer_next a (OpAfter v now timeout)) ops ->
  OpCancel v ∉ ops ->
  exists st' evs, foreach (OpAfter v now timeout :: ops) run_op st = (Val tt, st') /\
    trace st' = trace st ++ evs /\
    signals v evs = if decide (tick_offset timeout (interval st) <= tick_count ops) then 1%nat else 0%nat.
Proof.
  intros HB Hn Hrep Hop Hops Hcan. pose proof Hrep as (_ & _ & Hper & _).
  destruct (run_refines _ _ (OpAfter v now timeout :: ops) _ _ HB Hn Hrep (conj Hop Hops))
    as (st' & evs & a' & Hr & Ht & Hrun & _).
  exists st', evs. split_and!; [done | done |]. apply timer_run_cons_inv in Hrun as (e1 & e2 & -> & Hev & Hrun).
  simpl in Hev. subst e1.
  simpl in Hop. destruct Hop as (Hv & Hc & Hlt & Ho & _).
  rewrite app_nil_l, (run_signals B n v _ _ _ _ Hrun Hops); simpl.
  - rewrite lookup_insert_eq, Hper. repeat case_decide; lia || done.
  - rewrite lookup_insert_eq. eauto.
  - intros D. rewrite lookup_insert_eq. intros [= <-]. lia.
  - done.
Qed.

Definition demo_wheel : tw_state := (tick_round (NewTimingWheel 10000000 3 4)).2.

Lemma demo_wheel_rep :
  exists a, wheel_rep 4 3 a demo_wheel /\ clock a = 0 /\ due a = ∅ /\ callbacks a = ∅ /\
    period a = 10000000 /\ limit a = 810000000.
Proof.
  destruct (step_refines 4 3 _ _ OpTick ltac:(lia) ltac:(lia) (new_rep 4 3 10000000 ltac:(lia) ltac:(lia)) I)
    as (st' & evs & Hr & _ & _ & Hrep).
  exists (timer_next (new_timers 10000000 3 4) OpTick). split_and!; try reflexivity.
  unfold demo_wheel. change (tick_round (NewTimingWheel 10000000 3 4)) with (run_op OpTick (NewTimingWheel 10000000 3 (Z.to_nat 4))).
  rewrite Hr. exact Hrep.
Qed.

Lemma After_fires_once_on_time_witness :
  exists st' evs, foreach (OpAfter 7 0 210000000 :: replicate 21 OpTick) run_op demo_wheel = (Val tt, st') /\
    trace st' = trace demo_wheel ++ evs /\
    signals 7 evs = if decide (tick_offset 210000000 (interval demo_wheel) <= tick_count (replicate 21 OpTick))
                    then 1%nat else 0%nat.
Proof.
  destruct demo_wheel_rep as (a & Hrep & Hc & Hd & Hcb & Hp & Hl).
  apply (After_fires_once_on_time 4 3 a); [lia | lia | done | | | set_solver].
  - simpl. rewrite Hc, Hcb, Hp, Hl. split_and!; [done | lia | lia | by vm_compute | by vm_compute].
  - by repeat split.
Defined.

(** a cancelled task never fires, and the wheels keep running. *)
Theorem Cancel_never_fires B n a st v ops :
  2 <= B -> (1 <= n)%nat -> wheel_rep B n a st ->
  op_ok B n a (OpCancel v) -> ops_ok B n (timer_next a (OpCancel v)) ops ->
  exists st' evs, foreach (OpCancel v :: ops) run_op st = (Val tt, st') /\
    trace st' = trace st ++ evs /\ signals v evs = 0%nat.
Proof.
  intros HB Hn Hrep Hop Hops.
  destruct (run_refines _ _ (OpCancel v :: ops) _ _ HB Hn Hrep (conj Hop Hops))
    as (st' & evs & a' & Hr & Ht & Hrun & _).
  exists st', evs. split_and!; [done | done |]. apply timer_run_cons_inv in Hrun as (e1 & e2 & -> & Hev & Hrun).
  simpl in Hev. subst e1.
  simpl in Hop.
  rewrite app_nil_l, (run_signals B n v _ _ _ _ Hrun Hops); simpl;
    rewrite ?lookup_delete_eq; done.
Qed.

Lemma Cancel_never_fires_witness :
  exists st st' evs, run_op (OpAfter 7 0 30000000) demo_wheel = (Val tt, st) /\
    foreach (OpCancel 7 :: replicate 9 OpTick) run_op st = (Val tt, st') /\
    trace st' = trace st ++ evs /\ signals 7 evs = 0%nat.
Proof.
  destruct demo_wheel_rep as (a & Hrep & Hc & Hd & Hcb & Hp & Hl).
  assert (Hok : op_ok 4 3 a (OpAfter 7 0 30000000)).
  { simpl. rewrite Hc, Hcb, Hp, Hl. split_and!; [done | lia | lia | by vm_compute | by vm_compute]. }
  destruct (step_refines 4 3 a demo_wheel _ ltac:(lia) ltac:(lia) Hrep Hok) as (st & evs0 & Hr & _ & _ & Hrep1).
  destruct (Cancel_never_fires 4 3 _ st 7 (replicate 9 OpTick) ltac:(lia) ltac:(lia) Hrep1)
    as (st' & evs & H1 & H2 & H3).
  - simpl. rewrite lookup_insert_eq. eauto.
  - by repeat split.
  - exists st, st', evs. by split_and!.
Defined.

(** C40: [After] accepts every timeout below [maxTimeout], but one that reaches past the last
    wheel is dropped: the deadlines are unchanged and the task never fires. *)
Theorem After_beyond_last_wheel_is_lost B n a st v now timeout :
  2 <= B -> (1 <= n)%nat -> wheel_rep B n a st -> 0 <= clock a ->
  callbacks a !! v = None -> timeout < maxTimeout st ->
  ~ fits B n (clock a) (tick_offset timeout (interval st)) ->
  exists st', After v now timeout st = (Val v, st') /\
    wheel_rep B n (MkTimers (clock a) (due a) (<[v := false]> (callbacks a)) (period a) (limit a)) st'.
Proof.
  intros HB Hn (Hst & Hcb & Hper & Hlim) Hc Hv Hlt Hbig. unfold fits in Hbig.
  assert (Htv : tasks st !! v = None).
  { rewrite Hcb, lookup_fmap in Hv. by destruct (tasks st !! v). }
  unfold After, bind at 1, get. rewrite decide_False by lia.
  match goal with |- context [<[v := ?t0]> _] => set (t := t0) end.
  set (st1 := set_tasks (<[v := t]> (tasks st)) st).
  destruct (fresh_task _ _ _ _ _ _ Hst Htv) as [Hdl Hno].
  destruct (wheel_put2_drop B n HB Hn (clock a) (due a) st1 v t) as (st' & Hr & H1 & H2 & H3 & H4 & H5);
    try done; [by apply steady_new_task | simpl; by rewrite lookup_insert_eq | simpl; lia |].
  exists st'. split.
  - unfold bind at 1, modify. unfold bind at 1.
    rewrite (ti_len _ _ _ _ _ _ _ (proj1 (proj2 Hst))). fold st1. by rewrite Hr.
  - split_and!; simpl; [done | | simpl in *; congruence | simpl in *; congruence].
    apply map_eq. intros v'. rewrite lookup_fmap, H3, Hcb. simpl.
    destruct (decide (v' = v)) as [-> |]; by simplify_map_eq.
Qed.

(** 3 wheels of 4 slots hold 63 ticks; [maxTimeout] is 3^4 = 81 of them. *)
Lemma After_beyond_last_wheel_is_lost_witness :
  exists a st', After 7 0 700000000 demo_wheel = (Val 7%nat, st') /\ wheel_rep 4 3 a st' /\ due a = ∅.
Proof.
  destruct demo_wheel_rep as (a & Hrep & Hc & Hd & Hcb & Hp & Hl).
  destruct (After_beyond_last_wheel_is_lost 4 3 a demo_wheel 7 0 700000000) as (st' & H1 & H2);
    [lia | lia | done | lia | by rewrite Hcb | by vm_compute | |].
  - rewrite Hc. intros H. apply H. by vm_compute.
  - eexists _, st'. split_and!; [done | done |]. exact Hd.
Defined.

(** Before the first tick the wheels stand on their last slots with [remain] 0, and a
    task of [o] ticks fires on tick [o + 1], not [o]. *)
Definition fires_at (o : nat) : option nat :=
  let st := (After 0 0 (Z.of_nat o * 10000000) (NewTimingWheel 10000000 3 4)).2 in
  head (filter (fun k => Signalled 0 ∈ trace (ticks k st).2) (seq 0 50)).

Example late_before_first_tick : fires_at <$> seq 1 40 = (fun o => Some (o + 1)%nat) <$> seq 1 40.
Proof. vm_compute. reflexivity. Qed.
