(* ===== verification/Json.v ===== *)
(** * What the server uses of Go's [encoding/json]

    Objects are read as a list of members, each a key and the raw text of its value, the
    way [json.Unmarshal] hands raw text to [Data.UnmarshalJSON]; a field is then decoded
    from that text. Writing produces the text [json.Marshal] does for the values the server
    sends: integers, strings, arrays of strings and objects.

    Strings are byte strings. Both coders put U+FFFD for every byte that is not part of a UTF-8 rune; the encoder
    also escapes U+2028 and U+2029. *)

From S2P Require Import Prelude GoStrings.

Local Open Scope Z_scope.

Definition quote_c : ascii := byte_of 34.
Definition backslash_c : ascii := byte_of 92.

(** ** Writing *)

Definition hex4 (n : Z) : string :=
  String (hex_digit (n / 4096)) (String (hex_digit (n / 256 mod 16))
    (String (hex_digit (n / 16 mod 16)) (String (hex_digit (n mod 16)) EmptyString))).

(** Go escapes control bytes, the quote, the backslash and, for HTML, [<], [>] and [&]. *)
Definition escape_byte (c : ascii) : string :=
  let n := code c in
  if n =? 34 then String backslash_c (String quote_c "")
  else if n =? 92 then String backslash_c (String backslash_c "")
  else if n =? 10 then String backslash_c "n"
  else if n =? 13 then String backslash_c "r"
  else if n =? 9 then String backslash_c "t"
  else if (n <? 32) || (n =? 60) || (n =? 62) || (n =? 38)
  then String backslash_c (String "u" (hex4 n))
  else String c "".

(** Whether the byte after E2 80 makes the line or the paragraph separator, U+2028 or U+2029. *)
Definition is_separator (c : ascii) : bool := (code c =? 168) || (code c =? 169).
Definition escape_separator (c : ascii) : string := String backslash_c (String "u" (hex4 (8192 + code c - 128))).

Definition escape_rune (r : rune) : string :=
  match r with
  | Bad _ => String backslash_c "ufffd"
  | Rune (String c "") => escape_byte c
  | Rune (String c (String d (String e "")) as b) =>
      if (code c =? 226) && (code d =? 128) && is_separator e then escape_separator e else b
  | Rune b => b
  end.

Definition escape (s : string) : string := write_runes escape_rune (runes s).

Definition json_string (s : string) : string :=
  String quote_c (escape s) +:+ String quote_c "".

Definition json_int (z : Z) : string := Itoa z.
Definition json_bool (b : bool) : string := if b then "true" else "false".

Definition json_member (m : string * string) : string := json_string m.1 +:+ ":" +:+ m.2.
Definition json_object (ms : list (string * string)) : string :=
  "{" +:+ strings_Join (json_member <$> ms) "," +:+ "}".
Definition json_array (l : list string) : string := "[" +:+ strings_Join l "," +:+ "]".

(** [omitempty]: a field with the zero value of its type is left out. *)
Definition omit_if (b : bool) (k v : string) : list (string * string) := if b then [] else [(k, v)].
Definition opt_string (k s : string) : list (string * string) :=
  omit_if (bool_decide (s = "")) k (json_string s).
Definition opt_int (k : string) (z : Z) : list (string * string) := omit_if (z =? 0) k (json_int z).

(** ** Reading *)

Definition is_ws (c : ascii) : bool :=
  let n := code c in (n =? 32) || (n =? 9) || (n =? 10) || (n =? 13).

Fixpoint skip_ws (s : string) : string :=
  match s with
  | String c s' => if is_ws c then skip_ws s' else s
  | EmptyString => EmptyString
  end.

Definition hex_value (c : ascii) : option Z :=
  let n := code c in
  if (48 <=? n) && (n <=? 57) then Some (n - 48)
  else if (97 <=? n) && (n <=? 102) then Some (n - 87)
  else if (65 <=? n) && (n <=? 70) then Some (n - 55)
  else None.

Definition hex4_value (s : string) : option (Z * string) :=
  match s with
  | String a (String b (String c (String d s'))) =>
      match hex_value a, hex_value b, hex_value c, hex_value d with
      | Some a, Some b, Some c, Some d => Some (((a * 16 + b) * 16 + c) * 16 + d, s')
      | _, _, _, _ => None
      end
  | _ => None
  end.

Definition is_surrogate (n : Z) : bool := (55296 <=? n) && (n <? 57344).

(** The text of a [\u] escape and what follows it; surrogates that do not pair are U+FFFD. *)
Definition unescape_u (s : string) : option (string * string) :=
  match hex4_value s with
  | None => None
  | Some (n, s') =>
      if negb (is_surrogate n) then Some (utf8 n, s')
      else
        let lone := Some (RuneError, s') in
        if n <? 56320 then
          match s' with
          | String c (String u t) =>
              if (code c =? 92) && (code u =? 117) then
                match hex4_value t with
                | Some (m, t') =>
                    if (56320 <=? m) && (m <? 57344)
                    then Some (utf8 ((n - 55296) * 1024 + (m - 56320) + 65536), t')
                    else lone
                | None => None
                end
              else lone
          | _ => lone
          end
        else lone
  end.

Definition unescape_simple (c : ascii) : option string :=
  let n := code c in
  if (n =? 34) || (n =? 92) || (n =? 47) then Some (String c "")
  else if n =? 98 then Some (String (byte_of 8) "")
  else if n =? 102 then Some (String (byte_of 12) "")
  else if n =? 110 then Some (String (byte_of 10) "")
  else if n =? 114 then Some (String (byte_of 13) "")
  else if n =? 116 then Some (String (byte_of 9) "")
  else None.

(** The content of a string literal, after its opening quote, and what follows it. Each round
    consumes a byte, so the length of the text is enough fuel. *)
Fixpoint read_chars (fuel : nat) (s : string) : option (string * string) :=
  match fuel, s with
  | S fuel', String c s' =>
      if code c =? 34 then Some ("", s')
      else if code c =? 92 then
        match s' with
        | String d s'' =>
            match (if code d =? 117 then unescape_u s''
                   else option_map (fun t => (t, s'')) (unescape_simple d)) with
            | Some (t, s3) =>
                option_map (fun p : string * string => (t +:+ p.1, p.2)) (read_chars fuel' s3)
            | None => None
            end
        | EmptyString => None
        end
      else if code c <? 32 then None
      else option_map (fun p : string * string => (String c p.1, p.2)) (read_chars fuel' s')
  | _, _ => None
  end.

(** A string literal; an escape does not complete a rune, so that the bytes can be made valid at the end. *)
Definition read_string (s : string) : option (string * string) :=
  match s with
  | String c s' =>
      if code c =? 34
      then option_map (fun p : string * string => (to_valid p.1, p.2)) (read_chars (S (String.length s')) s')
      else None
  | EmptyString => None
  end.

Definition is_digit (c : ascii) : bool := (48 <=? code c) && (code c <=? 57).

Fixpoint read_digits (s : string) : string * string :=
  match s with
  | String c s' => if is_digit c then let p := read_digits s' in (String c p.1, p.2) else ("", s)
  | EmptyString => ("", "")
  end.

(** [-]? (0 | [1-9][0-9]* ) ( . [0-9]+ )? ( [eE] [+-]? [0-9]+ )? *)
Definition read_sign (s : string) : string * string :=
  match s with
  | String c s' => if code c =? 45 then (String c "", s') else ("", s)
  | EmptyString => ("", "")
  end.

Definition read_frac (s : string) : option (string * string) :=
  match s with
  | String c s' =>
      if code c =? 46 then
        let '(ds, s'') := read_digits s' in
        if bool_decide (ds = "") then None else Some (String c ds, s'')
      else Some ("", s)
  | EmptyString => Some ("", s)
  end.

Definition read_exp (s : string) : option (string * string) :=
  match s with
  | String c s' =>
      if (code c =? 101) || (code c =? 69) then
        let '(sg, s1) := match s' with
                         | String d t => if (code d =? 43) || (code d =? 45) then (String d "", t) else ("", s')
                         | EmptyString => ("", s')
                         end in
        let '(ds, s2) := read_digits s1 in
        if bool_decide (ds = "") then None else Some (String c (sg +:+ ds), s2)
      else Some ("", s)
  | EmptyString => Some ("", s)
  end.

Definition read_number (s : string) : option (string * string) :=
  let '(sg, s1) := read_sign s in
  let '(ds, s2) := read_digits s1 in
  match ds with
  | EmptyString => None
  | String d ds' =>
      if (code d =? 48) && negb (bool_decide (ds' = "")) then None
      else
        match read_frac s2 with
        | None => None
        | Some (fr, s3) =>
            match read_exp s3 with
            | None => None
            | Some (ex, s4) => Some (sg +:+ ds +:+ fr +:+ ex, s4)
            end
        end
  end.

Definition read_word (w s : string) : option string :=
  if strings_HasPrefix s w then Some (string_drop (String.length w) s) else None.

Definition first_is (n : Z) (s : string) : bool :=
  match s with String c _ => code c =? n | EmptyString => false end.

(** A key, its colon, and the start of its value. *)
Definition read_key (s : string) : option (string * string) :=
  match read_string s with
  | Some (k, t) =>
      let t := skip_ws t in
      if first_is 58 t then Some (k, skip_ws (string_drop 1 t)) else None
  | None => None
  end.

Definition item_start (obj : bool) (s : string) : option string :=
  if obj then option_map snd (read_key s) else Some s.

(** [skip_value] checks a value and returns what follows it; [skip_items] the items of an
    array or the members of an object, up to and including the closing byte. *)
Fixpoint skip_value (fuel : nat) (s : string) : option string :=
  match fuel with
  | O => None
  | S f =>
      match s with
      | EmptyString => None
      | String c s' =>
          if code c =? 34 then option_map snd (read_string s)
          else if (code c =? 45) || is_digit c then option_map snd (read_number s)
          else if code c =? 116 then read_word "true" s
          else if code c =? 102 then read_word "false" s
          else if code c =? 110 then read_word "null" s
          else if code c =? 91 then
            let t := skip_ws s' in
            if first_is 93 t then Some (string_drop 1 t) else skip_items f false t
          else if code c =? 123 then
            let t := skip_ws s' in
            if first_is 125 t then Some (string_drop 1 t) else skip_items f true t
          else None
      end
  end
with skip_items (fuel : nat) (obj : bool) (s : string) : option string :=
  match fuel with
  | O => None
  | S f =>
      match item_start obj s with
      | None => None
      | Some v =>
          match skip_value f v with
          | None => None
          | Some t =>
              let t := skip_ws t in
              if first_is 44 t then skip_items f obj (skip_ws (string_drop 1 t))
              else if first_is (if obj then 125 else 93) t then Some (string_drop 1 t)
              else None
          end
      end
  end.

Fixpoint string_take (n : nat) (s : string) : string :=
  match n, s with
  | S n', String c s' => String c (string_take n' s')
  | _, _ => EmptyString
  end.

(** The members of an object after its opening brace: keys and raw values. *)
Fixpoint read_members (fuel : nat) (s : string) : option (list (string * string) * string) :=
  match fuel with
  | O => None
  | S f =>
      match read_key s with
      | None => None
      | Some (k, v) =>
          match skip_value f v with
          | None => None
          | Some t =>
              let raw := string_take (String.length v - String.length t) v in
              let t := skip_ws t in
              if first_is 44 t then
                option_map (fun p : list (string * string) * string => ((k, raw) :: p.1, p.2))
                  (read_members f (skip_ws (string_drop 1 t)))
              else if first_is 125 t then Some ([(k, raw)], string_drop 1 t)
              else None
          end
      end
  end.

(** The raw elements of an array after its opening bracket. *)
Fixpoint read_elements (fuel : nat) (s : string) : option (list string * string) :=
  match fuel with
  | O => None
  | S f =>
      match skip_value f s with
      | None => None
      | Some t =>
          let raw := string_take (String.length s - String.length t) s in
          let t := skip_ws t in
          if first_is 44 t then
            option_map (fun p : list string * string => (raw :: p.1, p.2)) (read_elements f (skip_ws (string_drop 1 t)))
          else if first_is 93 t then Some ([raw], string_drop 1 t)
          else None
      end
  end.

(** The elements of the array that is the whole text. *)
Definition json_elements (s : string) : option (list string) :=
  let s := skip_ws s in
  if first_is 91 s then
    let t := skip_ws (string_drop 1 s) in
    match (if first_is 93 t then Some ([], string_drop 1 t)
           else read_elements (S (String.length t)) t) with
    | Some (l, rest) => if bool_decide (skip_ws rest = "") then Some l else None
    | None => None
    end
  else None.

(** The members of the object that is the whole text. *)
Definition json_members (s : string) : option (list (string * string)) :=
  let s := skip_ws s in
  if first_is 123 s then
    let t := skip_ws (string_drop 1 s) in
    match (if first_is 125 t then Some ([], string_drop 1 t)
           else read_members (S (String.length t)) t) with
    | Some (ms, rest) => if bool_decide (skip_ws rest = "") then Some ms else None
    | None => None
    end
  else None.

(** ** Decoding fields *)

Definition digit_value (c : ascii) : Z := code c - 48.
Fixpoint digits_value (acc : Z) (s : string) : option Z :=
  match s with
  | EmptyString => Some acc
  | String c s' => if is_digit c then digits_value (acc * 10 + digit_value c) s' else None
  end.

Definition split_sign (s : string) : bool * string :=
  match s with
  | String c s' => if code c =? 45 then (true, s') else (false, s)
  | EmptyString => (false, s)
  end.

(** [strconv.ParseInt(s, 10, bits)] on the text of a JSON number. *)
Definition parse_int (bits : Z) (s : string) : option Z :=
  let '(neg, ds) := split_sign s in
  if bool_decide (ds = "") then None
  else
    match digits_value 0 ds with
    | Some n =>
        let z := if neg : bool then - n else n in
        if (- 2 ^ (bits - 1) <=? z) && (z <? 2 ^ (bits - 1)) then Some z else None
    | None => None
    end.

(** A decoder of a field: the new value, or the text of the error. [null] leaves a field
    as it is. *)
Definition decode_string (raw old : string) : string + string :=
  if bool_decide (raw = "null") then inl old
  else match read_string raw with
       | Some (s, "") => inl s
       | _ => inr "json: cannot unmarshal value into Go value of type string"
       end.

Definition decode_int (bits : Z) (raw : string) (old : Z) : Z + string :=
  if bool_decide (raw = "null") then inl old
  else match parse_int bits raw with
       | Some z => inl z
       | None => inr "json: cannot unmarshal number into Go value of integer type"
       end.

(** Keys match field names regardless of case. *)
Definition key_is (name k : string) : bool := bool_decide (strings_ToUpper k = strings_ToUpper name).

(** ** Writing and reading strings *)

Lemma string_take_app s t : string_take (String.length s) (s +:+ t) = s.
Proof. induction s as [| c s IH]; [by destruct t |]. rewrite app_cons_string. simpl. by rewrite IH. Qed.

Lemma HasPrefix_app_self p t : strings_HasPrefix (p +:+ t) p = true.
Proof. apply HasPrefix_spec. eauto. Qed.

(** A byte is read back from its escaped form. *)
Lemma read_escape_byte f c t :
  read_chars (S f) (escape_byte c +:+ t) =
  option_map (fun p : string * string => (String c p.1, p.2)) (read_chars f t).
Proof. destruct c as [[] [] [] [] [] [] [] []]; reflexivity. Qed.

(** Bytes that neither end the literal nor escape are read as they are. *)
Lemma read_plain f c t : 128 <= code c ->
  read_chars (S f) (String c t) = option_map (fun p : string * string => (String c p.1, p.2)) (read_chars f t).
Proof.
  intros Hc. cbn [read_chars]. rewrite (proj2 (Z.eqb_neq (code c) 34)), (proj2 (Z.eqb_neq (code c) 92)) by lia.
  by rewrite (proj2 (Z.ltb_ge _ _)) by lia.
Qed.

Lemma read_separator f e t : is_separator e = true ->
  read_chars (S f) (escape_separator e +:+ t) =
  option_map (fun p : string * string => (String (byte_of 226) (String (byte_of 128) (String e p.1)), p.2)) (read_chars f t).
Proof. destruct e as [[] [] [] [] [] [] [] []]; intros [=]; reflexivity. Qed.

Lemma byte_of_code c : byte_of (code c) = c.
Proof. unfold byte_of, code. by rewrite N2Z.id, Ascii.ascii_N_embedding. Qed.

(** A rune is read back from its escaped form, and [RuneError] from what is none. *)
Lemma read_escape_rune r : rune_ok r ->
  exists n : nat, (n <= String.length (rune_bytes r))%nat /\ forall f t,
    read_chars (n + f)%nat (escape_rune r +:+ t) =
    option_map (fun p : string * string => (rune_text r +:+ p.1, p.2)) (read_chars f t).
Proof.
  destruct r as [b | c]; intros Hr.
  - destruct Hr as [c Hc | c d Hr | c d e Hr | c d e g Hr]; cbn [rune_text rune_bytes escape_rune].
    + exists 1%nat. split; [cbn; lia | intros f t; apply read_escape_byte].
    + exists 2%nat. split; [cbn; lia |]. intros f t. cbn [Nat.add]. rewrite !app_cons_string, app_nil_l_string.
      rewrite !read_plain by (rune_bits; lia). by destruct (read_chars f t) as [[] |].
    + destruct ((code c =? 226) && (code d =? 128) && is_separator e) eqn:E.
      * exists 1%nat. split; [cbn; lia |]. apply andb_true_iff in E as [[Ec Ed]%andb_true_iff Ee].
        intros f t. rewrite read_separator by done. apply Z.eqb_eq in Ec, Ed. rewrite <- Ec, <- Ed, !byte_of_code.
        by destruct (read_chars f t) as [[] |].
      * exists 3%nat. split; [cbn; lia |]. intros f t. cbn [Nat.add]. rewrite !app_cons_string, app_nil_l_string.
        rewrite !read_plain by (rune_bits; lia). by destruct (read_chars f t) as [[] |].
    + exists 4%nat. split; [cbn; lia |]. intros f t. cbn [Nat.add]. rewrite !app_cons_string, app_nil_l_string.
      rewrite !read_plain by (rune_bits; lia). by destruct (read_chars f t) as [[] |].
  - exists 1%nat. split; [cbn; lia | reflexivity].
Qed.

Lemma read_chars_more f : forall s p g, read_chars f s = Some p -> (f <= g)%nat -> read_chars g s = Some p.
Proof.
  induction f as [| f IH]; intros s p g Hs Hg; [done |]. destruct g as [| g]; [lia |]. destruct s as [| c s]; [done |].
  cbn [read_chars] in *. destruct (code c =? 34); [done |]. destruct (code c =? 92).
  - destruct s as [| d s]; [done |]. destruct (if code d =? 117 then _ else _) as [[t s3] |]; [| done].
    destruct (read_chars f s3) as [q |] eqn:E; [| done]. by rewrite (IH _ _ g E) by lia.
  - destruct (code c <? 32); [done |]. destruct (read_chars f s) as [q |] eqn:E; [| done]. by rewrite (IH _ _ g E) by lia.
Qed.

Lemma read_chars_escape s : forall f t,
  (String.length s < f)%nat -> read_chars f (escape s +:+ String quote_c t) = Some (to_valid s, t).
Proof.
  enough (H : forall t, exists n : nat, (n <= String.length s)%nat /\
    forall f, read_chars (n + S f)%nat (escape s +:+ String quote_c t) = Some (to_valid s, t)).
  { intros f t Hf. destruct (H t) as (n & Hn & Hr). by apply (read_chars_more _ _ _ f (Hr 0%nat)); lia. }
  unfold escape, to_valid. intros t. pose proof (runes_ok s) as Hok.
  replace (String.length s) with (String.length (write_runes rune_bytes (runes s))) by (by rewrite runes_bytes).
  induction Hok as [| r l Hr Hl (n & Hn & IH)].
  { exists 0%nat. split; [lia |]. reflexivity. }
  destruct (read_escape_rune r Hr) as (k & Hk & Hrun). exists (k + n)%nat. split.
  - rewrite write_runes_cons, length_app_string. lia.
  - intros f. rewrite !write_runes_cons, app_assoc_string, <- Nat.add_assoc, Hrun, IH. done.
Qed.

Lemma length_escape s : (String.length s <= String.length (escape s))%nat.
Proof.
  unfold escape. rewrite <- (runes_bytes s) at 1. induction (runes s) as [| r l IH]; [done |].
  rewrite !write_runes_cons, !length_app_string. enough (String.length (rune_bytes r) <= String.length (escape_rune r))%nat by lia.
  destruct r as [[| c [| d [| e [| g b]]]] | c]; cbn; try lia; [| case_match; cbn; lia].
  unfold escape_byte. repeat case_match; cbn; lia.
Qed.

Lemma read_json_string s t : read_string (json_string s +:+ t) = Some (to_valid s, t).
Proof.
  assert (E : json_string s +:+ t = String quote_c (escape s +:+ String quote_c t)).
  { unfold json_string. rewrite !app_cons_string, app_assoc_string. reflexivity. }
  rewrite E. unfold read_string. change (code quote_c =? 34) with true. cbv iota.
  rewrite read_chars_escape; [unfold option_map, fst, snd; by rewrite to_valid_twice |].
  rewrite length_app_string. pose proof (length_escape s). simpl. lia.
Qed.

(** ** Writing and reading integers *)

Fixpoint all_digits (s : string) : bool :=
  match s with EmptyString => true | String c s' => is_digit c && all_digits s' end.

Lemma digit_char n : (n < 10)%N ->
  is_digit (pretty_N_char n) = true /\ digit_value (pretty_N_char n) = Z.of_N n.
Proof.
  intros H. assert (Hall : Forall (fun n => is_digit (pretty_N_char n) = true /\
    digit_value (pretty_N_char n) = Z.of_N n) (N.of_nat <$> seq 0 10)) by (by repeat constructor).
  rewrite Forall_forall in Hall. apply Hall, list_elem_of_fmap. exists (N.to_nat n).
  rewrite N2Nat.id. split; [done | apply elem_of_seq; lia].
Qed.

Lemma pretty_go_value x : forall s a b,
  (0 < x)%N -> all_digits s = true ->
  (forall acc, digits_value acc s = Some (acc * a + b)) ->
  all_digits (pretty_N_go x s) = true /\
  (exists c s', pretty_N_go x s = String c s' /\ code c <> 48) /\
  digits_value 0 (pretty_N_go x s) = Some (Z.of_N x * a + b).
Proof.
  induction (N.lt_wf_0 x) as [x _ IH]. intros s a b Hx Hs Hv.
  rewrite pretty_N_go_step by done.
  pose proof (N.mod_upper_bound x 10 ltac:(lia)) as Hm. destruct (digit_char _ Hm) as [Hd Hdv].
  assert (Hv' : forall acc, digits_value acc (String (pretty_N_char (x mod 10)) s) =
    Some (acc * (10 * a) + (Z.of_N (x mod 10) * a + b))).
  { intros acc. cbn [digits_value]. rewrite Hd, Hv, Hdv. f_equal. lia. }
  assert (Hs' : all_digits (String (pretty_N_char (x mod 10)) s) = true) by (simpl; by rewrite Hd, Hs).
  destruct (decide (x / 10 = 0)%N) as [E | E].
  - rewrite E, pretty_N_go_0. assert (Hxm : (x mod 10 = x)%N).
    { apply N.mod_small. apply N.div_small_iff in E; lia. }
    split; [done |]. split.
    + eexists _, _. split; [done |]. rewrite Hxm in *. unfold digit_value in Hdv. lia.
    + by rewrite Hv', Hxm.
  - assert (Hpos : (0 < x / 10)%N) by (by apply N.neq_0_lt_0).
    destruct (IH (x / 10)%N ltac:(apply N.div_lt; lia) _ (10 * a) (Z.of_N (x mod 10) * a + b) Hpos Hs' Hv')
      as (H1 & H2 & H3). split_and!; [done | done |]. rewrite H3. f_equal.
    rewrite N2Z.inj_div, N2Z.inj_mod. pose proof (Z.div_mod (Z.of_N x) 10 ltac:(lia)). lia.
Qed.

(** The decimal text of a natural number: digits, without a leading zero. *)
Lemma pretty_N_digits (x : N) :
  all_digits (pretty x) = true /\ digits_value 0 (pretty x) = Some (Z.of_N x) /\
  exists c s', pretty x = String c s' /\ (code c = 48 -> s' = "").
Proof.
  unfold pretty, pretty_N. case_decide as Hx.
  - subst. split_and!; [done | done |]. by eexists _, _.
  - destruct (pretty_go_value x "" 1 0) as (H1 & (c & s' & E & Hc) & H3); [lia | done | intros; simpl; f_equal; lia |].
    split_and!; [done | rewrite H3; f_equal; lia |]. exists c, s'. split; [done | tauto].
Qed.

Lemma Itoa_cases z : exists sg ds, Itoa z = sg +:+ ds /\ sg = (if z <? 0 then "-" else "") /\
  all_digits ds = true /\ digits_value 0 ds = Some (Z.abs z) /\
  exists c s', ds = String c s' /\ (code c = 48 -> s' = "").
Proof.
  unfold Itoa, pretty, pretty_Z. destruct z as [| p | p].
  - exists "", "0". split_and!; try done. by eexists _, _.
  - destruct (pretty_N_digits (N.pos p)) as (H1 & H2 & H3). exists "", (pretty (N.pos p)). by split_and!.
  - destruct (pretty_N_digits (N.pos p)) as (H1 & H2 & H3). exists "-", (pretty (N.pos p)). by split_and!.
Qed.

Lemma read_digits_app ds t :
  all_digits ds = true -> (forall c t', t = String c t' -> is_digit c = false) ->
  read_digits (ds +:+ t) = (ds, t).
Proof.
  induction ds as [| c ds IH]; intros Hd Ht.
  - rewrite app_nil_l_string. destruct t as [| c t']; [done |]. simpl. by rewrite (Ht c t').
  - rewrite app_cons_string. simpl in Hd. apply andb_true_iff in Hd as [Hc Hd].
    cbn [read_digits]. by rewrite Hc, IH.
Qed.

(** ** Texts that delimit themselves *)

(** What may follow a value: nothing, a comma or a closing byte. *)
Definition closed (t : string) : Prop :=
  t = "" \/ exists c t', t = String c t' /\ (code c = 44 \/ code c = 93 \/ code c = 125).

Definition json_text (v : string) : Prop :=
  (exists c v', v = String c v' /\ is_ws c = false /\ code c <> 93) /\
  forall f t, (String.length v <= f)%nat -> closed t -> skip_value f (v +:+ t) = Some t.

Lemma skip_ws_text v t : json_text v -> skip_ws (v +:+ t) = v +:+ t.
Proof. intros [(c & v' & -> & Hc & _) _]. rewrite app_cons_string. simpl. by rewrite Hc. Qed.

Lemma json_text_string s : json_text (json_string s).
Proof.
  split.
  - exists quote_c, (escape s +:+ String quote_c ""). done.
  - intros f t Hf _. destruct f as [| f].
    { unfold json_string in Hf. rewrite length_app_string in Hf. simpl in Hf. lia. }
    assert (E : exists u, json_string s +:+ t = String quote_c u).
    { eexists. unfold json_string. by rewrite app_cons_string. }
    destruct E as [u E]. pose proof (read_json_string s t) as Hr. rewrite E in *. cbn [skip_value].
    change (code quote_c =? 34) with true. cbv iota. by rewrite Hr.
Qed.

Lemma closed_no_digit t : closed t -> forall c t', t = String c t' ->
  is_digit c = false /\ code c <> 46 /\ code c <> 101 /\ code c <> 69.
Proof.
  intros [-> | (d & t0 & -> & Hd)] c t' E; simplify_eq. unfold is_digit.
  split_and!; lia.
Qed.

Lemma read_number_int z t : closed t -> read_number (Itoa z +:+ t) = Some (Itoa z, t).
Proof.
  intros Ht. destruct (Itoa_cases z) as (sg & ds & -> & Hsg & Hd & Hv & (c & ds' & -> & Hz)).
  pose proof (closed_no_digit t Ht) as Hcl.
  assert (Hc : is_digit c = true) by (simpl in Hd; by apply andb_true_iff in Hd as [? _]).
  assert (Hsign : read_sign ((sg +:+ String c ds') +:+ t) = (sg, String c ds' +:+ t)).
  { rewrite app_assoc_string, Hsg. destruct (z <? 0); [done |].
    rewrite app_nil_l_string, app_cons_string. simpl. unfold is_digit in Hc.
    rewrite (proj2 (Z.eqb_neq _ _)) by lia. done. }
  unfold read_number. rewrite Hsign, read_digits_app by (done || intros; by eapply Hcl).
  assert (Hlz : (code c =? 48) && negb (bool_decide (ds' = "")) = false).
  { destruct (Z.eqb_spec (code c) 48); [| done]. rewrite (Hz e). done. }
  rewrite Hlz.
  assert (Hfr : read_frac t = Some ("", t)).
  { destruct t as [| d t']; [done |]. destruct (Hcl d t' eq_refl) as (_ & ? & _).
    simpl. by rewrite (proj2 (Z.eqb_neq _ _)). }
  assert (Hex : read_exp t = Some ("", t)).
  { destruct t as [| d t']; [done |]. destruct (Hcl d t' eq_refl) as (_ & _ & ? & ?).
    simpl. by rewrite !(proj2 (Z.eqb_neq _ _)). }
  rewrite Hfr, Hex. by rewrite !app_nil_l_string, !app_nil_r_string.
Qed.

Lemma json_text_int z : json_text (json_int z).
Proof.
  unfold json_int. destruct (Itoa_cases z) as (sg & ds & E & Hsg & Hd & Hv & (c & ds' & -> & Hz)).
  assert (Hc : is_digit c = true) by (simpl in Hd; by apply andb_true_iff in Hd as [? _]).
  assert (Hhd : exists d u, Itoa z = String d u /\ (code d = 45 \/ is_digit d = true)).
  { rewrite E, Hsg. destruct (z <? 0); [by eexists _, _; split; [rewrite app_cons_string |]; auto |].
    rewrite app_nil_l_string. eauto. }
  destruct Hhd as (d & u & Ed & Hdd).
  assert (Hrange : code d = 45 \/ 48 <= code d <= 57) by (unfold is_digit in Hdd; lia).
  split.
  - exists d, u. split_and!; [done | unfold is_ws; lia | lia].
  - intros f t Hf Ht. destruct f as [| f]; [rewrite Ed in Hf; simpl in Hf; lia |].
    pose proof (read_number_int z t Ht) as Hr. rewrite Ed in *. rewrite app_cons_string in *.
    cbn [skip_value]. rewrite (proj2 (Z.eqb_neq (code d) 34)) by lia.
    assert (Hor : (code d =? 45) || is_digit d = true).
    { destruct Hdd as [-> | ->]; [done | by rewrite orb_true_r]. }
    by rewrite Hor, Hr.
Qed.

Lemma read_word_app w t : read_word w (w +:+ t) = Some t.
Proof. unfold read_word. by rewrite HasPrefix_app_self, string_drop_app. Qed.

Lemma json_text_bool b : json_text (json_bool b).
Proof.
  split; [destruct b; by eexists _, _ |].
  intros f t Hf _. destruct f as [| f]; [destruct b; simpl in Hf; lia |].
  destruct b; apply read_word_app.
Qed.

Lemma parse_int_Itoa bits z :
  - 2 ^ (bits - 1) <= z < 2 ^ (bits - 1) -> parse_int bits (Itoa z) = Some z.
Proof.
  intros Hz. destruct (Itoa_cases z) as (sg & ds & E & Hsg & Hd & Hv & (c & ds' & -> & _)).
  assert (Hc : is_digit c = true) by (simpl in Hd; by apply andb_true_iff in Hd as [? _]).
  assert (Hsp : split_sign (Itoa z) = (z <? 0, String c ds')).
  { rewrite E, Hsg. destruct (z <? 0); [done |]. unfold is_digit in Hc.
    rewrite app_nil_l_string. simpl. by rewrite (proj2 (Z.eqb_neq (code c) 45)) by lia. }
  unfold parse_int. rewrite Hsp, bool_decide_false, Hv by done.
  assert (Hab : (if z <? 0 then - Z.abs z else Z.abs z) = z) by (destruct (Z.ltb_spec z 0); lia).
  cbv zeta. rewrite Hab. by rewrite (proj2 (andb_true_iff _ _)) by lia.
Qed.

Lemma decode_int_json bits z old :
  - 2 ^ (bits - 1) <= z < 2 ^ (bits - 1) -> decode_int bits (json_int z) old = inl z.
Proof.
  intros Hz. unfold decode_int, json_int. rewrite parse_int_Itoa by done.
  rewrite bool_decide_false; [done |]. intros E.
  destruct (Itoa_cases z) as (sg & ds & E' & Hsg & Hd & _ & (c & ds' & -> & _)).
  rewrite E', Hsg in E. destruct (z <? 0); [discriminate |].
  by rewrite app_nil_l_string in E; simplify_eq.
Qed.

Lemma decode_string_json s old : decode_string (json_string s) old = inl (to_valid s).
Proof.
  unfold decode_string. rewrite bool_decide_false by (unfold json_string; by intros [=]).
  pose proof (read_json_string s "") as E. rewrite app_nil_r_string in E. by rewrite E.
Qed.

(** ** Objects and arrays *)

Definition item_text (obj : bool) (m : string * string) : string :=
  if obj then json_member m else m.2.

Definition close_c (obj : bool) : ascii := byte_of (if obj then 125 else 93).

Lemma closed_cons c t : code c = 44 \/ code c = 93 \/ code c = 125 -> closed (String c t).
Proof. right. eauto. Qed.

Lemma closed_close obj t : closed (String (close_c obj) t).
Proof. apply closed_cons. destruct obj; [by right; right | by right; left]. Qed.

Lemma strings_Join_cons x y l sep :
  strings_Join (x :: y :: l) sep = x +:+ sep +:+ strings_Join (y :: l) sep.
Proof. done. Qed.

Lemma string_cons_app c s : String c "" +:+ s = String c s.
Proof. done. Qed.

Lemma json_member_app m t :
  json_member m +:+ t = json_string m.1 +:+ String ":"%char (m.2 +:+ t).
Proof. unfold json_member. by rewrite !app_assoc_string. Qed.

Lemma read_key_member m t :
  json_text m.2 -> read_key (json_member m +:+ t) = Some (to_valid m.1, m.2 +:+ t).
Proof.
  intros Ht. unfold read_key. rewrite json_member_app, read_json_string. cbv zeta.
  change (skip_ws (String ":"%char (m.2 +:+ t))) with (String ":"%char (m.2 +:+ t)). simpl.
  by rewrite skip_ws_text.
Qed.

Lemma item_start_text obj m t :
  json_text m.2 -> item_start obj (item_text obj m +:+ t) = Some (m.2 +:+ t).
Proof. intros Hm. destruct obj; simpl; [by rewrite read_key_member | done]. Qed.

Lemma item_first obj m t : json_text m.2 -> exists c s,
  item_text obj m +:+ t = String c s /\ is_ws c = false /\ code c <> code (close_c obj).
Proof.
  intros [(c & v & E & Hc & H93) _]. destruct obj; simpl.
  - rewrite json_member_app. eexists _, _. split; [unfold json_string; by rewrite !app_cons_string |]. done.
  - rewrite E, app_cons_string. eauto.
Qed.

Lemma length_item obj m : (String.length m.2 <= String.length (item_text obj m))%nat.
Proof. destruct obj; simpl; [unfold json_member; rewrite !length_app_string |]; lia. Qed.

Definition items_text (obj : bool) (ms : list (string * string)) : string :=
  strings_Join (item_text obj <$> ms) ",".

Lemma items_text_cons obj m m' ms t :
  items_text obj (m :: m' :: ms) +:+ t =
  item_text obj m +:+ String ","%char (items_text obj (m' :: ms) +:+ t).
Proof.
  unfold items_text. rewrite !fmap_cons, strings_Join_cons, !app_assoc_string. done.
Qed.

Lemma length_items_cons obj m m' ms :
  String.length (items_text obj (m :: m' :: ms)) =
  (String.length (item_text obj m) + S (String.length (items_text obj (m' :: ms))))%nat.
Proof.
  unfold items_text. rewrite !fmap_cons, strings_Join_cons, !length_app_string. done.
Qed.

Lemma skip_ws_items obj m ms t :
  json_text m.2 -> skip_ws (items_text obj (m :: ms) +:+ t) = items_text obj (m :: ms) +:+ t /\
  first_is (code (close_c obj)) (items_text obj (m :: ms) +:+ t) = false.
Proof.
  intros Hm. assert (E : exists u, items_text obj (m :: ms) +:+ t = item_text obj m +:+ u).
  { destruct ms as [| m' ms]; [by exists t |]. rewrite items_text_cons. eauto. }
  destruct E as [u ->]. destruct (item_first obj m u Hm) as (c & s & -> & Hc & Hne).
  simpl. rewrite Hc. split; [done |]. by apply Z.eqb_neq.
Qed.

Lemma skip_items_ok obj ms : forall f t m,
  (forall m', m' ∈ m :: ms -> json_text m'.2) ->
  (String.length (items_text obj (m :: ms)) < f)%nat ->
  skip_items f obj (items_text obj (m :: ms) +:+ String (close_c obj) t) = Some t.
Proof.
  induction ms as [| m' ms IH]; intros f t m Hms Hf; (destruct f as [| f]; [lia |]);
    assert (Hm : json_text m.2) by (apply Hms; set_solver);
    pose proof (length_item obj m) as Hlen; cbn [skip_items].
  - change (items_text obj [m]) with (item_text obj m) in *.
    rewrite item_start_text by done. rewrite (proj2 Hm);
      [| lia | apply closed_close].
    destruct obj; reflexivity.
  - rewrite items_text_cons, item_start_text by done. rewrite length_items_cons in Hf.
    rewrite (proj2 Hm); [| lia | apply closed_cons; by left]. cbv zeta.
    assert (Hm' : json_text m'.2) by (apply Hms; set_solver).
    destruct (skip_ws_items obj m' ms (String (close_c obj) t) Hm') as [Hws _].
    change (skip_ws (String ","%char ?u)) with (String ","%char u).
    change (first_is 44 (String ","%char ?u)) with true. cbv iota.
    change (string_drop 1 (String ","%char ?u)) with (string_drop 0 u). simpl string_drop.
    rewrite Hws. apply IH; [intros; apply Hms; set_solver | lia].
Qed.

(** A member as it is read: its key is made valid. *)
Definition valid_key (m : string * string) : string * string := (to_valid m.1, m.2).

Lemma read_members_ok ms : forall f t m,
  (forall m', m' ∈ m :: ms -> json_text m'.2) ->
  (String.length (items_text true (m :: ms)) < f)%nat ->
  read_members f (items_text true (m :: ms) +:+ String (close_c true) t) = Some (valid_key <$> m :: ms, t).
Proof.
  assert (Htake : forall v u, string_take (String.length (v +:+ u) - String.length u) (v +:+ u) = v).
  { intros v u. rewrite length_app_string.
    replace (String.length v + String.length u - String.length u)%nat with (String.length v) by lia.
    apply string_take_app. }
  induction ms as [| m' ms IH]; intros f t [k v] Hms Hf; (destruct f as [| f]; [lia |]);
    assert (Hm : json_text v) by (apply (Hms (k, v)); set_solver);
    pose proof (length_item true (k, v)) as Hlen; cbn [snd] in Hlen; cbn [read_members].
  - change (items_text true [(k, v)]) with (json_member (k, v)) in *.
    change (item_text true (k, v)) with (json_member (k, v)) in Hlen.
    rewrite read_key_member by done. cbn [fst snd]. rewrite (proj2 Hm);
      [| lia | apply closed_close].
    cbv zeta. rewrite Htake. reflexivity.
  - rewrite items_text_cons. rewrite length_items_cons in Hf.
    change (item_text true (k, v)) with (json_member (k, v)) in *.
    rewrite read_key_member by done. cbn [fst snd].
    rewrite (proj2 Hm); [| lia | apply closed_cons; by left]. cbv zeta. rewrite Htake.
    assert (Hm' : json_text m'.2) by (apply Hms; set_solver).
    destruct (skip_ws_items true m' ms (String (close_c true) t) Hm') as [Hws _].
    change (skip_ws (String ","%char ?u)) with (String ","%char u).
    change (first_is 44 (String ","%char ?u)) with true. cbv iota.
    change (string_drop 1 (String ","%char ?u)) with (string_drop 0 u). simpl string_drop.
    rewrite Hws, IH; [done | intros; apply Hms; set_solver | lia].
Qed.

Lemma json_object_items ms t :
  json_object ms +:+ t = String "{"%char (items_text true ms +:+ String (close_c true) t).
Proof. unfold json_object. rewrite !app_assoc_string. done. Qed.

(** An object is read back as the members it was written from. *)
Lemma json_members_object ms :
  (forall m, m ∈ ms -> json_text m.2) -> json_members (json_object ms) = Some (valid_key <$> ms).
Proof.
  intros Hms. pose proof (json_object_items ms "") as E. rewrite app_nil_r_string in E. rewrite E.
  unfold json_members. cbv zeta.
  change (skip_ws (String "{"%char ?u)) with (String "{"%char u).
  change (first_is 123 (String "{"%char ?u)) with true. cbv iota.
  change (string_drop 1 (String "{"%char ?u)) with (string_drop 0 u). simpl string_drop.
  destruct ms as [| m ms]; [done |].
  destruct (skip_ws_items true m ms (String (close_c true) "")) as [-> Hf]; [apply Hms; set_solver |].
  change (code (close_c true)) with 125 in Hf. rewrite Hf.
  rewrite read_members_ok; [done | done |]. rewrite length_app_string. simpl. lia.
Qed.

Lemma json_text_object ms : (forall m, m ∈ ms -> json_text m.2) -> json_text (json_object ms).
Proof.
  intros Hms. split; [by eexists _, _ |]. intros f t Hf _.
  assert (Hlen : String.length (json_object ms) = S (S (String.length (items_text true ms)))).
  { unfold json_object. rewrite !length_app_string. simpl. unfold items_text.
    change (item_text true) with json_member. lia. }
  rewrite json_object_items. destruct f as [| f]; [lia |]. cbn [skip_value].
  change (code "{" =? 34) with false. change ((code "{" =? 45) || is_digit "{") with false.
  change (code "{" =? 116) with false. change (code "{" =? 102) with false.
  change (code "{" =? 110) with false. change (code "{" =? 91) with false.
  change (code "{" =? 123) with true. cbv iota zeta.
  destruct ms as [| m ms]; [done |].
  destruct (skip_ws_items true m ms (String (close_c true) t)) as [-> Hfi]; [apply Hms; set_solver |].
  change (code (close_c true)) with 125 in Hfi. rewrite Hfi. apply skip_items_ok; [done | lia].
Qed.

Lemma json_text_array vs : (forall v, v ∈ vs -> json_text v) -> json_text (json_array vs).
Proof.
  intros Hvs. split; [by eexists _, _ |]. intros f t Hf _.
  set (ms := (fun v => ("", v)) <$> vs).
  assert (Hit : strings_Join vs "," = items_text false ms).
  { unfold items_text, ms. f_equal. rewrite <- list_fmap_compose. symmetry. apply list_fmap_id. }
  assert (Hms : forall m, m ∈ ms -> json_text m.2).
  { intros m (v & -> & Hv)%list_elem_of_fmap. by apply Hvs. }
  assert (E : json_array vs +:+ t = String "["%char (items_text false ms +:+ String (close_c false) t)).
  { unfold json_array. by rewrite Hit, !app_assoc_string. }
  assert (Hlen : String.length (json_array vs) = S (S (String.length (items_text false ms)))).
  { unfold json_array. rewrite Hit, !length_app_string. simpl. lia. }
  rewrite E. destruct f as [| f]; [lia |]. cbn [skip_value].
  change (code "[" =? 34) with false. change ((code "[" =? 45) || is_digit "[") with false.
  change (code "[" =? 116) with false. change (code "[" =? 102) with false.
  change (code "[" =? 110) with false. change (code "[" =? 91) with true. cbv iota zeta.
  destruct ms as [| m ms']; [done |].
  destruct (skip_ws_items false m ms' (String (close_c false) t)) as [-> Hfi]; [apply Hms; set_solver |].
  change (code (close_c false)) with 93 in Hfi. rewrite Hfi. apply skip_items_ok; [done | lia].
Qed.

(** An array is read back as the elements it was written from. *)
Lemma read_elements_ok vs : forall f t v,
  (forall v', v' ∈ v :: vs -> json_text v') ->
  (String.length (items_text false ((fun v => ("", v)) <$> v :: vs)) < f)%nat ->
  read_elements f (items_text false ((fun v => ("", v)) <$> v :: vs) +:+ String (close_c false) t) = Some (v :: vs, t).
Proof.
  assert (Htake : forall v u, string_take (String.length (v +:+ u) - String.length u) (v +:+ u) = v).
  { intros v u. rewrite length_app_string.
    replace (String.length v + String.length u - String.length u)%nat with (String.length v) by lia.
    apply string_take_app. }
  induction vs as [| v' vs IH]; intros f t v Hvs Hf; (destruct f as [| f]; [lia |]);
    assert (Hv : json_text v) by (apply Hvs; set_solver);
    pose proof (length_item false ("", v)) as Hlen; cbn [snd] in Hlen; cbn [read_elements].
  - change (items_text false _) with v in *. change (item_text false ("", v)) with v in Hlen.
    rewrite (proj2 Hv); [| lia | apply closed_close]. cbv zeta. rewrite Htake. reflexivity.
  - rewrite !fmap_cons in *. rewrite items_text_cons. rewrite length_items_cons in Hf.
    change (item_text false ("", v)) with v in *.
    rewrite (proj2 Hv); [| lia | apply closed_cons; by left]. cbv zeta. rewrite Htake.
    assert (Hv' : json_text v') by (apply Hvs; set_solver).
    destruct (skip_ws_items false ("", v') ((fun v => ("", v)) <$> vs) (String (close_c false) t) Hv') as [Hws _].
    change (skip_ws (String ","%char ?u)) with (String ","%char u).
    change (first_is 44 (String ","%char ?u)) with true. cbv iota.
    change (string_drop 1 (String ","%char ?u)) with (string_drop 0 u). simpl string_drop.
    rewrite Hws. rewrite <- fmap_cons. rewrite IH; [done | intros; apply Hvs; set_solver | rewrite fmap_cons; lia].
Qed.

Lemma json_elements_array vs : (forall v, v ∈ vs -> json_text v) -> json_elements (json_array vs) = Some vs.
Proof.
  intros Hvs. set (ms := (fun v => ("", v)) <$> vs).
  assert (Hit : strings_Join vs "," = items_text false ms).
  { unfold items_text, ms. f_equal. rewrite <- list_fmap_compose. symmetry. apply list_fmap_id. }
  assert (E : json_array vs = String "["%char (items_text false ms +:+ String (close_c false) "")).
  { unfold json_array. by rewrite Hit. }
  rewrite E. unfold json_elements. cbv zeta.
  change (skip_ws (String "["%char ?u)) with (String "["%char u).
  change (first_is 91 (String "["%char ?u)) with true. cbv iota.
  change (string_drop 1 (String "["%char ?u)) with (string_drop 0 u). simpl string_drop.
  unfold ms. destruct vs as [| v vs]; [done |]. rewrite fmap_cons in *.
  destruct (skip_ws_items false ("", v) ((fun v => ("", v)) <$> vs) (String (close_c false) "")) as [-> Hf];
    [apply Hvs; set_solver |].
  change (code (close_c false)) with 93 in Hf. rewrite Hf. rewrite <- fmap_cons.
  rewrite read_elements_ok; [done | done |]. rewrite length_app_string. simpl. lia.
Qed.
