(* ===== verification/JsonText.v ===== *)
(** * A value that was read is a text by itself

    [skip_value] finds where a value ends by reading it; what it read is then a [json_text]: the same
    bytes are a value wherever they are put ([skip_value_text]). So the raw texts a decoder hands on,
    which are copied into other messages, can always be written ([json_members_text]). *)

From S2P Require Import Prelude GoStrings Json.

Local Open Scope Z_scope.

(** What may follow a value inside a text: what may follow it when it is put elsewhere, or a space. *)
Definition ends (t : string) : Prop :=
  match t with
  | EmptyString => True
  | String c _ => is_ws c = true \/ code c = 44 \/ code c = 93 \/ code c = 125
  end.

Lemma closed_ends t : closed t -> ends t.
Proof. intros [-> | (c & t' & -> & Hc)]; [done |]. by right. Qed.

Lemma ends_no_number t : ends t -> forall c t', t = String c t' ->
  is_digit c = false /\ code c <> 46 /\ code c <> 101 /\ code c <> 69.
Proof. intros Ht c t' ->. cbn in Ht. unfold is_ws, is_digit in *. split_and!; lia. Qed.

(** ** Strings *)

(** What a [\u] escape sees of the text after it. *)
Definition ahead (s : string) : option (option Z) :=
  match s with
  | String c (String u t) =>
      if (code c =? 92) && (code u =? 117) then Some (option_map fst (hex4_value t)) else None
  | _ => None
  end.

Lemma ahead_other c s : code c <> 92 -> ahead (String c s) = None.
Proof. intros Hc. destruct s; [done |]. cbn. by rewrite (proj2 (Z.eqb_neq _ _)). Qed.

Lemma hex4_local s n t : hex4_value s = Some (n, t) ->
  exists r, s = r +:+ t /\ r <> "" /\ forall u, hex4_value (r +:+ u) = Some (n, u).
Proof.
  destruct s as [| a [| b [| c [| d s]]]]; try done. unfold hex4_value.
  destruct (hex_value a) as [x |] eqn:Ea, (hex_value b) as [y |] eqn:Eb, (hex_value c) as [z |] eqn:Ec,
    (hex_value d) as [w |] eqn:Ed; try done.
  intros [= <- <-]. exists (String a (String b (String c (String d "")))). split_and!; [done | done |].
  intros u. rewrite !app_cons_string, app_nil_l_string. by rewrite Ea, Eb, Ec, Ed.
Qed.

Lemma unescape_u_local s x t : unescape_u s = Some (x, t) ->
  exists r, s = r +:+ t /\ r <> "" /\
    (exists n, forall u, option_map fst (hex4_value (r +:+ u)) = Some n) /\
    forall u, ahead u = ahead t -> unescape_u (r +:+ u) = Some (x, u).
Proof.
  unfold unescape_u. destruct (hex4_value s) as [[n s'] |] eqn:Eh; [| done].
  destruct (hex4_local _ _ _ Eh) as (r & -> & Hr & Hloc). intros Hx.
  destruct (is_surrogate n) eqn:En; cbn [negb] in *.
  2: { injection Hx as <- <-. exists r. split_and!; [done | done | | intros u _; by rewrite Hloc, En].
       exists n. intros u. by rewrite Hloc. }
  destruct (n <? 56320) eqn:El.
  2: { injection Hx as <- <-. exists r. split_and!; [done | done | | intros u _; by rewrite Hloc, En; cbn; rewrite El].
       exists n. intros u. by rewrite Hloc. }
  assert (Hn : exists n0, forall u, option_map fst (hex4_value (r +:+ u)) = Some n0)
    by (exists n; intros u; by rewrite Hloc).
  destruct s' as [| c [| d t0]].
  - injection Hx as <- <-. exists r. split_and!; try done. intros u Hu. rewrite Hloc, En. cbn. rewrite El.
    destruct u as [| c' [| d' u']]; try done. revert Hu. cbn. by destruct ((code c' =? 92) && (code d' =? 117)).
  - injection Hx as <- <-. exists r. split_and!; try done. intros u Hu. rewrite Hloc, En. cbn. rewrite El.
    destruct u as [| c' [| d' u']]; try done. revert Hu. cbn. by destruct ((code c' =? 92) && (code d' =? 117)).
  - destruct ((code c =? 92) && (code d =? 117)) eqn:Ecd.
    + destruct (hex4_value t0) as [[m t1] |] eqn:Em; [| done].
      destruct (hex4_local _ _ _ Em) as (r1 & -> & Hr1 & Hloc1).
      destruct ((56320 <=? m) && (m <? 57344)) eqn:Elow; injection Hx as <- <-.
      * exists (r +:+ String c (String d r1)). split_and!; [by rewrite app_assoc_string | by destruct r | |].
        { exists n. intros u. by rewrite app_assoc_string, Hloc. }
        intros u _. rewrite app_assoc_string, Hloc, En. cbn [negb]. rewrite El, !app_cons_string, Ecd, Hloc1, Elow. done.
      * exists r. split_and!; try done. intros u Hu. rewrite Hloc, En. cbn [negb]. rewrite El. cbn [ahead] in Hu. rewrite Ecd, Em in Hu.
        destruct u as [| c' [| d' u']]; try done. revert Hu. cbn. destruct ((code c' =? 92) && (code d' =? 117)); [| done]. intros Hu.
        destruct (hex4_value u') as [[m' u''] |]; [| done]. cbn in Hu. injection Hu as ->. by rewrite Elow.
    + injection Hx as <- <-. exists r. split_and!; try done. intros u Hu. rewrite Hloc, En. cbn [negb]. rewrite El. cbn [ahead] in Hu. rewrite Ecd in Hu.
      destruct u as [| c' [| d' u']]; try done. revert Hu. cbn. by destruct ((code c' =? 92) && (code d' =? 117)).
Qed.

Lemma read_chars_local f : forall s x t, read_chars f s = Some (x, t) ->
  exists r, s = r +:+ t /\ r <> "" /\
    forall u, ahead (r +:+ u) = ahead (r +:+ t) /\
      forall f', (String.length r <= f')%nat -> read_chars f' (r +:+ u) = Some (x, u).
Proof.
  induction f as [| f IH]; intros s x t Hs; [done |]. destruct s as [| c s]; [done |]. cbn [read_chars] in Hs.
  destruct (Z.eqb_spec (code c) 34) as [E34 | N34].
  { injection Hs as <- <-. exists (String c ""). split_and!; [done | done |]. intros u. split.
    - rewrite !app_cons_string, !ahead_other by lia. done.
    - intros [| f'] Hf; [cbn in Hf; lia |]. rewrite app_cons_string. cbn [read_chars]. by rewrite E34. }
  destruct (Z.eqb_spec (code c) 92) as [E92 | N92].
  - destruct s as [| d s]; [done |].
    destruct (Z.eqb_spec (code d) 117) as [E117 | N117].
    + destruct (unescape_u s) as [[y s3] |] eqn:Eu; [| done]. cbn in Hs.
      destruct (read_chars f s3) as [[p t'] |] eqn:Er; [| done]. injection Hs as <- <-.
      destruct (unescape_u_local _ _ _ Eu) as (r & -> & Hr & (n & Hn) & Hloc).
      destruct (IH _ _ _ Er) as (r3 & -> & Hr3 & Hu3).
      exists (String c (String d (r +:+ r3))). split_and!; [by rewrite !app_cons_string, app_assoc_string | done |].
      intros u. rewrite !app_cons_string, !app_assoc_string. split.
      * cbn [ahead]. by rewrite E92, E117, !Hn.
      * intros [| f'] Hf; [cbn in Hf; lia |]. cbn [read_chars]. rewrite E92, E117. cbn.
        rewrite Hloc by apply Hu3. destruct (Hu3 u) as [_ Hrun].
        assert (1 <= String.length r)%nat by (destruct r; [done | cbn; lia]).
        rewrite Hrun; [done |]. cbn in Hf. rewrite length_app_string in Hf. lia.
    + destruct (unescape_simple d) as [y |] eqn:Eu; [| done]. cbn in Hs.
      destruct (read_chars f s) as [[p t'] |] eqn:Er; [| done]. injection Hs as <- <-.
      destruct (IH _ _ _ Er) as (r3 & -> & Hr3 & Hu3).
      exists (String c (String d r3)). split_and!; [done | done |]. intros u. rewrite !app_cons_string. split.
      * cbn [ahead]. by rewrite (proj2 (Z.eqb_neq (code d) 117)), andb_false_r by done.
      * intros [| f'] Hf; [cbn in Hf; lia |]. cbn [read_chars]. rewrite E92, Eu. cbn.
        rewrite (proj2 (Z.eqb_neq (code d) 117)) by done. cbn. destruct (Hu3 u) as [_ Hrun].
        rewrite Hrun; [done |]. cbn in Hf. lia.
  - destruct (code c <? 32) eqn:E32; [done |]. destruct (read_chars f s) as [[p t'] |] eqn:Er; [| done].
    cbn in Hs. injection Hs as <- <-. destruct (IH _ _ _ Er) as (r3 & -> & Hr3 & Hu3).
    exists (String c r3). split_and!; [done | done |]. intros u. rewrite !app_cons_string. split.
    + by rewrite !ahead_other by lia.
    + intros [| f'] Hf; [cbn in Hf; lia |]. cbn [read_chars].
      rewrite (proj2 (Z.eqb_neq (code c) 34)), (proj2 (Z.eqb_neq (code c) 92)), E32 by done.
      destruct (Hu3 u) as [_ Hrun]. rewrite Hrun; [done |]. cbn in Hf. lia.
Qed.

Lemma read_string_local s x t : read_string s = Some (x, t) ->
  exists r, s = r +:+ t /\ first_is 34 r = true /\ forall u, read_string (r +:+ u) = Some (x, u).
Proof.
  destruct s as [| c s]; [done |]. unfold read_string. destruct (code c =? 34) eqn:E; [| done].
  destruct (read_chars (S (String.length s)) s) as [[y t'] |] eqn:Hs; [| done]. intros [= <- <-].
  destruct (read_chars_local _ _ _ _ Hs) as (r & -> & Hr & Hu). exists (String c r).
  split_and!; [done | done |]. intros u. rewrite app_cons_string, E. destruct (Hu u) as [_ Hrun].
  rewrite Hrun; [done |]. rewrite length_app_string. lia.
Qed.

(** ** Numbers *)

Lemma read_digits_local s : exists ds t, read_digits s = (ds, t) /\ s = ds +:+ t /\ all_digits ds = true.
Proof.
  induction s as [| c s (ds & t & E & Es & Hd)]; [by exists "", "" |]. cbn [read_digits]. destruct (is_digit c) eqn:Ec.
  - exists (String c ds), t. rewrite E. cbn. by rewrite Ec, Hd, Es.
  - by exists "", (String c s).
Qed.

(** What may follow the digits of a number's integer part, of its fraction, and of its exponent. *)
Definition no_byte (bad : ascii -> Prop) (u : string) : Prop := forall c t, u = String c t -> ~ bad c.
Definition digit_or (n : Z) (c : ascii) : Prop := is_digit c = true \/ code c = n.

Lemma read_digits_again ds u : all_digits ds = true -> no_byte is_digit u -> read_digits (ds +:+ u) = (ds, u).
Proof.
  intros Hd Hu. apply read_digits_app; [done |]. intros c t Ec. apply not_true_is_false. intros Hc.
  apply (Hu c t Ec). by rewrite Hc.
Qed.

Lemma no_byte_weaken (p q : ascii -> Prop) u : (forall c, q c -> p c) -> no_byte p u -> no_byte q u.
Proof. intros Hpq Hu c t E Hq. exact (Hu c t E (Hpq c Hq)). Qed.

Lemma read_frac_local s x t : read_frac s = Some (x, t) ->
  s = x +:+ t /\ (x = "" \/ first_is 46 x = true) /\
  forall u, no_byte (digit_or 46) u -> read_frac (x +:+ u) = Some (x, u).
Proof.
  assert (Hnone : forall u, no_byte (digit_or 46) u -> read_frac ("" +:+ u) = Some ("", u)).
  { intros u Hu. rewrite app_nil_l_string. destruct u as [| c u]; [done |]. cbn.
    destruct (Z.eqb_spec (code c) 46) as [E |]; [| done]. destruct (Hu c u); [done | by right]. }
  destruct s as [| c s]; [intros [= <- <-]; auto |]. cbn. destruct (code c =? 46) eqn:E46.
  - destruct (read_digits_local s) as (ds & r & Er & -> & Hd). rewrite Er. case_bool_decide as Hne; [done |].
    intros [= <- <-]. split_and!; [done | right; exact E46 |]. intros u Hu. rewrite app_cons_string. cbn.
    rewrite E46, read_digits_again; [| done | apply (no_byte_weaken (digit_or 46)); [intros c' Hc'; left; by apply Is_true_true | done]]. by rewrite bool_decide_false.
  - intros [= <- <-]. auto.
Qed.

Definition exp_byte (c : ascii) : Prop := is_digit c = true \/ code c = 101 \/ code c = 69.

Lemma read_exp_local s x t : read_exp s = Some (x, t) ->
  s = x +:+ t /\ (x = "" \/ first_is 101 x = true \/ first_is 69 x = true) /\
  forall u, no_byte exp_byte u -> read_exp (x +:+ u) = Some (x, u).
Proof.
  assert (Hnone : forall u, no_byte exp_byte u -> read_exp ("" +:+ u) = Some ("", u)).
  { intros u Hu. rewrite app_nil_l_string. destruct u as [| c u]; [done |]. cbn.
    destruct (Z.eqb_spec (code c) 101) as [E |]; [destruct (Hu c u); [done | by right; left] |].
    destruct (Z.eqb_spec (code c) 69) as [E |]; [destruct (Hu c u); [done | by right; right] | done]. }
  assert (Hdig : forall ds u, all_digits ds = true -> no_byte exp_byte u -> read_digits (ds +:+ u) = (ds, u)).
  { intros ds u Hd Hu. apply read_digits_again; [done |]. apply (no_byte_weaken exp_byte); [| done].
    intros c Hc. left. by apply Is_true_true. }
  destruct s as [| c s]; [intros [= <- <-]; auto |]. cbn. destruct ((code c =? 101) || (code c =? 69)) eqn:Ee.
  2: { intros [= <- <-]. auto. }
  set (sg := match s with String d v => if (code d =? 43) || (code d =? 45) then (String d "", v) else ("", s) | "" => ("", s) end).
  assert (Hsg : s = sg.1 +:+ sg.2 /\ forall ds u, sg.2 = ds +:+ u -> all_digits ds = true -> ds <> "" -> forall v,
    match sg.1 +:+ (ds +:+ v) with String d w => if (code d =? 43) || (code d =? 45) then (String d "", w) else ("", sg.1 +:+ (ds +:+ v)) | "" => ("", sg.1 +:+ (ds +:+ v)) end
      = (sg.1, ds +:+ v)).
  { unfold sg. destruct s as [| d s']; [split; [done |]; by intros [| ? ?] u |].
    destruct ((code d =? 43) || (code d =? 45)) eqn:Ed; split; try done; intros ds u Eu Hd Hne v.
    - cbn [fst]. rewrite app_cons_string, app_nil_l_string. by rewrite Ed.
    - destruct ds as [| d' ds]; [done |]. rewrite app_cons_string in Eu. injection Eu as -> _. cbn [fst]. rewrite app_nil_l_string, app_cons_string. by rewrite Ed. }
  destruct sg as [sg0 s1]. cbn [fst snd] in Hsg. destruct Hsg as [-> Hsg].
  destruct (read_digits_local s1) as (ds & r & Er & -> & Hd). rewrite Er. case_bool_decide as Hne; [done |].
  intros [= <- <-]. split_and!; [by rewrite app_cons_string, app_assoc_string | |].
  - right. apply orb_true_iff in Ee as [Ee | Ee]; [left | right]; exact Ee.
  - intros u Hu. rewrite app_cons_string, app_assoc_string. cbn. rewrite Ee, (Hsg ds r eq_refl Hd Hne u), Hdig by done.
    by rewrite bool_decide_false.
Qed.

Lemma read_number_local s x t : read_number s = Some (x, t) ->
  s = x +:+ t /\ (exists c x', x = String c x' /\ (code c = 45 \/ is_digit c = true)) /\
  forall u, ends u -> read_number (x +:+ u) = Some (x, u).
Proof.
  unfold read_number at 1.
  assert (Hsg : exists sg r, read_sign s = (sg, r) /\ s = sg +:+ r /\ (sg = "" \/ exists c, sg = String c "" /\ code c = 45) /\
    forall d v, is_digit d = true -> read_sign (sg +:+ String d v) = (sg, String d v)).
  { destruct s as [| c s].
    { exists "", "". split_and!; try done; [by left |]. intros d v Hd. rewrite app_nil_l_string. cbn. unfold is_digit in Hd.
      by rewrite (proj2 (Z.eqb_neq _ _)) by lia. }
    cbn. destruct (code c =? 45) eqn:E.
    - exists (String c ""), s. split_and!; try done; [right; exists c; split; [done | lia] |]. intros d v Hd. rewrite app_cons_string. cbn. by rewrite E.
    - exists "", (String c s). split_and!; try done; [by left |]. intros d v Hd. rewrite app_nil_l_string. cbn. unfold is_digit in Hd.
      by rewrite (proj2 (Z.eqb_neq _ _)) by lia. }
  destruct Hsg as (sg & s1 & -> & -> & Hsgc & Hsg).
  destruct (read_digits_local s1) as (ds & s2 & -> & -> & Hd). destruct ds as [| d ds]; [done |].
  assert (Hd0 : is_digit d = true) by (cbn in Hd; by apply andb_true_iff in Hd as [Hd0 _]).
  destruct ((code d =? 48) && negb (bool_decide (ds = ""))) eqn:Elz; [done |].
  destruct (read_frac s2) as [[fr s3] |] eqn:Efr; [| done]. destruct (read_exp s3) as [[ex s4] |] eqn:Eex; [| done].
  intros [= <- <-]. destruct (read_frac_local _ _ _ Efr) as (-> & Hfr & Lfr).
  destruct (read_exp_local _ _ _ Eex) as (-> & Hex & Lex). split_and!.
  - by rewrite !app_assoc_string.
  - destruct Hsgc as [-> | (c & -> & Hc)]; [exists d, (ds +:+ fr +:+ ex) | exists c, (String d ds +:+ fr +:+ ex)]; auto.
  - intros u Hu. pose proof (ends_no_number u Hu) as Hnum.
    assert (Hexu : no_byte (digit_or 46) (ex +:+ u)).
    { intros c v E [Hc | Hc]; (destruct Hex as [-> | Hex]; [rewrite app_nil_l_string in E; apply Hnum in E; intuition congruence |]);
        (destruct ex as [| c' ex]; [by destruct Hex |]); rewrite app_cons_string in E; injection E as <- _;
        cbn in Hex; unfold is_digit in *; lia. }
    unfold read_number. rewrite !app_assoc_string, app_cons_string, Hsg by done. rewrite <- app_cons_string.
    rewrite (read_digits_again (String d ds)); [| done |].
    + rewrite Elz, Lfr by done. rewrite Lex; [by rewrite ?app_assoc_string |].
      intros c v E Hc. apply Hnum in E. unfold exp_byte in Hc. intuition congruence.
    + destruct Hfr as [-> | Hfr].
      { rewrite app_nil_l_string. apply (no_byte_weaken (digit_or 46)); [| done]. intros c Hc. left. by apply Is_true_true. }
      destruct fr as [| c fr]; [done |]. intros c' v E Hc. rewrite app_cons_string in E. injection E as <- _.
      cbn in Hfr. apply Is_true_true in Hc. unfold is_digit in Hc. lia.
Qed.

(** ** Values *)

Definition close_byte (c : ascii) : Prop := code c = 44 \/ code c = 93 \/ code c = 125.

Lemma close_byte_no_ws c : close_byte c -> is_ws c = false.
Proof. unfold close_byte, is_ws. lia. Qed.

Lemma skip_ws_local s : exists w, s = w +:+ skip_ws s /\
  (forall c u, is_ws c = false -> skip_ws (w +:+ String c u) = String c u) /\
  forall c u, close_byte c -> ends (w +:+ String c u).
Proof.
  induction s as [| c s (w & E & Hw & He)]; cbn [skip_ws].
  - exists "". split_and!; [done | |]; intros c u Hc; rewrite app_nil_l_string; cbn; [by rewrite Hc | by right].
  - destruct (is_ws c) eqn:Ec.
    + exists (String c w). split_and!; [rewrite app_cons_string; by rewrite <- E | |]; intros d u Hd; rewrite app_cons_string.
      * cbn [skip_ws]. rewrite Ec. by apply Hw.
      * by left.
    + exists "". split_and!; [done | |]; intros d u Hd; rewrite app_nil_l_string; cbn; [by rewrite Hd | by right].
Qed.

Lemma read_word_local w s t : read_word w s = Some t -> s = w +:+ t.
Proof.
  unfold read_word. destruct (strings_HasPrefix s w) eqn:E; [| done]. apply HasPrefix_spec in E as [u ->].
  rewrite string_drop_app. by intros [= ->].
Qed.

(** The text starts with a byte that is neither a space nor [bad]. *)
Definition starts (bad : Z) (r : string) : Prop := exists c r', r = String c r' /\ is_ws c = false /\ code c <> bad.

Lemma first_is_inv n s : first_is n s = true -> exists c s', s = String c s' /\ code c = n.
Proof. destruct s as [| c s]; [done |]. cbn. intros E. exists c, s. split; [done | lia]. Qed.

Lemma read_key_local s k v : read_key s = Some (k, v) ->
  exists p, s = p +:+ v /\ first_is 34 p = true /\
    forall bad r u, starts bad r -> read_key (p +:+ r +:+ u) = Some (k, r +:+ u).
Proof.
  unfold read_key at 1. destruct (read_string s) as [[k' t1] |] eqn:Es; [| done].
  destruct (read_string_local _ _ _ Es) as (rk & -> & Hk & Lk).
  destruct (skip_ws_local t1) as (w1 & E1 & L1 & _). destruct (first_is 58 (skip_ws t1)) eqn:E58; [| done].
  apply first_is_inv in E58 as (c & t3 & E58 & Hc). rewrite E58 in *.
  replace (string_drop 1 (String c t3)) with t3 by (by destruct t3). intros [= -> <-].
  destruct (skip_ws_local t3) as (w3 & E3 & L3 & _). exists (rk +:+ w1 +:+ String c w3). split_and!.
  - rewrite E1. rewrite E3 at 1. by rewrite !app_assoc_string, app_cons_string.
  - destruct rk; [done | exact Hk].
  - intros bad r u (d & r' & -> & Hd & _). unfold read_key. rewrite !app_assoc_string, Lk, app_cons_string.
    rewrite (L1 c) by (unfold is_ws; lia). cbn [first_is]. rewrite (proj2 (Z.eqb_eq _ _) Hc).
    replace (string_drop 1 (String c (w3 +:+ String d r' +:+ u))) with (w3 +:+ String d r' +:+ u)
      by (by destruct (w3 +:+ String d r' +:+ u)).
    by rewrite app_cons_string, L3.
Qed.

Lemma item_start_local obj s v : item_start obj s = Some v ->
  exists p, s = p +:+ v /\ (if obj then first_is 34 p = true else p = "") /\
    forall bad r u, starts bad r -> item_start obj (p +:+ r +:+ u) = Some (r +:+ u).
Proof.
  destruct obj; cbn [item_start].
  - destruct (read_key s) as [[k v'] |] eqn:Ek; [| done]. intros [= <-].
    destruct (read_key_local _ _ _ Ek) as (p & -> & Hp & L). exists p. split_and!; [done | done |].
    intros bad r u Hr. by rewrite (L bad).
  - intros [= <-]. by exists "".
Qed.

Definition value_local (f : nat) : Prop := forall s t, skip_value f s = Some t ->
  exists r, s = r +:+ t /\ starts 93 r /\
    forall f' u, (String.length r <= f')%nat -> ends u -> skip_value f' (r +:+ u) = Some u.

Definition items_local (f : nat) : Prop := forall obj s t, skip_items f obj s = Some t ->
  exists r, s = r +:+ t /\ starts (if obj then 125 else 93) r /\
    forall f' u, (String.length r <= f')%nat -> skip_items f' obj (r +:+ u) = Some u.

Lemma starts_pos bad r : starts bad r -> (1 <= String.length r)%nat.
Proof. intros (c & r' & -> & _). cbn. lia. Qed.

Lemma drop_1 c s : string_drop 1 (String c s) = s.
Proof. by destruct s. Qed.

Lemma items_step f : value_local f -> items_local f -> items_local (S f).
Proof.
  intros Hv Hi obj s t. cbn [skip_items]. destruct (item_start obj s) as [v |] eqn:Es; [| done].
  destruct (item_start_local _ _ _ Es) as (p & -> & Hp & Lp).
  destruct (skip_value f v) as [t1 |] eqn:Ev; [| done]. destruct (Hv _ _ Ev) as (rv & -> & Hrv & Lv). clear Es Ev.
  destruct (skip_ws_local t1) as (w & E1 & Lw & Ew). pose proof (starts_pos _ _ Hrv) as Hpos.
  assert (Hst : forall q, starts (if obj then 125 else 93) (p +:+ rv +:+ q)).
  { intros q. destruct obj.
    - apply first_is_inv in Hp as (c & p' & -> & Hc). exists c, (p' +:+ rv +:+ q).
      rewrite app_cons_string. split_and!; [done | unfold is_ws; lia | lia].
    - subst p. destruct Hrv as (c & r' & -> & Hc & H93). rewrite app_nil_l_string, app_cons_string. by exists c, (r' +:+ q). }
  destruct (first_is 44 (skip_ws t1)) eqn:E44.
  - apply first_is_inv in E44 as (c & t2 & E44 & Hc). rewrite E44 in *. rewrite drop_1. intros Hs.
    destruct (Hi _ _ _ Hs) as (ri & Eri & Hri & Li). destruct (skip_ws_local t2) as (w2 & E2 & Lw2 & _).
    exists (p +:+ rv +:+ w +:+ String c (w2 +:+ ri)). split_and!; [| apply Hst |].
    + rewrite E1. rewrite E2, Eri. by rewrite !app_assoc_string, !app_cons_string, !app_assoc_string.
    + intros f' u Hf. destruct f' as [| f']; [rewrite !length_app_string in Hf; cbn in Hf; lia |].
      rewrite !length_app_string in Hf. cbn in Hf. rewrite length_app_string in Hf.
      cbn [skip_items]. rewrite !app_assoc_string, (Lp 93) by done.
      rewrite Lv; [| lia | rewrite app_cons_string; apply Ew; by left].
      rewrite app_cons_string, Lw by (apply close_byte_no_ws; by left). cbn [first_is].
      rewrite (proj2 (Z.eqb_eq _ _) Hc), drop_1, app_assoc_string.
      destruct Hri as (d & ri' & -> & Hd & _). rewrite app_cons_string, Lw2 by done. rewrite <- app_cons_string.
      apply Li. lia.
  - destruct (first_is (if obj then 125 else 93) (skip_ws t1)) eqn:Ecl; [| done].
    apply first_is_inv in Ecl as (c & t2 & Ecl & Hc). rewrite Ecl in *. rewrite drop_1. intros [= <-].
    assert (Hcb : close_byte c) by (destruct obj; [by right; right | by right; left]).
    exists (p +:+ rv +:+ w +:+ String c ""). split_and!; [| apply Hst |].
    + rewrite E1. by rewrite !app_assoc_string, app_cons_string.
    + intros f' u Hf. destruct f' as [| f']; [rewrite !length_app_string in Hf; cbn in Hf; lia |].
      rewrite !length_app_string in Hf. cbn in Hf. cbn [skip_items]. rewrite !app_assoc_string, (Lp 93) by done.
      rewrite app_cons_string, app_nil_l_string. rewrite Lv; [| lia | by apply Ew].
      rewrite Lw by by apply close_byte_no_ws. cbn [first_is]. rewrite drop_1.
      rewrite (proj2 (Z.eqb_neq (code c) 44)) by (destruct obj; lia). by rewrite (proj2 (Z.eqb_eq _ _) Hc).
Qed.

(** A value that starts with a bracket: an array or an object. *)
Lemma block_step f (obj : bool) c s t : items_local f -> is_ws c = false -> code c <> 93 ->
  (forall (f' : nat) (v : string), skip_value (S f') (String c v) =
     (let t := skip_ws v in
      if first_is (if obj then 125 else 93) t then Some (string_drop 1 t) else skip_items f' obj t)) ->
  skip_value (S f) (String c s) = Some t ->
  exists r, String c s = r +:+ t /\ starts 93 r /\
    forall f' u, (String.length r <= f')%nat -> ends u -> skip_value f' (r +:+ u) = Some u.
Proof.
  intros Hi Hws H93 Heq. rewrite Heq. cbv zeta. destruct (skip_ws_local s) as (w & E & Lw & _).
  destruct (first_is (if obj then 125 else 93) (skip_ws s)) eqn:Ecl.
  - apply first_is_inv in Ecl as (d & t2 & Ecl & Hd). rewrite Ecl in *. rewrite drop_1. intros [= <-].
    exists (String c (w +:+ String d "")). split_and!; [rewrite app_cons_string, app_assoc_string; by rewrite E | by exists c, (w +:+ String d "") |].
    intros [| f'] u Hf _; [cbn in Hf; lia |]. rewrite app_cons_string, Heq, app_assoc_string, app_cons_string, app_nil_l_string.
    cbv zeta. rewrite Lw by (apply close_byte_no_ws; destruct obj; [by right; right | by right; left]).
    cbn [first_is]. by rewrite (proj2 (Z.eqb_eq _ _) Hd), drop_1.
  - intros Hs. destruct (Hi _ _ _ Hs) as (r & Er & Hr & L). exists (String c (w +:+ r)).
    split_and!; [rewrite app_cons_string, app_assoc_string; by rewrite <- Er, <- E | by exists c, (w +:+ r) |].
    intros [| f'] u Hf _; [cbn in Hf; lia |]. rewrite app_cons_string, Heq, app_assoc_string. cbv zeta.
    cbn in Hf. rewrite length_app_string in Hf. rewrite Er in Ecl.
    destruct Hr as (d & r' & -> & Hd & Hne). rewrite app_cons_string, Lw by done. cbn [first_is].
    rewrite (proj2 (Z.eqb_neq _ _) Hne). rewrite <- app_cons_string. apply L. lia.
Qed.

Lemma starts_code bad c s : code c <> bad -> is_ws c = false -> starts bad (String c s).
Proof. intros. by exists c, s. Qed.

Lemma value_step f : items_local f -> value_local (S f).
Proof.
  intros Hi s t Hs. destruct s as [| c s]; [done |].
  destruct (Z.eqb_spec (code c) 34) as [E34 | N34].
  { cbn [skip_value] in Hs. rewrite E34 in Hs. cbn [Z.eqb Pos.eqb] in Hs.
    destruct (read_string (String c s)) as [[x t'] |] eqn:Er; [| done]. injection Hs as <-.
    destruct (read_string_local _ _ _ Er) as (r & E & Hr & L). exists r. split_and!; [done | |].
    - apply first_is_inv in Hr as (d & r' & -> & Hd). apply starts_code; [lia | unfold is_ws; lia].
    - apply first_is_inv in Hr as (d & r' & -> & Hd). intros [| f'] u Hf _; [cbn in Hf; lia |].
      rewrite app_cons_string. cbn [skip_value]. rewrite (proj2 (Z.eqb_eq _ _) Hd), <- app_cons_string, L. done. }
  destruct ((code c =? 45) || is_digit c) eqn:Enum.
  { cbn [skip_value] in Hs. rewrite (proj2 (Z.eqb_neq _ _) N34), Enum in Hs.
    destruct (read_number (String c s)) as [[x t'] |] eqn:Er; [| done]. injection Hs as <-.
    destruct (read_number_local _ _ _ Er) as (E & (d & r' & -> & Hd) & L). exists (String d r').
    rewrite app_cons_string in E. injection E as <- ->.
    assert (Hc : code c = 45 \/ 48 <= code c <= 57) by (unfold is_digit in Hd; lia).
    split_and!; [done | apply starts_code; [lia | unfold is_ws; lia] |].
    intros [| f'] u Hf Hu; [cbn in Hf; lia |]. rewrite app_cons_string. cbn [skip_value].
    rewrite (proj2 (Z.eqb_neq _ _) N34), Enum, <- app_cons_string, L by done. done. }
  assert (Hword : forall w, (exists d w', w = String d w' /\ is_ws d = false /\ code d <> 93) ->
    (forall f' u, skip_value (S f') (w +:+ u) = read_word w (w +:+ u)) -> read_word w (String c s) = Some t ->
    exists r, String c s = r +:+ t /\ starts 93 r /\
      forall f' u, (String.length r <= f')%nat -> ends u -> skip_value f' (r +:+ u) = Some u).
  { intros w (d & w' & -> & Hd) Heq Hr. apply read_word_local in Hr. exists (String d w').
    split_and!; [done | by apply starts_code; apply Hd |]. intros [| f'] u Hf _; [cbn in Hf; lia |].
    rewrite Heq. apply read_word_app. }
  destruct (Z.eqb_spec (code c) 116) as [E116 | N116].
  { apply (Hword "true"); [by exists "t"%char, "rue" | done |]. cbn [skip_value] in Hs. by rewrite (proj2 (Z.eqb_neq _ _) N34), Enum, E116 in Hs. }
  destruct (Z.eqb_spec (code c) 102) as [E102 | N102].
  { apply (Hword "false"); [by exists "f"%char, "alse" | done |]. cbn [skip_value] in Hs. by rewrite (proj2 (Z.eqb_neq _ _) N34), Enum, E102 in Hs. }
  destruct (Z.eqb_spec (code c) 110) as [E110 | N110].
  { apply (Hword "null"); [by exists "n"%char, "ull" | done |]. cbn [skip_value] in Hs. by rewrite (proj2 (Z.eqb_neq _ _) N34), Enum, E110 in Hs. }
  destruct (Z.eqb_spec (code c) 91) as [E91 | N91].
  { apply (block_step f false); try done; [unfold is_ws; lia | lia |]. intros f' v. cbn [skip_value].
    by rewrite (proj2 (Z.eqb_neq _ _) N34), Enum, E91. }
  destruct (Z.eqb_spec (code c) 123) as [E123 | N123].
  { apply (block_step f true); try done; [unfold is_ws; lia | lia |]. intros f' v. cbn [skip_value].
    by rewrite (proj2 (Z.eqb_neq _ _) N34), Enum, E123. }
  cbn [skip_value] in Hs. by rewrite (proj2 (Z.eqb_neq _ _) N34), Enum, (proj2 (Z.eqb_neq _ _) N116),
    (proj2 (Z.eqb_neq _ _) N102), (proj2 (Z.eqb_neq _ _) N110), (proj2 (Z.eqb_neq _ _) N91), (proj2 (Z.eqb_neq _ _) N123) in Hs.
Qed.

Lemma skip_local f : value_local f /\ items_local f.
Proof.
  induction f as [| f [IHv IHi]]; [by split; [intros s t | intros obj s t] |].
  split; [by apply value_step | by apply items_step].
Qed.

(** What [skip_value] reads is a text by itself. *)
Lemma skip_value_text f s t : skip_value f s = Some t -> exists r, s = r +:+ t /\ json_text r.
Proof.
  intros Hs. destruct (proj1 (skip_local f) _ _ Hs) as (r & -> & Hr & L). exists r. split; [done |].
  split; [exact Hr |]. intros f' u Hf Hu. by apply L, closed_ends.
Qed.

Lemma string_take_raw r t : string_take (String.length (r +:+ t) - String.length t) (r +:+ t) = r.
Proof.
  rewrite length_app_string. replace (_ + _ - _)%nat with (String.length r) by lia. apply string_take_app.
Qed.

Lemma read_members_text f : forall s ms t, read_members f s = Some (ms, t) -> forall m, m ∈ ms -> json_text m.2.
Proof.
  induction f as [| f IH]; intros s ms t Hs m Hm; [done |]. cbn [read_members] in Hs.
  destruct (read_key s) as [[k v] |]; [| done]. destruct (skip_value f v) as [t1 |] eqn:Ev; [| done].
  destruct (skip_value_text _ _ _ Ev) as (r & -> & Hr). cbv zeta in Hs. rewrite string_take_raw in Hs.
  destruct (first_is 44 (skip_ws t1)).
  - destruct (read_members f _) as [[ms' t'] |] eqn:Em; [| done]. injection Hs as <- <-.
    apply elem_of_cons in Hm as [-> | Hm]; [done | by eapply IH].
  - destruct (first_is 125 (skip_ws t1)); [| done]. injection Hs as <- <-. by apply list_elem_of_singleton in Hm as ->.
Qed.

(** The raw values of an object can be written again. *)
Lemma json_members_text s ms : json_members s = Some ms -> forall m, m ∈ ms -> json_text m.2.
Proof.
  unfold json_members. destruct (first_is 123 (skip_ws s)); [| done].
  destruct (first_is 125 _).
  - case_bool_decide; [| done]. intros [= <-] m Hm. by apply not_elem_of_nil in Hm.
  - destruct (read_members _ _) as [[ms' rest] |] eqn:Em; [| done]. case_bool_decide; [| done].
    intros [= <-]. by eapply read_members_text.
Qed.
