(* ===== verification/Messages.v ===== *)
(** * Messages: [pkg/messages]

    [GlideMessage], the payload its [Data] wraps, and the JSON codec. A payload is either the
    raw bytes of a received message or the Go value put in a message to send; the
    constructors of [payload] are the dynamic types the program stores there. *)

From S2P Require Import Prelude GoStrings Json.

Local Open Scope Z_scope.

(** ** Actions *)

Definition ActionHello := "hello".
Definition ActionHeartbeat := "heartbeat".
Definition ActionNotifyUnknownAction := "notify.unknown.action".
Definition ActionChatMessage := "message.chat".
Definition ActionChatMessageResend := "message.chat.resend".
Definition ActionGroupMessage := "message.group".
Definition ActionGroupNotify := "message.group.notify".
Definition ActionClientCustom := "message.cli".
Definition ActionAuthenticate := "authenticate".
Definition ActionNotifyError := "notify.error".
Definition ActionNotifySuccess := "notify.success".
Definition ActionNotifyKickOut := "notify.kickout".
Definition ActionNotifyForbidden := "notify.forbidden".
Definition ActionNotifyUserState := "notify.state".
Definition ActionAckRequest := "ack.request".
Definition ActionAckGroupMsg := "ack.group.msg".
Definition ActionAckMessage := "ack.message".
Definition ActionAckNotify := "ack.notify".
Definition AckOffline := "ack.offline".
Definition ActionApiGroupMembers := "api.group.members".
Definition ActionApiSubUserState := "api.state.sub".
Definition ActionInternalOnline := "internal.online".
Definition ActionInternalOffline := "internal.offline".

Definition IsInternal (a : string) : bool := strings_HasPrefix a "internal.".

(** ** The structs messages carry *)

Record ChatMessage := MkChatMessage {
  cm_CliMid : string;
  cm_Mid : Z;
  cm_Seq : Z;
  cm_From : string;
  cm_To : string;
  cm_Type : Z;
  cm_Content : string;
  cm_SendAt : Z }.

Record AckRequest := MkAckRequest {
  ar_CliMid : string; ar_Seq : Z; ar_Mid : Z; ar_From : string; ar_To : string }.

Record AckGroupMessage := MkAckGroupMessage {
  ag_CliMid : string; ag_Gid : Z; ag_Mid : Z; ag_Seq : Z }.

Record AckMessage := MkAckMessage {
  am_CliMid : string; am_Mid : Z; am_From : string; am_Seq : Z }.

Record AckNotify := MkAckNotify {
  an_CliMid : string; an_Seq : Z; an_Mid : Z; an_From : string }.

Record KickOutNotify := MkKickOutNotify { ko_DeviceId : string; ko_DeviceName : string }.

Record Hello := MkHello { ClientVersion : string; ClientName : string; ClientType : string }.

Record ServerHello := MkServerHello {
  ServerVersion : string; TempID : string; HeartbeatInterval : Z; Protocols : list string }.

(** [UserStateData] of [pkg/messaging], sent in state notifications. *)
Record UserStateData := MkUserStateData { us_Uid : string; us_Online : bool }.

(** [NotifyMessage] of [pkg/subscription]; its bodies are the two anonymous structs
    channels send. *)
Inductive notify_body := NotifyUid (uid : string) | NotifyMembers (members : list string).
Record NotifyMessage := MkNotifyMessage { nm_From : string; nm_Type : Z; nm_Body : notify_body }.

Inductive payload :=
  | PNil
  | PBytes (raw : string)                (* []byte: received and not yet decoded *)
  | PString (s : string)
  | PAction (a : string)
  | PID (id : string)
  | PChatMessage (p : ChatMessage)       (* *ChatMessage *)
  | PChatMessagePtr (p : ChatMessage)    (* **ChatMessage *)
  | PAckRequest (p : AckRequest)
  | PAckMessage (p : AckMessage)
  | PAckNotify (p : AckNotify)
  | PKickOutNotify (p : KickOutNotify)
  | PServerHello (p : ServerHello)
  | PUserState (p : UserStateData)
  | PNotify (p : NotifyMessage).

Record GlideMessage := MkGlideMessage {
  Ver : Z;
  Seq : Z;
  Action : string;
  From : string;
  To : string;
  Data : option payload;      (* [None]: a nil [*Data] *)
  Msg : string;
  Ticket : string;
  Sign : string;
  Extra : gmap string string }.

Definition messageVersion : Z := 1.

Definition NewMessage (seq : Z) (action : string) (data : payload) : GlideMessage :=
  MkGlideMessage messageVersion seq action "" "" (Some data) "" "" "" ∅.

Definition NewEmptyMessage : GlideMessage :=
  MkGlideMessage messageVersion 0 "" "" "" None "" "" "" ∅.

Definition GetAction (m : GlideMessage) : string := Action m.
Definition GetSeq (m : GlideMessage) : Z := Seq m.

Definition set_From (s : string) (m : GlideMessage) : GlideMessage :=
  MkGlideMessage (Ver m) (Seq m) (Action m) s (To m) (Data m) (Msg m) (Ticket m) (Sign m) (Extra m).
Definition set_Data (d : option payload) (m : GlideMessage) : GlideMessage :=
  MkGlideMessage (Ver m) (Seq m) (Action m) (From m) (To m) d (Msg m) (Ticket m) (Sign m) (Extra m).
Definition SetSeq (z : Z) (m : GlideMessage) : GlideMessage :=
  MkGlideMessage (Ver m) z (Action m) (From m) (To m) (Data m) (Msg m) (Ticket m) (Sign m) (Extra m).

(** ** Encoding *)

(** [json.Marshal] compacts the bytes a [MarshalJSON] returns, and escapes HTML and the separators U+2028 and
    U+2029 in them; other bytes above 127 stay as they are ([compact]). *)
Definition starts_separator (s : string) : bool :=
  match s with String c (String d (String e _)) => (code c =? 226) && (code d =? 128) && is_separator e | _ => false end.

Fixpoint compact (in_str esc : bool) (s : string) : string :=
  match s with
  | EmptyString => EmptyString
  | String c s' =>
      if in_str then
        if starts_separator s then
          match s' with String _ (String e s3) => escape_separator e +:+ compact true false s3 | _ => "" end
        else
        let out := if (code c =? 60) || (code c =? 62) || (code c =? 38) then escape_byte c else String c "" in
        if esc then out +:+ compact true false s'
        else if code c =? 92 then out +:+ compact true true s'
        else out +:+ compact (negb (code c =? 34)) false s'
      else if is_ws c then compact false false s'
      else String c (compact (code c =? 34) false s')
  end.

(** The text is one JSON value. *)
Definition json_valid (s : string) : bool :=
  match skip_value (S (String.length s)) (skip_ws s) with
  | Some t => bool_decide (skip_ws t = "")
  | None => false
  end.

Definition encode_ChatMessage (m : ChatMessage) : string :=
  json_object (opt_string "cliMid" (cm_CliMid m) ++ opt_int "mid" (cm_Mid m) ++
    opt_int "seq" (cm_Seq m) ++ opt_string "from" (cm_From m) ++ opt_string "to" (cm_To m) ++
    opt_int "type" (cm_Type m) ++ opt_string "content" (cm_Content m) ++ opt_int "sendAt" (cm_SendAt m)).

Definition encode_AckRequest (m : AckRequest) : string :=
  json_object (opt_string "cli_mid" (ar_CliMid m) ++ opt_int "seq" (ar_Seq m) ++
    opt_int "mid" (ar_Mid m) ++ opt_string "from" (ar_From m) ++ opt_string "to" (ar_To m)).

Definition encode_AckMessage (m : AckMessage) : string :=
  json_object (opt_string "cli_mid" (am_CliMid m) ++ opt_int "mid" (am_Mid m) ++
    opt_string "from" (am_From m) ++ opt_int "seq" (am_Seq m)).

Definition encode_AckNotify (m : AckNotify) : string :=
  json_object (opt_string "cli_mid" (an_CliMid m) ++ opt_int "seq" (an_Seq m) ++
    opt_int "mid" (an_Mid m) ++ opt_string "from" (an_From m)).

Definition encode_KickOutNotify (m : KickOutNotify) : string :=
  json_object (opt_string "device_id" (ko_DeviceId m) ++ opt_string "device_name" (ko_DeviceName m)).

Definition encode_ServerHello (m : ServerHello) : string :=
  json_object (opt_string "server_version" (ServerVersion m) ++ opt_string "temp_id" (TempID m) ++
    opt_int "heartbeat_interval" (HeartbeatInterval m) ++
    omit_if (bool_decide (Protocols m = [])) "protocols" (json_array (json_string <$> Protocols m))).

Definition encode_UserStateData (m : UserStateData) : string :=
  json_object (opt_string "uid" (us_Uid m) ++ omit_if (negb (us_Online m)) "online" (json_bool (us_Online m))).

(** A channel always has a subscriber when it sends the list of its members, so the list is
    never the nil slice Go writes as [null]. *)
Definition encode_notify_body (b : notify_body) : string :=
  match b with
  | NotifyUid uid => json_object [("uid", json_string uid)]
  | NotifyMembers l => json_object [("members", json_array (json_string <$> l))]
  end.

Definition encode_NotifyMessage (m : NotifyMessage) : string :=
  json_object [("from", json_string (nm_From m)); ("type", json_int (nm_Type m));
               ("body", encode_notify_body (nm_Body m))].

(** [Data.MarshalJSON] as [json.Marshal] uses it; [None] is an error. *)
Definition MarshalJSON (p : payload) : option string :=
  match p with
  | PNil => Some "null"
  | PBytes raw => if json_valid raw then Some (compact false false raw) else None
  | PString s | PAction s | PID s => Some (json_string s)
  | PChatMessage m | PChatMessagePtr m => Some (encode_ChatMessage m)
  | PAckRequest m => Some (encode_AckRequest m)
  | PAckMessage m => Some (encode_AckMessage m)
  | PAckNotify m => Some (encode_AckNotify m)
  | PKickOutNotify m => Some (encode_KickOutNotify m)
  | PServerHello m => Some (encode_ServerHello m)
  | PUserState m => Some (encode_UserStateData m)
  | PNotify m => Some (encode_NotifyMessage m)
  end.

(** Maps are written with their keys in order. *)
Definition encode_map (m : gmap string string) : string :=
  json_object ((fun p : string * string => (p.1, json_string p.2)) <$>
    merge_sort (fun p q : string * string => String.le p.1 q.1) (map_to_list m)).

Definition message_members (m : GlideMessage) (data : option string) : list (string * string) :=
  opt_int "ver" (Ver m) ++ opt_int "seq" (Seq m) ++ [("action", json_string (Action m))] ++
  opt_string "from" (From m) ++ opt_string "to" (To m) ++
  match data with Some d => [("data", d)] | None => [] end ++
  opt_string "msg" (Msg m) ++ opt_string "ticket" (Ticket m) ++ opt_string "sign" (Sign m) ++
  omit_if (bool_decide (Extra m = ∅)) "extra" (encode_map (Extra m)).

(** [JsonCodec.Encode] of a message. *)
Definition Encode (m : GlideMessage) : option string :=
  match Data m with
  | None => Some (json_object (message_members m None))
  | Some p =>
      match MarshalJSON p with
      | Some d => Some (json_object (message_members m (Some d)))
      | None => None
      end
  end.

(** ** Decoding *)

(** A field of a Go struct: its name in JSON, and the decoder of its raw value, which
    returns an error, if any, and the updated struct. *)
Definition field (T : Type) : Type := string * (string -> T -> error * T).

Definition set_string {T} (get : T -> string) (set : string -> T -> T) (raw : string) (t : T) : error * T :=
  match decode_string raw (get t) with inl s => (nil_error, set s t) | inr e => (errors_New e, t) end.
Definition set_int {T} (bits : Z) (get : T -> Z) (set : Z -> T -> T) (raw : string) (t : T) : error * T :=
  match decode_int bits raw (get t) with inl z => (nil_error, set z t) | inr e => (errors_New e, t) end.

Fixpoint find_field {T} (fs : list (field T)) (k : string) : option (string -> T -> error * T) :=
  match fs with
  | [] => None
  | (name, step) :: fs' => if key_is name k then Some step else find_field fs' k
  end.

Definition first_error (e1 e2 : error) : error := match e1 with Some _ => e1 | None => e2 end.

(** Unknown keys are skipped; a field that does not decode is left as it was, the first such error
    is returned at the end, and the other fields are still set. *)
Fixpoint decode_members {T} (fs : list (field T)) (ms : list (string * string)) (err : error) (t : T) : error * T :=
  match ms with
  | [] => (err, t)
  | (k, raw) :: ms' =>
      match find_field fs k with
      | None => decode_members fs ms' err t
      | Some step => let '(e, t') := step raw t in decode_members fs ms' (first_error err e) t'
      end
  end.

Definition errSyntax : string := "invalid JSON text".
Definition errNotObject : string := "json: cannot unmarshal value into Go struct".

(** [json.Unmarshal] into a pointer to a struct. *)
Definition Unmarshal {T} (fs : list (field T)) (text : string) (t : T) : error * T :=
  if negb (json_valid text) then (errors_New errSyntax, t)
  else if bool_decide (compact false false text = "null") then (nil_error, t)
  else match json_members text with
       | Some ms => decode_members fs ms nil_error t
       | None => (errors_New errNotObject, t)
       end.

Definition errDecode : string := "message decode error: ".

Definition IsDecodeError (err : error) : bool :=
  match err with Some e => strings_HasPrefix e errDecode | None => false end.

(** [jsonCodec.Decode]. *)
Definition Decode {T} (fs : list (field T)) (text : string) (t : T) : error * T :=
  match Unmarshal fs text t with
  | (Some e, t') => (errors_New (errDecode +:+ e), t')
  | (None, t') => (nil_error, t')
  end.

(** A struct the program decodes into: its fields, and the payloads of its pointer type. *)
Class GoStruct (T : Type) := {
  fields : list (field T);
  of_payload : payload -> option T }.

(** [Data.Deserialize(i)]: the error and what [i] then points to. *)
Definition Deserialize {T} `{GoStruct T} (d : option payload) (i : T) : error * T :=
  match d with
  | None => (errors_New "data is nil", i)
  | Some (PBytes s) => Decode fields s i
  | Some p =>
      match of_payload p with
      | Some t => (nil_error, t)
      | None => (errors_New "deserialize message data failed", i)
      end
  end.

#[global] Instance ChatMessage_struct : GoStruct ChatMessage := {|
  fields := [
    ("cliMid", set_string cm_CliMid (fun s m => MkChatMessage s (cm_Mid m) (cm_Seq m) (cm_From m) (cm_To m) (cm_Type m) (cm_Content m) (cm_SendAt m)));
    ("mid", set_int 64 cm_Mid (fun z m => MkChatMessage (cm_CliMid m) z (cm_Seq m) (cm_From m) (cm_To m) (cm_Type m) (cm_Content m) (cm_SendAt m)));
    ("seq", set_int 64 cm_Seq (fun z m => MkChatMessage (cm_CliMid m) (cm_Mid m) z (cm_From m) (cm_To m) (cm_Type m) (cm_Content m) (cm_SendAt m)));
    ("from", set_string cm_From (fun s m => MkChatMessage (cm_CliMid m) (cm_Mid m) (cm_Seq m) s (cm_To m) (cm_Type m) (cm_Content m) (cm_SendAt m)));
    ("to", set_string cm_To (fun s m => MkChatMessage (cm_CliMid m) (cm_Mid m) (cm_Seq m) (cm_From m) s (cm_Type m) (cm_Content m) (cm_SendAt m)));
    ("type", set_int 32 cm_Type (fun z m => MkChatMessage (cm_CliMid m) (cm_Mid m) (cm_Seq m) (cm_From m) (cm_To m) z (cm_Content m) (cm_SendAt m)));
    ("content", set_string cm_Content (fun s m => MkChatMessage (cm_CliMid m) (cm_Mid m) (cm_Seq m) (cm_From m) (cm_To m) (cm_Type m) s (cm_SendAt m)));
    ("sendAt", set_int 64 cm_SendAt (fun z m => MkChatMessage (cm_CliMid m) (cm_Mid m) (cm_Seq m) (cm_From m) (cm_To m) (cm_Type m) (cm_Content m) z))];
  of_payload p := if p is PChatMessage m then Some m else None |}.

Definition zero_ChatMessage : ChatMessage := MkChatMessage "" 0 0 "" "" 0 "" 0.

#[global] Instance AckRequest_struct : GoStruct AckRequest := {|
  fields := [
    ("cli_mid", set_string ar_CliMid (fun s m => MkAckRequest s (ar_Seq m) (ar_Mid m) (ar_From m) (ar_To m)));
    ("seq", set_int 64 ar_Seq (fun z m => MkAckRequest (ar_CliMid m) z (ar_Mid m) (ar_From m) (ar_To m)));
    ("mid", set_int 64 ar_Mid (fun z m => MkAckRequest (ar_CliMid m) (ar_Seq m) z (ar_From m) (ar_To m)));
    ("from", set_string ar_From (fun s m => MkAckRequest (ar_CliMid m) (ar_Seq m) (ar_Mid m) s (ar_To m)));
    ("to", set_string ar_To (fun s m => MkAckRequest (ar_CliMid m) (ar_Seq m) (ar_Mid m) (ar_From m) s))];
  of_payload p := if p is PAckRequest m then Some m else None |}.

Definition zero_AckRequest : AckRequest := MkAckRequest "" 0 0 "" "".

#[global] Instance AckGroupMessage_struct : GoStruct AckGroupMessage := {|
  fields := [
    ("cli_mid", set_string ag_CliMid (fun s m => MkAckGroupMessage s (ag_Gid m) (ag_Mid m) (ag_Seq m)));
    ("gid", set_int 64 ag_Gid (fun z m => MkAckGroupMessage (ag_CliMid m) z (ag_Mid m) (ag_Seq m)));
    ("mid", set_int 64 ag_Mid (fun z m => MkAckGroupMessage (ag_CliMid m) (ag_Gid m) z (ag_Seq m)));
    ("seq", set_int 64 ag_Seq (fun z m => MkAckGroupMessage (ag_CliMid m) (ag_Gid m) (ag_Mid m) z))];
  of_payload p := None |}.

Definition zero_AckGroupMessage : AckGroupMessage := MkAckGroupMessage "" 0 0 0.

#[global] Instance Hello_struct : GoStruct Hello := {|
  fields := [
    ("client_version", set_string ClientVersion (fun s m => MkHello s (ClientName m) (ClientType m)));
    ("client_name", set_string ClientName (fun s m => MkHello (ClientVersion m) s (ClientType m)));
    ("client_type", set_string ClientType (fun s m => MkHello (ClientVersion m) (ClientName m) s))];
  of_payload p := None |}.

Definition zero_Hello : Hello := MkHello "" "" "".

(** [Data.UnmarshalJSON] keeps the raw text; for the pointer field, [null] is nil. *)
Definition set_data (raw : string) (m : GlideMessage) : error * GlideMessage :=
  (nil_error, set_Data (if bool_decide (raw = "null") then None else Some (PBytes raw)) m).

Fixpoint decode_map (ms : list (string * string)) (err : error) (m : gmap string string) : error * gmap string string :=
  match ms with
  | [] => (err, m)
  | (k, raw) :: ms' =>
      match decode_string raw "" with
      | inl s => decode_map ms' err (<[k := s]> m)
      | inr e => decode_map ms' (first_error err (errors_New e)) (<[k := ""]> m)
      end
  end.

Definition set_Extra (x : gmap string string) (m : GlideMessage) : GlideMessage :=
  MkGlideMessage (Ver m) (Seq m) (Action m) (From m) (To m) (Data m) (Msg m) (Ticket m) (Sign m) x.

Definition set_extra (raw : string) (m : GlideMessage) : error * GlideMessage :=
  if bool_decide (raw = "null") then (nil_error, set_Extra ∅ m)
  else match json_members raw with
       | Some ms => let '(e, x) := decode_map ms nil_error (Extra m) in (e, set_Extra x m)
       | None => (errors_New "json: cannot unmarshal value into Go value of type map[string]string", m)
       end.

Definition message_fields : list (field GlideMessage) := [
  ("ver", set_int 64 Ver (fun z m => MkGlideMessage z (Seq m) (Action m) (From m) (To m) (Data m) (Msg m) (Ticket m) (Sign m) (Extra m)));
  ("seq", set_int 64 Seq SetSeq);
  ("action", set_string Action (fun s m => MkGlideMessage (Ver m) (Seq m) s (From m) (To m) (Data m) (Msg m) (Ticket m) (Sign m) (Extra m)));
  ("from", set_string From set_From);
  ("to", set_string To (fun s m => MkGlideMessage (Ver m) (Seq m) (Action m) (From m) s (Data m) (Msg m) (Ticket m) (Sign m) (Extra m)));
  ("data", set_data);
  ("msg", set_string Msg (fun s m => MkGlideMessage (Ver m) (Seq m) (Action m) (From m) (To m) (Data m) s (Ticket m) (Sign m) (Extra m)));
  ("ticket", set_string Ticket (fun s m => MkGlideMessage (Ver m) (Seq m) (Action m) (From m) (To m) (Data m) (Msg m) s (Sign m) (Extra m)));
  ("sign", set_string Sign (fun s m => MkGlideMessage (Ver m) (Seq m) (Action m) (From m) (To m) (Data m) (Msg m) (Ticket m) s (Extra m)));
  ("extra", set_extra)].

(** A message read from a connection: [codec.Decode(bytes, NewEmptyMessage())]. *)
Definition decode_message (text : string) : error * GlideMessage :=
  Decode message_fields text NewEmptyMessage.

(** ** Round trips *)

Lemma omit_if_text b k v m : json_text v -> m ∈ omit_if b k v -> json_text m.2.
Proof. intros Hv Hm. unfold omit_if in Hm. destruct b; [set_solver |]. by apply list_elem_of_singleton in Hm as ->. Qed.

Lemma opt_string_text k s m : m ∈ opt_string k s -> json_text m.2.
Proof. apply omit_if_text, json_text_string. Qed.

Lemma opt_int_text k z m : m ∈ opt_int k z -> json_text m.2.
Proof. apply omit_if_text, json_text_int. Qed.

(** Every member of the list is a text. *)
Definition members_text (ms : list (string * string)) : Prop := forall m, m ∈ ms -> json_text m.2.

Lemma members_text_app l1 l2 : members_text l1 -> members_text l2 -> members_text (l1 ++ l2).
Proof. intros H1 H2 m [Hm | Hm]%elem_of_app; auto. Qed.

Lemma members_text_one k v : json_text v -> members_text [(k, v)].
Proof. by intros Hv m ->%list_elem_of_singleton. Qed.

Lemma members_text_nil : members_text [].
Proof. intros m Hm. set_solver. Qed.

Lemma members_text_omit b k v : json_text v -> members_text (omit_if b k v).
Proof. intros Hv m. by apply omit_if_text. Qed.

Lemma json_text_strings l : json_text (json_array (json_string <$> l)).
Proof. apply json_text_array. intros v (s & -> & _)%list_elem_of_fmap. apply json_text_string. Qed.

Create HintDb json discriminated.
#[export] Hint Resolve members_text_app members_text_one members_text_nil members_text_omit
  json_text_string json_text_int json_text_bool json_text_strings : json.
#[export] Hint Resolve opt_string_text opt_int_text : json.

Lemma members_text_opt_string k s : members_text (opt_string k s).
Proof. intros m. apply opt_string_text. Qed.
Lemma members_text_opt_int k z : members_text (opt_int k z).
Proof. intros m. apply opt_int_text. Qed.
Lemma members_text_cons k v ms : json_text v -> members_text ms -> members_text ((k, v) :: ms).
Proof. intros Hv Hms m [-> | Hm]%elem_of_cons; [done | auto]. Qed.
Lemma json_text_of_object ms : members_text ms -> json_text (json_object ms).
Proof. apply json_text_object. Qed.
#[export] Hint Resolve members_text_opt_string members_text_opt_int members_text_cons json_text_of_object : json.

Lemma json_text_map x : json_text (encode_map x).
Proof.
  apply json_text_object. intros m (p & -> & _)%list_elem_of_fmap. apply json_text_string.
Qed.
#[export] Hint Resolve json_text_map : json.

Lemma json_text_null : json_text "null".
Proof.
  split; [by eexists _, _ |]. intros f t Hf _. destruct f as [| f]; [simpl in Hf; lia |]. apply read_word_app.
Qed.
#[export] Hint Resolve json_text_null : json.

(** What a payload other than raw bytes is written as is a value by itself. *)
Lemma MarshalJSON_text p :
  (forall b, p <> PBytes b) -> exists d, MarshalJSON p = Some d /\ json_text d.
Proof.
  intros Hb. destruct p; try (exfalso; by eapply Hb); (eexists; split; [reflexivity |]);
    unfold encode_ChatMessage, encode_AckRequest, encode_AckMessage, encode_AckNotify, encode_KickOutNotify,
      encode_ServerHello, encode_UserStateData, encode_NotifyMessage;
    try (destruct p as [f t [u | l]]; simpl); eauto 20 with json.
Qed.

Lemma json_valid_text v : json_text v -> json_valid v = true.
Proof.
  intros Hv. pose proof (skip_ws_text v "" Hv) as E. rewrite app_nil_r_string in E.
  unfold json_valid. rewrite E. destruct Hv as [_ Hv].
  rewrite <- (app_nil_r_string v) at 2. rewrite Hv; [done | lia | by left].
Qed.

Lemma Unmarshal_object {T} (fs : list (field T)) ms t :
  members_text ms -> Unmarshal fs (json_object ms) t = decode_members fs (valid_key <$> ms) nil_error t.
Proof.
  intros Hms. unfold Unmarshal. rewrite json_valid_text by auto with json. cbn [negb].
  rewrite bool_decide_false.
  - by rewrite json_members_object.
  - pose proof (json_object_items ms "") as E. rewrite app_nil_r_string in E. by rewrite E.
Qed.

Lemma json_object_not_null ms : json_object ms <> "null".
Proof. pose proof (json_object_items ms "") as E. rewrite app_nil_r_string in E. by rewrite E. Qed.

Section decode_steps.
Context {T : Type} (fs : list (field T)).

Lemma decode_omit b k v ms t t' step :
  find_field fs (to_valid k) = Some step -> (b = true -> t' = t) -> (b = false -> step v t = (nil_error, t')) ->
  decode_members fs (valid_key <$> omit_if b k v ++ ms) nil_error t = decode_members fs (valid_key <$> ms) nil_error t'.
Proof.
  intros Hf Ht Hs. destruct b; simpl; [by rewrite Ht |]. unfold valid_key at 1. cbn [fst snd]. by rewrite Hf, Hs.
Qed.

Lemma decode_opt_string k s ms t get set :
  find_field fs (to_valid k) = Some (set_string get set) -> (s = "" -> set (to_valid s) t = t) ->
  decode_members fs (valid_key <$> opt_string k s ++ ms) nil_error t =
    decode_members fs (valid_key <$> ms) nil_error (set (to_valid s) t).
Proof.
  intros Hf Hz. eapply decode_omit; [done | |].
  - intros Hb%bool_decide_eq_true. auto.
  - intros _. unfold set_string. by rewrite decode_string_json.
Qed.

Lemma decode_opt_int k z ms t bits get set :
  find_field fs (to_valid k) = Some (set_int bits get set) -> - 2 ^ (bits - 1) <= z < 2 ^ (bits - 1) ->
  (z = 0 -> set z t = t) ->
  decode_members fs (valid_key <$> opt_int k z ++ ms) nil_error t =
    decode_members fs (valid_key <$> ms) nil_error (set z t).
Proof.
  intros Hf Hr Hz. eapply decode_omit; [done | |].
  - intros Hb%Z.eqb_eq. auto.
  - intros _. unfold set_int. by rewrite decode_int_json.
Qed.
End decode_steps.

Definition int32_ok (z : Z) : Prop := - 2 ^ 31 <= z < 2 ^ 31.
Definition ChatMessage_ok (m : ChatMessage) : Prop :=
  in_int64 (cm_Mid m) /\ in_int64 (cm_Seq m) /\ int32_ok (cm_Type m) /\ in_int64 (cm_SendAt m).

(** What comes of a chat message's strings: they are made valid UTF-8. *)
Definition valid_chat (m : ChatMessage) : ChatMessage :=
  MkChatMessage (to_valid (cm_CliMid m)) (cm_Mid m) (cm_Seq m) (to_valid (cm_From m)) (to_valid (cm_To m)) (cm_Type m)
    (to_valid (cm_Content m)) (cm_SendAt m).

(** The strings of a chat message are UTF-8. *)
Definition utf8_chat (m : ChatMessage) : bool :=
  utf8_valid (cm_CliMid m) && utf8_valid (cm_From m) && utf8_valid (cm_To m) && utf8_valid (cm_Content m).

Lemma valid_chat_id m : utf8_chat m = true -> valid_chat m = m.
Proof.
  unfold utf8_chat. rewrite !andb_true_iff. intros [[[H1 H2] H3] H4]. unfold valid_chat. rewrite !to_valid_id by done. by destruct m.
Qed.

(** After a field is set, the struct is brought back to constructor form. *)
Ltac norm_chat := cbv beta; cbn [zero_ChatMessage cm_CliMid cm_Mid cm_Seq cm_From cm_To cm_Type cm_Content cm_SendAt].
Ltac norm_message := cbv beta; cbn [Ver Seq Action From To Data Msg Ticket Sign Extra SetSeq set_From set_Data set_Extra].

Lemma decode_ChatMessage m :
  ChatMessage_ok m -> Decode fields (encode_ChatMessage m) zero_ChatMessage = (nil_error, valid_chat m).
Proof.
  intros (Hmid & Hseq & Hty & Hsend). unfold Decode, encode_ChatMessage.
  rewrite Unmarshal_object by auto 20 with json.
  erewrite decode_opt_string; [| reflexivity | by intros ->]; norm_chat.
  erewrite decode_opt_int; [| reflexivity | exact Hmid | by intros ->]; norm_chat.
  erewrite decode_opt_int; [| reflexivity | exact Hseq | by intros ->]; norm_chat.
  erewrite decode_opt_string; [| reflexivity | by intros ->]; norm_chat.
  erewrite decode_opt_string; [| reflexivity | by intros ->]; norm_chat.
  erewrite decode_opt_int; [| reflexivity | exact Hty | by intros ->]; norm_chat.
  erewrite decode_opt_string; [| reflexivity | by intros ->]; norm_chat.
  rewrite <- (app_nil_r (opt_int "sendAt" _)).
  erewrite decode_opt_int; [| reflexivity | exact Hsend | by intros ->]; norm_chat.
  done.
Qed.

(** A map of strings as it is read: keys and values are made valid. *)
Definition sorted_map (x : gmap string string) : list (string * string) :=
  merge_sort (fun p q : string * string => String.le p.1 q.1) (map_to_list x).
Definition valid_extra (x : gmap string string) : gmap string string :=
  foldl (fun m p => <[to_valid p.1 := to_valid p.2]> m) ∅ (sorted_map x).

Lemma foldl_insert_map (l : list (string * string)) (m : gmap string string) :
  foldl (fun (m : gmap string string) p => <[p.1 := p.2]> m) m l = list_to_map (rev l) ∪ m.
Proof.
  revert m. induction l as [| [k v] l IH]; intros m; simpl.
  - by rewrite map_empty_union.
  - rewrite IH. rewrite list_to_map_app. simpl. rewrite <- map_union_assoc.
    f_equal. by rewrite <- insert_union_l, map_empty_union.
Qed.

Lemma decode_map_strings l err m :
  decode_map (valid_key <$> ((fun p : string * string => (p.1, json_string p.2)) <$> l)) err m =
  (err, foldl (fun (m : gmap string string) p => <[to_valid p.1 := to_valid p.2]> m) m l).
Proof.
  revert m. induction l as [| [k v] l IH]; intros m; [done |]. cbn [fmap list_fmap decode_map valid_key fst snd].
  by rewrite decode_string_json, IH.
Qed.

Lemma decode_encode_map x :
  json_members (encode_map x) = Some (valid_key <$> ((fun p : string * string => (p.1, json_string p.2)) <$> sorted_map x)) /\
  decode_map (valid_key <$> ((fun p : string * string => (p.1, json_string p.2)) <$> sorted_map x)) nil_error ∅ =
    (nil_error, valid_extra x).
Proof.
  split; [| by rewrite decode_map_strings].
  apply json_members_object. intros m (p & -> & _)%list_elem_of_fmap. apply json_text_string.
Qed.

(** A map of UTF-8 strings is read as it is. *)
Lemma valid_extra_id x :
  (forall k v, x !! k = Some v -> utf8_valid k = true /\ utf8_valid v = true) -> valid_extra x = x.
Proof.
  intros Hx. unfold valid_extra. set (l := sorted_map x).
  assert (Hp : l ≡ₚ map_to_list x) by apply merge_sort_Permutation.
  assert (E : forall m, foldl (fun (m : gmap string string) p => <[to_valid p.1 := to_valid p.2]> m) m l =
    foldl (fun (m : gmap string string) p => <[p.1 := p.2]> m) m l).
  { assert (Hl : Forall (fun p => utf8_valid p.1 = true /\ utf8_valid p.2 = true) l).
    { rewrite Hp. apply Forall_forall. intros [k v] Hin%elem_of_map_to_list. by apply Hx. }
    clearbody l. clear Hp. induction Hl as [| p l [H1 H2] _ IH]; intros m; [done |]. cbn [foldl]. by rewrite !to_valid_id. }
  rewrite E, foldl_insert_map, map_union_empty.
  transitivity (list_to_map (map_to_list x) : gmap string string); [| apply list_to_map_to_list].
  assert (Hr : rev l ≡ₚ map_to_list x) by (by rewrite <- Hp, <- Permutation_rev).
  apply list_to_map_proper; [| done]. rewrite Hr. apply NoDup_fst_map_to_list.
Qed.

(** The data field of a message read from a text: [null] is a nil pointer. *)
Definition data_of (d : option string) : option payload :=
  match d with Some t => if bool_decide (t = "null") then None else Some (PBytes t) | None => None end.

(** What the receiver of [m] holds, [d] being the text its data was written as, and [v] the version
    of the message decoded into. *)
Definition received_into (v : Z) (m : GlideMessage) (d : option string) : GlideMessage :=
  MkGlideMessage (if Ver m =? 0 then v else Ver m) (Seq m) (to_valid (Action m)) (to_valid (From m)) (to_valid (To m))
    (data_of d) (to_valid (Msg m)) (to_valid (Ticket m)) (to_valid (Sign m)) (valid_extra (Extra m)).

Definition received : GlideMessage -> option string -> GlideMessage := received_into messageVersion.

Definition encoded_data (m : GlideMessage) (d : option string) : Prop :=
  match Data m, d with
  | None, None => True
  | Some p, Some t => MarshalJSON p = Some t /\ json_text t
  | _, _ => False
  end.

Lemma message_members_text m d : encoded_data m d -> members_text (message_members m d).
Proof.
  intros Hd. unfold message_members, encoded_data in *.
  destruct (Data m), d; try done; [destruct Hd as [_ Ht] |];
    repeat apply members_text_app; auto with json.
Qed.

(** A message that holds nothing but a version. *)
Definition blank_message (v : Z) : GlideMessage := MkGlideMessage v 0 "" "" "" None "" "" "" ∅.

Lemma message_unmarshal v m d :
  in_int64 (Ver m) -> in_int64 (Seq m) -> encoded_data m d ->
  exists ms, Encode m = Some (json_object ms) /\ members_text ms /\
    Unmarshal message_fields (json_object ms) (blank_message v) = (nil_error, received_into v m d).
Proof.
  intros Hv Hs Hd. exists (message_members m d). split_and!.
  { unfold Encode, encoded_data in *. destruct (Data m), d; try done. by destruct Hd as [-> _]. }
  { by apply message_members_text. }
  rewrite Unmarshal_object by (by apply message_members_text).
  unfold message_members.
  rewrite (decode_omit message_fields (Ver m =? 0) "ver" (json_int (Ver m)) _ (blank_message v)
    (MkGlideMessage (if Ver m =? 0 then v else Ver m) 0 "" "" "" None "" "" "" ∅)
    (set_int 64 Ver (fun z m => MkGlideMessage z (Seq m) (Action m) (From m) (To m) (Data m) (Msg m) (Ticket m) (Sign m) (Extra m))));
    [| reflexivity | by intros -> | intros ->; unfold set_int; by rewrite decode_int_json].
  erewrite decode_opt_int; [| reflexivity | exact Hs | by intros ->]; norm_message.
  rewrite fmap_app. change (valid_key <$> [("action", json_string (Action m))]) with [("action", json_string (Action m))].
  cbn [app decode_members]. change (find_field message_fields "action") with
    (Some (set_string Action (fun s m => MkGlideMessage (Ver m) (Seq m) s (From m) (To m) (Data m) (Msg m) (Ticket m) (Sign m) (Extra m)))).
  cbv iota. unfold set_string at 1. rewrite decode_string_json. cbn [first_error]; norm_message.
  erewrite decode_opt_string; [| reflexivity | by intros ->]; norm_message.
  erewrite decode_opt_string; [| reflexivity | by intros ->]; norm_message.
  assert (Hdata : forall ms t, Data t = None ->
    decode_members message_fields (valid_key <$> match d with Some d => [("data", d)] | None => [] end ++ ms) nil_error t =
    decode_members message_fields (valid_key <$> ms) nil_error (set_Data (data_of d) t)).
  { intros ms t Ht. unfold encoded_data in Hd. destruct (Data m), d as [dt |]; try done.
    simpl. destruct t; simpl in *; by subst. }
  rewrite Hdata by done; norm_message.
  erewrite decode_opt_string; [| reflexivity | by intros ->]; norm_message.
  erewrite decode_opt_string; [| reflexivity | by intros ->]; norm_message.
  erewrite decode_opt_string; [| reflexivity | by intros ->]; norm_message.
  rewrite <- (app_nil_r (omit_if _ "extra" _)).
  rewrite (decode_omit message_fields (bool_decide (Extra m = ∅)) "extra" (encode_map (Extra m)) [] _ 
    (received_into v m d) set_extra); [done | reflexivity | |].
  - intros Hb%bool_decide_eq_true. unfold received_into. cbn [Extra]. by rewrite Hb.
  - intros _. unfold set_extra. destruct (decode_encode_map (Extra m)) as [E1 E2].
    rewrite bool_decide_false by apply json_object_not_null. rewrite E1. simpl. by rewrite E2.
Qed.

Lemma message_roundtrip m d :
  in_int64 (Ver m) -> in_int64 (Seq m) -> encoded_data m d ->
  exists s, Encode m = Some s /\ decode_message s = (nil_error, received m d).
Proof.
  intros Hv Hs Hd. destruct (message_unmarshal messageVersion m d Hv Hs Hd) as (ms & He & _ & Hu).
  exists (json_object ms). split; [done |]. unfold decode_message, Decode. by rewrite (Hu : Unmarshal _ _ NewEmptyMessage = _).
Qed.

Lemma encoded_own m : (forall b, Data m <> Some (PBytes b)) -> encoded_data m (Data m ≫= MarshalJSON).
Proof.
  intros Hb. unfold encoded_data. destruct (Data m) as [p |]; [| done]. simpl.
  destruct (MarshalJSON_text p) as (d & -> & Hd); [intros b ->; by eapply Hb | done].
Qed.

(** a message put on a connection is read back as the same message, whatever the program
    put in it: its data becomes the raw text it was written as, an absent version the current one. *)
Theorem message_wire_roundtrip m :
  in_int64 (Ver m) -> in_int64 (Seq m) -> (forall b, Data m <> Some (PBytes b)) ->
  exists s, Encode m = Some s /\ decode_message s = (nil_error, received m (Data m ≫= MarshalJSON)).
Proof.
  intros Hv Hs Hb. apply message_roundtrip; [done | done | by apply encoded_own].
Qed.

Definition demo_message : GlideMessage :=
  MkGlideMessage 1 7 ActionChatMessage "" "u2"
    (Some (PChatMessage (MkChatMessage "c1" 0 0 "a" "b" 1 "5 < 6 & 'ok' é €" (-5)))) "" "t" "" {["k" := "v"]}.

Lemma message_wire_roundtrip_witness :
  exists s, Encode demo_message = Some s /\
    decode_message s = (nil_error, received demo_message (Data demo_message ≫= MarshalJSON)).
Proof.
  apply (message_wire_roundtrip demo_message); [by vm_compute; split | by vm_compute; split |].
  intros b. discriminate.
Defined.

Lemma chat_payload_roundtrip m p :
  in_int64 (Ver m) -> in_int64 (Seq m) -> ChatMessage_ok p -> Data m = Some (PChatMessage p) ->
  exists s, Encode m = Some s /\ decode_message s = (nil_error, received m (Some (encode_ChatMessage p))) /\
    Deserialize (Data (received m (Some (encode_ChatMessage p)))) zero_ChatMessage = (nil_error, valid_chat p).
Proof.
  intros Hv Hs Hp Hd. destruct (message_roundtrip m (Data m ≫= MarshalJSON)) as (s & He & Hdec); [done | done | |].
  { unfold encoded_data. rewrite Hd. simpl. split; [done |].
    destruct (MarshalJSON_text (PChatMessage p)) as (d & E & Ht); [done |]. by simplify_eq/=. }
  rewrite Hd in Hdec. change (Some (PChatMessage p) ≫= MarshalJSON) with (Some (encode_ChatMessage p)) in Hdec.
  exists s. split_and!; [done | done |].
  assert (E : Data (received m (Some (encode_ChatMessage p))) = Some (PBytes (encode_ChatMessage p))).
  { change (data_of (Some (encode_ChatMessage p)) = Some (PBytes (encode_ChatMessage p))).
    unfold data_of. rewrite bool_decide_false; [done |]. apply json_object_not_null. }
  rewrite E. apply (decode_ChatMessage p Hp).
Qed.

(** C22: the chat message a client sends reaches the handlers of the server: it is encoded, read back from the
    connection and deserialized, and every field of it comes back, its strings with U+FFFD for each byte that is not
    part of UTF-8 text; so a message of UTF-8 strings comes back unchanged. *)
Theorem chat_message_survives_the_wire m p :
  in_int64 (Ver m) -> in_int64 (Seq m) -> ChatMessage_ok p -> Data m = Some (PChatMessage p) ->
  exists s m', Encode m = Some s /\ decode_message s = (nil_error, m') /\
    Seq m' = Seq m /\ Action m' = to_valid (Action m) /\ From m' = to_valid (From m) /\ To m' = to_valid (To m) /\
    Ticket m' = to_valid (Ticket m) /\ Extra m' = valid_extra (Extra m) /\
    Deserialize (Data m') zero_ChatMessage = (nil_error, valid_chat p) /\
    (utf8_chat p = true -> valid_chat p = p) /\
    ((forall k v, Extra m !! k = Some v -> utf8_valid k = true /\ utf8_valid v = true) -> valid_extra (Extra m) = Extra m).
Proof.
  intros Hv Hs Hp Hd. destruct (chat_payload_roundtrip m p Hv Hs Hp Hd) as (s & He & Hdec & Hdes).
  exists s, (received m (Some (encode_ChatMessage p))). split_and!; try done; [apply valid_chat_id | apply valid_extra_id].
Qed.

(** A message of UTF-8 text. *)
Lemma chat_message_survives_the_wire_witness :
  exists s m', Encode demo_message = Some s /\ decode_message s = (nil_error, m') /\
    Seq m' = Seq demo_message /\ Action m' = Action demo_message /\ Extra m' = Extra demo_message /\
    Deserialize (Data m') zero_ChatMessage = (nil_error, MkChatMessage "c1" 0 0 "a" "b" 1 "5 < 6 & 'ok' é €" (-5)).
Proof.
  destruct (chat_message_survives_the_wire demo_message (MkChatMessage "c1" 0 0 "a" "b" 1 "5 < 6 & 'ok' é €" (-5)))
    as (s & m' & H1 & H2 & H3 & H4 & _ & _ & _ & H5 & H6 & H7 & H8);
    [by vm_compute; split | by vm_compute; split | by vm_compute; repeat split | reflexivity |].
  exists s, m'. split_and!; [exact H1 | exact H2 | exact H3 | exact H4 | | by rewrite H6, H7 by (vm_compute; reflexivity)].
  rewrite H5. apply H8. intros k v Hkv. cbn [demo_message Extra] in Hkv.
  apply lookup_singleton_Some in Hkv as [<- <-]. by vm_compute.
Defined.

(** What is not UTF-8 does not come back. *)
Example not_utf8_is_replaced :
  let m := MkChatMessage "c1" 0 0 "a" "b" 1 (String (byte_of 255) "") 0 in
  Decode fields (encode_ChatMessage m) zero_ChatMessage = (nil_error, MkChatMessage "c1" 0 0 "a" "b" 1 RuneError 0).
Proof. vm_compute. reflexivity. Qed.

(** A message that does not decode is reported with an error [IsDecodeError] recognises, so the
    reader of a connection keeps it open. *)
Lemma Decode_error_flagged {T} (fs : list (field T)) text t :
  IsDecodeError (Decode fs text t).1 = (if (Unmarshal fs text t).1 is Some _ then true else false).
Proof.
  unfold Decode. destruct (Unmarshal fs text t) as [[e |] t']; [| done].
  exact (HasPrefix_app errDecode e).
Qed.
