(* ===== verification/Typing.v ===== *)
(** * The types of the payloads

    The data of a message is an [interface{}]: the action says which Go type is in it. [typed] is
    that relation for the messages the server makes and relays; a received payload is raw bytes,
    which are one JSON value ([decode_message_typed]). A typed message can always be encoded
    ([typed_Encode]), so nothing that is typed is lost on the way to its connection. *)

From S2P Require Import Prelude GoStrings Json JsonText Messages.

Local Open Scope Z_scope.

(** The payload [p] belongs in a message of the action [a]. Raw bytes are relayed under the action their
    sender chose; a channel replaces the payload of whatever is published to it. *)
Definition payload_ok (a : string) (p : payload) : bool :=
  match p with
  | PNil => bool_decide (a ∈ [ActionNotifySuccess; ActionHeartbeat])
  | PBytes raw => json_valid raw
  | PString _ => bool_decide (a ∈ [ActionNotifyError; ActionNotifyForbidden])
  | PAction _ => bool_decide (a = ActionNotifyUnknownAction)
  | PID _ => bool_decide (a ∈ [ActionInternalOnline; ActionInternalOffline])
  | PChatMessage _ => bool_decide (a ∈ [ActionChatMessage; ActionGroupMessage])
  | PChatMessagePtr _ => true
  | PAckRequest _ | PAckNotify _ => bool_decide (a = ActionAckNotify)
  | PAckMessage _ => bool_decide (a = ActionAckMessage)
  | PKickOutNotify _ => bool_decide (a = ActionNotifyKickOut)
  | PServerHello _ => bool_decide (a = ActionHello)
  | PUserState _ => bool_decide (a = ActionNotifyUserState)
  | PNotify _ => bool_decide (a = ActionGroupNotify)
  end.

Definition typed (m : GlideMessage) : bool :=
  match Data m with Some p => payload_ok (Action m) p | None => true end.

(** An identifier is the payload of the gateway's own events only. *)
Definition for_client (m : GlideMessage) : bool :=
  typed m && match Data m with Some (PID _) => false | _ => true end.

(** A pointer in a queue of messages for clients; a nil one is encoded as [null]. *)
Definition sendable (o : option GlideMessage) : Prop :=
  match o with Some m => for_client m = true | None => True end.

(** ** Encoding *)

Lemma payload_ok_marshal a p : payload_ok a p = true -> is_Some (MarshalJSON p).
Proof. destruct p; cbn; try eauto. intros ->. eauto. Qed.

Lemma typed_Encode m : typed m = true -> is_Some (Encode m).
Proof.
  unfold typed, Encode. destruct (Data m) as [p |]; [| eauto]. intros Hp.
  destruct (payload_ok_marshal _ _ Hp) as [d ->]. eauto.
Qed.

Lemma for_client_typed m : for_client m = true -> typed m = true.
Proof. unfold for_client. by intros [? _]%andb_true_iff. Qed.

(** ** Messages the server makes *)

Lemma for_client_new seq a p :
  payload_ok a p = true -> (forall id, p <> PID id) -> for_client (NewMessage seq a p) = true.
Proof. intros Hp Hid. unfold for_client, typed. cbn. rewrite Hp. destruct p; try done. by destruct (Hid id). Qed.

Lemma typed_set_From s m : typed (set_From s m) = typed m.
Proof. done. Qed.

Lemma for_client_set_ptr m cm : for_client (set_Data (Some (PChatMessagePtr cm)) m) = true.
Proof. done. Qed.

(** A typed message of another action than the internal ones may be relayed. *)
Lemma typed_relay m :
  typed m = true -> IsInternal (Action m) = false -> for_client m = true.
Proof.
  intros Hm Ha. unfold for_client. rewrite Hm. unfold typed in Hm. destruct (Data m) as [[] |]; try done.
  cbn in Hm. apply bool_decide_eq_true in Hm. exfalso.
  repeat (apply elem_of_cons in Hm as [Hm | Hm]; [by rewrite Hm in Ha |]). by apply not_elem_of_nil in Hm.
Qed.

(** ** Messages that are received *)

(** Data that was decoded: nothing, or one JSON value. *)
Definition received (m : GlideMessage) : Prop :=
  match Data m with None => True | Some (PBytes raw) => json_valid raw = true | Some _ => False end.

Lemma received_for_client m : received m -> for_client m = true.
Proof. unfold received, for_client, typed. destruct (Data m) as [[] |]; try done. intros H. cbn. by rewrite H. Qed.

(** An invariant of a struct that every field decoder keeps, on the raw text of a value. *)
Lemma decode_members_inv {T} (P : T -> Prop) (fs : list (field T)) ms err t :
  (forall name step raw u, (name, step) ∈ fs -> json_text raw -> P u -> P (step raw u).2) ->
  (forall m, m ∈ ms -> json_text m.2) -> P t -> P (decode_members fs ms err t).2.
Proof.
  intros Hfs. revert err t. induction ms as [| [k raw] ms IH]; intros err t Hms Ht; cbn [decode_members]; [done |].
  assert (Hms' : forall m, m ∈ ms -> json_text m.2) by (intros; apply Hms; by constructor).
  destruct (find_field fs k) as [step |] eqn:Ef; [| by apply IH].
  assert (Hin : exists name, (name, step) ∈ fs).
  { clear -Ef. induction fs as [| [name st] fs IHf]; [done |]. cbn in Ef. destruct (key_is name k).
    - injection Ef as ->. exists name. constructor.
    - destruct (IHf Ef) as [n' Hn]. exists n'. by constructor. }
  destruct Hin as [name Hin].
  pose proof (Hfs name step raw t Hin (Hms (k, raw) ltac:(constructor)) Ht) as Hs. destruct (step raw t) as [e t'].
  by apply IH.
Qed.

Lemma Unmarshal_inv {T} (P : T -> Prop) (fs : list (field T)) text t :
  (forall name step raw u, (name, step) ∈ fs -> json_text raw -> P u -> P (step raw u).2) ->
  P t -> P (Unmarshal fs text t).2.
Proof.
  intros Hfs Ht. unfold Unmarshal. destruct (negb _); [done |]. case_bool_decide; [done |].
  destruct (json_members text) as [ms |] eqn:E; [| done].
  apply decode_members_inv; [done | by apply (json_members_text _ _ E) | done].
Qed.

Lemma set_string_snd {T} get (set : string -> T -> T) raw t (P : T -> Prop) :
  P t -> (forall s, P (set s t)) -> P (set_string get set raw t).2.
Proof. intros Ht Hs. unfold set_string. destruct (decode_string raw (get t)); [apply Hs | done]. Qed.
Lemma set_int_snd {T} bits get (set : Z -> T -> T) raw t (P : T -> Prop) :
  P t -> (forall z, P (set z t)) -> P (set_int bits get set raw t).2.
Proof. intros Ht Hs. unfold set_int. destruct (decode_int bits raw (get t)); [apply Hs | done]. Qed.

(** The strings that are decoded are UTF-8. *)
Lemma decode_string_utf8 raw old s : decode_string raw old = inl s -> utf8_valid old = true -> utf8_valid s = true.
Proof.
  unfold decode_string. case_bool_decide; [by intros [= <-] |].
  destruct (read_string raw) as [[s' [|]] |] eqn:E; [| done..]. intros [= <-] _.
  unfold read_string in E. destruct raw as [| c raw]; [done |]. destruct (code c =? 34); [| done].
  destruct (read_chars _ raw) as [[u v] |]; simplify_eq/=. apply to_valid_valid.
Qed.

Lemma set_string_utf8 {T} get (set : string -> T -> T) raw t (P : T -> Prop) :
  P t -> utf8_valid (get t) = true -> (forall s, utf8_valid s = true -> P (set s t)) -> P (set_string get set raw t).2.
Proof.
  intros Ht Hg Hs. unfold set_string. destruct (decode_string raw (get t)) as [s |] eqn:E; [| done].
  apply Hs. by apply (decode_string_utf8 _ _ _ E).
Qed.

Definition chat_utf8 (m : ChatMessage) : Prop :=
  utf8_valid (cm_CliMid m) = true /\ utf8_valid (cm_From m) = true /\ utf8_valid (cm_To m) = true /\ utf8_valid (cm_Content m) = true.

Lemma chat_fields_utf8 name step raw (m : ChatMessage) :
  (name, step) ∈ fields (T := ChatMessage) -> json_text raw -> chat_utf8 m -> chat_utf8 (step raw m).2.
Proof.
  intros Hin _ Hm. cbn [fields ChatMessage_struct] in Hin.
  repeat (apply elem_of_cons in Hin as [Hin | Hin]; [injection Hin as -> -> |]); [.. | by apply not_elem_of_nil in Hin];
    first [by apply set_int_snd | apply set_string_utf8; unfold chat_utf8 in *; cbn; tauto].
Qed.

(** The chat message a received message holds. *)
Lemma received_chat_utf8 m chat :
  received m -> Deserialize (Data m) zero_ChatMessage = (nil_error, chat) -> chat_utf8 chat.
Proof.
  unfold received, Deserialize. destruct (Data m) as [p |]; [| done]. destruct p as [| s | | | | | | | | | | | |]; try done. intros _.
  pose proof (Unmarshal_inv chat_utf8 fields s zero_ChatMessage chat_fields_utf8 ltac:(by split_and!)) as Hu.
  unfold Decode. destruct (Unmarshal fields s zero_ChatMessage) as [[e |] chat']; [done |]. by intros [= <-].
Qed.

Definition to_utf8 (m : GlideMessage) : Prop := utf8_valid (To m) = true.

Lemma message_fields_to_utf8 name step raw m :
  (name, step) ∈ message_fields -> json_text raw -> to_utf8 m -> to_utf8 (step raw m).2.
Proof.
  intros Hin _ Hm. unfold message_fields in Hin.
  repeat (apply elem_of_cons in Hin as [Hin | Hin]; [injection Hin as -> -> |]); [.. | by apply not_elem_of_nil in Hin];
    first [by apply set_int_snd | by apply (set_string_utf8 To) | by apply set_string_snd | idtac]; [done |].
  unfold set_extra. case_bool_decide; [done |]. destruct (json_members raw); [| done]. by destruct (decode_map _ _ _).
Qed.

Lemma decode_message_to_utf8 text err m : decode_message text = (err, m) -> to_utf8 m.
Proof.
  unfold decode_message, Decode. intros E.
  pose proof (Unmarshal_inv to_utf8 _ text NewEmptyMessage message_fields_to_utf8 eq_refl) as Hr.
  destruct (Unmarshal message_fields text NewEmptyMessage) as [[e |] m']; by injection E as _ <-.
Qed.

Lemma message_fields_received name step raw m :
  (name, step) ∈ message_fields -> json_text raw -> received m -> received (step raw m).2.
Proof.
  intros Hin Hraw Hm. unfold message_fields in Hin.
  repeat (apply elem_of_cons in Hin as [Hin | Hin]; [injection Hin as -> -> |]); [.. | by apply not_elem_of_nil in Hin];
    first [by apply set_string_snd | by apply set_int_snd | idtac].
  - unfold set_data, received. cbn. case_bool_decide; [done |]. by apply json_valid_text.
  - unfold set_extra. case_bool_decide; [done |]. destruct (json_members raw); [| done].
    by destruct (decode_map _ _ _).
Qed.

Lemma decode_received text m : received m -> received (Unmarshal message_fields text m).2.
Proof. apply Unmarshal_inv, message_fields_received. Qed.

Lemma decode_message_received text err m : decode_message text = (err, m) -> received m.
Proof.
  unfold decode_message, Decode. intros E. pose proof (decode_received text NewEmptyMessage I) as Hr.
  destruct (Unmarshal message_fields text NewEmptyMessage) as [[e |] m']; by injection E as _ <-.
Qed.

(** Whatever text a message is read from, it can be relayed and written. *)
Lemma decode_message_typed text err m :
  decode_message text = (err, m) -> for_client m = true /\ is_Some (Encode m).
Proof.
  intros E. pose proof (received_for_client _ (decode_message_received _ _ _ E)) as Hm.
  split; [done |]. by apply typed_Encode, for_client_typed.
Qed.
