(* ===== verification/GateId.v ===== *)
(** * Client identifiers: [pkg/gate/client.go], [id.go] and [errors.go]

    An [ID] is a string of three parts joined by ['_']: the gateway, the user and the
    device. The methods with a pointer receiver that update the ID return the new value. *)

From S2P Require Import Prelude GoStrings.

Local Open Scope Z_scope.

Definition ID : Type := string.

Definition tempIdPrefix : string := "tmp@".
Definition idSeparator : ascii := "_"%char.

Definition NewID (gate uid device : string) : ID :=
  strings_Join [gate; uid; device] (String idSeparator "").
Definition NewID2 (uid : string) : ID :=
  strings_Join [""; uid; ""] (String idSeparator "").

Definition getPart (i : ID) (index : nat) : string :=
  match strings_Split i idSeparator !! index with Some p => p | None => "" end.

Definition Gateway (i : ID) : string := getPart i 0.
Definition UID (i : ID) : string := getPart i 1.
Definition Device (i : ID) : string := getPart i 2.

Definition SetGateway (i : ID) (gateway : string) : bool * ID :=
  if strings_HasPrefix i gateway then (false, i)
  else
    match strings_Split i idSeparator with
    | [_; uid; device] => (true, strings_Join [gateway; uid; device] (String idSeparator ""))
    | _ => (false, i)
    end.

Definition SetDevice (i : ID) (device : string) : bool * ID :=
  if strings_HasSuffix i device then (false, i)
  else
    match strings_Split i idSeparator with
    | [gateway; uid; _] => (true, strings_Join [gateway; uid; device] (String idSeparator ""))
    | _ => (false, i)
    end.

Definition IsTemp (i : ID) : bool := strings_HasPrefix (getPart i 1) tempIdPrefix.

Definition Equals (i other : ID) : bool :=
  bool_decide (UID i +:+ Device i = UID other +:+ Device other).

(** ** Temporary IDs *)

(** [newUUID] from the 16 random bytes it reads. *)
Definition newUUID (bytes : list Z) : string :=
  let uuid := <[8%nat := Z.lor (Z.land (nth 8 bytes 0) 63) 128]>
                (<[6%nat := Z.lor (Z.land (nth 6 bytes 0) 15) 64]> bytes) in
  hex_Encode (take 4 uuid) +:+ "-" +:+ hex_Encode (take 2 (drop 4 uuid)) +:+ "-" +:+
  hex_Encode (take 2 (drop 6 uuid)) +:+ "-" +:+ hex_Encode (take 2 (drop 8 uuid)) +:+ "-" +:+
  hex_Encode (drop 10 uuid).

Definition GenTempID (gateID : string) (bytes : list Z) : ID :=
  NewID gateID (tempIdPrefix +:+ newUUID bytes) "".

(** ** Errors *)

Definition errClientClosed : string := "client closed".
Definition errClientNotExist : string := "client does not exist".
Definition errClientAlreadyExist : string := "id already exist".

Definition IsClientClosed (err : error) : bool := bool_decide (err = Some errClientClosed).
Definition IsClientNotExist (err : error) : bool := bool_decide (err = Some errClientNotExist).
Definition IsIDAlreadyExist (err : error) : bool := bool_decide (err = Some errClientAlreadyExist).

(** ** Parts *)

(** A part of an ID: no separator in it. *)
Definition part_ok (p : string) : Prop := has_byte idSeparator p = false.

Lemma Split_NewID g u d :
  part_ok g -> part_ok u -> part_ok d -> strings_Split (NewID g u d) idSeparator = [g; u; d].
Proof. intros Hg Hu Hd. apply Split_Join; [done |]. by repeat constructor. Qed.

Lemma NewID2_NewID u : NewID2 u = NewID "" u "".
Proof. done. Qed.

Lemma Gateway_NewID g u d : part_ok g -> part_ok u -> part_ok d -> Gateway (NewID g u d) = g.
Proof. intros. unfold Gateway, getPart. by rewrite Split_NewID. Qed.
Lemma UID_NewID g u d : part_ok g -> part_ok u -> part_ok d -> UID (NewID g u d) = u.
Proof. intros. unfold UID, getPart. by rewrite Split_NewID. Qed.
Lemma Device_NewID g u d : part_ok g -> part_ok u -> part_ok d -> Device (NewID g u d) = d.
Proof. intros. unfold Device, getPart. by rewrite Split_NewID. Qed.

Create HintDb gate_id discriminated.
#[export] Hint Rewrite Gateway_NewID UID_NewID Device_NewID Split_NewID using done : gate_id.

Lemma NewID_inj g u d g' u' d' :
  part_ok g -> part_ok u -> part_ok d -> part_ok g' -> part_ok u' -> part_ok d' ->
  NewID g u d = NewID g' u' d' -> g = g' /\ u = u' /\ d = d'.
Proof.
  intros Hg Hu Hd Hg' Hu' Hd' E. apply (f_equal (fun i => strings_Split i idSeparator)) in E.
  rewrite !Split_NewID in E by done. by simplify_eq.
Qed.

(** ** Addressing through a gateway

    Every operation of a gateway first runs [id.SetGateway(c.id)]. *)

Definition route (g : string) (i : ID) : ID := (SetGateway i g).2.

Lemma HasPrefix_NewID_empty g u d : g <> "" -> part_ok g -> strings_HasPrefix (NewID "" u d) g = false.
Proof.
  intros Hne Hg. destruct g as [| c g]; [done |]. unfold part_ok in Hg. simpl in Hg.
  apply orb_false_iff in Hg as [Hc _]. apply bool_decide_eq_false in Hc.
  unfold NewID. simpl. rewrite bool_decide_false; [done |]. intros ->. done.
Qed.

Lemma route_user g u d :
  g <> "" -> part_ok g -> part_ok u -> part_ok d -> route g (NewID "" u d) = NewID g u d.
Proof.
  intros Hne Hg Hu Hd. unfold route, SetGateway. rewrite HasPrefix_NewID_empty by done.
  by rewrite Split_NewID.
Qed.

Lemma route_id g i : strings_HasPrefix i g = true -> route g i = i.
Proof. intros H. unfold route, SetGateway. by rewrite H. Qed.

Lemma route_same g u d : route g (NewID g u d) = NewID g u d.
Proof. apply route_id, HasPrefix_spec. by eexists. Qed.

(** whatever gateway part an ID of a user carries, once routed by a gateway whose name is
    not a prefix of the ID it is that user's ID on that gateway; routing again changes nothing. *)
Theorem SetGateway_addresses_this_gateway g g0 u d :
  part_ok g -> part_ok g0 -> part_ok u -> part_ok d ->
  strings_HasPrefix (NewID g0 u d) g = false ->
  SetGateway (NewID g0 u d) g = (true, NewID g u d) /\
  SetGateway (NewID g u d) g = (false, NewID g u d) /\
  UID (NewID g u d) = UID (NewID g0 u d) /\ Device (NewID g u d) = Device (NewID g0 u d).
Proof.
  intros Hg Hg0 Hu Hd Hp. split_and!.
  - unfold SetGateway. by rewrite Hp, Split_NewID.
  - unfold SetGateway. by rewrite (proj2 (HasPrefix_spec _ _)) by (by eexists).
  - by autorewrite with gate_id.
  - by autorewrite with gate_id.
Qed.

Lemma SetGateway_addresses_this_gateway_witness :
  SetGateway (NewID "a" "u1" "2") "gate" = (true, NewID "gate" "u1" "2") /\
  SetGateway (NewID "gate" "u1" "2") "gate" = (false, NewID "gate" "u1" "2") /\
  UID (NewID "gate" "u1" "2") = UID (NewID "a" "u1" "2") /\
  Device (NewID "gate" "u1" "2") = Device (NewID "a" "u1" "2").
Proof. apply (SetGateway_addresses_this_gateway "gate" "a" "u1" "2"); reflexivity. Defined.

(** The prefix test is on the whole ID: gateway [g1] takes the IDs of gateway [g10] as its own. *)
Example SetGateway_prefix : SetGateway (NewID "g10" "u" "") "g1" = (false, NewID "g10" "u" "").
Proof. reflexivity. Qed.

(** ** Temporary IDs are well formed *)

Lemma hex_digit_range d : 0 <= d < 16 ->
  hex_digit d <> idSeparator /\ hex_digit d <> "-"%char.
Proof.
  intros Hd. assert (Hall : Forall (fun d => hex_digit d <> idSeparator /\ hex_digit d <> "-"%char)
    (Z.of_nat <$> seq 0 16)) by (by repeat constructor).
  rewrite Forall_forall in Hall. apply Hall, list_elem_of_fmap. exists (Z.to_nat d).
  split; [lia | apply elem_of_seq; lia].
Qed.

Definition byte_ok (b : Z) : Prop := 0 <= b < 256.

Lemma hex_Encode_part bs : Forall byte_ok bs -> part_ok (hex_Encode bs).
Proof.
  unfold part_ok, byte_ok. induction 1 as [| b bs Hb _ IH]; [done |]. simpl. rewrite IH.
  pose proof (Z.div_pos b 16 ltac:(lia) ltac:(lia)). pose proof (Z.mod_pos_bound b 16 ltac:(lia)).
  assert (b / 16 < 16) by (apply Z.div_lt_upper_bound; lia).
  rewrite !bool_decide_false; [done | |]; intros E; symmetry in E;
    eapply (proj1 (hex_digit_range _ _)); exact E.
  Unshelve. all: lia.
Qed.

Lemma uuid_byte_ok z m v : 0 <= z -> 0 <= m < 256 -> 0 <= v < 256 -> byte_ok (Z.lor (Z.land z m) v).
Proof.
  intros Hz Hm Hv. split.
  - apply Z.lor_nonneg. split; [apply Z.land_nonneg; lia | lia].
  - destruct (Z.eq_dec (Z.lor (Z.land z m) v) 0) as [-> | Hne]; [lia |].
    assert (0 <= Z.land z m) by (apply Z.land_nonneg; lia).
    assert (0 <= Z.lor (Z.land z m) v) by (apply Z.lor_nonneg; lia).
    apply Z.log2_lt_cancel. change (Z.log2 256) with 8. rewrite Z.log2_lor by lia.
    apply Z.max_lub_lt.
    + eapply Z.le_lt_trans; [apply Z.log2_land; lia |]. apply Z.min_lt_iff. right.
      destruct (Z.eq_dec m 0) as [-> |]; [done |]. apply Z.log2_lt_pow2; simpl; lia.
    + destruct (Z.eq_dec v 0) as [-> |]; [done |]. apply Z.log2_lt_pow2; simpl; lia.
Qed.

(** The version nibble is 4. *)
Lemma version_nibble z : hex_digit (Z.lor (Z.land z 15) 64 / 16) = "4"%char.
Proof.
  change 15 with (Z.ones 4). rewrite Z.land_ones by lia.
  pose proof (Z.mod_pos_bound z (2 ^ 4) ltac:(lia)) as Hb. set (b := z mod 2 ^ 4) in *.
  assert (Hall : Forall (fun b => hex_digit (Z.lor b 64 / 16) = "4"%char) (map Z.of_nat (seq 0 16))).
  { repeat constructor. }
  rewrite Forall_forall in Hall. apply Hall, list_elem_of_fmap. exists (Z.to_nat b).
  split; [lia | apply elem_of_seq; lia].
Qed.

(** the identifier a connection starts with is well formed: it has this gateway's name, a user
    part marked temporary that holds a version 4 UUID of 36 bytes, and no device. *)
Theorem GenTempID_wellformed g bytes :
  part_ok g -> length bytes = 16%nat -> Forall byte_ok bytes ->
  Gateway (GenTempID g bytes) = g /\ Device (GenTempID g bytes) = "" /\
  UID (GenTempID g bytes) = tempIdPrefix +:+ newUUID bytes /\ IsTemp (GenTempID g bytes) = true /\
  String.length (newUUID bytes) = 36%nat /\ String.get 14 (newUUID bytes) = Some "4"%char.
Proof.
  intros Hg Hlen Hb.
  assert (Hpart : part_ok (tempIdPrefix +:+ newUUID bytes)).
  { unfold part_ok, newUUID. set (uuid := <[8%nat:=_]> _).
    assert (Hnth : forall i, 0 <= nth i bytes 0).
    { intros i. destruct (nth_in_or_default i bytes 0) as [Hin | ->]; [| done].
      rewrite Forall_forall in Hb. apply list_elem_of_In, Hb in Hin. unfold byte_ok in Hin. lia. }
    assert (Hu : Forall byte_ok uuid) by (repeat apply Forall_insert; try done; apply uuid_byte_ok; done || lia).
    rewrite !has_byte_app. rewrite !hex_Encode_part; try done; repeat (apply Forall_take || apply Forall_drop); done. }
  unfold GenTempID, IsTemp. rewrite Gateway_NewID, Device_NewID, UID_NewID by done.
  unfold getPart. rewrite Split_NewID by done. split_and!; try done.
  - apply HasPrefix_app.
  - unfold newUUID. set (uuid := <[8%nat:=_]> _).
    assert (Hl : length uuid = 16%nat) by (unfold uuid; by rewrite !length_insert).
    rewrite !length_app_string, !length_hex_Encode, !length_take, !length_drop, Hl. done.
  - do 16 (destruct bytes as [| ? bytes]; [done |]). destruct bytes; [| done].
    unfold newUUID. cbn -[hex_digit Z.lor Z.land Z.div Z.modulo].
    rewrite !app_cons_string, !app_nil_l_string. cbn [String.get]. f_equal. apply version_nibble.
Qed.

Lemma GenTempID_wellformed_witness :
  let id := GenTempID "g1" (Z.of_nat <$> seq 240 16) in
  Gateway id = "g1" /\ Device id = "" /\
  UID id = tempIdPrefix +:+ newUUID (Z.of_nat <$> seq 240 16) /\ IsTemp id = true /\
  String.length (newUUID (Z.of_nat <$> seq 240 16)) = 36%nat /\
  String.get 14 (newUUID (Z.of_nat <$> seq 240 16)) = Some "4"%char.
Proof.
  apply (GenTempID_wellformed "g1" (Z.of_nat <$> seq 240 16)); [reflexivity | reflexivity |].
  repeat constructor; discriminate.
Defined.
