(* ===== verification/Digest.v ===== *)
(** * MD5 and SHA-1

    The digests of Go's [crypto/md5] and [crypto/sha1] the ticket checks use, over byte lists
    (RFC 1321 and FIPS 180-1), and [hash.SHA1] of [pkg/hash/hash.go]. *)

From S2P Require Import Prelude GoStrings Hash.

Local Open Scope Z_scope.

(** ** Blocks *)

Fixpoint bytes_le (n : nat) (z : Z) : list Z :=
  match n with O => [] | S n' => z mod 256 :: bytes_le n' (z / 256) end.
Definition bytes_be (n : nat) (z : Z) : list Z := reverse (bytes_le n z).

Definition word_be (l : list Z) : Z := foldl (fun acc b => acc * 256 + b) 0 l.
Definition word_le (l : list Z) : Z := word_be (reverse l).

(** The message, a byte 0x80, zeros up to 56 bytes modulo 64, and the length in bits. *)
Definition pad (len_bytes : Z -> list Z) (msg : list Z) : list Z :=
  let n := Z.of_nat (length msg) in
  msg ++ [128] ++ replicate (Z.to_nat ((55 - n) mod 64)) 0 ++ len_bytes (n * 8).

Fixpoint groups (fuel k : nat) (l : list Z) : list (list Z) :=
  match fuel, l with
  | S fuel', _ :: _ => take k l :: groups fuel' k (drop k l)
  | _, _ => []
  end.
Definition chunks (k : nat) (l : list Z) : list (list Z) := groups (length l) k l.

Definition add32 (x y : Z) : Z := uint32 (x + y).
Definition not32 (x : Z) : Z := Z.lxor x 0xffffffff.

(** ** MD5 *)

Definition md5_K : list Z :=
  [0xd76aa478; 0xe8c7b756; 0x242070db; 0xc1bdceee; 0xf57c0faf; 0x4787c62a; 0xa8304613; 0xfd469501;
   0x698098d8; 0x8b44f7af; 0xffff5bb1; 0x895cd7be; 0x6b901122; 0xfd987193; 0xa679438e; 0x49b40821;
   0xf61e2562; 0xc040b340; 0x265e5a51; 0xe9b6c7aa; 0xd62f105d; 0x02441453; 0xd8a1e681; 0xe7d3fbc8;
   0x21e1cde6; 0xc33707d6; 0xf4d50d87; 0x455a14ed; 0xa9e3e905; 0xfcefa3f8; 0x676f02d9; 0x8d2a4c8a;
   0xfffa3942; 0x8771f681; 0x6d9d6122; 0xfde5380c; 0xa4beea44; 0x4bdecfa9; 0xf6bb4b60; 0xbebfbc70;
   0x289b7ec6; 0xeaa127fa; 0xd4ef3085; 0x04881d05; 0xd9d4d039; 0xe6db99e5; 0x1fa27cf8; 0xc4ac5665;
   0xf4292244; 0x432aff97; 0xab9423a7; 0xfc93a039; 0x655b59c3; 0x8f0ccc92; 0xffeff47d; 0x85845dd1;
   0x6fa87e4f; 0xfe2ce6e0; 0xa3014314; 0x4e0811a1; 0xf7537e82; 0xbd3af235; 0x2ad7d2bb; 0xeb86d391].

Definition md5_s : list Z := [7; 12; 17; 22; 5; 9; 14; 20; 4; 11; 16; 23; 6; 10; 15; 21].

Definition digest4 : Type := Z * Z * Z * Z.

Definition md5_round (M : list Z) (st : digest4) (i : nat) : digest4 :=
  let '(a, b, c, d) := st in
  let '(f, g) :=
    match (i / 16)%nat with
    | O => (Z.lor (Z.land b c) (Z.land (not32 b) d), i)
    | 1%nat => (Z.lor (Z.land d b) (Z.land (not32 d) c), (5 * i + 1) mod 16)%nat
    | 2%nat => (Z.lxor (Z.lxor b c) d, (3 * i + 5) mod 16)%nat
    | _ => (Z.lxor c (Z.lor b (not32 d)), (7 * i) mod 16)%nat
    end in
  let f := add32 (add32 (add32 f a) (nth i md5_K 0)) (nth g M 0) in
  (d, add32 b (RotateLeft32 f (nth (i / 16 * 4 + i mod 4)%nat md5_s 0)), b, c).

Definition md5_block (st : digest4) (block : list Z) : digest4 :=
  let M := word_le <$> chunks 4 block in
  let '(a, b, c, d) := foldl (md5_round M) st (seq 0 64) in
  let '(a0, b0, c0, d0) := st in (add32 a0 a, add32 b0 b, add32 c0 c, add32 d0 d).

Definition md5_Sum (msg : list Z) : list Z :=
  let '(a, b, c, d) :=
    foldl md5_block (0x67452301, 0xefcdab89, 0x98badcfe, 0x10325476) (chunks 64 (pad (bytes_le 8) msg)) in
  bytes_le 4 a ++ bytes_le 4 b ++ bytes_le 4 c ++ bytes_le 4 d.

(** ** SHA-1 *)

Definition digest5 : Type := Z * Z * Z * Z * Z.

(** The message schedule, most recent word first. *)
Fixpoint sha1_schedule (n : nat) (w : list Z) : list Z :=
  match n with
  | O => w
  | S n' =>
      sha1_schedule n' (RotateLeft32 (Z.lxor (Z.lxor (nth 2 w 0) (nth 7 w 0)) (Z.lxor (nth 13 w 0) (nth 15 w 0))) 1 :: w)
  end.

Definition sha1_round (st : digest5) (iw : nat * Z) : digest5 :=
  let '(a, b, c, d, e) := st in
  let '(f, k) :=
    match (iw.1 / 20)%nat with
    | O => (Z.lor (Z.land b c) (Z.land (not32 b) d), 0x5a827999)
    | 1%nat => (Z.lxor (Z.lxor b c) d, 0x6ed9eba1)
    | 2%nat => (Z.lor (Z.lor (Z.land b c) (Z.land b d)) (Z.land c d), 0x8f1bbcdc)
    | _ => (Z.lxor (Z.lxor b c) d, 0xca62c1d6)
    end in
  (uint32 (RotateLeft32 a 5 + f + e + k + iw.2), a, RotateLeft32 b 30, c, d).

Definition sha1_block (st : digest5) (block : list Z) : digest5 :=
  let w := reverse (sha1_schedule 64 (reverse (word_be <$> chunks 4 block))) in
  let '(a, b, c, d, e) := foldl sha1_round st (zip (seq 0 80) w) in
  let '(a0, b0, c0, d0, e0) := st in
  (add32 a0 a, add32 b0 b, add32 c0 c, add32 d0 d, add32 e0 e).

Definition sha1_Sum (msg : list Z) : list Z :=
  let '(a, b, c, d, e) :=
    foldl sha1_block (0x67452301, 0xefcdab89, 0x98badcfe, 0x10325476, 0xc3d2e1f0)
      (chunks 64 (pad (bytes_be 8) msg)) in
  bytes_be 4 a ++ bytes_be 4 b ++ bytes_be 4 c ++ bytes_be 4 d ++ bytes_be 4 e.

(** [hash.SHA1]. *)
Definition SHA1 (str : string) : string := hex_Encode (sha1_Sum (bytes_of_string str)).

(** [fmt.Sprintf(%x, md5.Sum([]byte(str)))]. *)
Definition MD5_hex (str : string) : string := hex_Encode (md5_Sum (bytes_of_string str)).

(** ** Test vectors *)

Example md5_abc : MD5_hex "abc" = "900150983cd24fb0d6963f7d28e17f72".
Proof. vm_compute. reflexivity. Qed.

Example md5_long : MD5_hex "12345678901234567890123456789012345678901234567890123456789012345678901234567890"
  = "57edf4a22be3c955ac49da2e2107b67a".
Proof. vm_compute. reflexivity. Qed.

Example sha1_abc : SHA1 "abc" = "a9993e364706816aba3e25717850c26c9cd0d89d".
Proof. vm_compute. reflexivity. Qed.

Example sha1_long : SHA1 "abcdbcdecdefdefgefghfghighijhijkijkljklmklmnlmnomnopnopq"
  = "84983e441c3bd26ebaae4aa1f95129e5e54670f1".
Proof. vm_compute. reflexivity. Qed.

(** ** Lengths *)

Lemma length_bytes_le n z : length (bytes_le n z) = n.
Proof. revert z. induction n as [| n IH]; intros z; simpl; [done |]. by rewrite IH. Qed.

Lemma length_bytes_be n z : length (bytes_be n z) = n.
Proof. unfold bytes_be. by rewrite length_reverse, length_bytes_le. Qed.

(** A ticket, the hexadecimal text of a SHA-1 digest, has 40 bytes. *)
Lemma length_SHA1 s : String.length (SHA1 s) = 40%nat.
Proof.
  unfold SHA1. rewrite length_hex_Encode. unfold sha1_Sum.
  destruct (foldl sha1_block _ _) as [[[[a b] c] d] e].
  by rewrite !length_app, !length_bytes_be.
Qed.
