(* ===== verification/Channel.v ===== *)
(** * A channel: [pkg/subscription/subscription_impl/chan.go], [perm.go] and [message.go]

    A [Channel] keeps its subscribers, hands out sequence numbers in segments taken from a
    store, and queues published messages for one worker goroutine that pushes them through the
    gateway. The operations are functions in the [GoM] monad over the channel and the
    environment it calls; the worker is a transition system that interleaves with them.

    Each operation runs as one step: its critical sections are not interleaved with another
    operation's ([ChannelRace] takes the queue and the numbers apart, action by action). The clock is an argument, in milliseconds. *)

From S2P Require Import Prelude GoStrings Json Messages GateId Digest.

Local Open Scope Z_scope.
Local Open Scope go_scope.

(** ** Permissions *)

Definition MaskPermRead : Z := 1.
Definition MaskPermWrite : Z := 2.
Definition MaskPermAdmin : Z := 4.
Definition MaskPermSystem : Z := 8.

Definition PermNone : Z := 0.
Definition PermRead : Z := Z.shiftl 1 MaskPermRead.
Definition PermWrite : Z := Z.shiftl 1 MaskPermWrite.
Definition PermAdmin : Z := Z.shiftl 1 MaskPermAdmin.

Definition denies (perm mask : Z) : bool := negb (Z.land (Z.shiftr perm mask) 1 =? 1).

Fixpoint allows (perm : Z) (masks : list Z) : bool :=
  match masks with
  | [] => true
  | m :: ms => if denies perm m then false else allows perm ms
  end.

(** ** Data *)

Definition ChanID : Type := string.
Definition SubscriberID : Type := string.

Record ChanInfo := MkChanInfo {
  ci_ID : ChanID;
  ci_Type : Z;
  Muted : bool;
  Blocked : bool;
  Closed : bool;
  Secret : string;
  Parent : option ChanID;
  Child : list ChanID }.

Definition zero_ChanInfo : ChanInfo := MkChanInfo "" 0 false false false "" None [].

Record SubscriberOptions := MkSubscriberOptions { so_Perm : Z; so_Ticket : string }.
Record SubscriberInfo := MkSubscriberInfo { si_Perm : Z }.

Definition canRead (i : SubscriberInfo) : bool := allows (si_Perm i) [MaskPermRead].
Definition canWrite (i : SubscriberInfo) : bool := allows (si_Perm i) [MaskPermWrite].
Definition isSystem (i : SubscriberInfo) : bool := allows (si_Perm i) [MaskPermSystem].
Definition isAdmin (i : SubscriberInfo) : bool := allows (si_Perm i) [MaskPermAdmin].

Definition NewSubscriberInfo (so : SubscriberOptions) : SubscriberInfo := MkSubscriberInfo (so_Perm so).
Definition update_subscriber (i : SubscriberInfo) (so : SubscriberOptions) : SubscriberInfo :=
  MkSubscriberInfo (so_Perm so).

(** The dynamic type of an [interface{}] argument: what the callee expects, or another type. *)
Inductive extra :=
  | ExtraOptions (so : SubscriberOptions)
  | ExtraInfo (ci : ChanInfo)
  | ExtraOther (type_name : string)
  | ExtraNil.

(** [reflect.TypeOf(nil).String()] dereferences a nil pointer. *)
Definition getSubscriberOptions {S} (e : extra) : GoM S (SubscriberOptions + string) :=
  match e with
  | ExtraOptions so => ret (inl so)
  | ExtraInfo _ => ret (inr "extra expect type: *SubscriberOptions, actual: *subscription.ChanInfo")
  | ExtraOther ty => ret (inr ("extra expect type: *SubscriberOptions, actual: " +:+ ty))
  | ExtraNil => panic "nil type"
  end.

Definition typeUnknown : Z := 0.
Definition TypeNotify : Z := 1.
Definition TypeMessage : Z := 2.
Definition TypeSystem : Z := 3.

Record PublishMessage := MkPublishMessage {
  pm_From : SubscriberID;
  pm_To : list SubscriberID;
  pm_Seq : Z;
  pm_Type : Z;
  pm_Message : option GlideMessage }.   (* [None]: nil *)

Inductive message_arg := AsPublish (m : PublishMessage) | AsOther (type_name : string) | AsNil.

(** The receiver's [Message] is dereferenced without a test. *)
Definition GetChatMessage {S} (p : PublishMessage) : GoM S (error * ChatMessage) :=
  match pm_Message p with
  | None => panic "nil pointer dereference"
  | Some m => ret (Deserialize (Data m) zero_ChatMessage)
  end.

Definition isValidMessageType (t : Z) : bool := (typeUnknown <? t) && (t <=? TypeSystem).

(** The worker goroutine: in its loop, at [REST], or draining the queue after it. *)
Inductive wpc := WLoop | WRest | WDrain (dropped : Z).

Record Channel := MkChannel {
  ch_id : ChanID;
  seq_ : Z;
  seqRemain : Z;
  messages : list PublishMessage;      (* the buffer of the Go channel *)
  messages_closed : bool;
  queueRunning : Z;
  queued : Z;
  sleepTimer : Z;                      (* when it fires *)
  activeAt : Z;
  subscribers : gmap SubscriberID SubscriberInfo;
  info : ChanInfo;
  worker : option wpc }.

Definition set_seqs (s r : Z) (g : Channel) : Channel :=
  MkChannel (ch_id g) s r (messages g) (messages_closed g) (queueRunning g) (queued g) (sleepTimer g)
    (activeAt g) (subscribers g) (info g) (worker g).
Definition set_messages (l : list PublishMessage) (g : Channel) : Channel :=
  MkChannel (ch_id g) (seq_ g) (seqRemain g) l (messages_closed g) (queueRunning g) (queued g) (sleepTimer g)
    (activeAt g) (subscribers g) (info g) (worker g).
Definition set_messages_closed (g : Channel) : Channel :=
  MkChannel (ch_id g) (seq_ g) (seqRemain g) (messages g) true (queueRunning g) (queued g) (sleepTimer g)
    (activeAt g) (subscribers g) (info g) (worker g).
Definition set_queued (n : Z) (g : Channel) : Channel :=
  MkChannel (ch_id g) (seq_ g) (seqRemain g) (messages g) (messages_closed g) (queueRunning g) n (sleepTimer g)
    (activeAt g) (subscribers g) (info g) (worker g).
Definition set_worker (running : Z) (w : option wpc) (g : Channel) : Channel :=
  MkChannel (ch_id g) (seq_ g) (seqRemain g) (messages g) (messages_closed g) running (queued g) (sleepTimer g)
    (activeAt g) (subscribers g) (info g) w.
Definition set_timer (t : Z) (g : Channel) : Channel :=
  MkChannel (ch_id g) (seq_ g) (seqRemain g) (messages g) (messages_closed g) (queueRunning g) (queued g) t
    (activeAt g) (subscribers g) (info g) (worker g).
Definition set_activeAt (t : Z) (g : Channel) : Channel :=
  MkChannel (ch_id g) (seq_ g) (seqRemain g) (messages g) (messages_closed g) (queueRunning g) (queued g) (sleepTimer g)
    t (subscribers g) (info g) (worker g).
Definition set_subscribers (s : gmap SubscriberID SubscriberInfo) (g : Channel) : Channel :=
  MkChannel (ch_id g) (seq_ g) (seqRemain g) (messages g) (messages_closed g) (queueRunning g) (queued g) (sleepTimer g)
    (activeAt g) s (info g) (worker g).
Definition set_info (i : ChanInfo) (g : Channel) : Channel :=
  MkChannel (ch_id g) (seq_ g) (seqRemain g) (messages g) (messages_closed g) (queueRunning g) (queued g) (sleepTimer g)
    (activeAt g) (subscribers g) i (worker g).

(** ** What a channel calls

    The gateway, the message store and the sequence store; [E] is their state. *)

Class ChanEnv (E : Type) := {
  gate_EnqueueMessage : ID -> option GlideMessage -> E -> error * E;
  StoreChannelMessage : ChanID -> ChatMessage -> E -> error * E;
  NextSegmentSequence : ChanID -> ChanInfo -> E -> (Z * Z * error) * E }.

Definition queue_cap : nat := 100.
Definition messageQueueTimeout : Z := 10000.
(** [time.Time{}], the year 1. *)
Definition zero_time : Z := -62135596800000.

Definition errNotMemberOfChannel : string := "not member of channel".
Definition errPermissionDeniedWrite : string := "permission denied: write".
Definition errChannelMuted : string := "channel is muted".
Definition errChannelBlocked : string := "channel is blocked".
Definition errUnknownMessageType : string := "unknown message type".
Definition ErrNotSubscribed : string := "not subscribed".

(** [errors.Wrap(err, msg)] of the errors package. *)
Definition wrap_error (err : string) (msg : string) : string := msg +:+ ": " +:+ err.

Section operations.
Context {E : Type} `{ChanEnv E}.

Definition S_ : Type := Channel * E.
Definition rd {A} (f : Channel -> A) : GoM S_ A := gets (fun s => f s.1).
Definition wr (f : Channel -> Channel) : GoM S_ unit := modify (fun s => (f s.1, s.2)).
Definition env_call {R} (f : E -> R * E) : GoM S_ R :=
  fun s => let '(r, e) := f s.2 in (Val r, (s.1, e)).

(** *** Sequence numbers *)

Definition loadSeq : GoM S_ error :=
  let! id := rd ch_id in
  let! i := rd info in
  let! r := env_call (NextSegmentSequence id i) in
  let '(seq, length, err) := r in
  match err with
  | Some _ => ret err
  | None => wr (set_seqs seq length) ;;; ret nil_error
  end.

Definition nextSeq : GoM S_ (Z * error) :=
  wr (fun g => set_seqs (seq_ g) (int64 (seqRemain g - 1)) g) ;;;
  let! remain := rd seqRemain in
  let! err :=
    (if remain <=? 0 then
       let! err := loadSeq in
       match err with
       | Some _ => ret err
       | None => wr (fun g => set_seqs (int64 (seq_ g - 1)) (seqRemain g) g) ;;; ret nil_error
       end
     else ret nil_error) in
  match err with
  | Some _ => ret (0, err)
  | None =>
      wr (fun g => set_seqs (int64 (seq_ g + 1)) (seqRemain g) g) ;;;
      let! s := rd seq_ in ret (s, nil_error)
  end.

(** *** The queue *)

(** [select { case g.messages <- m: ...; default: ... }]: whether the message was sent. *)
Definition chan_send (m : PublishMessage) : GoM S_ bool :=
  let! closed := rd messages_closed in
  let! l := rd messages in
  if closed : bool then panic "send on closed channel"
  else if (length l <? queue_cap)%nat
  then wr (set_messages (l ++ [m])) ;;; wr (fun g => set_queued (int32 (queued g + 1)) g) ;;; ret true
  else ret false.

Definition checkMsgQueue (now : Z) : GoM S_ error :=
  let! running := rd queueRunning in
  if negb (running =? 0) then ret nil_error
  else
    wr (set_worker 1 (Some WLoop)) ;;;
    wr (set_timer (now + messageQueueTimeout)) ;;;
    ret nil_error.

Definition enqueueNotify (now : Z) (m : PublishMessage) : GoM S_ error :=
  let! sent := chan_send m in
  if sent : bool then checkMsgQueue now
  else ret (errors_New "notify message queue is full").

Definition with_data (m : PublishMessage) (seq : Z) (cm : ChatMessage) : PublishMessage :=
  MkPublishMessage (pm_From m) (pm_To m) seq (pm_Type m) (set_Data (Some (PChatMessagePtr cm)) <$> pm_Message m).

Definition set_cm_Seq (z : Z) (m : ChatMessage) : ChatMessage :=
  MkChatMessage (cm_CliMid m) (cm_Mid m) z (cm_From m) (cm_To m) (cm_Type m) (cm_Content m) (cm_SendAt m).

Definition enqueue (now : Z) (m : PublishMessage) : GoM S_ error :=
  let! body := GetChatMessage m in
  match body with
  | (Some err, _) => ret (Some (wrap_error err "enqueue message deserialize body error"))
  | (None, cm) =>
      let! r := nextSeq in
      let '(seq, err) := r in
      match err with
      | Some _ => ret err
      | None =>
          let cm := set_cm_Seq seq cm in
          let m := with_data m seq cm in
          let! err :=
            (if pm_Type m =? TypeMessage then
               let! id := rd ch_id in env_call (StoreChannelMessage id cm)
             else ret nil_error) in
          match err with
          | Some err => ret (Some (wrap_error err "store channel message error"))
          | None =>
              let! sent := chan_send m in
              if sent : bool then checkMsgQueue now
              else ret (errors_New "too many messages,the group message queue is full")
          end
      end
  end.

(** *** The operations of a channel *)

Definition Update (ci : ChanInfo) : GoM S_ error :=
  wr (fun g => set_info (MkChanInfo (ci_ID (info g)) (ci_Type (info g)) (Muted ci) (Blocked ci)
                           (Closed (info g)) (Secret ci) (Parent (info g)) (Child (info g))) g) ;;;
  ret nil_error.

(** In the order [map_to_list] gives; Go's order is unspecified. *)
Definition GetSubscribers : GoM S_ (list string) :=
  rd (fun g => (map_to_list (subscribers g)).*1).

Definition ticket_for (perm : Z) (id : SubscriberID) (secret : string) : string :=
  MD5_hex (Itoa perm +:+ "_" +:+ id +:+ "_" +:+ secret).

Definition notify (body : notify_body) (type_ : Z) (to : list SubscriberID) : PublishMessage :=
  MkPublishMessage "" to 0 0
    (Some (NewMessage 0 ActionGroupNotify (PNotify (MkNotifyMessage "system" type_ body)))).

Definition NotifyTypeOffline : Z := 1.
Definition NotifyTypeOnline : Z := 2.
Definition NotifyOnlineMembers : Z := 5.

Definition Subscribe (now : Z) (id : SubscriberID) (ex : extra) : GoM S_ error :=
  let! so := getSubscriberOptions ex in
  match so with
  | inr e => ret (errors_New e)
  | inl so =>
      let! i := rd info in
      if Closed i then ret (errors_New "channel is closed")
      else if Blocked i then ret (errors_New "channel is blocked")
      else
        let! subs := rd subscribers in
        match subs !! id with
        | Some sb =>
            wr (set_subscribers (<[id := update_subscriber sb so]> subs)) ;;; ret nil_error
        | None =>
            if negb (bool_decide (Secret i = "")) &&
               (bool_decide (so_Ticket so = "") ||
                negb (bool_decide (ticket_for (so_Perm so) id (Secret i) = so_Ticket so)))
            then ret (errors_New "invalid ticket")
            else
              wr (set_subscribers (<[id := NewSubscriberInfo so]> subs)) ;;;
              let! _ := enqueueNotify now (notify (NotifyUid id) NotifyTypeOnline []) in
              let! members := GetSubscribers in
              let! _ := enqueueNotify now (notify (NotifyMembers members) NotifyOnlineMembers [id]) in
              ret nil_error
        end
  end.

Definition Unsubscribe (now : Z) (id : SubscriberID) : GoM S_ error :=
  let! subs := rd subscribers in
  match subs !! id with
  | None => ret (errors_New ErrNotSubscribed)
  | Some _ =>
      wr (set_subscribers (delete id subs)) ;;;
      let! _ := enqueueNotify now (notify (NotifyUid id) NotifyTypeOffline []) in
      ret nil_error
  end.

Definition Publish (now : Z) (msg : message_arg) : GoM S_ error :=
  let! i := rd info in
  if Closed i then ret (errors_New "channel closed")
  else
    match msg with
    | AsNil => panic "nil type"
    | AsOther ty =>
        ret (errors_New ("unexpected message type, expect: *subscription.PublishMessage, actual:" +:+ ty))
    | AsPublish message =>
        if negb (isValidMessageType (pm_Type message)) then ret (errors_New errUnknownMessageType)
        else
          let! subs := rd subscribers in
          match subs !! pm_From message with
          | None => ret (errors_New errNotMemberOfChannel)
          | Some s =>
              if negb (canWrite s) then ret (errors_New errPermissionDeniedWrite)
              else if Muted i && (negb (isSystem s) || negb (isAdmin s)) then ret (errors_New errChannelMuted)
              else if Blocked i && negb (isSystem s) then ret (errors_New errChannelBlocked)
              else if pm_Type message =? TypeNotify then enqueueNotify now message
              else if pm_Type message =? TypeMessage then enqueue now message
              else ret (errors_New errUnknownMessageType)
          end
    end.

Definition Close : GoM S_ error :=
  wr (fun g => let i := info g in
        set_info (MkChanInfo (ci_ID i) (ci_Type i) (Muted i) (Blocked i) true (Secret i) (Parent i) (Child i)) g) ;;;
  let! closed := rd messages_closed in
  if closed : bool then panic "close of closed channel"
  else wr set_messages_closed ;;; wr (set_subscribers ∅) ;;; ret nil_error.

(** [NewChannel]; the gateway and the stores are the environment. *)
Definition empty_channel (chanID : ChanID) (now : Z) : Channel :=
  MkChannel chanID 0 0 [] false 0 0 (now + messageQueueTimeout) zero_time ∅ zero_ChanInfo None.

Definition NewChannel (chanID : ChanID) (now : Z) (e : E) : (error * Channel) * E :=
  match loadSeq (empty_channel chanID now, e) with
  | (Val err, (g, e')) => ((err, g), e')
  | (Panics _, (g, e')) => ((nil_error, g), e')
  end.

(** *** Delivery *)

(** The subscribers a message is pushed to. *)
Definition receives (m : PublishMessage) (p : SubscriberID * SubscriberInfo) : bool :=
  (bool_decide (pm_To m = []) || bool_decide (p.1 ∈ pm_To m)) && canRead p.2.

Definition push (m : PublishMessage) : GoM S_ unit :=
  let! subs := rd subscribers in
  foreach (map_to_list subs) (fun p =>
    if receives m p then
      let! _ := env_call (gate_EnqueueMessage (NewID2 p.1) (pm_Message m)) in ret tt
    else ret tt).

(** *** The worker's steps, by the label of the program point and the branch taken *)

Definition finish : GoM S_ unit := wr (set_queued 0) ;;; wr (set_worker 0 None).

Inductive wstep : Z -> S_ -> S_ -> Prop :=
  | w_timer_reset now g e :
      worker g = Some WLoop -> sleepTimer g <= now -> now <= activeAt g + messageQueueTimeout ->
      wstep now (g, e) (set_timer (now + messageQueueTimeout) g, e)
  | w_timer_rest now g e :
      worker g = Some WLoop -> sleepTimer g <= now -> activeAt g + messageQueueTimeout < now ->
      wstep now (g, e) (set_worker (queueRunning g) (Some WRest) g, e)
  | w_recv now g e m ms r s' :
      worker g = Some WLoop -> messages g = m :: ms ->
      push m (set_activeAt now (set_queued (int32 (queued g - 1)) (set_messages ms g)), e) = (r, s') ->
      wstep now (g, e) s'
  | w_recv_closed now g e :
      worker g = Some WLoop -> messages g = [] -> messages_closed g = true ->
      wstep now (g, e) (set_worker (queueRunning g) (Some WRest) g, e)
  | w_rest_drain now g e :
      worker g = Some WRest -> 0 < queued g ->
      wstep now (g, e) (set_worker (queueRunning g) (Some (WDrain 0)) g, e)
  | w_rest_stop now g e s' :
      worker g = Some WRest -> queued g <= 0 -> finish (g, e) = (Val tt, s') ->
      wstep now (g, e) s'
  | w_drain now g e m ms d :
      worker g = Some (WDrain d) -> messages g = m :: ms ->
      wstep now (g, e) (set_queued (-1) (set_worker (queueRunning g) (Some (WDrain (d + 1))) (set_messages ms g)), e)
  | w_drain_stop now g e d s' :
      worker g = Some (WDrain d) -> messages g = [] -> messages_closed g = true ->
      finish (g, e) = (Val tt, s') ->
      wstep now (g, e) s'.
End operations.
