(* ===== verification/ChannelSpec.v ===== *)
(** * What a channel guarantees

    The properties of [Channel]: its invariant over every interleaving of operations and
    worker steps, who may publish and join, the numbering of messages, delivery, and what
    happens to messages once the worker sleeps. The file ends with a concrete environment. *)

From S2P Require Import Prelude GoStrings Json Messages GateId Digest Channel.

Local Open Scope Z_scope.

(** ** Permissions are bits *)

Lemma denies_testbit perm mask : 0 <= mask -> denies perm mask = negb (Z.testbit perm mask).
Proof.
  intros Hm. unfold denies. f_equal. change 1 with (Z.ones 1). rewrite Z.land_ones by lia.
  change (2 ^ 1) with 2. change (Z.ones 1) with 1. rewrite Z.testbit_eqb by done. rewrite Z.shiftr_div_pow2 by done. done.
Qed.

(** [allows] holds exactly when every asked bit is set. *)
Theorem allows_all_bits perm masks :
  Forall (fun m => 0 <= m) masks -> allows perm masks = true <-> Forall (fun m => Z.testbit perm m = true) masks.
Proof.
  induction 1 as [| m masks Hm Hms IH]; simpl; [split; [constructor | done] |].
  rewrite denies_testbit by done. rewrite Forall_cons. destruct (Z.testbit perm m); simpl; naive_solver.
Qed.

Lemma allows_all_bits_witness :
  allows (PermRead + PermWrite) [MaskPermRead; MaskPermWrite] = true <->
  Forall (fun m => Z.testbit (PermRead + PermWrite) m = true) [MaskPermRead; MaskPermWrite].
Proof. apply (allows_all_bits (PermRead + PermWrite) [MaskPermRead; MaskPermWrite]). repeat constructor; discriminate. Defined.

(** ** The invariant of a channel *)

Record chan_inv (g : Channel) : Prop := {
  ci_bound : (length (messages g) <= queue_cap)%nat;
  ci_closed : messages_closed g = Closed (info g);
  ci_no_subs : Closed (info g) = true -> subscribers g = ∅;
  ci_running : queueRunning g = (if worker g is Some _ then 1 else 0);
  ci_idle : worker g = None -> messages g = [];
  ci_queued : match worker g with
              | Some (WDrain d) => 0 <= d
              | _ => queued g = Z.of_nat (length (messages g))
              end }.

Ltac run := cbv beta delta [bind ret gets modify rd wr env_call put get panic]; cbn beta iota zeta.

Lemma int32_small z : - 2 ^ 31 <= z < 2 ^ 31 -> int32 z = z.
Proof. intros Hz. unfold int32. rewrite Z.mod_small by lia. lia. Qed.

Section properties.
Context {E : Type} `{ChanEnv E}.
Implicit Types (g : Channel) (e : E).

Lemma chan_inv_empty id now : chan_inv (empty_channel id now).
Proof. split; simpl; try done. unfold queue_cap; lia. Qed.

(** A relation between the states before and after that keeps the invariant. *)
Definition keeps {A} (m : GoM (Channel * E) A) : Prop :=
  forall g e r g' e', chan_inv g -> m (g, e) = (r, (g', e')) -> chan_inv g'.

Lemma keeps_bind {A B} (m : GoM (Channel * E) A) (k : A -> GoM (Channel * E) B) :
  keeps m -> (forall a, keeps (k a)) -> keeps (bind m k).
Proof.
  intros Hm Hk g e r g' e' Hg. unfold bind. destruct (m (g, e)) as [[a | why] [g1 e1]] eqn:E1; intros E2.
  - eapply Hk; [| exact E2]. by eapply Hm.
  - simplify_eq. by eapply Hm.
Qed.

Lemma keeps_ret {A} (a : A) : keeps (ret a).
Proof. intros g e r g' e' Hg [= <- <- <-]. done. Qed.
Lemma keeps_panic {A} why : keeps (A := A) (panic why).
Proof. intros g e r g' e' Hg [= <- <- <-]. done. Qed.
Lemma keeps_rd {A} (f : Channel -> A) : keeps (rd f).
Proof. intros g e r g' e' Hg [= <- <- <-]. done. Qed.
Lemma keeps_env {R} (f : E -> R * E) : keeps (env_call f).
Proof. intros g e r g' e' Hg. unfold env_call. simpl. destruct (f e). by intros [= <- <- <-]. Qed.
Lemma keeps_wr (f : Channel -> Channel) : (forall g, chan_inv g -> chan_inv (f g)) -> keeps (wr f).
Proof. intros Hf g e r g' e' Hg [= <- <- <-]. by apply Hf. Qed.
Lemma keeps_foreach {A} (l : list A) body : (forall a, keeps (body a)) -> keeps (foreach l body).
Proof. intros Hb. induction l as [| a l IH]; [apply keeps_ret |]. by apply keeps_bind. Qed.

Lemma keeps_set_seqs s r : keeps (wr (set_seqs s r)).
Proof. apply keeps_wr. by intros g [H1 H2 H3 H4 H5 H6]. Qed.

Lemma keeps_loadSeq : keeps loadSeq.
Proof.
  apply keeps_bind; [apply keeps_rd | intros id]. apply keeps_bind; [apply keeps_rd | intros i].
  apply keeps_bind; [apply keeps_env | intros [[s l] [err |]]]; [apply keeps_ret |].
  apply keeps_bind; [apply keeps_set_seqs | intros _; apply keeps_ret].
Qed.

(** Sending and waking the worker, as [enqueue] and [enqueueNotify] do. *)
Lemma keeps_send now m full :
  keeps (bind (chan_send m) (fun sent => if sent : bool then checkMsgQueue now else ret full)).
Proof.
  intros g e r g' e' Hg. pose proof Hg as [H1 H2 H3 H4 H5 H6]. unfold chan_send, checkMsgQueue. run. simpl.
  destruct (messages_closed g) eqn:Hc; [by intros [= <- <- <-] |]. simpl.
  destruct (Nat.ltb_spec (length (messages g)) queue_cap) as [Hl |]; [| by intros [= <- <- <-]]. simpl.
  assert (Hlen : length (messages g ++ [m]) = S (length (messages g))) by (rewrite length_app; simpl; lia).
  destruct (worker g) as [w |] eqn:Hw; rewrite H4; simpl; intros [= <- <- <-];
    split; simpl; rewrite ?Hw, ?Hlen; try done; try lia;
    try (destruct w; try done); try (rewrite H6, int32_small; unfold queue_cap in *; lia). all: congruence.
Qed.

Lemma keeps_enqueueNotify now m : keeps (enqueueNotify now m).
Proof. apply keeps_send. Qed.

Lemma keeps_nextSeq : keeps nextSeq.
Proof.
  apply keeps_bind; [apply keeps_wr; by intros g [H1 H2 H3 H4 H5 H6] | intros _].
  apply keeps_bind; [apply keeps_rd | intros remain]. apply keeps_bind.
  - case_match; [| apply keeps_ret]. apply keeps_bind; [apply keeps_loadSeq | intros [err |]; [apply keeps_ret |]].
    apply keeps_bind; [apply keeps_wr; by intros g [H1 H2 H3 H4 H5 H6] | intros _; apply keeps_ret].
  - intros [err |]; [apply keeps_ret |].
    apply keeps_bind; [apply keeps_wr; by intros g [H1 H2 H3 H4 H5 H6] | intros _].
    apply keeps_bind; [apply keeps_rd | intros; apply keeps_ret].
Qed.

Lemma keeps_enqueue now m : keeps (enqueue now m).
Proof.
  apply keeps_bind; [unfold GetChatMessage; case_match; [apply keeps_ret | apply keeps_panic] |].
  intros [[err |] cm]; [apply keeps_ret |].
  apply keeps_bind; [apply keeps_nextSeq | intros [seq [err |]]; [apply keeps_ret |]].
  apply keeps_bind.
  - case_match; [| apply keeps_ret]. apply keeps_bind; [apply keeps_rd | intros; apply keeps_env].
  - intros [err |]; [apply keeps_ret | apply keeps_send].
Qed.

Lemma keeps_Update ci : keeps (Update ci).
Proof.
  apply keeps_bind; [| intros; apply keeps_ret]. apply keeps_wr. by intros g [H1 H2 H3 H4 H5 H6].
Qed.

Lemma keeps_Subscribe now id ex : keeps (Subscribe now id ex).
Proof.
  apply keeps_bind; [destruct ex; (apply keeps_ret || apply keeps_panic) | intros [so | err]; [| apply keeps_ret]].
  intros g e r g' e' Hg. unfold bind at 1. cbn [rd gets fst].
  destruct (Closed (info g)) eqn:Hc; [by apply keeps_ret |].
  destruct (Blocked (info g)); [by apply keeps_ret |].
  assert (Hsub : forall s, chan_inv (set_subscribers s g)).
  { intros s. destruct Hg. split; simpl; try done. congruence. }
  unfold bind at 1. cbn [rd gets fst]. destruct (subscribers g !! id) as [sb |].
  { by intros [= <- <- <-]. }
  case_match; [by apply keeps_ret |].
  unfold bind at 1. cbn [wr modify fst snd]. apply keeps_bind; [apply keeps_enqueueNotify | | apply Hsub].
  intros _. apply keeps_bind; [apply keeps_rd | intros members].
  apply keeps_bind; [apply keeps_enqueueNotify | intros; apply keeps_ret].
Qed.

Lemma keeps_Unsubscribe now id : keeps (Unsubscribe now id).
Proof.
  intros g e r g' e' Hg. unfold Unsubscribe, bind at 1. cbn [rd gets fst].
  destruct (subscribers g !! id) as [sb |] eqn:Hs; [| by apply keeps_ret].
  unfold bind at 1. cbn [wr modify fst snd].
  apply keeps_bind; [apply keeps_enqueueNotify | intros; apply keeps_ret |].
  destruct Hg as [H1 H2 H3 H4 H5 H6]. split; simpl; try done.
  intros Hc. rewrite H3 in Hs by done. by rewrite lookup_empty in Hs.
Qed.

Lemma keeps_Publish now msg : keeps (Publish now msg).
Proof.
  apply keeps_bind; [apply keeps_rd | intros i]. case_match; [apply keeps_ret |].
  destruct msg as [m | ty |]; [| apply keeps_ret | apply keeps_panic].
  case_match; [apply keeps_ret |]. apply keeps_bind; [apply keeps_rd | intros subs].
  repeat (case_match; try apply keeps_ret); [apply keeps_enqueueNotify | apply keeps_enqueue].
Qed.

Lemma keeps_Close g e r g' e' : chan_inv g -> Close (g, e) = (Val r, (g', e')) -> chan_inv g'.
Proof.
  intros [H1 H2 H3 H4 H5 H6]. unfold Close. run. simpl.
  destruct (messages_closed g); [done |]. intros [= <- <- <-]. by split.
Qed.

Lemma keeps_push m : keeps (push m).
Proof.
  apply keeps_bind; [apply keeps_rd | intros subs]. apply keeps_foreach. intros p.
  case_match; [| apply keeps_ret]. apply keeps_bind; [apply keeps_env | intros; apply keeps_ret].
Qed.

Lemma keeps_wstep now g e g' e' : wstep now (g, e) (g', e') -> chan_inv g -> chan_inv g'.
Proof.
  intros Hs Hg. pose proof Hg as [H1 H2 H3 H4 H5 H6].
  inversion Hs; subst; clear Hs;
    match goal with Hw : worker _ = Some _ |- _ => rewrite Hw in *; rename Hw into Hwk end.
  - split; simpl; rewrite ?Hwk; done.
  - split; simpl; rewrite ?Hwk; done.
  - eapply keeps_push; [| eassumption].
    match goal with Hm : messages _ = _ |- _ => rename Hm into Hmm end.
    rewrite Hmm in *. split; simpl in *; rewrite ?Hwk; try done; [lia |].
    rewrite H6, int32_small by (unfold queue_cap in *; lia). lia.
  - split; simpl; rewrite ?Hwk; done.
  - split; simpl; rewrite ?Hwk; done.
  - match goal with Hf : finish _ = _ |- _ => injection Hf as <- <- end.
    assert (Hl : messages g = []) by (destruct (messages g); [done | simpl in *; lia]).
    split; simpl; try done. by rewrite Hl.
  - match goal with Hm : messages _ = _ |- _ => rename Hm into Hmm end.
    rewrite Hmm in *. split; simpl in *; try done; lia.
  - match goal with Hf : finish _ = _ |- _ => injection Hf as <- <- end.
    match goal with Hm : messages _ = _ |- _ => rename Hm into Hmm end.
    split; simpl; try done. by rewrite Hmm.
Qed.
End properties.

(** ** Runs of a channel *)

Inductive chan_op :=
  | OpUpdate (ci : ChanInfo)
  | OpSubscribe (now : Z) (id : SubscriberID) (ex : extra)
  | OpUnsubscribe (now : Z) (id : SubscriberID)
  | OpPublish (now : Z) (msg : message_arg)
  | OpClose.

Definition run_chan_op {E} `{ChanEnv E} (op : chan_op) : GoM (Channel * E) error :=
  match op with
  | OpUpdate ci => Update ci
  | OpSubscribe now id ex => Subscribe now id ex
  | OpUnsubscribe now id => Unsubscribe now id
  | OpPublish now msg => Publish now msg
  | OpClose => Close
  end.

(** One operation that returns, or one step of the worker. *)
Inductive chan_step {E} `{ChanEnv E} : Channel * E -> Channel * E -> Prop :=
  | step_op op err s s' : run_chan_op op s = (Val err, s') -> chan_step s s'
  | step_worker now s s' : wstep now s s' -> chan_step s s'.

Definition created {E} `{ChanEnv E} (s : Channel * E) : Prop :=
  exists id now e0, NewChannel id now e0 = ((nil_error, s.1), s.2).

Definition chan_reachable {E} `{ChanEnv E} (s : Channel * E) : Prop :=
  exists s0, created s0 /\ rtc chan_step s0 s.

Section reachable.
Context {E : Type} `{ChanEnv E}.

Lemma created_inv s : created s -> chan_inv s.1.
Proof.
  destruct s as [g0 e1]. intros (id & now & e0 & Hn). unfold NewChannel in Hn.
  destruct (loadSeq (empty_channel id now, e0)) as [[err | why] [g e']] eqn:El; simplify_eq/=;
    (eapply keeps_loadSeq; [apply chan_inv_empty | exact El]).
Qed.

Lemma chan_step_inv s s' : chan_step s s' -> chan_inv s.1 -> chan_inv s'.1.
Proof.
  intros Hs Hg. destruct Hs as [op err [g e] [g' e'] Hr | now [g e] [g' e'] Hw]; simpl in *.
  - destruct op; simpl in Hr.
    + by eapply keeps_Update.
    + by eapply keeps_Subscribe.
    + by eapply keeps_Unsubscribe.
    + by eapply keeps_Publish.
    + by eapply keeps_Close.
  - by eapply keeps_wstep.
Qed.

Lemma reachable_inv s : chan_reachable s -> chan_inv s.1.
Proof.
  intros (s0 & Hc & Hr). apply created_inv in Hc. induction Hr as [s | s0 s1 s2 Hs Hr IH]; [done |].
  apply IH. by eapply chan_step_inv.
Qed.

(** C24: in every state a channel reaches by its operations, in any order, interleaved with the steps of its
    worker, each operation and each step taken whole ([ChannelRace] interleaves their actions, and there a message
    can be left without a worker): the queue holds at most 100 messages; a message waits in it only while a worker is
    running; the running flag and the counter agree with the worker and the queue, except while a
    stopped worker drains; a closed channel has no subscribers. *)
Theorem channel_invariant s :
  chan_reachable s ->
  (length (messages s.1) <= 100)%nat /\
  (worker s.1 = None -> messages s.1 = []) /\
  (queueRunning s.1 = 0 <-> worker s.1 = None) /\
  ((forall d, worker s.1 <> Some (WDrain d)) -> queued s.1 = Z.of_nat (length (messages s.1))) /\
  (Closed (info s.1) = true -> subscribers s.1 = ∅ /\ messages_closed s.1 = true).
Proof.
  intros Hr. pose proof (reachable_inv s Hr) as [H1 H2 H3 H4 H5 H6]. split_and!.
  - exact H1.
  - done.
  - rewrite H4. by destruct (worker s.1).
  - intros Hd. destruct (worker s.1) as [[| | d] |]; try done. by destruct (Hd d).
  - intros Hc. split; [by apply H3 | congruence].
Qed.

Definition no_panic {A} (m : GoM (Channel * E) A) : Prop :=
  forall g e, messages_closed g = false -> exists a g' e', m (g, e) = (Val a, (g', e')) /\ messages_closed g' = false.

Lemma no_panic_bind {A B} (m : GoM (Channel * E) A) (k : A -> GoM (Channel * E) B) :
  no_panic m -> (forall a, no_panic (k a)) -> no_panic (bind m k).
Proof.
  intros Hm Hk g e Hc. destruct (Hm g e Hc) as (a & g1 & e1 & E1 & Hc1).
  unfold bind. rewrite E1. by apply Hk.
Qed.
Lemma no_panic_ret {A} (a : A) : no_panic (ret a).
Proof. intros g e Hc. by exists a, g, e. Qed.
Lemma no_panic_rd {A} (f : Channel -> A) : no_panic (rd f).
Proof. intros g e Hc. by exists (f g), g, e. Qed.
Lemma no_panic_env {R} (f : E -> R * E) : no_panic (env_call f).
Proof. intros g e Hc. unfold env_call. simpl. destruct (f e) as [r e']. by exists r, g, e'. Qed.
Lemma no_panic_wr f : (forall g, messages_closed (f g) = messages_closed g) -> no_panic (wr f).
Proof. intros Hf g e Hc. exists tt, (f g), e. split; [done |]. by rewrite Hf. Qed.
Lemma no_panic_send m : no_panic (chan_send m).
Proof.
  intros g e Hc. unfold chan_send. run. simpl. rewrite Hc. case_match.
  - by eexists true, _, _.
  - by eexists false, _, _.
Qed.
End reachable.

(** Walks through the monadic structure of an operation. *)
Ltac no_panic_step :=
  match goal with
  | |- no_panic (ret _) => apply no_panic_ret
  | |- no_panic (rd _) => apply no_panic_rd
  | |- no_panic (env_call _) => apply no_panic_env
  | |- no_panic (chan_send _) => apply no_panic_send
  | |- no_panic (wr _) => apply no_panic_wr; done
  | |- no_panic (bind _ _) => apply no_panic_bind; [| intros ?]
  | |- no_panic (match ?x with _ => _ end) => destruct x eqn:?
  end.
Ltac no_panic_all := repeat no_panic_step.

Section behaviour.
Context {E : Type} `{ChanEnv E}.
Implicit Types (g : Channel) (e : E).

Lemma no_panic_check now : no_panic (E := E) (checkMsgQueue now).
Proof. unfold checkMsgQueue. no_panic_all. Qed.
Lemma no_panic_notify now m : no_panic (E := E) (enqueueNotify now m).
Proof. unfold enqueueNotify. no_panic_all. apply no_panic_check. Qed.
Lemma no_panic_loadSeq : no_panic (E := E) loadSeq.
Proof. unfold loadSeq. no_panic_all. Qed.
Lemma no_panic_nextSeq : no_panic (E := E) nextSeq.
Proof. unfold nextSeq. no_panic_all. apply no_panic_loadSeq. Qed.
Lemma no_panic_enqueue now m : is_Some (pm_Message m) -> no_panic (E := E) (enqueue now m).
Proof.
  intros [msg Hm]. unfold enqueue, GetChatMessage. rewrite Hm.
  apply no_panic_bind; [apply no_panic_ret |]. intros [[err |] cm]; [apply no_panic_ret |].
  apply no_panic_bind; [apply no_panic_nextSeq | intros [seq [err |]]; no_panic_all; apply no_panic_check].
Qed.

(** *** Who may publish *)

(** What [Publish] requires of the sender, read off its guards. *)
Definition may_publish (g : Channel) (m : PublishMessage) : Prop :=
  Closed (info g) = false /\ (pm_Type m = TypeNotify \/ pm_Type m = TypeMessage) /\
  exists s, subscribers g !! pm_From m = Some s /\ canWrite s = true /\
    (Muted (info g) = true -> isSystem s = true /\ isAdmin s = true) /\
    (Blocked (info g) = true -> isSystem s = true).

#[global] Instance may_publish_dec g m : Decision (may_publish g m).
Proof.
  unfold may_publish. destruct (subscribers g !! pm_From m) as [s |] eqn:Hs.
  - destruct (decide (Closed (info g) = false /\ (pm_Type m = TypeNotify \/ pm_Type m = TypeMessage) /\ canWrite s = true /\
      (Muted (info g) = true -> isSystem s = true /\ isAdmin s = true) /\ (Blocked (info g) = true -> isSystem s = true))) as [Hp | Hn].
    + left. naive_solver.
    + right. intros (Hc & Ht & s' & [= <-] & Hr). tauto.
  - right. intros (_ & _ & s & [=] & _).
Defined.

Lemma send_check_run now g e m full :
  messages_closed g = false ->
  exists g', (bind (chan_send m) (fun sent => if sent : bool then checkMsgQueue now else ret full)) (g, e) =
    (Val (if (length (messages g) <? queue_cap)%nat then nil_error else full), (g', e)) /\
    messages g' = (if (length (messages g) <? queue_cap)%nat then messages g ++ [m] else messages g) /\
    subscribers g' = subscribers g /\ info g' = info g /\ seq_ g' = seq_ g /\ seqRemain g' = seqRemain g /\
    messages_closed g' = false /\
    ((length (messages g) < queue_cap)%nat -> queueRunning g = 0 -> worker g' = Some WLoop) /\
    (queueRunning g <> 0 -> worker g' = worker g /\ queueRunning g' = queueRunning g).
Proof.
  intros Hc. unfold chan_send, checkMsgQueue. run. simpl. rewrite Hc. simpl.
  destruct (Nat.ltb_spec (length (messages g)) queue_cap); simpl.
  - destruct (Z.eqb_spec (queueRunning g) 0); simpl; eexists; split_and!; try reflexivity; done.
  - eexists. split_and!; try reflexivity; try done. lia.
Qed.

Lemma Publish_notify_run now m g e s :
  Closed (info g) = false -> pm_Type m = TypeNotify -> subscribers g !! pm_From m = Some s ->
  canWrite s = true -> (Muted (info g) = true -> isSystem s = true /\ isAdmin s = true) ->
  (Blocked (info g) = true -> isSystem s = true) ->
  Publish now (AsPublish m) (g, e) = enqueueNotify now m (g, e).
Proof.
  intros Hc Ht Hs Hw Hm Hb. unfold Publish. run. simpl. rewrite Hc, Ht. simpl. rewrite Hs, Hw. simpl.
  destruct (Muted (info g)), (Blocked (info g)); simpl;
    try (destruct (Hm eq_refl) as [Hsy Had]; rewrite ?Hsy, ?Had); rewrite ?(Hb eq_refl); done.
Qed.

Lemma Publish_message_run now m g e s :
  Closed (info g) = false -> pm_Type m = TypeMessage -> subscribers g !! pm_From m = Some s ->
  canWrite s = true -> (Muted (info g) = true -> isSystem s = true /\ isAdmin s = true) ->
  (Blocked (info g) = true -> isSystem s = true) ->
  Publish now (AsPublish m) (g, e) = enqueue now m (g, e).
Proof.
  intros Hc Ht Hs Hw Hm Hb. unfold Publish. run. simpl. rewrite Hc, Ht. simpl. rewrite Hs, Hw. simpl.
  destruct (Muted (info g)), (Blocked (info g)); simpl;
    try (destruct (Hm eq_refl) as [Hsy Had]; rewrite ?Hsy, ?Had); rewrite ?(Hb eq_refl); done.
Qed.

Lemma Publish_refused now m g e :
  ~ may_publish g m -> exists err, Publish now (AsPublish m) (g, e) = (Val (Some err), (g, e)).
Proof.
  intros Hn. unfold Publish. run. simpl. destruct (Closed (info g)) eqn:Hc; [eauto |].
  destruct (isValidMessageType (pm_Type m)) eqn:Hv; simpl; [| eauto].
  destruct (subscribers g !! pm_From m) as [s |] eqn:Hs; [| eauto].
  destruct (canWrite s) eqn:Hw; simpl; [| eauto].
  destruct (Muted (info g) && (negb (isSystem s) || negb (isAdmin s))) eqn:Hm; [eauto |].
  destruct (Blocked (info g) && negb (isSystem s)) eqn:Hb; [eauto |].
  assert (Hok : forall t, pm_Type m = t -> t = TypeNotify \/ t = TypeMessage -> False).
  { intros t <- Ht. apply Hn. split_and!; [done | done |]. exists s. split_and!; try done.
    - intros Hmu. rewrite Hmu in Hm. simpl in Hm. by destruct (isSystem s), (isAdmin s).
    - intros Hbl. rewrite Hbl in Hb. simpl in Hb. by destruct (isSystem s). }
  destruct (Z.eqb_spec (pm_Type m) TypeNotify) as [Et | _]; [exfalso; eauto |].
  destruct (Z.eqb_spec (pm_Type m) TypeMessage) as [Et | _]; [exfalso; eauto |]. simpl. eauto.
Qed.

(** The nil arguments an operation on an open channel does not survive. *)
Definition nil_given (g : Channel) (op : chan_op) : Prop :=
  match op with
  | OpSubscribe _ _ ex => ex = ExtraNil
  | OpPublish _ AsNil => True
  | OpPublish _ (AsPublish m) => pm_Message m = None /\ pm_Type m = TypeMessage /\ may_publish g m
  | _ => False
  end.

Lemma nil_given_panics g e op :
  Closed (info g) = false -> nil_given g op -> exists why, run_chan_op op (g, e) = (Panics why, (g, e)).
Proof.
  intros Hc Hn. destruct op as [ci | now id ex | now id | now msg |]; cbn [nil_given run_chan_op] in *; try done.
  - subst ex. by eexists.
  - destruct msg as [m | ty |]; [| done |].
    + destruct Hn as (Hm & Ht & _ & _ & s & Hs & Hw & Hmu & Hb). rewrite (Publish_message_run now m g e s) by done.
      unfold enqueue, GetChatMessage. rewrite Hm. by eexists.
    + unfold Publish. run. simpl. rewrite Hc. by eexists.
Qed.

Lemma Publish_returns now m g e :
  messages_closed g = Closed (info g) -> ~ nil_given g (OpPublish now (AsPublish m)) ->
  exists err s', Publish now (AsPublish m) (g, e) = (Val err, s').
Proof.
  intros Hmc Hn. destruct (decide (may_publish g m)) as [Hp | Hp]; [| destruct (Publish_refused now m g e Hp) as [err ->]; eauto].
  pose proof Hp as (Hc & [Ht | Ht] & s & Hs & Hw & Hmu & Hb).
  - rewrite (Publish_notify_run now m g e s) by done.
    destruct (no_panic_notify now m g e) as (a & g' & e' & E1 & _); [congruence | eauto].
  - rewrite (Publish_message_run now m g e s) by done.
    destruct (no_panic_enqueue now m) with (g := g) (e := e) as (a & g' & e' & E1 & _); [| congruence | eauto].
    destruct (pm_Message m) eqn:Hm; [by eexists | destruct Hn; by split_and!].
Qed.

Lemma operation_returns g e op :
  messages_closed g = false -> Closed (info g) = false -> ~ nil_given g op ->
  exists err s', run_chan_op op (g, e) = (Val err, s').
Proof.
  intros Hm Hc Hn. assert (Hv : forall m : GoM (Channel * E) error, no_panic m -> exists err s', m (g, e) = (Val err, s')).
  { intros m Hk. destruct (Hk g e Hm) as (a & g' & e' & E1 & _). eauto. }
  destruct op as [ci | now id ex | now id | now msg |]; cbn [run_chan_op].
  - apply Hv. unfold Update. no_panic_all.
  - apply Hv. unfold Subscribe. apply no_panic_bind; [destruct ex; (apply no_panic_ret || by destruct Hn) |].
    intros so. no_panic_all; (apply no_panic_notify || apply no_panic_rd).
  - apply Hv. unfold Unsubscribe. no_panic_all; apply no_panic_notify.
  - destruct msg as [m | ty |]; [apply Publish_returns; congruence || done | | by destruct Hn].
    apply Hv. unfold Publish. no_panic_all.
  - unfold Close. run. simpl. rewrite Hm. eauto.
Qed.

(** C30: on a reachable channel that has not been closed an operation panics exactly when it is given a nil it
    dereferences, and then it changes nothing: nil extra options of [Subscribe], a nil message of [Publish], or a chat
    message without a body from a sender that may publish; every other operation returns, the first [Close] included. On a closed channel
    [Close] panics, and so does [Subscribe] with nil options; [Update] still changes the information, and only it; every other operation returns an
    error and changes nothing. *)
Theorem operations_do_not_panic s op :
  chan_reachable s ->
  (Closed (info s.1) = false ->
    (nil_given s.1 op -> exists why, run_chan_op op s = (Panics why, s)) /\
    (~ nil_given s.1 op -> exists err s', run_chan_op op s = (Val err, s'))) /\
  (Closed (info s.1) = true -> match op with
     | OpClose | OpSubscribe _ _ ExtraNil => exists why s', run_chan_op op s = (Panics why, s')
     | OpUpdate ci => exists i, run_chan_op op s = (Val nil_error, (set_info i s.1, s.2)) /\ Closed i = true /\
         Muted i = Muted ci /\ Blocked i = Blocked ci /\ Secret i = Secret ci
     | _ => exists err, run_chan_op op s = (Val (Some err), s)
     end).
Proof.
  intros Hr. pose proof (reachable_inv s Hr) as [H1 H2 H3 H4 H5 H6]. destruct s as [g e]. simpl in *. split; intros Hc.
  - split; intros Hn; [by apply nil_given_panics | apply operation_returns; congruence || done].
  - destruct op as [ci | now id ex | now id | now msg |]; simpl.
    + eexists. by split_and!.
    + destruct ex; unfold Subscribe; run; simpl; rewrite ?Hc; eauto.
    + unfold Unsubscribe. run. simpl. rewrite (H3 Hc), lookup_empty. eauto.
    + unfold Publish. run. simpl. rewrite Hc. eauto.
    + unfold Close. run. simpl. rewrite H2, Hc. eauto.
Qed.

(** C31: a message enters a channel's queue only if its sender is a subscriber with write
    permission, the channel is open, and, when it is muted or blocked, the sender has the
    system (and admin) permission; otherwise [Publish] returns an error and neither the channel nor its
    environment changes. A notification that meets these conditions is queued, last, unless the
    queue is full. *)
Theorem Publish_authorized now m g e :
  messages_closed g = Closed (info g) ->
  (~ may_publish g m -> exists err, Publish now (AsPublish m) (g, e) = (Val (Some err), (g, e))) /\
  (may_publish g m -> pm_Type m = TypeNotify -> exists err g',
     Publish now (AsPublish m) (g, e) = (Val err, (g', e)) /\
     (err = nil_error <-> (length (messages g) < queue_cap)%nat) /\
     messages g' = (if (length (messages g) <? queue_cap)%nat then messages g ++ [m] else messages g) /\
     subscribers g' = subscribers g /\ info g' = info g).
Proof.
  intros Hmc. split; [apply Publish_refused |].
  intros (Hc & _ & s & Hs & Hw & Hm & Hb) Ht.
  destruct (send_check_run now g e m (errors_New "notify message queue is full")) as
    (g' & Hr & H1 & H2 & H3 & _); [congruence |].
  eexists _, g'. split_and!; [| | exact H1 | done | done].
  - rewrite (Publish_notify_run now m g e s) by done. exact Hr.
  - destruct (Nat.ltb_spec (length (messages g)) queue_cap); split; try done; lia.
Qed.

(** *** Joining *)

(** A subscriber that is not in the channel and shows what it asks for joins, and nobody else changes. *)
Lemma Subscribe_admits now id so g e :
  Closed (info g) = false -> Blocked (info g) = false -> messages_closed g = false ->
  subscribers g !! id = None ->
  Secret (info g) = "" \/ so_Ticket so <> "" /\ so_Ticket so = ticket_for (so_Perm so) id (Secret (info g)) ->
  exists g', Subscribe now id (ExtraOptions so) (g, e) = (Val nil_error, (g', e)) /\
    subscribers g' = <[id := NewSubscriberInfo so]> (subscribers g) /\ info g' = info g /\ messages_closed g' = false.
Proof.
  intros Hc Hb Hmc Hid Hsec. unfold Subscribe. cbn [getSubscriberOptions].
  unfold bind at 1. cbn [ret]. unfold bind at 1. cbn [rd gets fst]. rewrite Hc, Hb.
  unfold bind at 1. cbn [rd gets fst]. rewrite Hid.
  assert (Hg : negb (bool_decide (Secret (info g) = "")) && (bool_decide (so_Ticket so = "") ||
    negb (bool_decide (ticket_for (so_Perm so) id (Secret (info g)) = so_Ticket so))) = false).
  { destruct Hsec as [-> | [Ht Hs]]; [done |]. rewrite (bool_decide_true (_ = so_Ticket so)) by done.
    rewrite (bool_decide_false (so_Ticket so = "")) by done. apply andb_false_r. }
  rewrite Hg. unfold bind at 1. cbn [wr modify fst snd]. set (g1 := set_subscribers _ g).
  destruct (send_check_run now g1 e (notify (NotifyUid id) NotifyTypeOnline [])
    (errors_New "notify message queue is full")) as (g2 & Hr2 & _ & Hs2 & Hi2 & _ & _ & Hc2 & _); [done |].
  unfold bind at 1. unfold enqueueNotify at 1. rewrite Hr2. unfold bind at 1. cbn [GetSubscribers rd gets fst].
  destruct (send_check_run now g2 e (notify (NotifyMembers (map_to_list (subscribers g2)).*1) NotifyOnlineMembers [id])
    (errors_New "notify message queue is full")) as (g3 & Hr3 & _ & Hs3 & Hi3 & _ & _ & Hc3 & _); [done |].
  unfold bind at 1. unfold enqueueNotify at 1. rewrite Hr3. exists g3. split_and!; [done | by rewrite Hs3, Hs2 | by rewrite Hi3, Hi2 | done].
Qed.

(** a subscriber that is not yet in a channel with a secret joins exactly when it presents the
    ticket of its permission, its identifier and the secret; a refused one changes nothing. *)
Theorem Subscribe_needs_ticket now id so g e err s' :
  Closed (info g) = false -> Blocked (info g) = false -> messages_closed g = false ->
  subscribers g !! id = None -> Secret (info g) <> "" ->
  Subscribe now id (ExtraOptions so) (g, e) = (Val err, s') ->
  (err = nil_error <-> so_Ticket so = ticket_for (so_Perm so) id (Secret (info g))) /\
  (err <> nil_error -> s' = (g, e)) /\
  (err = nil_error -> subscribers s'.1 = <[id := NewSubscriberInfo so]> (subscribers g)).
Proof.
  intros Hc Hb Hmc Hid Hsec.
  assert (Hne : ticket_for (so_Perm so) id (Secret (info g)) <> "").
  { intros E0. apply (f_equal String.length) in E0. unfold ticket_for, MD5_hex in E0.
    rewrite length_hex_Encode in E0. unfold md5_Sum in E0.
    destruct (foldl md5_block _ _) as [[[a b] c] d].
    rewrite !length_app, !length_bytes_le in E0. done. }
  destruct (decide (ticket_for (so_Perm so) id (Secret (info g)) = so_Ticket so)) as [Et | Et].
  - destruct (Subscribe_admits now id so g e) as (g' & -> & Hs & _); try done.
    { right. split; congruence. }
    intros [= <- <-]. by split_and!.
  - unfold Subscribe. cbn [getSubscriberOptions].
    unfold bind at 1. cbn [ret]. unfold bind at 1. cbn [rd gets fst]. rewrite Hc, Hb.
    unfold bind at 1. cbn [rd gets fst]. rewrite Hid.
    rewrite (bool_decide_false (Secret (info g) = "")) by done. cbn [negb andb].
    rewrite (bool_decide_false (_ = so_Ticket so)) by done. cbn [negb]. rewrite orb_true_r.
    intros [= <- <-]. split_and!; done || (split; done || congruence).
Qed.

(** a subscriber already in the channel changes its own permissions without a ticket. *)
Theorem resubscribe_needs_no_ticket now id so sb g e :
  Closed (info g) = false -> Blocked (info g) = false -> subscribers g !! id = Some sb ->
  Subscribe now id (ExtraOptions so) (g, e) =
    (Val nil_error, (set_subscribers (<[id := MkSubscriberInfo (so_Perm so)]> (subscribers g)) g, e)).
Proof. intros Hc Hb Hid. unfold Subscribe. run. simpl. rewrite Hc, Hb. simpl. by rewrite Hid. Qed.
End behaviour.

(** ** Sequence numbers *)

Section sequence.
Context {E : Type} `{ChanEnv E}.

(** When the segment is used up, the next number is the first of the segment the store gives. *)
Lemma nextSeq_renews g e s l e' :
  - 2 ^ 63 < seqRemain g <= 1 -> in_int64 (s - 1) -> in_int64 s ->
  NextSegmentSequence (ch_id g) (info g) e = ((s, l, nil_error), e') ->
  nextSeq (g, e) = (Val (s, nil_error), (set_seqs s l g, e')).
Proof.
  intros Hr Hs1 Hs Hseg. unfold nextSeq, loadSeq. run. simpl.
  rewrite (int64_small (seqRemain g - 1)) by (unfold in_int64; lia).
  destruct (Z.leb_spec (seqRemain g - 1) 0); [| lia]. cbn. rewrite Hseg. cbn.
  rewrite (int64_small (s - 1)) by done. rewrite (int64_small (s - 1 + 1)) by (unfold in_int64 in *; lia).
  by replace (s - 1 + 1) with s by lia.
Qed.

(** Within it, the number is the one after the last, and nothing is asked of the store. *)
Lemma nextSeq_within g e :
  1 < seqRemain g <= MaxInt64 -> in_int64 (seq_ g) -> seq_ g < MaxInt64 ->
  nextSeq (g, e) = (Val (seq_ g + 1, nil_error), (set_seqs (seq_ g + 1) (seqRemain g - 1) g, e)).
Proof.
  intros Hrem Hs Hmax. unfold nextSeq, MaxInt64 in *. run. cbn.
  rewrite (int64_small (seqRemain g - 1)) by (unfold in_int64; lia).
  destruct (Z.leb_spec (seqRemain g - 1) 0); [lia |]. cbn.
  by rewrite (int64_small (seq_ g + 1)) by (unfold in_int64 in *; lia).
Qed.

(** The store records every message. *)
Context (Hstore : forall id cm e, exists e', StoreChannelMessage id cm e = (nil_error, e')).

(** Publishing messages one after the other, the worker not running in between. *)
Fixpoint publish_all (now : Z) (ms : list PublishMessage) : GoM (Channel * E) (list error) :=
  match ms with
  | [] => ret []
  | m :: ms' => bind (Publish now (AsPublish m)) (fun err => bind (publish_all now ms') (fun errs => ret (err :: errs)))
  end.

(** The message has the chat message [cm] as its body. *)
Definition carries (m : PublishMessage) (cm : ChatMessage) : Prop :=
  exists msg, pm_Message m = Some msg /\ Deserialize (Data msg) zero_ChatMessage = (nil_error, cm).

(** The messages as they are queued: each carries its number, in the message and in its data. *)
Fixpoint numbered (seq : Z) (ms : list (PublishMessage * ChatMessage)) : list PublishMessage :=
  match ms with
  | [] => []
  | (m, cm) :: ms' => with_data m (seq + 1) (set_cm_Seq (seq + 1) cm) :: numbered (seq + 1) ms'
  end.

Lemma Publish_run now m cm g e :
  may_publish g m -> pm_Type m = TypeMessage -> carries m cm -> messages_closed g = false ->
  1 < seqRemain g <= MaxInt64 -> in_int64 (seq_ g) -> seq_ g < MaxInt64 -> (length (messages g) < queue_cap)%nat ->
  exists g' e', Publish now (AsPublish m) (g, e) = (Val nil_error, (g', e')) /\
    messages g' = messages g ++ [with_data m (seq_ g + 1) (set_cm_Seq (seq_ g + 1) cm)] /\
    seq_ g' = seq_ g + 1 /\ seqRemain g' = seqRemain g - 1 /\ messages_closed g' = false /\
    subscribers g' = subscribers g /\ info g' = info g.
Proof.
  intros (Hcl & _ & s & Hs & Hw & Hmu & Hb) Ht (msg & Hm & Hbody) Hc Hrem Hseq Hmax Hlen.
  rewrite (Publish_message_run now m g e s) by done. unfold enqueue, GetChatMessage. rewrite Hm.
  erewrite bind_Val by reflexivity. rewrite Hbody. rewrite (bind_Val _ _ _ _ _ (nextSeq_within g e Hrem Hseq Hmax)).
  set (m' := with_data m _ _). set (g1 := set_seqs _ _ g).
  destruct (Hstore (ch_id g) (set_cm_Seq (seq_ g + 1) cm) e) as (e2 & Hst).
  assert (E1 : (if pm_Type m' =? TypeMessage
      then bind (rd ch_id) (fun id => env_call (StoreChannelMessage id (set_cm_Seq (seq_ g + 1) cm)))
      else ret nil_error) (g1, e) = (Val nil_error, (g1, e2))).
  { change (pm_Type m') with (pm_Type m). rewrite Ht. run. simpl. by rewrite Hst. }
  rewrite (bind_Val _ _ _ _ _ E1).
  destruct (send_check_run now g1 e2 m' (errors_New "too many messages,the group message queue is full"))
    as (g2 & Hr2 & Hm2 & Hsub2 & Hi2 & Hs2 & Hrem2 & Hc2 & _); [done |].
  change (messages g1) with (messages g) in *. rewrite (proj2 (Nat.ltb_lt _ _) Hlen) in *. exists g2, e2. by split_and!.
Qed.

(** C32: chat messages published one after the other to an open channel with room for them, by senders that
    may publish, to a store that records them, are all accepted and queued in order, numbered consecutively after
    the channel's last number, as long as the numbers of its segment last. *)
Theorem published_messages_numbered now ms : forall g e,
  Forall (fun p => may_publish g p.1 /\ pm_Type p.1 = TypeMessage /\ carries p.1 p.2) ms -> messages_closed g = false ->
  Z.of_nat (length ms) < seqRemain g <= MaxInt64 -> in_int64 (seq_ g) -> seq_ g + Z.of_nat (length ms) <= MaxInt64 ->
  (length (messages g) + length ms <= queue_cap)%nat ->
  exists g' e', publish_all now ms.*1 (g, e) = (Val (replicate (length ms) nil_error), (g', e')) /\
    messages g' = messages g ++ numbered (seq_ g) ms /\ seq_ g' = seq_ g + Z.of_nat (length ms).
Proof.
  induction ms as [| [m cm] ms IH]; intros g e Hms Hc Hrem Hseq Hmax Hlen.
  { exists g, e. simpl. rewrite app_nil_r. split_and!; [done | done | lia]. }
  apply Forall_cons in Hms as [(Hp & Ht & Hca) Hms]. simpl in *. unfold in_int64, MaxInt64 in *.
  destruct (Publish_run now m cm g e Hp Ht Hca Hc) as (g1 & e1 & Hr & Hm1 & Hs1 & Hrem1 & Hc1 & Hsub1 & Hi1);
    unfold in_int64, MaxInt64; try lia.
  destruct (IH g1 e1) as (g' & e' & Hr' & Hm' & Hs'); try (done || lia).
  { unfold may_publish in *. by rewrite Hsub1, Hi1. }
  { rewrite Hm1, length_app; simpl; lia. }
  exists g', e'. split_and!.
  - cbn [publish_all fmap list_fmap fst]. rewrite (bind_Val _ _ _ _ _ Hr). by rewrite (bind_Val _ _ _ _ _ Hr').
  - rewrite Hm', Hm1, Hs1, <- app_assoc. done.
  - rewrite Hs', Hs1. lia.
Qed.
End sequence.

(** ** Delivery *)

Section delivery.
Context {E : Type} `{ChanEnv E}.

(** The gateway calls of a push, in order. *)
Fixpoint deliver (ids : list SubscriberID) (m : option GlideMessage) (e : E) : E :=
  match ids with
  | [] => e
  | id :: ids' => deliver ids' m (gate_EnqueueMessage (NewID2 id) m e).2
  end.

Definition recipients (g : Channel) (m : PublishMessage) : list SubscriberID :=
  (filter (fun p => receives m p = true) (map_to_list (subscribers g))).*1.

Lemma foreach_push m l g e :
  foreach l (fun p : SubscriberID * SubscriberInfo =>
    if receives m p then
      bind (env_call (gate_EnqueueMessage (NewID2 p.1) (pm_Message m))) (fun _ => ret tt)
    else ret tt) (g, e) =
  (Val tt, (g, deliver (filter (fun p => receives m p = true) l).*1 (pm_Message m) e)).
Proof.
  revert e. induction l as [| p l IH]; intros e; [done |]. cbn [foreach]. rewrite filter_cons.
  destruct (receives m p) eqn:Hr.
  - rewrite decide_True by done. cbn [fmap list_fmap deliver]. unfold bind at 1 2, env_call. simpl.
    destruct (gate_EnqueueMessage _ _ e) as [r e'] eqn:Eg. simpl. apply IH.
  - rewrite decide_False by done. unfold bind at 1. simpl. apply IH.
Qed.

Lemma push_run m g e : push m (g, e) = (Val tt, (g, deliver (recipients g m) (pm_Message m) e)).
Proof. unfold push. run. simpl. apply foreach_push. Qed.

(** the worker hands a message to the gateway once for each subscriber that can read and, when
    the message names receivers, is one of them; to nobody else; whatever the gateway
    answers, the others still get it, and the channel is unchanged. *)
Theorem push_reaches_the_readers m g e :
  push m (g, e) = (Val tt, (g, deliver (recipients g m) (pm_Message m) e)) /\
  NoDup (recipients g m) /\
  forall id, id ∈ recipients g m <->
    exists s, subscribers g !! id = Some s /\ canRead s = true /\ (pm_To m = [] \/ id ∈ pm_To m).
Proof.
  split_and!; [apply push_run | |].
  - unfold recipients. eapply sublist_NoDup; [exact (NoDup_fst_map_to_list (subscribers g)) |].
    apply fmap_sublist, sublist_filter.
  - intros id. unfold recipients. rewrite list_elem_of_fmap. split.
    + intros ([id' s] & -> & [Hr Hin]%list_elem_of_filter). apply elem_of_map_to_list in Hin. simpl.
      exists s. unfold receives in Hr. simpl in Hr. apply andb_true_iff in Hr as [Hor Hread].
      split_and!; [done | done |]. apply orb_true_iff in Hor as [Ho | Ho]; apply bool_decide_eq_true in Ho; auto.
    + intros (s & Hs & Hread & Hto). exists (id, s). split; [done |]. apply list_elem_of_filter.
      split; [| by apply elem_of_map_to_list]. unfold receives. simpl. rewrite Hread, andb_true_r.
      apply orb_true_iff. destruct Hto; [left | right]; by apply bool_decide_eq_true.
Qed.

(** *** A worker that stops on an open channel *)

Definition draining (g : Channel) : Prop := exists d, worker g = Some (WDrain d).

(** Something of the environment that storing and numbering do not touch: what the gateway was given. *)
Context {X : Type} (sent : E -> X).
Context (Hstore : forall ch m e, sent (StoreChannelMessage ch m e).2 = sent e).
Context (Hseq : forall ch i e, sent (NextSegmentSequence ch i e).2 = sent e).

(** The worker drains, or it is gone and the queue is closed: no worker takes its place. *)
Definition no_worker (g : Channel) : Prop :=
  draining g /\ queueRunning g <> 0 \/ worker g = None /\ messages_closed g = true.
Definition silent (x : X) (s : Channel * E) : Prop := no_worker s.1 /\ sent s.2 = x.

Lemma silent_wr x f :
  (forall g, worker (f g) = worker g /\ queueRunning (f g) = queueRunning g /\ (messages_closed g = true -> messages_closed (f g) = true)) ->
  preserves (silent x) (wr f).
Proof.
  intros Hf [g e] [Hw Hx]. split; [| done]. destruct (Hf g) as (E1 & E2 & E3). unfold no_worker, draining in *. cbn in *.
  rewrite E1, E2. destruct Hw as [Hw | [Hw Hc]]; [by left | right; auto].
Qed.
Lemma silent_store x ch m : preserves (silent x) (env_call (StoreChannelMessage ch m)).
Proof. intros [g e] [Hw Hx]. unfold env_call. cbn. generalize (Hstore ch m e). destruct (StoreChannelMessage ch m e). cbn in *. intros Hk. exact (conj Hw (eq_trans Hk Hx)). Qed.
Lemma silent_seq x ch i : preserves (silent x) (env_call (NextSegmentSequence ch i)).
Proof. intros [g e] [Hw Hx]. unfold env_call. cbn. generalize (Hseq ch i e). destruct (NextSegmentSequence ch i e). cbn in *. intros Hk. exact (conj Hw (eq_trans Hk Hx)). Qed.
Lemma silent_rd {A} x (f : Channel -> A) : preserves (silent x) (rd f).
Proof. apply preserves_gets. Qed.

(** Sending does not start a worker: one drains, or nothing can be sent. *)
Lemma silent_send x now m full :
  preserves (silent x) (bind (chan_send m) (fun ok => if ok : bool then checkMsgQueue now else ret full)).
Proof.
  intros [g e] [Hw Hx]. destruct (messages_closed g) eqn:Hc.
  { unfold chan_send. run. simpl. by rewrite Hc. }
  destruct Hw as [[[d Hd] Hrun] | [_ Hcl]]; cbn in *; [| congruence].
  destruct (send_check_run now g e m full Hc) as (g' & -> & _ & _ & _ & _ & _ & _ & _ & Hk).
  destruct (Hk Hrun) as [E1 E2]. split; [left | done]. cbn. split; [exists d; congruence | congruence].
Qed.
Lemma silent_notify x now m : preserves (silent x) (enqueueNotify now m).
Proof. apply silent_send. Qed.

#[local] Hint Resolve silent_store silent_seq silent_rd silent_send silent_notify : preserves.
#[local] Hint Extern 1 (preserves (silent _) (wr _)) => apply silent_wr; intros ?; split_and!; done : preserves.

Lemma silent_loadSeq x : preserves (silent x) loadSeq.
Proof. unfold loadSeq. repeat preserves_step. Qed.
#[local] Hint Resolve silent_loadSeq : preserves.
Lemma silent_nextSeq x : preserves (silent x) nextSeq.
Proof. unfold nextSeq. repeat preserves_step. Qed.
#[local] Hint Resolve silent_nextSeq : preserves.
Lemma silent_enqueue x now m : preserves (silent x) (enqueue now m).
Proof.
  unfold enqueue, GetChatMessage. apply preserves_bind; [by destruct (pm_Message m); eauto with preserves |].
  intros [[err |] cm]; [apply preserves_ret |]. apply preserves_bind; [apply silent_nextSeq | intros [seq [err |]]; [apply preserves_ret |]].
  apply preserves_bind; [repeat preserves_step | intros [err |]; [apply preserves_ret | apply silent_send]].
Qed.
#[local] Hint Resolve silent_enqueue : preserves.

Lemma silent_op x op : preserves (silent x) (run_chan_op op).
Proof.
  destruct op as [ci | now id ex | now id | now msg |]; cbn [run_chan_op].
  - unfold Update. repeat preserves_step.
  - unfold Subscribe, getSubscriberOptions, GetSubscribers. repeat preserves_step.
  - unfold Unsubscribe. repeat preserves_step.
  - unfold Publish. destruct msg; repeat preserves_step.
  - unfold Close. repeat preserves_step.
Qed.

Lemma silent_worker x now s s' : wstep now s s' -> silent x s -> silent x s'.
Proof.
  intros Hs [Hw Hx]. unfold no_worker, draining in Hw.
  destruct Hs as [now g e Hk | now g e Hk | now g e m ms r s' Hk | now g e Hk | now g e Hk | now g e s' Hk | now g e m ms d Hk | now g e d s' Hk Hm Hc Hf];
    cbn [fst snd] in *; (destruct Hw as [[[d' Hd] Hrun] | [Hn Hcl]]; [| congruence]); try congruence.
  - split; [left | done]. split; [by eexists | done].
  - injection Hf as <-. split; [by right | done].
Qed.

Lemma silent_run x s s' : rtc chan_step s s' -> silent x s -> silent x s'.
Proof.
  induction 1 as [s | s s1 s' Hs _ IH]; [done |]. intros Hx. apply IH.
  destruct Hs as [op err s s1 Hr | now s s1 Hw]; [| by eapply silent_worker].
  pose proof (silent_op x op s Hx) as Hp. by rewrite Hr in Hp.
Qed.

(** C39: once its worker has gone to sleep with messages in the queue, a channel never calls the gateway again: in
    every run from there, of any operations and worker steps, what the gateway was given stays as it is. As long as the channel is open
    that worker stays and only discards messages, and it does nothing when they are gone; when
    the channel is closed it ends, and no other starts. *)
Theorem drained_channel_delivers_nothing s s' :
  chan_reachable s -> draining s.1 -> rtc chan_step s s' ->
  sent s'.2 = sent s.2 /\
  (Closed (info s'.1) = false -> draining s'.1 /\ (messages s'.1 = [] -> forall now s'', ~ wstep now s' s'')) /\
  (draining s'.1 \/ worker s'.1 = None).
Proof.
  intros Hr Hd Hrun.
  assert (Hs : silent (sent s.2) s).
  { split; [left | done]. split; [done |]. rewrite (ci_running _ (reachable_inv s Hr)). by destruct Hd as [d ->]. }
  destruct (silent_run _ s s' Hrun Hs) as [Hw Hx]. split; [done |].
  assert (Hi' : chan_inv s'.1).
  { apply reachable_inv. destruct Hr as (s0 & Hc & Hr). exists s0. split; [done | by etrans]. }
  split; [| destruct Hw as [[? _] | [? _]]; auto]. intros Hc.
  destruct Hw as [[[d Hw] _] | [_ Hcl]]; [| rewrite (ci_closed _ Hi') in Hcl; congruence].
  split; [by exists d |]. intros Hm now s'' Hs''. rewrite <- (ci_closed _ Hi') in Hc. inversion Hs''; subst; cbn in *; congruence.
Qed.
End delivery.

(** ** A concrete environment, for examples

    It records the gateway calls and hands out segments of five numbers. *)

Record demo_env := MkDemo { sent : list (ID * option GlideMessage); next_segment : Z }.

#[global] Instance demo_ChanEnv : ChanEnv demo_env := {|
  gate_EnqueueMessage i m e := (nil_error, MkDemo (sent e ++ [(i, m)]) (next_segment e));
  StoreChannelMessage _ _ e := (nil_error, e);
  NextSegmentSequence _ _ e := ((next_segment e, 5, nil_error), MkDemo (sent e) (next_segment e + 5)) |}.

Definition demo_options : extra := ExtraOptions (MkSubscriberOptions (PermRead + PermWrite) "").
Definition demo_notify : PublishMessage :=
  MkPublishMessage "u1" [] 0 TypeNotify (Some (NewMessage 0 ActionGroupNotify PNil)).
Definition demo_chat (content : string) : PublishMessage * ChatMessage :=
  let cm := MkChatMessage "c" 0 0 "u1" "" 1 content 0 in
  (MkPublishMessage "u1" [] 0 TypeMessage (Some (NewMessage 0 ActionGroupMessage (PChatMessage cm))), cm).

(** A new channel, a subscriber, the worker having pushed the two notifications, and a
    notification published more than ten seconds later. *)
Definition demo_s0 : Channel * demo_env := Eval vm_compute in
  let r := NewChannel "ch" 0 (MkDemo [] 100) in (r.1.2, r.2).
Definition demo_s1 : Channel * demo_env := Eval vm_compute in (run_chan_op (OpSubscribe 0 "u1" demo_options) demo_s0).2.
Definition worker_receives (now : Z) (s : Channel * demo_env) : Channel * demo_env :=
  match messages s.1 with
  | m :: ms => (push m (set_activeAt now (set_queued (int32 (queued s.1 - 1)) (set_messages ms s.1)), s.2)).2
  | [] => s
  end.
Definition demo_s2 : Channel * demo_env := Eval vm_compute in worker_receives 0 demo_s1.
Definition demo_s3 : Channel * demo_env := Eval vm_compute in worker_receives 0 demo_s2.
Definition demo_s4 : Channel * demo_env := Eval vm_compute in
  (run_chan_op (OpPublish 10001 (AsPublish demo_notify)) demo_s3).2.

Lemma demo_created : created demo_s0.
Proof. exists "ch", 0, (MkDemo [] 100). reflexivity. Qed.

Lemma demo_s4_reachable : chan_reachable demo_s4.
Proof.
  exists demo_s0. split; [apply demo_created |].
  eapply rtc_l; [eapply (step_op (OpSubscribe 0 "u1" demo_options) _ _ demo_s1); reflexivity |].
  eapply rtc_l; [eapply (step_worker 0 demo_s1 demo_s2), (w_recv 0 demo_s1.1 demo_s1.2); reflexivity |].
  eapply rtc_l; [eapply (step_worker 0 demo_s2 demo_s3), (w_recv 0 demo_s2.1 demo_s2.2); reflexivity |].
  eapply rtc_l; [eapply (step_op (OpPublish 10001 (AsPublish demo_notify)) _ _ demo_s4); reflexivity |].
  apply rtc_refl.
Qed.

Lemma channel_invariant_witness :
  (length (messages demo_s4.1) <= 100)%nat /\
  (worker demo_s4.1 = None -> messages demo_s4.1 = []) /\
  (queueRunning demo_s4.1 = 0 <-> worker demo_s4.1 = None) /\
  ((forall d, worker demo_s4.1 <> Some (WDrain d)) -> queued demo_s4.1 = Z.of_nat (length (messages demo_s4.1))) /\
  (Closed (info demo_s4.1) = true -> subscribers demo_s4.1 = ∅ /\ messages_closed demo_s4.1 = true).
Proof. apply (channel_invariant demo_s4). apply demo_s4_reachable. Defined.

Lemma operations_do_not_panic_witness : exists err s', run_chan_op OpClose demo_s4 = (Val err, s').
Proof. apply (operations_do_not_panic demo_s4 OpClose); [apply demo_s4_reachable | reflexivity | by intros []]. Defined.

Lemma Publish_authorized_witness :
  exists err g', Publish 20000 (AsPublish demo_notify) demo_s4 = (Val err, (g', demo_s4.2)) /\
    (err = nil_error <-> (length (messages demo_s4.1) < queue_cap)%nat) /\
    messages g' = (if (length (messages demo_s4.1) <? queue_cap)%nat
                   then messages demo_s4.1 ++ [demo_notify] else messages demo_s4.1) /\
    subscribers g' = subscribers demo_s4.1 /\ info g' = info demo_s4.1.
Proof.
  apply (Publish_authorized 20000 demo_notify demo_s4.1 demo_s4.2); [reflexivity | | reflexivity].
  split_and!; [reflexivity | by left |]. exists (MkSubscriberInfo (PermRead + PermWrite)). by split_and!.
Defined.

(** A channel with a secret. *)
Definition demo_secret : Channel :=
  set_info (MkChanInfo "ch" 0 false false false "s3cret" None []) demo_s0.1.
Definition demo_ticket : string := Eval vm_compute in ticket_for 6 "u2" "s3cret".

Definition demo_joined : Channel * demo_env := Eval vm_compute in
  (Subscribe 0 "u2" (ExtraOptions (MkSubscriberOptions 6 demo_ticket)) (demo_secret, demo_s0.2)).2.

Lemma Subscribe_needs_ticket_witness :
  exists err s', Subscribe 0 "u2" (ExtraOptions (MkSubscriberOptions 6 demo_ticket)) (demo_secret, demo_s0.2) = (Val err, s') /\
    (err = nil_error <-> demo_ticket = ticket_for 6 "u2" "s3cret") /\
    (err <> nil_error -> s' = (demo_secret, demo_s0.2)) /\
    (err = nil_error -> subscribers s'.1 = <[ "u2" := MkSubscriberInfo 6 ]> (subscribers demo_secret)).
Proof.
  assert (Hr : Subscribe 0 "u2" (ExtraOptions (MkSubscriberOptions 6 demo_ticket)) (demo_secret, demo_s0.2) =
    (Val nil_error, demo_joined)) by (vm_compute; reflexivity).
  exists nil_error, demo_joined. split; [exact Hr |].
  apply (Subscribe_needs_ticket 0 "u2" (MkSubscriberOptions 6 demo_ticket) demo_secret demo_s0.2
    nil_error demo_joined); [reflexivity | reflexivity | reflexivity | reflexivity | discriminate | exact Hr].
Defined.

Lemma resubscribe_needs_no_ticket_witness :
  Subscribe 0 "u1" (ExtraOptions (MkSubscriberOptions 256 "")) demo_s4 =
  (Val nil_error, (set_subscribers (<[ "u1" := MkSubscriberInfo 256 ]> (subscribers demo_s4.1)) demo_s4.1, demo_s4.2)).
Proof.
  apply (resubscribe_needs_no_ticket 0 "u1" (MkSubscriberOptions 256 "") (MkSubscriberInfo (PermRead + PermWrite))
           demo_s4.1 demo_s4.2); reflexivity.
Defined.

Definition demo_batch : list (PublishMessage * ChatMessage) := demo_chat <$> ["a"; "b"; "c"; "d"; "e"; "f"; "g"].

(** Segments as the stores without a sequence give them: from 1, without an end. *)
#[local] Instance endless_segment : ChanEnv unit := {|
  gate_EnqueueMessage _ _ e := (nil_error, e); StoreChannelMessage _ _ e := (nil_error, e);
  NextSegmentSequence _ _ e := ((1, MaxInt64, nil_error), e) |}.

Definition demo_endless : Channel * unit := Eval vm_compute in
  let r := NewChannel "ch" 0 tt in (run_chan_op (OpSubscribe 0 "u1" demo_options) (r.1.2, r.2)).2.

Lemma published_messages_numbered_witness :
  seq_ demo_endless.1 = 1 /\
  exists g' e', publish_all 0 demo_batch.*1 (demo_endless.1, demo_endless.2) = (Val (replicate (length demo_batch) nil_error), (g', e')) /\
    messages g' = messages demo_endless.1 ++ numbered (seq_ demo_endless.1) demo_batch /\
    seq_ g' = seq_ demo_endless.1 + Z.of_nat (length demo_batch).
Proof.
  split; [reflexivity |]. apply published_messages_numbered.
  - intros ? ? e. by exists e.
  - unfold demo_batch. repeat constructor; try reflexivity; try (by right); try (by eexists; split_and!);
      (eexists; split_and!; reflexivity || done).
  - reflexivity.
  - by vm_compute.
  - by vm_compute.
  - by vm_compute.
  - simpl. unfold queue_cap. lia.
Defined.

(** The timer fires with the notification in the queue: the worker goes to sleep, open and
    with a message nobody will receive. *)
Definition demo_s5 : Channel * demo_env := Eval vm_compute in (set_worker 1 (Some WRest) demo_s4.1, demo_s4.2).
Definition demo_s6 : Channel * demo_env := Eval vm_compute in (set_worker 1 (Some (WDrain 0)) demo_s5.1, demo_s5.2).

Lemma demo_s6_reachable : chan_reachable demo_s6.
Proof.
  destruct demo_s4_reachable as (s0 & Hc & Hr). exists s0. split; [done |].
  etrans; [exact Hr |].
  eapply rtc_l; [eapply (step_worker 10001 demo_s4 demo_s5), (w_timer_rest 10001 demo_s4.1 demo_s4.2); by vm_compute |].
  eapply rtc_l; [eapply (step_worker 10001 demo_s5 demo_s6), (w_rest_drain 10001 demo_s5.1 demo_s5.2); by vm_compute |].
  apply rtc_refl.
Qed.

(** A message is published, and the worker discards both. *)
Definition demo_s7 : Channel * demo_env := Eval vm_compute in
  (run_chan_op (OpPublish 20000 (AsPublish demo_notify)) demo_s6).2.
Definition discards (s : Channel * demo_env) : Channel * demo_env :=
  match worker s.1 with
  | Some (WDrain d) => (set_queued (-1) (set_worker (queueRunning s.1) (Some (WDrain (d + 1))) (set_messages (tail (messages s.1)) s.1)), s.2)
  | _ => s
  end.
Definition demo_s8 : Channel * demo_env := Eval vm_compute in discards demo_s7.
Definition demo_s9 : Channel * demo_env := Eval vm_compute in discards demo_s8.

Lemma demo_s9_run : rtc chan_step demo_s6 demo_s9.
Proof.
  eapply rtc_l; [eapply (step_op (OpPublish 20000 (AsPublish demo_notify)) _ _ demo_s7); reflexivity |].
  eapply rtc_l; [eapply (step_worker 20000 demo_s7 demo_s8), (w_drain 20000 demo_s7.1 demo_s7.2 demo_notify [demo_notify] 0); reflexivity |].
  eapply rtc_l; [eapply (step_worker 20000 demo_s8 demo_s9), (w_drain 20000 demo_s8.1 demo_s8.2 demo_notify [] 1); reflexivity |].
  apply rtc_refl.
Qed.

Lemma drained_channel_delivers_nothing_witness :
  chan_reachable demo_s6 /\ length (messages demo_s6.1) = 1%nat /\ Closed (info demo_s9.1) = false /\
  messages demo_s9.1 = [] /\ sent demo_s9.2 = sent demo_s6.2 /\ draining demo_s9.1 /\ forall now s, ~ wstep now demo_s9 s.
Proof.
  destruct (drained_channel_delivers_nothing sent ltac:(done) ltac:(done) demo_s6 demo_s9) as (Hs & Ho & _);
    [apply demo_s6_reachable | by exists 0 | apply demo_s9_run |].
  destruct (Ho eq_refl) as [Hd Hn]. split_and!; [apply demo_s6_reachable | reflexivity | reflexivity | reflexivity | exact Hs | exact Hd |].
  apply Hn. reflexivity.
Defined.
