(* ===== verification/ChannelFrame.v ===== *)
(** * What a channel's operations leave alone

    The numbers of a channel and its worker change without its members, its information, its being open
    or its queue: a _quiet_ write. An invariant that quiet writes, what is put in the queue and taken
    out of it, and the calls of the environment keep is kept by publishing, by the worker, and by all
    that notifies ([queue_Publish], [queue_wstep]). [Q] is what the invariant wants of the messages of
    the queue. The invariants of the members of a channel, of the state of its environment and of the
    types of its messages are three cases. *)

From S2P Require Import Prelude GoStrings Json Messages GateId Channel.

Local Open Scope Z_scope.
Local Open Scope go_scope.

Definition quiet_write (f : Channel -> Channel) : Prop :=
  forall g, subscribers (f g) = subscribers g /\ info (f g) = info g /\ messages_closed (f g) = messages_closed g /\
    messages (f g) = messages g.

Section frame.
Context {E : Type} `{ChanEnv E} (I : Channel * E -> Prop) (Q : PublishMessage -> Prop).
Context (Iquiet : forall f g e, quiet_write f -> I (g, e) -> I (f g, e)).
Context (Isend : forall m g e, Q m -> I (g, e) -> I (set_messages (messages g ++ [m]) g, e)).
Context (Itake : forall m ms g e, messages g = m :: ms -> I (g, e) -> Q m /\ I (set_messages ms g, e)).
Context (Qdata : forall m seq cm, Q m -> Q (with_data m seq cm)).
Context (Ienqueue : forall i m, Q m -> preserves I (env_call (gate_EnqueueMessage i (pm_Message m)))).
Context (Istore : forall ch m, preserves I (env_call (StoreChannelMessage ch m))).
Context (Iseq : forall ch i, preserves I (env_call (NextSegmentSequence ch i))).

Lemma queue_rd {A} (f : Channel -> A) : preserves I (rd f).
Proof. apply preserves_gets. Qed.
Lemma queue_wr f : quiet_write f -> preserves I (wr f).
Proof. intros Hf [g e]. by apply Iquiet. Qed.

#[local] Hint Resolve queue_rd Ienqueue Istore Iseq Qdata : preserves.
#[local] Hint Extern 1 (preserves _ (wr _)) => apply queue_wr; intros ?; split_and!; reflexivity : preserves.

Lemma queue_loadSeq : preserves I loadSeq.
Proof. unfold loadSeq. repeat preserves_step. Qed.
#[local] Hint Resolve queue_loadSeq : preserves.
Lemma queue_nextSeq : preserves I nextSeq.
Proof. unfold nextSeq. repeat preserves_step. Qed.
Lemma queue_send m : Q m -> preserves I (chan_send m).
Proof.
  intros Hm [g e] Hi. unfold chan_send, bind, rd, gets, wr, modify. cbn [fst snd].
  destruct (messages_closed g); [done |]. destruct (_ <? _)%nat; [| done].
  apply (Iquiet (fun g => set_queued (int32 (queued g + 1)) g)); [by intros ? | by apply Isend].
Qed.
Lemma queue_check now : preserves I (checkMsgQueue now).
Proof. unfold checkMsgQueue. repeat preserves_step. Qed.
#[local] Hint Resolve queue_nextSeq queue_send queue_check : preserves.
Lemma queue_notify now m : Q m -> preserves I (enqueueNotify now m).
Proof. intros Hm. unfold enqueueNotify. repeat preserves_step. Qed.
Lemma queue_enqueue now m : Q m -> preserves I (enqueue now m).
Proof. intros Hm. unfold enqueue, GetChatMessage. repeat preserves_step. Qed.
#[local] Hint Resolve queue_notify queue_enqueue : preserves.

Definition arg_ok (msg : message_arg) : Prop := match msg with AsPublish m => Q m | _ => True end.

Lemma queue_Publish now msg : arg_ok msg -> preserves I (Publish now msg).
Proof. intros Hm. unfold Publish. destruct msg; repeat preserves_step. Qed.
Lemma queue_push m : Q m -> preserves I (push m).
Proof.
  intros Hm. unfold push. apply preserves_bind; [apply queue_rd | intros l]. apply preserves_foreach. intros p.
  repeat preserves_step.
Qed.

Lemma queue_finish : preserves I finish.
Proof. unfold finish. repeat preserves_step. Qed.

Lemma queue_wstep now s s' : wstep now s s' -> I s -> I s'.
Proof.
  intros Hw Hs. destruct Hw as [now g e | now g e | now g e m ms r s' Hwk Hm Hp | now g e | now g e | now g e s' Hwk Hq Hf
    | now g e m ms d Hwk Hm | now g e d s' Hwk Hm Hc Hf].
  - by apply (Iquiet (set_timer (now + messageQueueTimeout))).
  - by apply (Iquiet (fun g => set_worker (queueRunning g) (Some WRest) g)).
  - destruct (Itake _ _ _ _ Hm Hs) as [Hq Ht].
    assert (Hi : I (set_activeAt now (set_queued (int32 (queued g - 1)) (set_messages ms g)), e))
      by (by apply (Iquiet (fun g' => set_activeAt now (set_queued (int32 (queued g - 1)) g')))).
    apply (queue_push m Hq) in Hi. by rewrite Hp in Hi.
  - by apply (Iquiet (fun g => set_worker (queueRunning g) (Some WRest) g)).
  - by apply (Iquiet (fun g => set_worker (queueRunning g) (Some (WDrain 0)) g)).
  - apply queue_finish in Hs. by rewrite Hf in Hs.
  - destruct (Itake _ _ _ _ Hm Hs) as [_ Ht].
    by apply (Iquiet (fun g' => set_queued (-1) (set_worker (queueRunning g) (Some (WDrain (d + 1))) g'))).
  - apply queue_finish in Hs. by rewrite Hf in Hs.
Qed.
End frame.

(** What an invariant that does not look at the queue wants of a message. *)
Definition any (m : PublishMessage) : Prop := True.
Lemma any_ok m : any m.
Proof. done. Qed.
Lemma any_arg msg : arg_ok any msg.
Proof. by destruct msg. Qed.
#[export] Hint Resolve any_ok any_arg : core.
