(* ===== verification/ChannelRace.v ===== *)
(** * Overlapping calls of [enqueue] and the workers of a channel

    [Channel] takes an enqueueing and a turn of the worker as one step each. The code holds no lock there: the
    queue is a Go channel, and [queued], [queueRunning], [seq] and [seqRemain] are read and written by one atomic
    operation at a time ([chan.go], [enqueueNotify] to [checkMsgQueue], [nextSeq] and [loadSeq]). Here every such
    operation is a step: any number of calls run interleaved with one another, with any number of workers and
    with the rest of the channel's operations.

    [queue_is_conserved] and [running_flag_is_owned] hold however they interleave; [one_worker_in_order]
    as long as calls do not overlap; [numbers_are_consecutive] until a segment is used up.
    [waiting_message_without_worker], [two_workers_reorder] and [number_given_twice] are what else happens.
    [channel_steps_are_runs] says that the steps of [Channel] are runs of these. *)

From S2P Require Import Prelude GoStrings Json Messages GateId Channel ChannelSpec.

From stdpp Require Import numbers relations.

Local Open Scope Z_scope.
Local Open Scope go_scope.

(** ** Data *)

(** Where a call is, named after what it does next: [enqueue] from its first line, [enqueueNotify] from [ESend]. *)
Inductive epc :=
  | EDecode (m : PublishMessage)
  | ENumber (m : PublishMessage) (cm : ChatMessage)              (* atomic.AddInt64(&g.seqRemain, -1) *)
  | ELoad (m : PublishMessage) (cm : ChatMessage)                (* NextSegmentSequence *)
  | EFill (m : PublishMessage) (cm : ChatMessage) (s len : Z)    (* atomic.StoreInt64(&g.seqRemain, length) *)
  | EReset (m : PublishMessage) (cm : ChatMessage) (s : Z)       (* atomic.StoreInt64(&g.seq, seq) *)
  | EBack (m : PublishMessage) (cm : ChatMessage)                (* atomic.AddInt64(&g.seq, -1) *)
  | ENext (m : PublishMessage) (cm : ChatMessage)                (* atomic.AddInt64(&g.seq, 1) *)
  | EKeep (m : PublishMessage) (cm : ChatMessage)                (* StoreChannelMessage *)
  | ESend (full : error) (m : PublishMessage)                    (* g.messages <- m, or the error *)
  | ECount                                                       (* atomic.AddInt32(&g.queued, 1) *)
  | ELook                                                        (* atomic.LoadInt32(&g.queueRunning) *)
  | EStart                                                       (* atomic.StoreInt32(&g.queueRunning, 1) *)
  | ESpawn.                                                      (* go *)

(** Where a worker is; [KSkipped] carries the message that was read and forgotten. *)
Inductive kpc :=
  | KTimer                                                       (* g.sleepTimer = tw.After(...) *)
  | KLoop                                                        (* select *)
  | KFired                                                       (* the case of the timer *)
  | KCount (m : PublishMessage)                                  (* atomic.AddInt32(&g.queued, -1) *)
  | KStamp (m : PublishMessage)                                  (* g.activeAt = time.Now() *)
  | KPush (m : PublishMessage)                                   (* g.push(m) *)
  | KRest                                                        (* atomic.LoadInt32(&g.queued) *)
  | KDrain (d : Z)                                               (* <-g.messages *)
  | KSkipped (d : Z) (m : PublishMessage)                        (* atomic.StoreInt32(&g.queued, -1) *)
  | KZero                                                        (* atomic.StoreInt32(&g.queued, 0) *)
  | KFlag.                                                       (* atomic.StoreInt32(&g.queueRunning, 0) *)

Definition errNotifyFull : error := errors_New "notify message queue is full".
Definition errGroupFull : error := errors_New "too many messages,the group message queue is full".

(** ** The actions *)

Section actions.
Context {E : Type} `{ChanEnv E}.

Definition set_running (v : Z) (g : Channel) : Channel := set_worker v (worker g) g.

(** The actions of [nextSeq] and [loadSeq]. *)
Definition nextSeq_round (p : epc) : GoM (Channel * E) (option kpc * (epc + error)) :=
  let go p := ret (None, inl p) in
  match p with
  | ENumber m cm =>
      wr (fun g => set_seqs (seq_ g) (int64 (seqRemain g - 1)) g) ;;;
      let! remain := rd seqRemain in
      go (if remain <=? 0 then ELoad m cm else ENext m cm)
  | ELoad m cm =>
      let! id := rd ch_id in
      let! i := rd info in
      let! r := env_call (NextSegmentSequence id i) in
      let '(seq, length, err) := r in
      match err with Some _ => ret (None, inr err) | None => go (EFill m cm seq length) end
  | EFill m cm seq length => wr (fun g => set_seqs (seq_ g) length g) ;;; go (EReset m cm seq)
  | EReset m cm seq => wr (fun g => set_seqs seq (seqRemain g) g) ;;; go (EBack m cm)
  | EBack m cm => wr (fun g => set_seqs (int64 (seq_ g - 1)) (seqRemain g) g) ;;; go (ENext m cm)
  | ENext m cm =>
      wr (fun g => set_seqs (int64 (seq_ g + 1)) (seqRemain g) g) ;;;
      let! seq := rd seq_ in
      let cm := set_cm_Seq seq cm in
      go (EKeep (with_data m seq cm) cm)
  | _ => panic "not in nextSeq"
  end.

(** The next action of a call: the goroutine it starts, and where it is then or what it returns. *)
Definition enqueue_round (p : epc) : GoM (Channel * E) (option kpc * (epc + error)) :=
  let go p := ret (None, inl p) in
  let return_ err := ret (None, inr err) in
  match p with
  | EDecode m =>
      let! body := GetChatMessage m in
      match body with
      | (Some err, _) => return_ (Some (wrap_error err "enqueue message deserialize body error"))
      | (None, cm) => go (ENumber m cm)
      end
  | ENumber _ _ | ELoad _ _ | EFill _ _ _ _ | EReset _ _ _ | EBack _ _ | ENext _ _ => nextSeq_round p
  | EKeep m cm =>
      let! err := (if pm_Type m =? TypeMessage then
                     let! id := rd ch_id in env_call (StoreChannelMessage id cm)
                   else ret nil_error) in
      match err with
      | Some err => return_ (Some (wrap_error err "store channel message error"))
      | None => go (ESend errGroupFull m)
      end
  | ESend full m =>
      let! closed := rd messages_closed in
      let! l := rd messages in
      if closed : bool then panic "send on closed channel"
      else if (length l <? queue_cap)%nat then wr (set_messages (l ++ [m])) ;;; go ECount
      else return_ full
  | ECount => wr (fun g => set_queued (int32 (queued g + 1)) g) ;;; go ELook
  | ELook =>
      let! running := rd queueRunning in
      if negb (running =? 0) then return_ nil_error else go EStart
  | EStart => wr (set_running 1) ;;; go ESpawn
  | ESpawn => ret (Some KTimer, inr nil_error)
  end.

(** What a [select] takes when it can take both. *)
Inductive ready := OnTimer | OnMessage.

(** What becomes of a worker. *)
Inductive turn := Blocked | Goes (k : kpc) | Ends.

(** The next action of a worker. The signal of its timer may come at any time: another worker may have
    replaced the timer it waits for. *)
Definition worker_round (now : Z) (r : ready) (k : kpc) : GoM (Channel * E) turn :=
  match k with
  | KTimer => wr (set_timer (now + messageQueueTimeout)) ;;; ret (Goes KLoop)
  | KLoop =>
      match r with
      | OnTimer => ret (Goes KFired)
      | OnMessage =>
          let! l := rd messages in
          let! closed := rd messages_closed in
          match l with
          | m :: ms => wr (set_messages ms) ;;; ret (Goes (KCount m))
          | [] => ret (if closed : bool then Goes KRest else Blocked)
          end
      end
  | KFired =>
      let! active := rd activeAt in
      if active + messageQueueTimeout <? now then ret (Goes KRest)
      else wr (set_timer (now + messageQueueTimeout)) ;;; ret (Goes KLoop)
  | KCount m => wr (fun g => set_queued (int32 (queued g - 1)) g) ;;; ret (Goes (KStamp m))
  | KStamp m => wr (set_activeAt now) ;;; ret (Goes (KPush m))
  | KPush m => push m ;;; ret (Goes KLoop)
  | KRest => let! q := rd queued in ret (Goes (if 0 <? q then KDrain 0 else KZero))
  | KDrain d =>
      let! l := rd messages in
      let! closed := rd messages_closed in
      match l with
      | m :: ms => wr (set_messages ms) ;;; ret (Goes (KSkipped d m))
      | [] => ret (if closed : bool then Goes KZero else Blocked)
      end
  | KSkipped d m => wr (set_queued (-1)) ;;; ret (Goes (KDrain (d + 1)))
  | KZero => wr (set_queued 0) ;;; ret (Goes KFlag)
  | KFlag => wr (set_running 0) ;;; ret Ends
  end.
End actions.

(** ** Runs *)

(** A call, under way or ended: its error, or its panic. *)
Inductive sender := Running (p : epc) | Ended (r : res error).

(** The last six are history: what was put on the queue, what was taken off it, what was pushed, what was
    read and forgotten; how many calls asked for a number, and the numbers that were given. *)
Record Busy (E : Type) := MkBusy {
  state_ : Channel * E;
  senders : list sender;
  workers : list kpc;
  accepted : list PublishMessage;
  taken : list PublishMessage;
  pushed : list PublishMessage;
  forgotten : list PublishMessage;
  asked : nat;
  numbers : list Z }.
Arguments MkBusy {E}.
Arguments state_ {E}.
Arguments senders {E}.
Arguments workers {E}.
Arguments accepted {E}.
Arguments taken {E}.
Arguments pushed {E}.
Arguments forgotten {E}.
Arguments asked {E}.
Arguments numbers {E}.

Definition accepts (p : epc) (next : epc + error) : list PublishMessage :=
  match p, next with ESend _ m, inl _ => [m] | _, _ => [] end.
Definition asks (p : epc) : nat := match p with ENumber _ _ => 1 | _ => 0 end.
Definition gives (p : epc) (next : epc + error) : list Z :=
  match p, next with ENext _ _, inl (EKeep m _) => [pm_Seq m] | _, _ => [] end.
Definition call_of (next : epc + error) : sender := match next with inl p => Running p | inr err => Ended (Val err) end.

Definition takes (t : turn) : list PublishMessage :=
  match t with Goes (KCount m) | Goes (KSkipped _ m) => [m] | _ => [] end.
Definition pushes (k : kpc) : list PublishMessage := match k with KPush m => [m] | _ => [] end.
Definition forgets (t : turn) : list PublishMessage := match t with Goes (KSkipped _ m) => [m] | _ => [] end.
Definition goes_on (t : turn) : list kpc := match t with Goes k => [k] | _ => [] end.

(** What the rest of the channel's operations may do meanwhile: anything but to the queue, its counters and the
    numbers; closing the queue is one of them. *)
Record apart (g g' : Channel) : Prop := {
  ap_messages : messages g' = messages g;
  ap_closed : messages_closed g = true -> messages_closed g' = true;
  ap_running : queueRunning g' = queueRunning g;
  ap_queued : queued g' = queued g;
  ap_seq : seq_ g' = seq_ g;
  ap_remain : seqRemain g' = seqRemain g }.

Section runs.
Context {E : Type} `{ChanEnv E}.

(** [first] is where a call begins. *)
Definition first (p : epc) : Prop := match p with EDecode _ | ESend _ _ => True | _ => False end.
Definition ended (c : sender) : Prop := match c with Ended _ => True | Running _ => False end.

(** With [alone], a call begins only when the others have ended. *)
Inductive busy_step (alone : bool) : Busy E -> Busy E -> Prop :=
  | busy_begins p s cs ws ac tk pu fo a nu :
      first p -> (alone = true -> Forall ended cs) ->
      busy_step alone (MkBusy s cs ws ac tk pu fo a nu) (MkBusy s (cs ++ [Running p]) ws ac tk pu fo a nu)
  | busy_call l1 p l2 s s' new next ws ac tk pu fo a nu :
      enqueue_round p s = (Val (new, next), s') ->
      busy_step alone (MkBusy s (l1 ++ Running p :: l2) ws ac tk pu fo a nu)
        (MkBusy s' (l1 ++ call_of next :: l2) (ws ++ option_list new) (ac ++ accepts p next) tk pu fo (asks p + a) (nu ++ gives p next))
  | busy_call_panics l1 p l2 s s' why ws ac tk pu fo a nu :
      enqueue_round p s = (Panics why, s') ->
      busy_step alone (MkBusy s (l1 ++ Running p :: l2) ws ac tk pu fo a nu)
        (MkBusy s' (l1 ++ Ended (Panics why) :: l2) ws ac tk pu fo a nu)
  | busy_worker now r l1 k l2 s s' t cs ac tk pu fo a nu :
      worker_round now r k s = (Val t, s') -> t <> Blocked ->
      busy_step alone (MkBusy s cs (l1 ++ k :: l2) ac tk pu fo a nu)
        (MkBusy s' cs (l1 ++ goes_on t ++ l2) ac (tk ++ takes t) (pu ++ pushes k) (fo ++ forgets t) a nu)
  | busy_other g g' e e' cs ws ac tk pu fo a nu :
      apart g g' ->
      busy_step alone (MkBusy (g, e) cs ws ac tk pu fo a nu) (MkBusy (g', e') cs ws ac tk pu fo a nu).

(** A new channel, and what it comes to. *)
Definition fresh (id : ChanID) (now : Z) (e0 : E) (x : Busy E) : Prop :=
  exists g e, NewChannel id now e0 = ((nil_error, g), e) /\ x = MkBusy (g, e) [] [] [] [] [] [] 0 [].
Definition busy_reachable (alone : bool) (x : Busy E) : Prop :=
  exists id now e0 x0, fresh id now e0 x0 /\ rtc (busy_step alone) x0 x.
End runs.

(** ** What an action does to the queue *)

Definition hand (k : kpc) : list PublishMessage := match k with KCount m | KStamp m | KPush m => [m] | _ => [] end.
Definition hands (ws : list kpc) : list PublishMessage := concat (hand <$> ws).
Arguments hands : simpl never.
Definition is_spawn (c : sender) : Prop := match c with Running ESpawn => True | _ => False end.

Section queue.
Context {E : Type} `{ChanEnv E}.
Implicit Types (g : Channel) (e : E) (x : Busy E).

(** An action of a call: at most one message goes last in the queue, if there is room. *)
Record sends (p : epc) (new : option kpc) (next : epc + error) (g g' : Channel) : Prop := {
  se_messages : messages g' = messages g ++ accepts p next;
  se_bound : (length (messages g) <= queue_cap)%nat -> (length (messages g') <= queue_cap)%nat;
  se_running : queueRunning g' = (if p is EStart then 1 else queueRunning g);
  se_next : next = inl ESpawn <-> p = EStart;
  se_start : next = inl EStart -> queueRunning g = 0;
  se_new : new = (if p is ESpawn then Some KTimer else None);
  se_ends : p = ESpawn -> next = inr nil_error;
  se_closed : messages_closed g' = messages_closed g }.

Lemma enqueue_round_sends p new next g e g' e' :
  enqueue_round p (g, e) = (Val (new, next), (g', e')) -> sends p new next g g'.
Proof.
  intros Hr. destruct p; unfold enqueue_round, nextSeq_round in Hr; revert Hr; run; cbn [fst snd].
  - unfold GetChatMessage. destruct (pm_Message m) as [msg |]; [| done]. run.
    destruct (Deserialize _ _) as [[err |] cm]; intros [=]; subst; split; rewrite ?app_nil_r; done.
  - intros [=]; subst; split; rewrite ?app_nil_r; try done; by case_match.
  - destruct (NextSegmentSequence _ _ _) as [[[s l] [err |]] e1]; intros [=]; subst; split; rewrite ?app_nil_r; done.
  - intros [=]; subst; split; rewrite ?app_nil_r; done.
  - intros [=]; subst; split; rewrite ?app_nil_r; done.
  - intros [=]; subst; split; rewrite ?app_nil_r; done.
  - intros [=]; subst; split; rewrite ?app_nil_r; done.
  - destruct (pm_Type m =? TypeMessage); [destruct (StoreChannelMessage _ _ _) as [[err |] e1] |]; intros [=]; subst; split;
      rewrite ?app_nil_r; done.
  - destruct (messages_closed g) eqn:Hc; [done |]. destruct (Nat.ltb_spec (length (messages g)) queue_cap);
      intros [=]; subst; split; cbn; rewrite ?app_nil_r, ?length_app; cbn; try done; lia.
  - intros [=]; subst; split; rewrite ?app_nil_r; done.
  - destruct (Z.eqb_spec (queueRunning g) 0); cbn [negb]; intros [=]; subst; split; rewrite ?app_nil_r; done.
  - intros [=]; subst; split; rewrite ?app_nil_r; done.
  - intros [=]; subst; split; rewrite ?app_nil_r; done.
Qed.

Lemma enqueue_round_panics p why g e s' : enqueue_round p (g, e) = (Panics why, s') -> s' = (g, e).
Proof.
  intros Hr. destruct p; unfold enqueue_round, nextSeq_round in Hr; revert Hr; run; cbn [fst snd]; try done.
  - unfold GetChatMessage. destruct (pm_Message m) as [msg |]; [| by intros [=]]. run.
    by destruct (Deserialize _ _) as [[err |] cm].
  - by destruct (NextSegmentSequence _ _ _) as [[[s l] [err |]] e1].
  - by destruct (pm_Type m =? TypeMessage); [destruct (StoreChannelMessage _ _ _) as [[err |] e1] |].
  - destruct (messages_closed g); [by intros [=] |]. by destruct (_ <? _)%nat.
  - by destruct (negb _).
Qed.

(** An action of a worker: at most one message leaves the head of the queue. *)
Record works (k : kpc) (t : turn) (g g' : Channel) : Prop := {
  wk_messages : messages g = takes t ++ messages g';
  wk_running : queueRunning g' = (if k is KFlag then 0 else queueRunning g);
  wk_ends : t = Ends <-> k = KFlag;
  wk_hand : hand k ++ takes t = pushes k ++ hands (goes_on t) ++ forgets t;
  wk_empty : takes t <> [] -> hand k = [];
  wk_seq : seq_ g' = seq_ g /\ seqRemain g' = seqRemain g /\ messages_closed g' = messages_closed g }.

Ltac split_works := split; unfold hands; cbn; rewrite ?app_nil_r; split_and?; done.

Lemma worker_round_works now r k t g e g' e' :
  worker_round now r k (g, e) = (Val t, (g', e')) -> works k t g g'.
Proof.
  intros Hr. destruct k; unfold worker_round in Hr; revert Hr; try (unfold bind at 1; rewrite push_run); run; cbn [fst snd].
  - intros [=]; subst; split_works.
  - destruct r; cbn [fst snd]; [intros [=]; subst; split_works |]. destruct (messages g) as [| m ms] eqn:Hm.
    + destruct (messages_closed g); intros [=]; subst; split_works.
    + intros [=]; subst; split_works.
  - destruct (_ <? now); intros [=]; subst; split_works.
  - intros [=]; subst; split_works.
  - intros [=]; subst; split_works.
  - intros [=]; subst; split_works.
  - destruct (0 <? queued g); intros [=]; subst; split_works.
  - destruct (messages g) as [| m ms] eqn:Hm.
    + destruct (messages_closed g); intros [=]; subst; split_works.
    + intros [=]; subst; split_works.
  - intros [=]; subst; split_works.
  - intros [=]; subst; split_works.
  - intros [=]; subst; split_works.
Qed.
End queue.

(** ** What holds however the actions interleave *)

Lemma hands_app l k : hands (l ++ k) = hands l ++ hands k.
Proof. unfold hands. by rewrite fmap_app, concat_app. Qed.
Lemma hands_one k : hands [k] = hand k.
Proof. apply app_nil_r. Qed.

Record queue_inv {E} (x : Busy E) : Prop := {
  qi_bound : (length (messages (state_ x).1) <= queue_cap)%nat;
  qi_fifo : accepted x = taken x ++ messages (state_ x).1;
  qi_once : taken x ≡ₚ pushed x ++ hands (workers x) ++ forgotten x;
  qi_flag : queueRunning (state_ x).1 <> 0 -> workers x <> [] \/ Exists is_spawn (senders x) }.

Lemma epc_case p : p = ESpawn \/ p = EStart \/ (p <> ESpawn /\ p <> EStart).
Proof. destruct p; auto. Qed.

Section invariant.
Context {E : Type} `{ChanEnv E}.
Implicit Types (x : Busy E).

Lemma busy_step_queue alone x x' : busy_step alone x x' -> queue_inv x -> queue_inv x'.
Proof.
  intros Hs [H1 H2 H3 H4]. destruct Hs as [p s cs ws ac tk pu fo a nu Hp Ha
    | l1 p l2 [g e] [g' e'] new next ws ac tk pu fo a nu Hr | l1 p l2 [g e] s' why ws ac tk pu fo a nu Hr
    | now r l1 k l2 [g e] [g' e'] t cs ac tk pu fo a nu Hr Ht | g g' e e' cs ws ac tk pu fo a nu Hap]; cbn in *.
  - split; cbn; try done. intros Hn. destruct (H4 Hn); [by left | right; apply Exists_app; by left].
  - destruct (enqueue_round_sends _ _ _ _ _ _ _ Hr). split; cbn.
    + by apply se_bound0.
    + by rewrite se_messages0, app_assoc, <- H2.
    + rewrite hands_app. rewrite se_new0. destruct p; cbn; by rewrite ?app_nil_r.
    + rewrite se_running0, se_new0. intros Hn. destruct (epc_case p) as [-> | [-> | [Hsp Hst]]].
      * left. by destruct ws.
      * right. rewrite (proj2 se_next0 eq_refl). apply Exists_app. right. by left.
      * assert (Hf : queueRunning g <> 0) by (by destruct p).
        destruct (H4 Hf) as [Hw | [Hw | Hw]%Exists_app]; [left; by destruct ws | right; apply Exists_app; by left |].
        apply Exists_cons in Hw as [Hw | Hw]; [by destruct p |]. right. apply Exists_app. right. by right.
  - pose proof (enqueue_round_panics _ _ _ _ _ Hr) as ->. split; cbn; try done. intros Hn. destruct (H4 Hn) as [Hw | [Hw | Hw]%Exists_app]; [by left | right; apply Exists_app; by left |].
    apply Exists_cons in Hw as [Hw | Hw]; [by destruct p |]. right. apply Exists_app. right. by right.
  - destruct (worker_round_works _ _ _ _ _ _ _ _ Hr). split; cbn.
    + rewrite wk_messages0, length_app in H1. lia.
    + by rewrite H2, wk_messages0, app_assoc.
    + rewrite H3. change (k :: l2) with ([k] ++ l2). rewrite !hands_app, hands_one.
      trans ((pu ++ hands l1 ++ hands l2 ++ fo) ++ (hand k ++ takes t)); [| rewrite wk_hand0]; solve_Permutation.
    + rewrite wk_running0. intros Hn. left. destruct t as [| k' |]; [done | by destruct l1 |].
      by rewrite (proj1 wk_ends0 eq_refl) in Hn.
  - destruct Hap. split; cbn; by rewrite ?ap_messages0, ?ap_running0.
Qed.
End invariant.

(** ** When calls do not overlap *)

(** The calls under way. *)
Definition under_way (cs : list sender) : list epc := omap (fun c => match c with Running p => Some p | Ended _ => None end) cs.

Lemma under_way_app l k : under_way (l ++ k) = under_way l ++ under_way k.
Proof. apply omap_app. Qed.
Lemma under_way_ended cs : Forall ended cs -> under_way cs = [].
Proof. induction 1 as [| [p | r] cs Hc _ IH]; done. Qed.
Lemma under_way_call (next : epc + error) : under_way [call_of next] = match next with inl p => [p] | inr _ => [] end.
Proof. by destruct next. Qed.

Record alone_inv {E} (x : Busy E) : Prop := {
  ai_calls : (length (under_way (senders x)) <= 1)%nat;
  ai_start : EStart ∈ under_way (senders x) -> workers x = [] /\ queueRunning (state_ x).1 = 0;
  ai_spawn : ESpawn ∈ under_way (senders x) -> workers x = [] /\ queueRunning (state_ x).1 <> 0;
  ai_one : (length (workers x) <= 1)%nat;
  ai_flag : queueRunning (state_ x).1 = 0 -> workers x = [];
  ai_order : (pushed x ++ hands (workers x)) `sublist_of` taken x }.

Section alone.
Context {E : Type} `{ChanEnv E}.
Implicit Types (x : Busy E).

(** The only call under way is the one that moves. *)
Lemma only_call l1 p l2 :
  (length (under_way (l1 ++ Running p :: l2)) <= 1)%nat -> under_way l1 = [] /\ under_way l2 = [].
Proof.
  change (Running p :: l2) with ([Running p] ++ l2). rewrite !under_way_app, !length_app.
  destruct (under_way l1), (under_way l2); cbn; (done || lia).
Qed.

Lemma busy_step_alone x x' : busy_step true x x' -> alone_inv x -> alone_inv x'.
Proof.
  intros Hs [H1 H2 H3 H4 H5 H6]. destruct Hs as [p s cs ws ac tk pu fo a nu Hp Ha
    | l1 p l2 [g e] [g' e'] new next ws ac tk pu fo a nu Hr | l1 p l2 [g e] s' why ws ac tk pu fo a nu Hr
    | now r l1 k l2 [g e] [g' e'] t cs ac tk pu fo a nu Hr Ht | g g' e e' cs ws ac tk pu fo a nu Hap];
    cbn [state_ senders workers pushed taken fst] in *.
  - assert (Hu : under_way (cs ++ [Running p]) = [p]) by (rewrite under_way_app, under_way_ended by auto; done).
    split; cbn [state_ senders workers pushed taken fst]; rewrite ?Hu; try done; intros <-%list_elem_of_singleton; done.
  - destruct (only_call _ _ _ H1) as [Hl1 Hl2]. destruct (enqueue_round_sends _ _ _ _ _ _ _ Hr).
    assert (Hu : under_way (l1 ++ call_of next :: l2) = match next with inl p => [p] | inr _ => [] end).
    { change (call_of next :: l2) with ([call_of next] ++ l2). rewrite !under_way_app, Hl1, Hl2, app_nil_r. by apply under_way_call. }
    change (Running p :: l2) with ([Running p] ++ l2) in H2, H3.
    rewrite !under_way_app, Hl1, Hl2 in H2, H3. cbn in H2, H3. rewrite !list_elem_of_singleton in H2, H3.
    assert (Hin : forall q, q ∈ under_way (l1 ++ call_of next :: l2) -> next = inl q).
    { intros q. rewrite Hu. destruct next; [by intros <-%list_elem_of_singleton | by intros ?%elem_of_nil]. }
    destruct (epc_case p) as [-> | [-> | [Hsp Hst]]].
    + destruct (H3 eq_refl) as [-> Hf]. rewrite (se_ends0 eq_refl) in *. rewrite se_new0.
      split; cbn [state_ senders workers pushed taken fst app option_list]; rewrite ?Hu, ?se_running0; try done; cbn; try lia;
        by intros ?%elem_of_nil.
    + destruct (H2 eq_refl) as [-> Hf]. rewrite (proj2 se_next0 eq_refl) in *. rewrite se_new0.
      split; cbn [state_ senders workers pushed taken fst app option_list]; rewrite ?Hu, ?se_running0; try done; by intros ?%list_elem_of_singleton.
    + assert (Hn : new = None) by (by destruct p). assert (Hq : queueRunning g' = queueRunning g) by (by destruct p).
      rewrite Hn, app_nil_r. split; cbn [state_ senders workers pushed taken fst]; rewrite ?Hq; try done.
      * rewrite Hu. destruct next; cbn; lia.
      * intros Hs%Hin. specialize (se_start0 Hs). auto.
      * intros Hs%Hin. by apply se_next0 in Hs.
  - pose proof (enqueue_round_panics _ _ _ _ _ Hr) as ->. destruct (only_call _ _ _ H1) as [Hl1 Hl2].
    assert (Hu : under_way (l1 ++ Ended (Panics why) :: l2) = []).
    { change (?c :: l2) with ([c] ++ l2). by rewrite !under_way_app, Hl1, Hl2. }
    split; cbn [state_ senders workers pushed taken fst]; rewrite ?Hu; try done; try (cbn; lia); by intros ?%elem_of_nil.
  - destruct (worker_round_works _ _ _ _ _ _ _ _ Hr). rewrite length_app in H4. cbn in H4.
    assert (l1 = []) as -> by (destruct l1; cbn in H4; (done || lia)). assert (l2 = []) as -> by (destruct l2; cbn in H4; (done || lia)).
    cbn [app] in *. rewrite app_nil_r in *. rewrite hands_one in H6.
    split; cbn [state_ senders workers pushed taken fst]; try done.
    + intros Hin. by destruct (H2 Hin).
    + intros Hin. by destruct (H3 Hin).
    + destruct t; cbn; lia.
    + rewrite wk_running0. intros Hf. destruct t as [| k' |]; [done | | done].
      destruct (decide (queueRunning g = 0)) as [Hg | Hg]; [by discriminate (H5 Hg) |]. by destruct k.
    + assert (Hsub : (pu ++ hand k ++ takes t) `sublist_of` tk ++ takes t).
      { rewrite app_assoc. by apply sublist_app. }
      rewrite wk_hand0 in Hsub. etrans; [| exact Hsub]. rewrite <- app_assoc. apply sublist_app; [done |].
      apply sublist_app; [done | by apply sublist_inserts_r].
  - destruct Hap. split; cbn [state_ senders workers pushed taken fst]; rewrite ?ap_running0; done.
Qed.
End alone.

(** ** The numbers of one segment *)

Definition loading (p : epc) : bool :=
  match p with ELoad _ _ | EFill _ _ _ _ | EReset _ _ _ | EBack _ _ => true | _ => false end.
Definition at_next (p : epc) : bool := match p with ENext _ _ => true | _ => false end.
Definition due (cs : list sender) : nat := length (List.filter at_next (under_way cs)).

Lemma due_app l k : due (l ++ k) = (due l + due k)%nat.
Proof. unfold due. by rewrite under_way_app, List.filter_app, length_app. Qed.
Lemma due_call p cs : due (Running p :: cs) = ((if at_next p then 1 else 0) + due cs)%nat.
Proof. unfold due. cbn. by destruct (at_next p). Qed.

(** [n] numbers from the one after [z]. *)
Definition consecutive (z : Z) (n : nat) : list Z := (fun i => z + 1 + Z.of_nat i) <$> seq 0 n.
Lemma consecutive_S z n : consecutive z (S n) = consecutive z n ++ [z + Z.of_nat (S n)].
Proof. unfold consecutive. rewrite seq_S, fmap_app. cbn. do 2 f_equal. lia. Qed.

Section numbers.
Context {E : Type} `{ChanEnv E}.
Implicit Types (x : Busy E) (g : Channel).

(** As long as the calls need no more numbers than [g0] had left when nobody had asked. *)
Definition enough (g0 : Channel) (n : nat) : Prop :=
  0 <= seq_ g0 /\ seqRemain g0 <= MaxInt64 /\ Z.of_nat n < seqRemain g0 /\ seq_ g0 + Z.of_nat n <= MaxInt64.

Record num_inv (g0 : Channel) (x : Busy E) : Prop := {
  ni_remain : seqRemain (state_ x).1 = seqRemain g0 - Z.of_nat (asked x);
  ni_seq : seq_ (state_ x).1 = seq_ g0 + Z.of_nat (length (numbers x));
  ni_asked : asked x = (length (numbers x) + due (senders x))%nat;
  ni_loading : Forall (fun p => loading p = false) (under_way (senders x));
  ni_numbers : numbers x = consecutive (seq_ g0) (length (numbers x)) }.

Lemma enqueue_round_numbers p new next g e g' e' :
  enqueue_round p (g, e) = (Val (new, next), (g', e')) ->
  match p with
  | ELoad _ _ | EFill _ _ _ _ | EReset _ _ _ | EBack _ _ => True
  | ENumber m cm => seq_ g' = seq_ g /\ seqRemain g' = int64 (seqRemain g - 1) /\
      next = inl (if seqRemain g' <=? 0 then ELoad m cm else ENext m cm)
  | ENext m cm => seq_ g' = int64 (seq_ g + 1) /\ seqRemain g' = seqRemain g /\
      exists m' cm', next = inl (EKeep m' cm') /\ pm_Seq m' = seq_ g'
  | _ => seq_ g' = seq_ g /\ seqRemain g' = seqRemain g /\
      match next with inl p' => loading p' = false /\ at_next p' = false | inr _ => True end
  end.
Proof.
  intros Hr. destruct p; unfold enqueue_round, nextSeq_round in Hr; revert Hr; run; cbn [fst snd]; try done.
  - unfold GetChatMessage. destruct (pm_Message m) as [msg |]; [| done]. run.
    destruct (Deserialize _ _) as [[err |] cm]; by intros [=]; subst.
  - by intros [=]; subst.
  - intros [=]; subst. split_and!; [done | done |]. by eexists _, _.
  - destruct (pm_Type m =? TypeMessage); [destruct (StoreChannelMessage _ _ _) as [[err |] e1] |]; by intros [=]; subst.
  - destruct (messages_closed g) eqn:Hc; [done |]. destruct (Nat.ltb_spec (length (messages g)) queue_cap); by intros [=]; subst.
  - by intros [=]; subst.
  - destruct (Z.eqb_spec (queueRunning g) 0); cbn [negb]; by intros [=]; subst.
  - by intros [=]; subst.
  - by intros [=]; subst.
Qed.

Lemma due_moved l1 p l2 next :
  (due (l1 ++ call_of next :: l2) + (if at_next p then 1 else 0) =
   due (l1 ++ Running p :: l2) + match next with inl p' => if at_next p' then 1 else 0 | inr _ => 0 end)%nat.
Proof.
  rewrite !due_app, due_call. destruct next as [p' | r]; [cbn [call_of]; rewrite due_call; lia |].
  change (due (call_of (inr r) :: l2)) with (due l2). lia.
Qed.

Lemma loading_moved l1 p l2 next :
  Forall (fun p => loading p = false) (under_way (l1 ++ Running p :: l2)) ->
  match next with inl p' => loading p' = false | inr _ => True end ->
  Forall (fun p => loading p = false) (under_way (l1 ++ call_of next :: l2)).
Proof.
  rewrite !under_way_app, !Forall_app. intros [Hl1 Hl2] Hn. split; [done |]. cbn in Hl2. apply Forall_cons in Hl2 as [_ Hl2].
  destruct next as [p' | r]; [by constructor | done].
Qed.

Lemma enough_less g0 n n' : enough g0 n -> (n' <= n)%nat -> enough g0 n'.
Proof. unfold enough. lia. Qed.

Lemma busy_step_numbers alone g0 x x' : busy_step alone x x' -> enough g0 (asked x') -> num_inv g0 x -> num_inv g0 x'.
Proof.
  intros Hs Hen [H1 H2 H3 H4 H5]. destruct Hs as [p s cs ws ac tk pu fo a nu Hp Ha
    | l1 p l2 [g e] [g' e'] new next ws ac tk pu fo a nu Hr | l1 p l2 [g e] s' why ws ac tk pu fo a nu Hr
    | now r l1 k l2 [g e] [g' e'] t cs ac tk pu fo a nu Hr Ht | g g' e e' cs ws ac tk pu fo a nu Hap];
    cbn [state_ senders workers asked numbers fst] in *.
  - split; cbn [state_ senders workers asked numbers fst]; try done.
    + rewrite due_app, due_call. destruct p; try done; cbn; lia.
    + rewrite under_way_app. apply Forall_app. split; [done |]. cbn. constructor; [by destruct p | done].
  - pose proof (enqueue_round_numbers _ _ _ _ _ _ _ Hr) as Hn. pose proof (due_moved l1 p l2 next) as Hd.
    pose proof (loading_moved l1 p l2 next H4) as Hl.
    assert (Hp : loading p = false).
    { rewrite under_way_app in H4. apply Forall_app in H4 as [_ H4]. by apply Forall_cons in H4 as [? _]. }
    destruct (at_next p) eqn:Hat; [| destruct (asks p) eqn:Hask].
    + destruct p; try done. destruct Hn as (E1 & E2 & m' & cm' & -> & E3). cbn in Hd, Hl. 
      split; cbn [state_ senders workers asked numbers fst asks gives]; rewrite ?length_app; cbn [length].
      * lia.
      * rewrite E1, H2, int64_small; unfold enough in Hen; unfold in_int64, MaxInt64 in *; cbn in Hen; lia.
      * cbn; lia.
      * by apply Hl.
      * rewrite Nat.add_1_r, consecutive_S, <- H5. f_equal. rewrite E3, E1, H2, int64_small;
          [f_equal; lia | unfold enough in Hen; unfold in_int64, MaxInt64 in *; cbn in Hen; lia].
    + assert (Hq : seq_ g' = seq_ g /\ seqRemain g' = seqRemain g /\
        match next with inl p' => loading p' = false /\ at_next p' = false | inr _ => True end) by (by destruct p).
      assert (Hgiv : gives p next = []) by (by destruct p). destruct Hq as (E1 & E2 & Hq). rewrite Hgiv, app_nil_r.
      split; cbn [state_ senders workers asked numbers fst]; rewrite ?Hask, ?E1, ?E2; try done.
      * destruct next as [p' | r]; [destruct Hq as [_ Hq]; rewrite Hq in Hd |]; lia.
      * apply Hl. by destruct next as [p' |]; [destruct Hq |].
    + destruct p; try done. destruct Hn as (E1 & E2 & ->). injection Hask as <-. cbn in Hd, Hl, Hen.
      rewrite H1, int64_small in E2 by (unfold enough in Hen; unfold in_int64, MaxInt64 in *; lia).
      assert (Hpos : seqRemain g' <=? 0 = false) by (apply Z.leb_gt; unfold enough in Hen; lia). rewrite Hpos in *.
      split; cbn [state_ senders workers asked numbers fst asks gives]; rewrite ?app_nil_r; try done.
      * rewrite E2. lia.
      * by rewrite E1.
      * cbn in *. lia.
      * by apply Hl.
  - pose proof (enqueue_round_panics _ _ _ _ _ Hr) as ->.
    assert (Hat : at_next p = false) by (by destruct p).
    pose proof (due_moved l1 p l2 (inr nil_error)) as Hd. pose proof (loading_moved l1 p l2 (inr nil_error) H4 I) as Hl.
    rewrite Hat in Hd. rewrite under_way_app in Hl. rewrite due_app in Hd.
    split; cbn [state_ senders workers asked numbers fst]; try done.
    + rewrite due_app. change (due (Ended ?r :: l2)) with (due l2). change (due (call_of ?r :: l2)) with (due l2) in Hd. lia.
    + by rewrite under_way_app.
  - destruct (worker_round_works _ _ _ _ _ _ _ _ Hr). destruct wk_seq0 as (E1 & E2 & _).
    by split; cbn [state_ senders workers asked numbers fst]; rewrite ?E1, ?E2.
  - destruct Hap. by split; cbn [state_ senders workers asked numbers fst]; rewrite ?ap_seq0, ?ap_remain0.
Qed.
End numbers.

(** ** Properties of every run *)

Lemma sublist_full {A} (l k : list A) : l `sublist_of` k -> length k = length l -> l = k.
Proof.
  induction 1 as [| x l k Hs IH | x l k Hs IH]; intros Hl; [done | |].
  - injection Hl as Hl. by rewrite IH.
  - apply sublist_length in Hs. cbn in Hl. lia.
Qed.

Section properties.
Context {E : Type} `{ChanEnv E}.
Implicit Types (x : Busy E) (g : Channel) (e : E).

Lemma NewChannel_queue id now e0 g e :
  NewChannel id now e0 = ((nil_error, g), e) -> messages g = [] /\ queueRunning g = 0 /\ messages_closed g = false.
Proof.
  unfold NewChannel, loadSeq. run. cbn. destruct (NextSegmentSequence _ _ _) as [[[s l] [err |]] e1]; by intros [=]; subst.
Qed.

Lemma fresh_inv id now e0 x : fresh id now e0 x -> queue_inv x /\ alone_inv x /\ num_inv (state_ x).1 x.
Proof.
  intros (g & e & Hn & ->). destruct (NewChannel_queue _ _ _ _ _ Hn) as (Hm & Hq & _). split_and!.
  - split; cbn; rewrite ?Hm; try done. unfold queue_cap. cbn. lia.
  - split; cbn; try done; try lia; by intros ?%elem_of_nil.
  - split; cbn; try done; lia.
Qed.

Lemma busy_rtc alone x x' : rtc (busy_step alone) x x' -> queue_inv x -> queue_inv x'.
Proof. induction 1; eauto using busy_step_queue. Qed.
Lemma busy_reachable_queue alone x : busy_reachable alone x -> queue_inv x.
Proof. intros (id & now & e0 & x0 & Hf & Hr). destruct (fresh_inv _ _ _ _ Hf) as (Hq & _). by eapply busy_rtc. Qed.
Lemma busy_reachable_alone x : busy_reachable true x -> alone_inv x.
Proof.
  intros (id & now & e0 & x0 & Hf & Hr). destruct (fresh_inv _ _ _ _ Hf) as (_ & Ha & _). clear Hf.
  induction Hr; eauto using busy_step_alone.
Qed.

Lemma asked_grows alone x x' : rtc (busy_step alone) x x' -> (asked x <= asked x')%nat.
Proof. induction 1 as [| x y z Hs _ IH]; [done |]. etrans; [| exact IH]. destruct Hs; cbn; lia. Qed.

(** C25: however the calls and the workers interleave, the queue loses and repeats nothing: it never holds more than
    100 messages, messages leave it in the order they were accepted, and every accepted message is in exactly one
    place: pushed to the readers, in the hand of a worker that is to push it, read and forgotten by a worker that
    stops, or waiting. *)
Theorem queue_is_conserved alone x :
  busy_reachable alone x ->
  (length (messages (state_ x).1) <= 100)%nat /\
  accepted x = taken x ++ messages (state_ x).1 /\
  accepted x ≡ₚ pushed x ++ hands (workers x) ++ forgotten x ++ messages (state_ x).1.
Proof.
  intros Hr. destruct (busy_reachable_queue _ _ Hr) as [H1 H2 H3 _]. split_and!; [done | done |].
  rewrite H2, H3. by rewrite <- !app_assoc.
Qed.

(** C26: as long as calls do not overlap, whatever the workers and the rest of the channel do meanwhile, there is at most
    one worker, and the messages are pushed in the order they were accepted: when none was forgotten, what was
    accepted is what was pushed, then the one in the worker's hand, then those that wait. *)
Theorem one_worker_in_order x :
  busy_reachable true x ->
  (length (workers x) <= 1)%nat /\
  (pushed x ++ hands (workers x)) `sublist_of` accepted x /\
  (forgotten x = [] -> accepted x = pushed x ++ hands (workers x) ++ messages (state_ x).1).
Proof.
  intros Hr. destruct (busy_reachable_queue _ _ Hr) as [_ H2 H3 _]. destruct (busy_reachable_alone _ Hr) as [_ _ _ H4 _ H6].
  split_and!; [done | |].
  - rewrite H2. etrans; [exact H6 | by apply sublist_inserts_r].
  - intros Hf. rewrite Hf, app_nil_r in H3. rewrite H2, app_assoc. f_equal. symmetry.
    apply sublist_full; [done |]. by rewrite H3.
Qed.

(** C28: until the segment a new channel gets is used up, the calls, however they interleave, are given consecutive
    numbers, each number once, in the order in which they take them; every call that asked has its number or is
    about to take it. *)
Theorem numbers_are_consecutive alone id now e0 x0 x :
  fresh id now e0 x0 -> rtc (busy_step alone) x0 x -> enough (state_ x0).1 (asked x) ->
  numbers x = consecutive (seq_ (state_ x0).1) (length (numbers x)) /\ NoDup (numbers x) /\
  asked x = (length (numbers x) + due (senders x))%nat.
Proof.
  intros Hf Hr Hen. destruct (fresh_inv _ _ _ _ Hf) as (_ & _ & Hn). set (g0 := (state_ x0).1) in *. clearbody g0. clear Hf.
  assert (Hn' : num_inv g0 x).
  { induction Hr as [| x1 x2 x3 Hs Hr IH]; [done |]. apply IH; [done |].
    eapply busy_step_numbers; [exact Hs | | exact Hn]. eapply enough_less; [exact Hen |]. by eapply asked_grows. }
  destruct Hn' as [_ _ H3 _ H5]. split_and!; [done | | done]. rewrite H5. unfold consecutive.
  apply NoDup_fmap_2; [| apply NoDup_seq]. intros i j. lia.
Qed.
End properties.

(** ** The steps of [Channel] are runs

    [Channel] records its only worker in the channel itself. *)

Definition unworked (g : Channel) : Channel := set_worker (queueRunning g) None g.
Definition threads (g : Channel) : list kpc :=
  match worker g with
  | None => []
  | Some WLoop => [KLoop]
  | Some WRest => [KRest]
  | Some (WDrain d) => [KDrain d]
  end.

Section runs_of_Channel.
Context {E : Type} `{ChanEnv E}.
Implicit Types (g : Channel) (e : E) (s : Channel * E) (cs : list sender) (ws : list kpc).

(** A run from one state, calls and workers to another, whatever the history. *)
Definition runs s cs ws s' cs' ws' : Prop :=
  forall ac tk pu fo a nu, exists ac' tk' pu' fo' a' nu',
    rtc (busy_step true) (MkBusy s cs ws ac tk pu fo a nu) (MkBusy s' cs' ws' ac' tk' pu' fo' a' nu').

Lemma runs_refl s cs ws : runs s cs ws s cs ws.
Proof. intros ac tk pu fo a nu. repeat eexists. apply rtc_refl. Qed.
Lemma runs_call p s s' new next ws s2 cs2 ws2 :
  enqueue_round p s = (Val (new, next), s') ->
  runs s' [call_of next] (ws ++ option_list new) s2 cs2 ws2 -> runs s [Running p] ws s2 cs2 ws2.
Proof.
  intros Hr Hn ac tk pu fo a nu. edestruct Hn as (ac' & tk' & pu' & fo' & a' & nu' & Hrun).
  exists ac', tk', pu', fo', a', nu'. eapply rtc_l; [exact (busy_call true [] p [] s s' new next ws _ _ _ _ _ _ Hr) | exact Hrun].
Qed.
Lemma runs_panic p s s' why ws : enqueue_round p s = (Panics why, s') -> runs s [Running p] ws s' [Ended (Panics why)] ws.
Proof.
  intros Hr ac tk pu fo a nu. exists ac, tk, pu, fo, a, nu. apply rtc_once.
  exact (busy_call_panics true [] p [] s s' why ws _ _ _ _ _ _ Hr).
Qed.
Lemma runs_worker now r k s s' t cs s2 cs2 ws2 :
  worker_round now r k s = (Val t, s') -> t <> Blocked ->
  runs s' cs (goes_on t) s2 cs2 ws2 -> runs s cs [k] s2 cs2 ws2.
Proof.
  intros Hr Ht Hn ac tk pu fo a nu. rewrite <- (app_nil_r (goes_on t)) in Hn.
  edestruct Hn as (ac' & tk' & pu' & fo' & a' & nu' & Hrun). exists ac', tk', pu', fo', a', nu'.
  eapply rtc_l; [exact (busy_worker true now r [] k [] s s' t cs _ _ _ _ _ _ Hr Ht) | exact Hrun].
Qed.

(** What a call does once its message is numbered and stored; [Channel]'s [checkMsgQueue] includes the first action of
    the worker it starts. *)
Lemma send_runs now full m g e r g' e' :
  (queueRunning g = 0 <-> worker g = None) ->
  (let! sent := chan_send m in if sent : bool then checkMsgQueue now else ret full) (g, e) = (r, (g', e')) ->
  runs (unworked g, e) [Running (ESend full m)] (threads g) (unworked g', e') [Ended r] (threads g').
Proof.
  intros Hw Hr. unfold chan_send, checkMsgQueue in Hr. revert Hr. run. cbn [fst snd].
  destruct (messages_closed g) eqn:Hc.
  { intros [=]; subst. apply runs_panic. unfold enqueue_round. run. cbn. by rewrite Hc. }
  destruct (length (messages g) <? queue_cap)%nat eqn:Hl; cbn [fst snd].
  2: { intros [=]; subst. eapply runs_call; [unfold enqueue_round, nextSeq_round; run; cbn -[queue_cap Nat.ltb]; rewrite Hc, Hl; reflexivity |].
       rewrite app_nil_r. apply runs_refl. }
  intros Hr. eapply runs_call; [unfold enqueue_round, nextSeq_round; run; cbn -[queue_cap Nat.ltb]; rewrite Hc, Hl; reflexivity |]. rewrite app_nil_r.
  eapply runs_call; [reflexivity |]. rewrite app_nil_r. revert Hr. cbn.
  destruct (Z.eqb_spec (queueRunning g) 0) as [Hq | Hq]; cbn; intros [=]; subst.
  - assert (Ht : threads g = []) by (unfold threads; by rewrite (proj1 Hw Hq)). rewrite Ht.
    eapply runs_call; [unfold enqueue_round, nextSeq_round; run; cbn -[queue_cap Nat.ltb]; rewrite Hq; reflexivity |].
    eapply runs_call; [reflexivity |]. eapply runs_call; [reflexivity |].
    eapply (runs_worker now OnTimer KTimer); [reflexivity | done |]. apply runs_refl.
  - eapply runs_call; [unfold enqueue_round, nextSeq_round; run; cbn -[queue_cap Nat.ltb]; rewrite (proj2 (Z.eqb_neq _ _) Hq); reflexivity |].
    rewrite app_nil_r. apply runs_refl.
Qed.

Ltac call_runs := eapply runs_call; [unfold enqueue_round, nextSeq_round; run; cbn -[queue_cap Nat.ltb Z.leb int64]; reflexivity |]; rewrite app_nil_r.

Lemma nextSeq_runs m cm g e r g1 e1 :
  nextSeq (g, e) = (r, (g1, e1)) ->
  worker g1 = worker g /\ queueRunning g1 = queueRunning g /\
  match r with
  | Panics _ => False
  | Val (s, Some err) => forall ws, runs (unworked g, e) [Running (ENumber m cm)] ws (unworked g1, e1) [Ended (Val (Some err))] ws
  | Val (s, None) => forall ws s2 cs2 ws2,
      runs (unworked g1, e1) [Running (EKeep (with_data m s (set_cm_Seq s cm)) (set_cm_Seq s cm))] ws s2 cs2 ws2 ->
      runs (unworked g, e) [Running (ENumber m cm)] ws s2 cs2 ws2
  end.
Proof.
  unfold nextSeq, loadSeq. run. cbn -[Z.leb int64]. destruct (int64 (seqRemain g - 1) <=? 0) eqn:Hrem; cbn -[Z.leb int64].
  - destruct (NextSegmentSequence _ _ _) as [[[s l] [err |]] e2] eqn:Hn; cbn -[Z.leb int64]; intros [= <- <- <-]; split_and!; try done.
    + intros ws. call_runs. rewrite Hrem.
      eapply runs_call; [unfold enqueue_round, nextSeq_round; run; cbn -[int64]; rewrite Hn; reflexivity |]. rewrite app_nil_r. apply runs_refl.
    + intros ws s2 cs2 ws2 Hk. call_runs. rewrite Hrem.
      eapply runs_call; [unfold enqueue_round, nextSeq_round; run; cbn -[int64]; rewrite Hn; reflexivity |]. rewrite app_nil_r.
      do 4 call_runs. exact Hk.
  - intros [= <- <- <-]. split_and!; try done. intros ws s2 cs2 ws2 Hk. call_runs. rewrite Hrem. call_runs. exact Hk.
Qed.

Lemma enqueue_runs now m g e r g' e' :
  (queueRunning g = 0 <-> worker g = None) ->
  enqueue now m (g, e) = (r, (g', e')) ->
  runs (unworked g, e) [Running (EDecode m)] (threads g) (unworked g', e') [Ended r] (threads g').
Proof.
  intros Hw. unfold enqueue, GetChatMessage, bind at 1. destruct (pm_Message m) as [msg |] eqn:Hm.
  2: { intros [= <- <- <-]. apply runs_panic. unfold enqueue_round, GetChatMessage. by rewrite Hm. }
  destruct (Deserialize (Data msg) zero_ChatMessage) as [[err |] cm] eqn:Hd; cbn [ret].
  { intros [= <- <- <-]. eapply runs_call; [unfold enqueue_round, GetChatMessage; rewrite Hm; run; rewrite Hd; reflexivity |].
    rewrite app_nil_r. apply runs_refl. }
  intros Hr. eapply runs_call; [unfold enqueue_round, GetChatMessage; rewrite Hm; run; rewrite Hd; reflexivity |].
  rewrite app_nil_r. revert Hr. unfold bind at 1. destruct (nextSeq (g, e)) as [[[s [err |]] | why] [g1 e1]] eqn:Hn;
    destruct (nextSeq_runs m cm _ _ _ _ _ Hn) as (Hw1 & Hq1 & Hnext); [| | done];
    assert (Ht : threads g1 = threads g) by (unfold threads; by rewrite Hw1).
  { intros [= <- <- <-]. rewrite Ht. apply Hnext. }
  cbv zeta. unfold bind at 1. destruct (pm_Type (with_data m s (set_cm_Seq s cm)) =? TypeMessage) eqn:Hty.
  - run. cbn [fst snd]. destruct (StoreChannelMessage _ _ _) as [[err |] e2] eqn:Hst; cbn [fst snd]; intros Hr; apply Hnext.
    + revert Hr. intros [= <- <- <-]. eapply runs_call; [unfold enqueue_round, nextSeq_round; rewrite Hty; run; cbn; rewrite Hst; reflexivity |].
      rewrite app_nil_r, Ht. apply runs_refl.
    + eapply runs_call; [unfold enqueue_round, nextSeq_round; rewrite Hty; run; cbn; rewrite Hst; reflexivity |].
      rewrite app_nil_r, <- Ht. apply (send_runs now); [by rewrite Hw1, Hq1 | exact Hr].
  - run. cbn [fst snd]. intros Hr. apply Hnext.
    eapply runs_call; [unfold enqueue_round, nextSeq_round; rewrite Hty; run; reflexivity |].
    rewrite app_nil_r, <- Ht. apply (send_runs now); [by rewrite Hw1, Hq1 | exact Hr].
Qed.

Ltac worker_runs now r := eapply (runs_worker now r); [unfold worker_round; run; cbn; reflexivity | done |]; cbn [goes_on].

Lemma wstep_runs now cs s s' :
  wstep now s s' -> runs (unworked s.1, s.2) cs (threads s.1) (unworked s'.1, s'.2) cs (threads s'.1).
Proof.
  intros Hs. destruct Hs as [now g e Hwk H1 H2 | now g e Hwk H1 H2 | now g e m ms r s' Hwk Hm Hp | now g e Hwk Hm Hc
    | now g e Hwk Hq | now g e s' Hwk Hq Hf | now g e m ms d Hwk Hm | now g e d s' Hwk Hm Hc Hf]; unfold threads; cbn [fst snd];
    rewrite Hwk.
  - worker_runs now OnTimer. eapply (runs_worker now OnTimer); [unfold worker_round; run; cbn; by rewrite (proj2 (Z.ltb_ge _ _)) by lia | done |].
    cbn [worker set_timer]. rewrite Hwk. apply runs_refl.
  - worker_runs now OnTimer. eapply (runs_worker now OnTimer); [unfold worker_round; run; cbn; by rewrite (proj2 (Z.ltb_lt _ _)) by lia | done |].
    apply runs_refl.
  - rewrite push_run in Hp. injection Hp as <- <-. cbn [fst snd worker set_activeAt set_queued set_messages]. rewrite Hwk.
    eapply (runs_worker now OnMessage); [unfold worker_round; run; cbn; by rewrite Hm | done |]. cbn [goes_on].
    do 2 worker_runs now OnMessage.
    eapply (runs_worker now OnMessage); [unfold worker_round, bind; by rewrite push_run | done |]. apply runs_refl.
  - eapply (runs_worker now OnMessage); [unfold worker_round; run; cbn; by rewrite Hm, Hc | done |]. apply runs_refl.
  - eapply (runs_worker now OnMessage); [unfold worker_round; run; cbn; by rewrite (proj2 (Z.ltb_lt _ _)) by lia | done |]. apply runs_refl.
  - unfold finish in Hf. revert Hf. run. intros [= <-]. cbn [fst snd worker set_worker].
    eapply (runs_worker now OnMessage); [unfold worker_round; run; cbn; by rewrite (proj2 (Z.ltb_ge _ _)) by lia | done |]. cbn [goes_on].
    do 2 worker_runs now OnMessage. apply runs_refl.
  - eapply (runs_worker now OnMessage); [unfold worker_round; run; cbn; by rewrite Hm | done |]. cbn [goes_on].
    worker_runs now OnMessage. apply runs_refl.
  - unfold finish in Hf. revert Hf. run. intros [= <-]. cbn [fst snd worker set_worker].
    eapply (runs_worker now OnMessage); [unfold worker_round; run; cbn; by rewrite Hm, Hc | done |]. cbn [goes_on].
    do 2 worker_runs now OnMessage. apply runs_refl.
Qed.
End runs_of_Channel.

Section more_properties.
Context {E : Type} `{ChanEnv E}.
Implicit Types (s : Channel * E) (x : Busy E).

(** C29: the steps of [Channel] are runs of these: from a state a channel reaches, a call of [enqueue] or [enqueueNotify]
    that nothing interleaves with returns what [Channel] computes and leaves the channel, its environment and its
    worker as there, and so does every step of [Channel]'s worker. *)
Theorem channel_steps_are_runs s :
  chan_reachable s ->
  (forall now m r s', enqueue now m s = (r, s') ->
     runs (unworked s.1, s.2) [Running (EDecode m)] (threads s.1) (unworked s'.1, s'.2) [Ended r] (threads s'.1)) /\
  (forall now m r s', enqueueNotify now m s = (r, s') ->
     runs (unworked s.1, s.2) [Running (ESend errNotifyFull m)] (threads s.1) (unworked s'.1, s'.2) [Ended r] (threads s'.1)) /\
  (forall now cs s', wstep now s s' -> runs (unworked s.1, s.2) cs (threads s.1) (unworked s'.1, s'.2) cs (threads s'.1)).
Proof.
  intros Hr. apply reachable_inv in Hr. destruct s as [g e]. assert (Hw : queueRunning g = 0 <-> worker g = None).
  { pose proof (ci_running _ Hr) as Hq. cbn in Hq. rewrite Hq. by destruct (worker g). }
  split_and!.
  - intros now m r [g' e'] He. by apply (enqueue_runs now).
  - intros now m r [g' e'] He. by apply (send_runs now).
  - intros now cs s' Hs. by apply (wstep_runs now).
Qed.

(** C27: the running flag is never set for nobody: in every state, however the calls interleave, while it is set a
    worker lives or a call is about to start one. So a message that was left without a worker is not left for ever:
    when nothing runs, the next call that finds the queue open and not full starts a worker, behind all that wait. *)
Theorem running_flag_is_owned alone x :
  busy_reachable alone x ->
  (queueRunning (state_ x).1 <> 0 -> workers x <> [] \/ Exists is_spawn (senders x)) /\
  (workers x = [] -> Forall ended (senders x) ->
   messages_closed (state_ x).1 = false -> (length (messages (state_ x).1) < queue_cap)%nat ->
   forall full m, exists g', messages g' = messages (state_ x).1 ++ [m] /\
     runs (state_ x) [Running (ESend full m)] [] (g', (state_ x).2) [Ended (Val nil_error)] [KLoop]).
Proof.
  intros Hr. destruct (busy_reachable_queue _ _ Hr) as [_ _ _ Hf]. split; [exact Hf |].
  intros Hw Hall Hc Hlen full m. assert (Hq : queueRunning (state_ x).1 = 0).
  { destruct (decide (queueRunning (state_ x).1 = 0)) as [| Hn]; [done |]. exfalso.
    destruct (Hf Hn) as [Hno | Hsp]; [done |]. apply Exists_exists in Hsp as (c & Hin & Hc').
    rewrite Forall_forall in Hall. apply Hall in Hin. by destruct c. }
  destruct (state_ x) as [g e]. cbn [fst snd] in *.
  eexists. split; [| eapply runs_call; [unfold enqueue_round, nextSeq_round; run; cbn -[queue_cap Nat.ltb]; rewrite Hc;
    rewrite (proj2 (Nat.ltb_lt _ _)) by exact Hlen; reflexivity |]].
  2: { eapply runs_call; [reflexivity |]. eapply runs_call; [unfold enqueue_round, nextSeq_round; run; cbn; rewrite Hq; reflexivity |].
       eapply runs_call; [reflexivity |]. eapply runs_call; [reflexivity |].
       eapply (runs_worker 0 OnTimer KTimer); [reflexivity | done |]. apply runs_refl. }
  reflexivity.
Qed.
End more_properties.

(** ** Schedules *)

Inductive move := Begin (p : epc) | Call (i : nat) | Work (i : nat) (now : Z) (r : ready).

Section schedules.
Context {E : Type} `{ChanEnv E}.

Definition is_ended (c : sender) : bool := match c with Ended _ => true | Running _ => false end.
Definition is_first (p : epc) : bool := match p with EDecode _ | ESend _ _ => true | _ => false end.

Definition busy_next (alone : bool) (v : move) (x : Busy E) : option (Busy E) :=
  let 'MkBusy s cs ws ac tk pu fo a nu := x in
  match v with
  | Begin p =>
      if is_first p && (negb alone || forallb is_ended cs)
      then Some (MkBusy s (cs ++ [Running p]) ws ac tk pu fo a nu) else None
  | Call i =>
      match cs !! i with
      | Some (Running p) =>
          match enqueue_round p s with
          | (Val (new, next), s') =>
              Some (MkBusy s' (take i cs ++ call_of next :: drop (S i) cs) (ws ++ option_list new) (ac ++ accepts p next)
                tk pu fo (asks p + a) (nu ++ gives p next))
          | (Panics why, s') => Some (MkBusy s' (take i cs ++ Ended (Panics why) :: drop (S i) cs) ws ac tk pu fo a nu)
          end
      | _ => None
      end
  | Work i now r =>
      match ws !! i with
      | Some k =>
          match worker_round now r k s with
          | (Val Blocked, _) | (Panics _, _) => None
          | (Val t, s') =>
              Some (MkBusy s' cs (take i ws ++ goes_on t ++ drop (S i) ws) ac (tk ++ takes t) (pu ++ pushes k)
                (fo ++ forgets t) a nu)
          end
      | None => None
      end
  end.

Lemma busy_next_sound alone v x x' : busy_next alone v x = Some x' -> busy_step alone x x'.
Proof.
  destruct x as [s cs ws ac tk pu fo a nu], v as [p | i | i now r]; cbn.
  - destruct (is_first p) eqn:Hp; [| done]. destruct (negb alone || forallb is_ended cs) eqn:Ha; [| done]. intros [= <-].
    apply busy_begins; [by destruct p |]. intros ->. cbn in Ha. apply Forall_forall. intros c Hc.
    rewrite forallb_forall in Ha. apply list_elem_of_In, Ha in Hc. by destruct c.
  - destruct (cs !! i) as [[p | r] |] eqn:Hi; [| done | done].
    destruct (enqueue_round p s) as [[[new next] | why] s'] eqn:Hr; intros [= <-]; rewrite <- (take_drop_middle _ _ _ Hi) at 1.
    + by apply busy_call.
    + by apply busy_call_panics.
  - destruct (ws !! i) as [k |] eqn:Hi; [| done]. destruct (worker_round now r k s) as [[t | why] s'] eqn:Hr; [| done].
    assert (Hs : t <> Blocked -> busy_step alone (MkBusy s cs ws ac tk pu fo a nu)
      (MkBusy s' cs (take i ws ++ goes_on t ++ drop (S i) ws) ac (tk ++ takes t) (pu ++ pushes k) (fo ++ forgets t) a nu)).
    { intros Ht. rewrite <- (take_drop_middle _ _ _ Hi) at 1. by apply (busy_worker _ now r). }
    destruct t; [done | |]; intros [= <-]; by apply Hs.
Qed.

Fixpoint moved_by (alone : bool) (vs : list move) (x : Busy E) : option (Busy E) :=
  match vs with
  | [] => Some x
  | v :: vs => match busy_next alone v x with Some x' => moved_by alone vs x' | None => None end
  end.

Lemma moved_by_sound alone vs x x' : moved_by alone vs x = Some x' -> rtc (busy_step alone) x x'.
Proof.
  revert x. induction vs as [| v vs IH]; intros x; cbn; [by intros [= <-] |].
  destruct (busy_next alone v x) as [x1 |] eqn:Hv; [| done]. intros Hr.
  eapply rtc_l; [by eapply busy_next_sound | by apply IH].
Qed.
End schedules.

(** *** What else happens *)

Definition quiet_channel : Busy demo_env := Eval vm_compute in
  MkBusy demo_s0 [] [] [] [] [] [] 0 [].
Lemma quiet_channel_fresh : fresh "ch" 0 (MkDemo [] 100) quiet_channel.
Proof. by exists demo_s0.1, demo_s0.2. Qed.

Lemma scheduled alone vs x : moved_by alone vs quiet_channel = Some x -> busy_reachable alone x.
Proof. intros Hv. exists "ch", 0, (MkDemo [] 100), quiet_channel. split; [apply quiet_channel_fresh | by eapply moved_by_sound]. Qed.

Definition note (text : string) : PublishMessage :=
  MkPublishMessage "u1" [] 0 TypeNotify (Some (NewMessage 0 ActionGroupNotify (PString text))).
Definition calls_ (i n : nat) : list move := replicate n (Call i).
Definition works_ (i n : nat) (now : Z) : list move := replicate n (Work i now OnMessage).
Definition sample_note (text : string) : list move := [Begin (ESend errNotifyFull (note text))].

(** Even when calls do not overlap: a worker that goes to rest has found the queue empty and has not cleared the flag
    yet; a call puts its message on the queue, finds the flag set and returns; the worker ends. The message waits, with
    the counter at 0, until another is sent. *)
Lemma waiting_message_without_worker :
  exists x, busy_reachable true x /\ Forall ended (senders x) /\ workers x = [] /\
    messages (state_ x).1 = [note "two"] /\ queued (state_ x).1 = 0 /\ queueRunning (state_ x).1 = 0.
Proof.
  destruct (moved_by true (sample_note "one" ++ calls_ 0 5 ++ works_ 0 5 0 ++ [Work 0 0 OnTimer; Work 0 10001 OnTimer; Work 0 0 OnTimer] ++
    sample_note "two" ++ calls_ 1 3 ++ works_ 0 2 0) quiet_channel) as [x |] eqn:Hx; [| by vm_compute in Hx].
  exists x. split; [by eapply scheduled |]. vm_compute in Hx. injection Hx as <-. by repeat constructor.
Qed.

(** Two calls that overlap both find the flag clear and both start a worker: the workers take one message each and push
    them in the other order. *)
Lemma two_workers_reorder :
  exists x, busy_reachable false x /\ length (workers x) = 2%nat /\
    accepted x = [note "one"; note "two"] /\ pushed x = [note "two"; note "one"].
Proof.
  destruct (moved_by false (sample_note "one" ++ sample_note "two" ++ calls_ 0 3 ++ calls_ 1 3 ++ calls_ 0 2 ++ calls_ 1 2 ++
    works_ 0 2 0 ++ works_ 1 5 0 ++ works_ 0 3 0) quiet_channel) as [x |] eqn:Hx; [| by vm_compute in Hx].
  exists x. split; [by eapply scheduled |]. vm_compute in Hx. injection Hx as <-. done.
Qed.

(** While a call that loads the next segment is between its two stores and its correction of [seq], another takes a
    number: the first then takes the same. *)
Lemma number_given_twice :
  exists x, busy_reachable false x /\ numbers x = [101; 102; 103; 104; 106; 106].
Proof.
  pose (begin_ (c : string) := [Begin (EDecode (demo_chat c).1)]).
  destruct (moved_by false (begin_ "a" ++ calls_ 0 3 ++ begin_ "b" ++ calls_ 1 3 ++ begin_ "c" ++ calls_ 2 3 ++ begin_ "d" ++ calls_ 3 3 ++
    begin_ "e" ++ calls_ 4 5 ++ begin_ "f" ++ calls_ 5 3 ++ calls_ 4 2) quiet_channel) as [x |] eqn:Hx; [| by vm_compute in Hx].
  exists x. split; [by eapply scheduled |]. vm_compute in Hx. injection Hx as <-. done.
Qed.

(** *** The theorems on concrete runs *)

(** One message pushed, one in the hand of the worker, one waiting. *)
Definition demo_moves : list move :=
  sample_note "one" ++ calls_ 0 5 ++ works_ 0 5 0 ++ sample_note "two" ++ calls_ 1 3 ++ works_ 0 3 0 ++ sample_note "three" ++ calls_ 2 3.
Definition demo_busy : Busy demo_env := Eval vm_compute in default quiet_channel (moved_by true demo_moves quiet_channel).
Lemma demo_busy_reachable alone : busy_reachable alone demo_busy.
Proof. apply (scheduled alone demo_moves). by destruct alone; vm_compute. Qed.

Lemma queue_is_conserved_witness :
  accepted demo_busy = [note "one"; note "two"; note "three"] /\
  accepted demo_busy = taken demo_busy ++ messages (state_ demo_busy).1.
Proof.
  split; [reflexivity |].
  exact (proj1 (proj2 (queue_is_conserved false demo_busy (demo_busy_reachable false)))).
Defined.

Lemma one_worker_in_order_witness :
  accepted demo_busy = [note "one"] ++ [note "two"] ++ [note "three"].
Proof.
  exact (proj2 (proj2 (one_worker_in_order demo_busy (demo_busy_reachable true))) eq_refl).
Defined.

Definition demo_numbering : list move :=
  [Begin (EDecode (demo_chat "a").1); Begin (EDecode (demo_chat "b").1)] ++ calls_ 1 3 ++ calls_ 0 3.
Definition demo_numbered : Busy demo_env := Eval vm_compute in default quiet_channel (moved_by false demo_numbering quiet_channel).

Lemma numbers_are_consecutive_witness :
  numbers demo_numbered = [101; 102] /\ NoDup (numbers demo_numbered).
Proof.
  split; [reflexivity |].
  refine (proj1 (proj2 (numbers_are_consecutive false "ch" 0 (MkDemo [] 100) quiet_channel demo_numbered quiet_channel_fresh _ _))).
  - apply (moved_by_sound false demo_numbering). vm_compute. reflexivity.
  - unfold enough. cbn. unfold MaxInt64. lia.
Defined.

Lemma channel_steps_are_runs_witness :
  runs (unworked demo_s3.1, demo_s3.2) [Running (ESend errNotifyFull (note "one"))] (threads demo_s3.1)
    (unworked (enqueueNotify 0 (note "one") demo_s3).2.1, (enqueueNotify 0 (note "one") demo_s3).2.2)
    [Ended (Val nil_error)] [KLoop].
Proof.
  refine (proj1 (proj2 (channel_steps_are_runs demo_s3 _)) 0 (note "one") (Val nil_error) (enqueueNotify 0 (note "one") demo_s3).2 _).
  - exists demo_s0. split; [apply demo_created |].
    eapply rtc_l; [eapply (step_op (OpSubscribe 0 "u1" demo_options) _ _ demo_s1); reflexivity |].
    eapply rtc_l; [eapply (step_worker 0 demo_s1 demo_s2), (w_recv 0 demo_s1.1 demo_s1.2); reflexivity |].
    apply rtc_once. eapply (step_worker 0 demo_s2 demo_s3), (w_recv 0 demo_s2.1 demo_s2.2); reflexivity.
  - vm_compute. reflexivity.
Defined.

Lemma running_flag_is_owned_witness :
  queueRunning (state_ demo_busy).1 = 1 /\ (workers demo_busy <> [] \/ Exists is_spawn (senders demo_busy)) /\
  exists g', messages g' = [note "four"] /\
    runs (state_ quiet_channel) [Running (ESend errNotifyFull (note "four"))] [] (g', (state_ quiet_channel).2) [Ended (Val nil_error)] [KLoop].
Proof.
  split; [reflexivity |]. split.
  - apply (proj1 (running_flag_is_owned true demo_busy (demo_busy_reachable true))). by vm_compute.
  - apply (proj2 (running_flag_is_owned true quiet_channel (scheduled true [] quiet_channel eq_refl))); try done.
    cbn. unfold queue_cap. lia.
Defined.
