(* ===== verification/Subscription.v ===== *)
(** * The directory of channels: [subscription.go] and [wrap.go] of [subscription_impl]

    [realSubscription] maps channel identifiers to channels and forwards each operation to the channel;
    [subscriptionImpl] is its interface of flagged updates; [wrap] turns that interface back
    into one method per operation. [Subscribe] is the interface [pkg/subscription] declares, also
    implemented by the RPC client.

    The gateway and the stores of all channels are one environment. A channel removed from the
    directory leaves the model, though its worker may still be running in Go. *)

From S2P Require Import Prelude GoStrings Json Messages GateId Digest Channel ChannelSpec.

Local Open Scope Z_scope.
Local Open Scope go_scope.

Definition ErrChanNotExist : string := "channel does not exist".
Definition ErrChanAlreadyExists : string := "channel already exists".
Definition ErrUnknownFlag : error := errors_New "unknown flag".

Definition SubscriberSubscribe : Z := 1.
Definition SubscriberUnsubscribe : Z := 2.
Definition SubscriberUpdate : Z := 5.
Definition ChanCreate : Z := 1.
Definition ChanDelete : Z := 2.
Definition ChanUpdate : Z := 3.

(** [subscription.Update] and [ChannelUpdate]. *)
Record Update_ := MkUpdate { up_Flag : Z; up_ID : SubscriberID; up_Extra : extra }.
Record ChannelUpdate := MkChannelUpdate { cu_Flag : Z; cu_Extra : extra }.

(** The interface [subscription.Subscribe], on a state [S]; the clock is an argument. *)
Class Subscribe_ (S : Type) := {
  PublishMessage_ : Z -> ChanID -> message_arg -> GoM S error;
  UpdateSubscriber_ : Z -> ChanID -> list Update_ -> GoM S error;
  UpdateChannel_ : Z -> ChanID -> ChannelUpdate -> GoM S error }.

Section realSubscription.
Context {E : Type} `{ChanEnv E}.

Definition SubState : Type := gmap ChanID Channel * E.
Definition channels_of : GoM SubState (gmap ChanID Channel) := gets fst.
Definition set_channels (m : gmap ChanID Channel) : GoM SubState unit := modify (fun s => (m, s.2)).

(** [ch, ok := u.channels[chID]], and the call of a method of [ch]. *)
Definition with_channel (chID : ChanID) (op : GoM (Channel * E) error) : GoM SubState error :=
  fun s =>
    match s.1 !! chID with
    | None => (Val (errors_New ErrChanNotExist), s)
    | Some ch => let '(r, (ch', e')) := op (ch, s.2) in (r, (<[chID := ch']> s.1, e'))
    end.

Definition real_Subscribe (now : Z) (chID : ChanID) (sbID : SubscriberID) (ex : extra) : GoM SubState error :=
  with_channel chID (Subscribe now sbID ex).
Definition real_UnSubscribe (now : Z) (chID : ChanID) (id : SubscriberID) : GoM SubState error :=
  with_channel chID (Unsubscribe now id).
Definition real_UpdateSubscriber (now : Z) (chID : ChanID) (id : SubscriberID) (update : extra) : GoM SubState error :=
  with_channel chID (Subscribe now id update).
Definition real_UpdateChannel (chID : ChanID) (update : ChanInfo) : GoM SubState error :=
  with_channel chID (Update update).
Definition real_Publish (now : Z) (chID : ChanID) (msg : message_arg) : GoM SubState error :=
  with_channel chID (Publish now msg).

Definition real_RemoveChannel (chID : ChanID) : GoM SubState error :=
  let! m := channels_of in
  match m !! chID with
  | None => ret (errors_New ErrChanNotExist)
  | Some _ => set_channels (delete chID m) ;;; ret nil_error
  end.

Definition real_CreateChannel (now : Z) (chID : ChanID) (update : ChanInfo) : GoM SubState error :=
  let! m := channels_of in
  match m !! chID with
  | Some _ => ret (errors_New ErrChanAlreadyExists)
  | None => fun s =>
      let '((err, channel), e) := NewChannel chID now s.2 in
      match err with
      | Some _ => (Val err, (s.1, e))
      | None =>
          match Update update (channel, e) with
          | (Val None, (channel', e')) => (Val nil_error, (<[chID := channel']> s.1, e'))
          | (r, (_, e')) => (r, (s.1, e'))
          end
      end
  end.

(** *** [subscriptionImpl] *)

Definition apply_update (now : Z) (id : ChanID) (u : Update_) : option (GoM SubState error) :=
  if up_Flag u =? SubscriberSubscribe then Some (real_Subscribe now id (up_ID u) (up_Extra u))
  else if up_Flag u =? SubscriberUnsubscribe then Some (real_UnSubscribe now id (up_ID u))
  else if up_Flag u =? SubscriberUpdate then Some (real_UpdateSubscriber now id (up_ID u) (up_Extra u))
  else None.

Fixpoint join_errors (errs : list string) : string :=
  match errs with [] => "" | err :: errs' => err +:+ String (byte_of 10) (join_errors errs') end.

Fixpoint impl_UpdateSubscriber_loop (now : Z) (id : ChanID) (updates : list Update_) (errs : list string) : GoM SubState error :=
  match updates with
  | [] => if bool_decide (errs = []) then ret nil_error else ret (errors_New (join_errors errs))
  | u :: us =>
      match apply_update now id u with
      | None => ret ErrUnknownFlag
      | Some op =>
          let! err := op in
          impl_UpdateSubscriber_loop now id us (match err with Some e => errs ++ [e] | None => errs end)
      end
  end.

Definition impl_UpdateSubscriber (now : Z) (id : ChanID) (updates : list Update_) : GoM SubState error :=
  impl_UpdateSubscriber_loop now id updates [].

Definition impl_UpdateChannel (now : Z) (id : ChanID) (update : ChannelUpdate) : GoM SubState error :=
  if cu_Flag update =? ChanCreate then
    match cu_Extra update with
    | ExtraInfo i => real_CreateChannel now id i
    | _ => ret (errors_New "invalid channel info")
    end
  else if cu_Flag update =? ChanUpdate then
    match cu_Extra update with
    | ExtraInfo i => real_UpdateChannel id i
    | _ => ret (errors_New "invalid channel info")
    end
  else if cu_Flag update =? ChanDelete then real_RemoveChannel id
  else ret ErrUnknownFlag.

Definition impl_PublishMessage (now : Z) (id : ChanID) (message : message_arg) : GoM SubState error :=
  real_Publish now id message.

#[global] Instance subscriptionImpl : Subscribe_ SubState := {|
  PublishMessage_ := impl_PublishMessage;
  UpdateSubscriber_ := impl_UpdateSubscriber;
  UpdateChannel_ := impl_UpdateChannel |}.
End realSubscription.

(** ** [wrap], over any implementation *)

Section wrap.
Context {S : Type} `{Subscribe_ S}.

Definition wrap_Subscribe (now : Z) (ch : ChanID) (id : SubscriberID) (ex : extra) : GoM S error :=
  UpdateSubscriber_ now ch [MkUpdate SubscriberSubscribe id ex].
Definition wrap_UnSubscribe (now : Z) (ch : ChanID) (id : SubscriberID) : GoM S error :=
  UpdateSubscriber_ now ch [MkUpdate SubscriberUnsubscribe id ExtraNil].
Definition wrap_UpdateSubscriber (now : Z) (ch : ChanID) (id : SubscriberID) (ex : extra) : GoM S error :=
  UpdateSubscriber_ now ch [MkUpdate SubscriberUpdate id ex].
Definition wrap_RemoveChannel (now : Z) (ch : ChanID) : GoM S error :=
  UpdateChannel_ now ch (MkChannelUpdate ChanDelete ExtraNil).
Definition wrap_CreateChannel (now : Z) (ch : ChanID) (update : ChanInfo) : GoM S error :=
  UpdateChannel_ now ch (MkChannelUpdate ChanCreate (ExtraInfo update)).
Definition wrap_UpdateChannel (now : Z) (ch : ChanID) (update : ChanInfo) : GoM S error :=
  UpdateChannel_ now ch (MkChannelUpdate ChanUpdate (ExtraInfo update)).
Definition wrap_Publish (now : Z) (ch : ChanID) (msg : message_arg) : GoM S error :=
  PublishMessage_ now ch msg.
End wrap.

(** ** Properties *)

(** [m] run with the text of its error ended by a newline. *)
Definition newline_errors {S} (m : GoM S error) : GoM S error :=
  fun s => match m s with
           | (Val (Some e), s') => (Val (Some (e +:+ String (byte_of 10) "")), s')
           | r => r
           end.

Section directory.
Context {E : Type} `{ChanEnv E}.

Lemma one_update now ch u op s :
  apply_update now ch u = Some op -> UpdateSubscriber_ (S := SubState (E := E)) now ch [u] s = newline_errors op s.
Proof.
  intros Hu. simpl. unfold impl_UpdateSubscriber, newline_errors. cbn [impl_UpdateSubscriber_loop]. rewrite Hu.
  unfold bind. destruct (op s) as [[[e |] | why] s']; done.
Qed.

(** through [wrap] and the flags of [subscriptionImpl], each operation is the one of
    [realSubscription]: same effect, same success; only the error texts of the subscriber operations
    gain a final newline. *)
Theorem wrap_is_realSubscription now ch id ex ci msg (s : SubState (E := E)) :
  wrap_Subscribe now ch id ex s = newline_errors (real_Subscribe now ch id ex) s /\
  wrap_UnSubscribe now ch id s = newline_errors (real_UnSubscribe now ch id) s /\
  wrap_UpdateSubscriber now ch id ex s = newline_errors (real_UpdateSubscriber now ch id ex) s /\
  wrap_CreateChannel now ch ci s = real_CreateChannel now ch ci s /\
  wrap_UpdateChannel now ch ci s = real_UpdateChannel ch ci s /\
  wrap_RemoveChannel now ch s = real_RemoveChannel ch s /\
  wrap_Publish now ch msg s = real_Publish now ch msg s.
Proof.
  split_and!; try done; unfold wrap_Subscribe, wrap_UnSubscribe, wrap_UpdateSubscriber; by apply one_update.
Qed.

Inductive sub_op :=
  | SOpSubscribe (now : Z) (id : SubscriberID) (ex : extra)
  | SOpUnSubscribe (now : Z) (id : SubscriberID)
  | SOpUpdateSubscriber (now : Z) (id : SubscriberID) (ex : extra)
  | SOpPublish (now : Z) (msg : message_arg)
  | SOpUpdateChannel (ci : ChanInfo)
  | SOpRemove
  | SOpCreate (now : Z) (ci : ChanInfo).

Definition run_sub_op (ch : ChanID) (op : sub_op) : GoM (SubState (E := E)) error :=
  match op with
  | SOpSubscribe now id ex => real_Subscribe now ch id ex
  | SOpUnSubscribe now id => real_UnSubscribe now ch id
  | SOpUpdateSubscriber now id ex => real_UpdateSubscriber now ch id ex
  | SOpPublish now msg => real_Publish now ch msg
  | SOpUpdateChannel ci => real_UpdateChannel ch ci
  | SOpRemove => real_RemoveChannel ch
  | SOpCreate now ci => real_CreateChannel now ch ci
  end.

Lemma with_channel_other ch op s r s' ch' :
  with_channel (E := E) ch op s = (r, s') -> ch' <> ch -> s'.1 !! ch' = s.1 !! ch'.
Proof.
  unfold with_channel. intros Hr Hne. destruct (s.1 !! ch) as [c |]; [| by simplify_eq].
  destruct (op (c, s.2)) as [r0 [c' e']]. simplify_eq/=. by rewrite lookup_insert_ne.
Qed.

(** an operation on one channel, whatever it returns and even when it panics, leaves every
    other channel of the directory as it was. *)
Theorem operations_are_local ch op s r s' ch' :
  run_sub_op ch op s = (r, s') -> ch' <> ch -> s'.1 !! ch' = s.1 !! ch'.
Proof.
  intros Hr Hne. destruct op; simpl in Hr; try (by eapply with_channel_other).
  - unfold real_RemoveChannel, bind, channels_of, gets, set_channels, modify, ret in Hr.
    destruct (s.1 !! ch); simplify_eq/=; by rewrite ?lookup_delete_ne.
  - unfold real_CreateChannel, bind, channels_of, gets, ret in Hr. destruct (s.1 !! ch); [by simplify_eq/= |].
    destruct (NewChannel ch now s.2) as [[[err |] c] e]; [by simplify_eq/= |].
    destruct (Update ci (c, e)) as [[[err |] | why] [c' e']]; simplify_eq/=; try done.
    by rewrite lookup_insert_ne.
Qed.

(** A channel that does not exist is created open, with nobody in it, when it gets a segment of numbers. *)
Lemma real_CreateChannel_run now ch ci s sq len e :
  s.1 !! ch = None -> NextSegmentSequence ch zero_ChanInfo s.2 = ((sq, len, nil_error), e) ->
  exists c, real_CreateChannel (E := E) now ch ci s = (Val nil_error, (<[ch := c]> s.1, e)) /\
    Muted (info c) = Muted ci /\ Blocked (info c) = Blocked ci /\ Secret (info c) = Secret ci /\
    Closed (info c) = false /\ subscribers c = ∅ /\ messages_closed c = false.
Proof.
  intros Hc Hn. unfold real_CreateChannel, bind. simpl. rewrite Hc. unfold NewChannel, loadSeq, bind, rd, gets, env_call. simpl.
  rewrite Hn. eexists. split; [reflexivity |]. by split_and!.
Qed.

(** a channel exists from a successful creation to its removal: creating it again fails, and
    operations on a channel that does not exist fail; a failed creation or removal leaves the
    directory as it was; a created channel has the given muting, blocking and secret, is open, and has
    no subscribers, whatever the other fields of the given information say. *)
Theorem channel_lifetime now ch ci s :
  match (real_CreateChannel (E := E) now ch ci s).1 with
  | Val None => s.1 !! ch = None /\ exists c, (real_CreateChannel now ch ci s).2.1 = <[ch := c]> s.1 /\
      Muted (info c) = Muted ci /\ Blocked (info c) = Blocked ci /\ Secret (info c) = Secret ci /\
      Closed (info c) = false /\ subscribers c = ∅ /\ messages c = []
  | _ => (real_CreateChannel now ch ci s).2.1 = s.1
  end /\
  (is_Some (s.1 !! ch) ->
     real_CreateChannel now ch ci s = (Val (Some ErrChanAlreadyExists), s) /\
     (real_RemoveChannel ch s).1 = Val nil_error /\ (real_RemoveChannel ch s).2.1 = delete ch s.1) /\
  (s.1 !! ch = None -> forall op, (forall now ci, op <> SOpCreate now ci) ->
     run_sub_op ch op s = (Val (Some ErrChanNotExist), s)).
Proof.
  split_and!.
  - unfold real_CreateChannel, bind. simpl. destruct (s.1 !! ch) as [c0 |] eqn:Hc; [done |].
    unfold NewChannel, loadSeq. unfold bind, rd, gets, env_call, wr, modify, ret. simpl.
    destruct (NextSegmentSequence ch zero_ChanInfo s.2) as [[[sq len] [err |]] e]; simpl; [done |].
    split; [done |]. eexists. split; [reflexivity |]. by split_and!.
  - intros [c Hc]. unfold real_CreateChannel, real_RemoveChannel, bind. simpl. rewrite Hc. by destruct s.
  - intros Hc op Hop. destruct op; simpl; try (unfold real_Subscribe, real_UnSubscribe, real_UpdateSubscriber,
      real_Publish, real_UpdateChannel, with_channel; by rewrite Hc).
    + unfold real_RemoveChannel, bind. simpl. rewrite Hc. by destruct s.
    + by destruct (Hop now0 ci0).
Qed.
End directory.

(** Two channels; removing one leaves the other. *)
Definition demo_directory : SubState (E := demo_env) :=
  (<[ "a" := demo_s0.1 ]> (<[ "b" := demo_s4.1 ]> ∅), MkDemo [] 0).

Lemma operations_are_local_witness :
  exists s', run_sub_op "a" SOpRemove demo_directory = (Val nil_error, s') /\ s'.1 !! "b" = demo_directory.1 !! "b".
Proof.
  eexists. split; [reflexivity |].
  apply (operations_are_local "a" SOpRemove demo_directory (Val nil_error)); [reflexivity | discriminate].
Defined.
