(* ===== verification/WorldChannel.v ===== *)
(** * The world channel: [internal/world_channel/world_channel.go]

    A channel every logged-in user joins when it comes online and leaves when it goes offline, with
    announcements by the subscriber [system]. The model calls the subscription service through
    [wrap]; the clock at each call, and the nanosecond clock of the announcement, are arguments.

    [OnUserOnline] and [OnUserOffline] run in goroutines of their own, and sleep between their calls:
    [resume] is one call, up to the next, so that whatever else happens can happen in between;
    [OnUserOnline_resumes] puts the calls together. *)

From S2P Require Import Prelude GoStrings Json Messages GateId Digest Channel ChannelSpec ChannelFrame Subscription.

Local Open Scope Z_scope.
Local Open Scope go_scope.

Definition chanId : ChanID := "the_world_channel".
Definition system_id : SubscriberID := "system".

Section operations.
Context {S : Type} `{Subscribe_ S}.

Definition EnableWorldChannel (now : Z) : GoM S error :=
  let! err := wrap_CreateChannel now chanId (MkChanInfo chanId 0 false false false "" None []) in
  match err with
  | Some _ => ret err
  | None => wrap_Subscribe now chanId system_id (ExtraOptions (MkSubscriberOptions PermWrite ""))
  end.

Definition announcement (type_ nano : Z) (uid : string) : ChatMessage :=
  MkChatMessage "" nano 0 "system" chanId type_ uid (nano / 1000000000).

Definition announce (now : Z) (to : list SubscriberID) (data : payload) : GoM S error :=
  wrap_Publish now chanId (AsPublish (MkPublishMessage system_id to 0 TypeMessage (Some (NewMessage 0 ActionGroupMessage data)))).

Definition OnUserOnline (t0 nano t1 t2 : Z) (id : ID) : GoM S unit :=
  if IsTemp id then ret tt
  else
    let! err := wrap_Subscribe t0 chanId (UID id) (ExtraOptions (MkSubscriberOptions (Z.lor PermRead PermWrite) "")) in
    match err with
    | Some _ => ret tt
    | None =>
        let b := PChatMessage (announcement 100 nano (UID id)) in
        let! _ := announce t1 [] b in
        let! _ := announce t2 [UID id] b in
        ret tt
    end.

Definition OnUserOffline (t0 nano t1 : Z) (id : ID) : GoM S unit :=
  if IsTemp id then ret tt
  else
    let! _ := wrap_UnSubscribe t0 chanId (UID id) in
    let! _ := announce t1 [] (PBytes (encode_ChatMessage (announcement 101 nano (UID id)))) in
    ret tt.

(** *** Call by call *)

(** Where a goroutine is: about to join, to greet everybody, to greet the user; to leave, to tell. *)
Inductive goroutine :=
  | Joining (id : ID)
  | Greeting (uid : string)
  | Welcoming (uid : string) (nano : Z)
  | Leaving (id : ID)
  | Parting (uid : string).

(** The next call of the goroutine, and where it is after it; [None] when it has ended. *)
Definition resume (t nano : Z) (g : goroutine) : GoM S (option goroutine) :=
  match g with
  | Joining id =>
      if IsTemp id then ret None
      else
        let! err := wrap_Subscribe t chanId (UID id) (ExtraOptions (MkSubscriberOptions (Z.lor PermRead PermWrite) "")) in
        ret (match err with Some _ => None | None => Some (Greeting (UID id)) end)
  | Greeting uid =>
      let! _ := announce t [] (PChatMessage (announcement 100 nano uid)) in ret (Some (Welcoming uid nano))
  | Welcoming uid nano0 =>
      let! _ := announce t [uid] (PChatMessage (announcement 100 nano0 uid)) in ret None
  | Leaving id =>
      if IsTemp id then ret None
      else let! _ := wrap_UnSubscribe t chanId (UID id) in ret (Some (Parting (UID id)))
  | Parting uid =>
      let! _ := announce t [] (PBytes (encode_ChatMessage (announcement 101 nano uid))) in ret None
  end.

Definition resume_next (t nano : Z) (o : option goroutine) : GoM S (option goroutine) :=
  match o with Some g => resume t nano g | None => ret None end.

Lemma OnUserOnline_resumes t0 nano t1 t2 id (s : S) :
  OnUserOnline t0 nano t1 t2 id s =
    (let! g1 := resume t0 nano (Joining id) in let! g2 := resume_next t1 nano g1 in
     let! _ := resume_next t2 nano g2 in ret tt) s.
Proof.
  unfold OnUserOnline, resume_next, bind. cbn [resume]. destruct (IsTemp id); [done |]. unfold bind.
  destruct (wrap_Subscribe _ _ _ _ s) as [[[err |] | why] s1]; [done | | done]. cbn. unfold bind.
  destruct (announce t1 _ _ s1) as [[e1 | why] s2]; [| done]. cbn. unfold bind.
  by destruct (announce t2 _ _ s2) as [[e2 | why] s3].
Qed.

Lemma OnUserOffline_resumes t0 nano t1 id (s : S) :
  OnUserOffline t0 nano t1 id s =
    (let! g1 := resume t0 nano (Leaving id) in let! _ := resume_next t1 nano g1 in ret tt) s.
Proof.
  unfold OnUserOffline, resume_next, bind. cbn [resume]. destruct (IsTemp id); [done |]. unfold bind.
  destruct (wrap_UnSubscribe _ _ _ s) as [[err | why] s1]; [| done]. cbn. unfold bind.
  by destruct (announce t1 _ _ s1) as [[e1 | why] s2].
Qed.
End operations.

(** ** What leaves the members of a channel alone *)

Section steady.
Context {E : Type} `{ChanEnv E}.

(** The channel is open to everybody, and its subscribers are [subs]. *)
Definition open_channel (subs : gmap SubscriberID SubscriberInfo) (s : Channel * E) : Prop :=
  subscribers s.1 = subs /\ messages_closed s.1 = false /\
  Closed (info s.1) = false /\ Blocked (info s.1) = false /\ Secret (info s.1) = "".

Context (subs : gmap SubscriberID SubscriberInfo).

Lemma open_channel_quiet f g (e : E) : quiet_write f -> open_channel subs (g, e) -> open_channel subs (f g, e).
Proof. intros Hf Ho. destruct (Hf g) as (E1 & E2 & E3 & _). unfold open_channel in *. cbn in *. by rewrite E1, E2, E3. Qed.
Lemma open_channel_env {R} (f : E -> R * E) : preserves (open_channel subs) (env_call f).
Proof. intros [g e] Hs. unfold env_call. cbn. by destruct (f e). Qed.

Lemma open_channel_queue l g (e : E) : open_channel subs (g, e) -> open_channel subs (set_messages l g, e).
Proof. done. Qed.

#[local] Hint Resolve open_channel_quiet open_channel_env open_channel_queue : core.

Lemma open_channel_loadSeq : preserves (open_channel subs) loadSeq.
Proof. apply queue_loadSeq; auto. Qed.
Lemma open_channel_notify now m : preserves (open_channel subs) (enqueueNotify now m).
Proof. apply (queue_notify _ any); auto. Qed.
Lemma open_channel_Publish now msg : preserves (open_channel subs) (Publish now msg).
Proof. apply (queue_Publish _ any); auto. Qed.
Lemma open_channel_wstep now s s' : wstep now s s' -> open_channel subs s -> open_channel subs s'.
Proof. apply (queue_wstep _ any); auto. Qed.
End steady.

(** ** Joining and leaving *)

Section membership.
Context {E : Type} `{ChanEnv E}.

Lemma Subscribe_members now id so subs (s : Channel * E) :
  open_channel subs s -> open_channel (<[id := NewSubscriberInfo so]> subs) (Subscribe now id (ExtraOptions so) s).2.
Proof.
  destruct s as [g e]. intros (Hsub & Hmc & Hc & Hb & Hsec). cbn [fst] in *. unfold Subscribe.
  rewrite (bind_Val (getSubscriberOptions (ExtraOptions so)) _ (g, e) (inl so) (g, e) eq_refl).
  rewrite (bind_Val (rd info) _ (g, e) _ _ eq_refl). cbn [fst]. rewrite Hc, Hb.
  rewrite (bind_Val (rd subscribers) _ (g, e) _ _ eq_refl). cbn [fst]. rewrite Hsub.
  destruct (subs !! id) as [sb |]; [done |]. rewrite Hsec. cbn [bool_decide negb andb].
  rewrite (bool_decide_true ("" = "")) by done. cbn [negb andb].
  match goal with |- open_channel _ (bind (wr ?f) ?k ?s0).2 => rewrite (bind_Val (wr f) k s0 tt (f g, e) eq_refl) end.
  set (subs' := <[id := NewSubscriberInfo so]> subs).
  assert (Hp : preserves (open_channel (E := E) subs')
    (let! _ := enqueueNotify now (notify (NotifyUid id) NotifyTypeOnline []) in
     let! members := GetSubscribers in
     let! _ := enqueueNotify now (notify (NotifyMembers members) NotifyOnlineMembers [id]) in ret nil_error)).
  { apply preserves_bind; [apply open_channel_notify | intros _]. apply preserves_bind; [apply preserves_gets | intros members].
    apply preserves_bind; [apply open_channel_notify | intros _]. apply preserves_ret. }
  by apply Hp.
Qed.

Lemma Unsubscribe_members now id subs (s : Channel * E) :
  open_channel subs s -> open_channel (delete id subs) (Unsubscribe now id s).2.
Proof.
  destruct s as [g e]. intros (Hsub & Hmc & Hc & Hb & Hsec). cbn [fst] in *. unfold Unsubscribe.
  rewrite (bind_Val (rd subscribers) _ (g, e) _ _ eq_refl). cbn [fst]. rewrite Hsub.
  destruct (subs !! id) as [sb |] eqn:Hid; [| by rewrite delete_id].
  match goal with |- open_channel _ (bind (wr ?f) ?k ?s0).2 => rewrite (bind_Val (wr f) k s0 tt (f g, e) eq_refl) end.
  assert (Hp : preserves (open_channel (E := E) (delete id subs))
    (let! _ := enqueueNotify now (notify (NotifyUid id) NotifyTypeOffline []) in ret nil_error))
    by (apply preserves_bind; [apply open_channel_notify | intros; apply preserves_ret]).
  by apply Hp.
Qed.

(** The world channel exists, is open, and has these members. *)
Definition world_open (ids : gset SubscriberID) (s : SubState (E := E)) : Prop :=
  exists g subs, s.1 !! chanId = Some g /\ open_channel subs (g, s.2) /\ dom subs = ids.

Lemma with_channel_members op ids ids' s :
  (forall subs (s0 : Channel * E), open_channel subs s0 -> dom subs = ids ->
     exists subs', open_channel (E := E) subs' (op s0).2 /\ dom subs' = ids') ->
  world_open ids s -> world_open ids' (with_channel chanId op s).2.
Proof.
  intros Hop (g & subs & Hg & Ho & Hd). unfold with_channel. rewrite Hg.
  destruct (Hop subs (g, s.2) Ho Hd) as (subs' & Ho' & Hd'). destruct (op (g, s.2)) as [r [g' e']].
  exists g', subs'. cbn. by rewrite lookup_insert_eq.
Qed.

Lemma newline_errors_state {S} (m : GoM S error) s : (newline_errors m s).2 = (m s).2.
Proof. unfold newline_errors. by destruct (m s) as [[[|] |] s']. Qed.

Lemma wrap_Subscribe_members now id so ids s :
  world_open ids s -> world_open ({[id]} ∪ ids) (wrap_Subscribe now chanId id (ExtraOptions so) s).2.
Proof.
  intros Hw. unfold wrap_Subscribe. rewrite (one_update now chanId _ (real_Subscribe now chanId id (ExtraOptions so))) by done.
  rewrite newline_errors_state. apply (with_channel_members _ ids); [| done].
  intros subs s0 Ho Hd. eexists. split; [by apply Subscribe_members |]. by rewrite dom_insert_L, Hd.
Qed.

Lemma wrap_UnSubscribe_members now id ids s :
  world_open ids s -> world_open (ids ∖ {[id]}) (wrap_UnSubscribe now chanId id s).2.
Proof.
  intros Hw. unfold wrap_UnSubscribe. rewrite (one_update now chanId _ (real_UnSubscribe now chanId id)) by done.
  rewrite newline_errors_state. apply (with_channel_members _ ids); [| done].
  intros subs s0 Ho Hd. eexists. split; [by apply Unsubscribe_members |]. by rewrite dom_delete_L, Hd.
Qed.

Lemma world_publish ids now msg : preserves (world_open ids) (real_Publish now chanId msg).
Proof.
  intros s Hw. apply (with_channel_members _ ids); [| done].
  intros subs s0 Ho Hd. exists subs. split; [by apply open_channel_Publish | done].
Qed.

Lemma world_announce ids now to data : preserves (world_open ids) (announce now to data).
Proof. apply world_publish. Qed.

(** ** The world channel as a transition system *)

Inductive presence := Online (id : ID) | Offline (id : ID).

(** The event a call makes known. *)
Definition presence_of (g : goroutine) : list presence :=
  match g with Joining id => [Online id] | Leaving id => [Offline id] | _ => [] end.

(** A call of a user's goroutine, a publication to the channel, or a step of its worker. *)
Inductive world_step : SubState (E := E) -> list presence -> SubState (E := E) -> Prop :=
  | world_resume t nano g s : world_step s (presence_of g) (resume t nano g s).2
  | world_message now msg s : world_step s [] (real_Publish now chanId msg s).2
  | world_worker now g g' e' s :
      s.1 !! chanId = Some g -> wstep now (g, s.2) (g', e') -> world_step s [] (<[chanId := g']> s.1, e').

Inductive world_steps : SubState (E := E) -> list presence -> SubState (E := E) -> Prop :=
  | world_nil s : world_steps s [] s
  | world_snoc s evs s1 ev s2 : world_steps s evs s1 -> world_step s1 ev s2 -> world_steps s (evs ++ ev) s2.

(** The users the events leave online; temporary users are never counted. *)
Definition apply_presence (ids : gset SubscriberID) (ev : presence) : gset SubscriberID :=
  match ev with
  | Online id => if IsTemp id then ids else {[UID id]} ∪ ids
  | Offline id => if IsTemp id then ids else ids ∖ {[UID id]}
  end.
Definition world_members (evs : list presence) : gset SubscriberID := foldl apply_presence {[system_id]} evs.

Lemma world_told ids t to data (o : option goroutine) :
  preserves (world_open ids) (let! _ := announce (S := SubState (E := E)) t to data in ret o).
Proof. apply preserves_bind; [apply world_announce | intros; apply preserves_ret]. Qed.

Lemma resume_members t nano g ids s :
  world_open ids s -> world_open (foldl apply_presence ids (presence_of g)) (resume t nano g s).2.
Proof.
  intros Hw. destruct g as [id | uid | uid nano0 | id | uid]; cbn [presence_of foldl apply_presence resume];
    try by apply world_told.
  - destruct (IsTemp id); [done |].
    pose proof (wrap_Subscribe_members t (UID id) (MkSubscriberOptions (Z.lor PermRead PermWrite) "") _ _ Hw) as Hw'.
    unfold bind. by destruct (wrap_Subscribe _ _ _ _ s) as [[err | why] s'].
  - destruct (IsTemp id); [done |]. pose proof (wrap_UnSubscribe_members t (UID id) _ _ Hw) as Hw'.
    unfold bind. by destruct (wrap_UnSubscribe _ _ _ s) as [[err | why] s'].
Qed.

Lemma world_step_members ids s ev s' :
  world_step s ev s' -> world_open ids s -> world_open (foldl apply_presence ids ev) s'.
Proof.
  intros Hs Hw. destruct Hs as [t nano g s | now msg s | now g g' e' s Hg Hstep].
  - by apply resume_members.
  - by apply world_publish.
  - destruct Hw as (g0 & subs & Hg0 & Ho & Hd). assert (g0 = g) by congruence. subst.
    exists g', subs. cbn. rewrite lookup_insert_eq. split_and!; try done. by eapply open_channel_wstep.
Qed.

Lemma Enable_members now s s' :
  EnableWorldChannel now s = (Val nil_error, s') -> world_open {[system_id]} s'.
Proof.
  unfold EnableWorldChannel. intros (err & s1 & H1 & H2)%bind_Val_inv. destruct err as [err |]; [done |].
  assert (Hw : world_open ∅ s1).
  { cbn in H1. unfold real_CreateChannel, bind, channels_of, gets, ret in H1.
    destruct (s.1 !! chanId); [done |]. unfold NewChannel in H1.
    set (g0 := empty_channel chanId now) in *.
    assert (Ho : open_channel (E := E) ∅ (g0, s.2)) by done.
    pose proof (open_channel_loadSeq ∅ (g0, s.2) Ho) as Hl. destruct (loadSeq (g0, s.2)) as [[[err |] | why] [g1 e1]];
      [done | |]; injection H1 as <-;
      destruct Hl as (E1 & E2 & E3 & E4 & E5); (eexists _, ∅; split; [apply lookup_insert_eq |]; by split_and!). }
  pose proof (wrap_Subscribe_members now system_id (MkSubscriberOptions PermWrite "") _ _ Hw) as Hw'.
  rewrite H2, (right_id_L ∅ (∪)) in Hw'. exact Hw'.
Qed.

(** once the world channel is enabled, however the goroutines of the users interleave, whatever is
    published to it and whatever its worker does, its members are [system] and the users whose last
    call was to join; clients that have not logged in never join. *)
Theorem world_channel_members now s0 s evs s' :
  EnableWorldChannel now s0 = (Val nil_error, s) -> world_steps s evs s' ->
  exists g, s'.1 !! chanId = Some g /\ dom (subscribers g) = world_members evs.
Proof.
  intros Hen Hsteps.
  assert (Hw : world_open (world_members evs) s').
  { induction Hsteps as [s | s evs s1 ev s2 _ IH Hstep]; [by eapply Enable_members |].
    unfold world_members. rewrite foldl_app. eapply world_step_members; [done |]. by apply IH. }
  destruct Hw as (g & subs & Hg & (Hsub & _) & Hd). exists g. split; [done |]. cbn in Hsub. by rewrite Hsub.
Qed.
End membership.

(** Two users come online at the same time, one leaves before its announcement, and a temporary user joins. *)
Definition demo_goroutines : list (Z * goroutine) :=
  [(1, Joining (NewID2 "alice")); (2, Joining (NewID2 "bob")); (3, Leaving (NewID2 "bob"));
   (4, Greeting "bob"); (5, Joining (NewID2 "tmp@x")); (6, Greeting "alice")].
Definition resume_all (l : list (Z * goroutine)) (s : SubState (E := demo_env)) : SubState (E := demo_env) :=
  foldl (fun s p => (resume p.1 p.1 p.2 s).2) s l.

Lemma resume_all_steps l : forall s0 evs s,
  world_steps s0 evs s -> world_steps s0 (foldl (fun evs p => evs ++ presence_of p.2) evs l) (resume_all l s).
Proof.
  induction l as [| p l IH]; intros s0 evs s Hs; [done |]. cbn [foldl resume_all]. apply IH.
  eapply world_snoc; [exact Hs | apply world_resume].
Qed.

Lemma world_channel_members_witness :
  let s0 : SubState (E := demo_env) := (∅ : gmap ChanID Channel, MkDemo [] 1) in
  exists (s : SubState (E := demo_env)) g, EnableWorldChannel 0 s0 = (Val nil_error, s) /\
    (resume_all demo_goroutines s).1 !! chanId = Some g /\
    dom (subscribers g) = world_members [Online (NewID2 "alice"); Online (NewID2 "bob"); Offline (NewID2 "bob"); Online (NewID2 "tmp@x")].
Proof.
  intros s0. destruct (EnableWorldChannel 0 s0) as [r s] eqn:Hen.
  assert (Hr : (EnableWorldChannel 0 s0).1 = Val nil_error) by (vm_compute; reflexivity).
  rewrite Hen in Hr. cbn in Hr. subst r.
  destruct (world_channel_members 0 s0 s _ (resume_all demo_goroutines s) Hen
    (resume_all_steps demo_goroutines s [] s (world_nil s))) as (g & H1 & H2).
  exists s, g. exact (conj eq_refl (conj H1 H2)).
Defined.
