(* ===== verification/Credentials.v ===== *)
(** * Credentials: the crypto of [pkg/gate/authenticator.go]

    [ClientAuthCredentials] travel from the business service to the gateway as JSON, encrypted with a
    block cipher in CBC mode with PKCS7 padding, the initialization vector in front, in unpadded
    base64. The block cipher is [cipher.Block], an interface of Go's library: here a class with its
    law. [aes.NewCipher] accepts keys of 16, 24 or 32 bytes. *)

From S2P Require Import Prelude GoStrings Hash Json Messages.

Local Open Scope Z_scope.

(** ** Data *)

Record ClientSecrets := MkClientSecrets { MessageDeliverSecret : string; OnlineStateSecret : string }.
Record EncryptedCredential := MkEncryptedCredential { ec_Version : Z; ec_Credential : string }.
Record ConnectionConfig := MkConnectionConfig {
  AllowMaxHeartbeatLost : Z; HeartbeatDuration : Z; cc_CloseImmediately : bool }.
Record RiskControl := MkRiskControl { MaxMessagesPeerSecond : Z }.

Record ClientAuthCredentials := MkCredentials {
  cr_Type : Z;
  cr_UserID : string;
  cr_DeviceID : string;
  cr_DeviceName : string;
  cr_Secrets : option ClientSecrets;
  cr_RiskControl : option RiskControl;
  cr_ConnectionConfig : option ConnectionConfig;
  cr_ConnectionID : string;
  cr_Timestamp : Z }.

Definition zero_credentials : ClientAuthCredentials := MkCredentials 0 "" "" "" None None None "" 0.

(** ** JSON *)

Definition encode_opt {A} (f : A -> string) (o : option A) : string :=
  match o with Some a => f a | None => "null" end.

Definition encode_secrets (s : ClientSecrets) : string :=
  json_object [("message_deliver_secret", json_string (MessageDeliverSecret s));
               ("online_state_secret", json_string (OnlineStateSecret s))].
Definition encode_risk (r : RiskControl) : string :=
  json_object [("MaxMessagesPeerSecond", json_int (MaxMessagesPeerSecond r))].
Definition encode_config (c : ConnectionConfig) : string :=
  json_object [("AllowMaxHeartbeatLost", json_int (AllowMaxHeartbeatLost c));
               ("HeartbeatDuration", json_int (HeartbeatDuration c));
               ("CloseImmediately", json_bool (cc_CloseImmediately c))].

Definition credentials_members (c : ClientAuthCredentials) : list (string * string) :=
  [("type", json_int (cr_Type c)); ("user_id", json_string (cr_UserID c));
   ("device_id", json_string (cr_DeviceID c)); ("device_name", json_string (cr_DeviceName c));
   ("secrets", encode_opt encode_secrets (cr_Secrets c));
   ("risk_control", encode_opt encode_risk (cr_RiskControl c));
   ("connection_config", encode_opt encode_config (cr_ConnectionConfig c));
   ("connection_id", json_string (cr_ConnectionID c)); ("timestamp", json_int (cr_Timestamp c))].

Definition encode_credentials (c : ClientAuthCredentials) : string := json_object (credentials_members c).

Definition set_bool {T} (set : bool -> T -> T) (raw : string) (t : T) : error * T :=
  if bool_decide (raw = "null") then (nil_error, t)
  else if bool_decide (raw = "true") then (nil_error, set true t)
  else if bool_decide (raw = "false") then (nil_error, set false t)
  else (errors_New "json: cannot unmarshal value into Go value of type bool", t).

(** A pointer field: [null] is nil, an object is decoded into the struct pointed to. *)
Definition set_pointer {T A} (fs : list (field A)) (zero : A) (get : T -> option A) (set : option A -> T -> T)
    (raw : string) (t : T) : error * T :=
  if bool_decide (raw = "null") then (nil_error, set None t)
  else let '(e, a) := Unmarshal fs raw (default zero (get t)) in (e, set (Some a) t).

Definition secrets_fields : list (field ClientSecrets) := [
  ("message_deliver_secret", set_string MessageDeliverSecret (fun s m => MkClientSecrets s (OnlineStateSecret m)));
  ("online_state_secret", set_string OnlineStateSecret (fun s m => MkClientSecrets (MessageDeliverSecret m) s))].
Definition risk_fields : list (field RiskControl) := [
  ("MaxMessagesPeerSecond", set_int 64 MaxMessagesPeerSecond (fun z _ => MkRiskControl z))].
Definition config_fields : list (field ConnectionConfig) := [
  ("AllowMaxHeartbeatLost", set_int 64 AllowMaxHeartbeatLost (fun z m => MkConnectionConfig z (HeartbeatDuration m) (cc_CloseImmediately m)));
  ("HeartbeatDuration", set_int 64 HeartbeatDuration (fun z m => MkConnectionConfig (AllowMaxHeartbeatLost m) z (cc_CloseImmediately m)));
  ("CloseImmediately", set_bool (fun b m => MkConnectionConfig (AllowMaxHeartbeatLost m) (HeartbeatDuration m) b))].

Definition credentials_fields : list (field ClientAuthCredentials) := [
  ("type", set_int 64 cr_Type (fun z c => MkCredentials z (cr_UserID c) (cr_DeviceID c) (cr_DeviceName c) (cr_Secrets c) (cr_RiskControl c) (cr_ConnectionConfig c) (cr_ConnectionID c) (cr_Timestamp c)));
  ("user_id", set_string cr_UserID (fun s c => MkCredentials (cr_Type c) s (cr_DeviceID c) (cr_DeviceName c) (cr_Secrets c) (cr_RiskControl c) (cr_ConnectionConfig c) (cr_ConnectionID c) (cr_Timestamp c)));
  ("device_id", set_string cr_DeviceID (fun s c => MkCredentials (cr_Type c) (cr_UserID c) s (cr_DeviceName c) (cr_Secrets c) (cr_RiskControl c) (cr_ConnectionConfig c) (cr_ConnectionID c) (cr_Timestamp c)));
  ("device_name", set_string cr_DeviceName (fun s c => MkCredentials (cr_Type c) (cr_UserID c) (cr_DeviceID c) s (cr_Secrets c) (cr_RiskControl c) (cr_ConnectionConfig c) (cr_ConnectionID c) (cr_Timestamp c)));
  ("secrets", set_pointer secrets_fields (MkClientSecrets "" "") cr_Secrets (fun o c => MkCredentials (cr_Type c) (cr_UserID c) (cr_DeviceID c) (cr_DeviceName c) o (cr_RiskControl c) (cr_ConnectionConfig c) (cr_ConnectionID c) (cr_Timestamp c)));
  ("risk_control", set_pointer risk_fields (MkRiskControl 0) cr_RiskControl (fun o c => MkCredentials (cr_Type c) (cr_UserID c) (cr_DeviceID c) (cr_DeviceName c) (cr_Secrets c) o (cr_ConnectionConfig c) (cr_ConnectionID c) (cr_Timestamp c)));
  ("connection_config", set_pointer config_fields (MkConnectionConfig 0 0 false) cr_ConnectionConfig (fun o c => MkCredentials (cr_Type c) (cr_UserID c) (cr_DeviceID c) (cr_DeviceName c) (cr_Secrets c) (cr_RiskControl c) o (cr_ConnectionID c) (cr_Timestamp c)));
  ("connection_id", set_string cr_ConnectionID (fun s c => MkCredentials (cr_Type c) (cr_UserID c) (cr_DeviceID c) (cr_DeviceName c) (cr_Secrets c) (cr_RiskControl c) (cr_ConnectionConfig c) s (cr_Timestamp c)));
  ("timestamp", set_int 64 cr_Timestamp (fun z c => MkCredentials (cr_Type c) (cr_UserID c) (cr_DeviceID c) (cr_DeviceName c) (cr_Secrets c) (cr_RiskControl c) (cr_ConnectionConfig c) (cr_ConnectionID c) z))].

#[global] Instance EncryptedCredential_struct : GoStruct EncryptedCredential := {|
  fields := [
    ("version", set_int 64 ec_Version (fun z m => MkEncryptedCredential z (ec_Credential m)));
    ("credential", set_string ec_Credential (fun s m => MkEncryptedCredential (ec_Version m) s))];
  of_payload _ := None |}.

Definition zero_EncryptedCredential : EncryptedCredential := MkEncryptedCredential 0 "".

(** ** Unpadded base64 *)

Definition b64_char (d : Z) : ascii :=
  byte_of (if d <? 26 then 65 + d else if d <? 52 then 71 + d else if d <? 62 then d - 4
           else if d =? 62 then 43 else 47).

Definition b64_value (c : ascii) : option Z :=
  let n := code c in
  if (65 <=? n) && (n <=? 90) then Some (n - 65)
  else if (97 <=? n) && (n <=? 122) then Some (n - 71)
  else if (48 <=? n) && (n <=? 57) then Some (n + 4)
  else if n =? 43 then Some 62
  else if n =? 47 then Some 63
  else None.

(** [base64.RawStdEncoding.Encode]. *)
Fixpoint b64_encode (l : list Z) : string :=
  match l with
  | a :: b :: c :: l' =>
      String (b64_char (a / 4)) (String (b64_char (a mod 4 * 16 + b / 16))
        (String (b64_char (b mod 16 * 4 + c / 64)) (String (b64_char (c mod 64)) (b64_encode l'))))
  | [a; b] =>
      String (b64_char (a / 4)) (String (b64_char (a mod 4 * 16 + b / 16)) (String (b64_char (b mod 16 * 4)) ""))
  | [a] => String (b64_char (a / 4)) (String (b64_char (a mod 4 * 16)) "")
  | [] => ""
  end.

(** [base64.RawStdEncoding.Decode]: newlines are skipped, trailing bits are not checked, and a
    single left-over character is an error. *)
Definition b64_newline (c : ascii) : bool := (code c =? 10) || (code c =? 13).

Fixpoint strip_newlines (s : string) : string :=
  match s with
  | EmptyString => ""
  | String c s' => if b64_newline c then strip_newlines s' else String c (strip_newlines s')
  end.

Fixpoint b64_groups (s : string) : option (list Z) :=
  match s with
  | EmptyString => Some []
  | String c1 (String c2 (String c3 (String c4 s'))) =>
      match b64_value c1, b64_value c2, b64_value c3, b64_value c4, b64_groups s' with
      | Some d1, Some d2, Some d3, Some d4, Some l =>
          Some (d1 * 4 + d2 / 16 :: d2 mod 16 * 16 + d3 / 4 :: d3 mod 4 * 64 + d4 :: l)
      | _, _, _, _, _ => None
      end
  | String c1 (String c2 (String c3 EmptyString)) =>
      match b64_value c1, b64_value c2, b64_value c3 with
      | Some d1, Some d2, Some d3 => Some [d1 * 4 + d2 / 16; d2 mod 16 * 16 + d3 / 4]
      | _, _, _ => None
      end
  | String c1 (String c2 EmptyString) =>
      match b64_value c1, b64_value c2 with
      | Some d1, Some d2 => Some [d1 * 4 + d2 / 16]
      | _, _ => None
      end
  | String _ EmptyString => None
  end.

(** The source decodes into a buffer of [DecodedLen(len(src))] bytes and keeps it whole: bytes
    that skipped newlines leave unwritten stay zero. *)
Definition DecodedLen (n : nat) : nat := (n * 6 / 8)%nat.
Definition b64_decode (s : string) : option (list Z) :=
  match b64_groups (strip_newlines s) with
  | Some l => Some (l ++ replicate (DecodedLen (String.length s) - length l) 0)
  | None => None
  end.

Fixpoint string_of_bytes (l : list Z) : string :=
  match l with [] => "" | b :: l' => String (byte_of b) (string_of_bytes l') end.

(** ** CBC *)

Definition block_size : nat := 16.

(** [cipher.Block] for a key: a permutation of the blocks of 16 bytes. *)
Class BlockCipher := {
  block_encrypt : list Z -> list Z -> list Z;
  block_decrypt : list Z -> list Z -> list Z;
  block_encrypt_ok key b : length b = block_size -> Forall is_byte b ->
    length (block_encrypt key b) = block_size /\ Forall is_byte (block_encrypt key b);
  block_decrypt_encrypt key b : length b = block_size -> Forall is_byte b ->
    block_decrypt key (block_encrypt key b) = b }.

Definition xor_bytes (a b : list Z) : list Z := zip_with Z.lxor a b.

Definition NewCipher_ok (key : list Z) : bool :=
  bool_decide (length key = 16%nat) || bool_decide (length key = 24%nat) || bool_decide (length key = 32%nat).

(** [NewAesCBCCrypto]: short keys are padded with zeros to 16, 24 or 32 bytes, long ones cut. *)
Definition NewAesCBCCrypto (key : list Z) : list Z :=
  let keyLen := length key in
  if (keyLen <=? 16)%nat then key ++ replicate (16 - keyLen) 0
  else if (keyLen <=? 24)%nat then key ++ replicate (24 - keyLen) 0
  else if (keyLen <=? 32)%nat then key ++ replicate (32 - keyLen) 0
  else take 32 key.

Definition cbcIVPending (iv : list Z) (blockSize : nat) : list Z :=
  let k := length iv in
  if (k <? blockSize)%nat then iv ++ replicate (blockSize - k) 0
  else if (blockSize <? k)%nat then take blockSize iv
  else iv.

Section aes.
Context `{BlockCipher}.

(** [CryptBlocks] of a CBC encrypter and of a decrypter, block by block. *)
Fixpoint cbc_encrypt (n : nat) (key iv src : list Z) : list Z :=
  match n with
  | O => []
  | S n' =>
      let c := block_encrypt key (xor_bytes (take block_size src) iv) in
      c ++ cbc_encrypt n' key c (drop block_size src)
  end.

Fixpoint cbc_decrypt (n : nat) (key iv src : list Z) : list Z :=
  match n with
  | O => []
  | S n' =>
      let c := take block_size src in
      xor_bytes (block_decrypt key c) iv ++ cbc_decrypt n' key c (drop block_size src)
  end.

Definition pkcs7_pad (src : list Z) : list Z :=
  let padding := (block_size - length src mod block_size)%nat in
  src ++ replicate padding (Z.of_nat padding).

Definition Encrypt (key src iv : list Z) : list Z + string :=
  if negb (NewCipher_ok key) then inr "crypto/aes: invalid key size"
  else
    let src := pkcs7_pad src in
    let iv := if bool_decide (length iv <> block_size) then cbcIVPending iv block_size else iv in
    inl (cbc_encrypt (length src / block_size) key iv src).

(** [CryptBlocks] panics on a source that is not whole blocks: [None]. *)
Definition Decrypt (key src iv : list Z) : option (list Z + string) :=
  if negb (NewCipher_ok key) then Some (inr "crypto/aes: invalid key size")
  else
    let iv := if bool_decide (length iv <> block_size) then cbcIVPending iv block_size else iv in
    if negb (bool_decide (length src mod block_size = 0)%nat) then None
    else
      let dst := cbc_decrypt (length src / block_size) key iv src in
      match last dst with
      | None => Some (inr "unpadding")
      | Some unpadding =>
          if Z.of_nat (length dst) <? unpadding then Some (inr "unpadding")
          else Some (inl (take (length dst - Z.to_nat unpadding) dst))
      end.

(** [EncryptCredentials]; [iv] is what [rand.Read] returned. *)
Definition EncryptCredentials (key iv : list Z) (c : ClientAuthCredentials) : string + string :=
  match Encrypt key (bytes_of_string (encode_credentials c)) iv with
  | inl body => inl (b64_encode (iv ++ body))
  | inr e => inr e
  end.

(** [DecryptCredentials]; [None] is a panic: fewer than 16 bytes, or no whole blocks. *)
Definition DecryptCredentials (key : list Z) (src : string) : option (ClientAuthCredentials + string) :=
  match b64_decode src with
  | None => Some (inr "illegal base64 data")
  | Some encrypt =>
      if (length encrypt <? block_size)%nat then None
      else
        match Decrypt key (drop block_size encrypt) (take block_size encrypt) with
        | None => None
        | Some (inr e) => Some (inr e)
        | Some (inl jsonBytes) =>
            match Unmarshal credentials_fields (string_of_bytes jsonBytes) zero_credentials with
            | (None, c) => Some (inl c)
            | (Some e, _) => Some (inr e)
            end
        end
  end.
End aes.

(** [sha512.New().Sum(key)] appends the digest of the empty message to [key]: nothing of the key
    is hashed. *)
Definition sha512_empty : list Z := [
  0xcf; 0x83; 0xe1; 0x35; 0x7e; 0xef; 0xb8; 0xbd; 0xf1; 0x54; 0x28; 0x50; 0xd6; 0x6d; 0x80; 0x07;
  0xd6; 0x20; 0xe4; 0x05; 0x0b; 0x57; 0x15; 0xdc; 0x83; 0xf4; 0xa9; 0x21; 0xd3; 0x6c; 0xe9; 0xce;
  0x47; 0xd0; 0xd1; 0x3c; 0x5d; 0x85; 0xf2; 0xb0; 0xff; 0x83; 0x18; 0xd2; 0x87; 0x7e; 0xec; 0x2f;
  0x63; 0xb9; 0x31; 0xbd; 0x47; 0x41; 0x7a; 0x81; 0xa5; 0x38; 0x32; 0x7a; 0xf9; 0x27; 0xda; 0x3e].

Definition authenticator_key (key : string) : list Z :=
  NewAesCBCCrypto (bytes_of_string key ++ sha512_empty).

(** ** Base64 *)

Lemma b64_char_value d : 0 <= d < 64 -> b64_value (b64_char d) = Some d /\ b64_newline (b64_char d) = false.
Proof.
  intros Hd. assert (Hall : Forall (fun d => b64_value (b64_char d) = Some d /\ b64_newline (b64_char d) = false)
    (map Z.of_nat (seq 0 64))) by (by repeat constructor).
  rewrite Forall_forall in Hall. apply Hall, list_elem_of_fmap. exists (Z.to_nat d).
  split; [lia | apply elem_of_seq; lia].
Qed.

Lemma triples_ind (P : list Z -> Prop) :
  P [] -> (forall a, P [a]) -> (forall a b, P [a; b]) -> (forall a b c l, P l -> P (a :: b :: c :: l)) ->
  forall l, P l.
Proof.
  intros H0 H1 H2 H3. fix IH 1. intros [| a [| b [| c l]]]; [apply H0 | apply H1 | apply H2 | apply H3, IH].
Qed.

Lemma digit_ranges a b : is_byte a -> is_byte b ->
  0 <= a / 4 < 64 /\ 0 <= a mod 4 * 16 + b / 16 < 64 /\ 0 <= b mod 16 * 4 < 61 /\ 0 <= a / 64 < 4 /\ 0 <= a mod 64 < 64 /\
  0 <= a mod 4 * 16 < 49 /\ 0 <= a / 16 < 16.
Proof.
  unfold is_byte. intros Ha Hb. change (2 ^ 8) with 256 in *.
  pose proof (Z.mod_pos_bound a 4 ltac:(lia)). pose proof (Z.mod_pos_bound b 16 ltac:(lia)).
  pose proof (Z.mod_pos_bound a 64 ltac:(lia)).
  pose proof (Z.div_pos a 4 ltac:(lia) ltac:(lia)). pose proof (Z.div_pos b 16 ltac:(lia) ltac:(lia)).
  pose proof (Z.div_pos a 64 ltac:(lia) ltac:(lia)). pose proof (Z.div_pos a 16 ltac:(lia) ltac:(lia)).
  assert (a / 4 < 64) by (apply Z.div_lt_upper_bound; lia).
  assert (b / 16 < 16) by (apply Z.div_lt_upper_bound; lia).
  assert (a / 16 < 16) by (apply Z.div_lt_upper_bound; lia).
  assert (a / 64 < 4) by (apply Z.div_lt_upper_bound; lia). lia.
Qed.

Lemma b64_newline_char d s : 0 <= d < 64 -> strip_newlines (String (b64_char d) s) = String (b64_char d) (strip_newlines s).
Proof. intros Hd. simpl. by rewrite (proj2 (b64_char_value d Hd)). Qed.

Lemma b64_value_char d : 0 <= d < 64 -> b64_value (b64_char d) = Some d.
Proof. apply b64_char_value. Qed.

Lemma quad_bytes a b c : is_byte a -> is_byte b -> is_byte c ->
  a / 4 * 4 + (a mod 4 * 16 + b / 16) / 16 = a /\
  (a mod 4 * 16 + b / 16) mod 16 * 16 + (b mod 16 * 4 + c / 64) / 4 = b /\
  (b mod 16 * 4 + c / 64) mod 4 * 64 + c mod 64 = c /\
  (a mod 4 * 16) / 16 = a mod 4 /\ (b mod 16 * 4) / 4 = b mod 16.
Proof.
  intros Ha Hb Hc. destruct (digit_ranges a b Ha Hb) as (? & ? & ? & ? & ? & ? & ?).
  destruct (digit_ranges b c Hb Hc) as (? & ? & ? & ? & ? & ? & ?).
  destruct (digit_ranges c a Hc Ha) as (? & ? & ? & ? & ? & ? & ?).
  rewrite !(Z.add_comm (_ mod _ * _)), !Z.div_add, !Z.mod_add, !Z.div_mul by lia.
  rewrite !(Z.div_small (_ / _)), !(Z.mod_small (_ / _)) by lia.
  pose proof (Z.div_mod a 4 ltac:(lia)). pose proof (Z.div_mod b 16 ltac:(lia)). pose proof (Z.div_mod c 64 ltac:(lia)).
  lia.
Qed.

Lemma b64_groups_encode l : Forall is_byte l -> b64_groups (strip_newlines (b64_encode l)) = Some l.
Proof.
  induction l as [| a | a b | a b c l IH] using triples_ind; intros Hl; [done | ..];
    repeat match goal with H : Forall _ (_ :: _) |- _ => apply Forall_cons in H as [? ?] end.
  - destruct (digit_ranges a a) as (? & ? & ? & ? & ? & ? & ?); try done.
    destruct (quad_bytes a a a) as (E1 & E2 & E3 & E4 & E5); try done.
    cbn [b64_encode]. rewrite !b64_newline_char by lia. simpl.
    rewrite !b64_value_char by lia. f_equal. f_equal. rewrite E4.
    pose proof (Z.div_mod a 4 ltac:(lia)). lia.
  - destruct (digit_ranges a b) as (? & ? & ? & ? & ? & ? & ?); try done.
    destruct (digit_ranges b a) as (? & ? & ? & ? & ? & ? & ?); try done.
    destruct (quad_bytes a b 0) as (E1 & E2 & E3 & E4 & E5); try done.
    change (0 / 64) with 0 in *. rewrite Z.add_0_r in *.
    cbn [b64_encode]. rewrite !b64_newline_char by lia. simpl.
    rewrite !b64_value_char by lia. by rewrite E1, E2.
  - destruct (digit_ranges a b) as (? & ? & ? & ? & ? & ? & ?); try done.
    destruct (digit_ranges b c) as (? & ? & ? & ? & ? & ? & ?); try done.
    destruct (digit_ranges c a) as (? & ? & ? & ? & ? & ? & ?); try done.
    destruct (quad_bytes a b c) as (E1 & E2 & E3 & E4 & E5); try done.
    cbn [b64_encode]. rewrite !b64_newline_char by lia. cbn [b64_groups].
    rewrite !b64_value_char by lia. rewrite IH by done. by rewrite E1, E2, E3.
Qed.

Lemma DecodedLen_encode l : DecodedLen (String.length (b64_encode l)) = length l.
Proof.
  unfold DecodedLen. induction l as [| a | a b | a b c l IH] using triples_ind; [done | done | done |].
  cbn [b64_encode String.length length]. rewrite <- IH.
  replace (S (S (S (S (String.length (b64_encode l))))) * 6)%nat with (String.length (b64_encode l) * 6 + 3 * 8)%nat by lia.
  rewrite Nat.div_add by lia. lia.
Qed.

Lemma b64_roundtrip l : Forall is_byte l -> b64_decode (b64_encode l) = Some l.
Proof.
  intros Hl. unfold b64_decode. rewrite b64_groups_encode by done.
  rewrite DecodedLen_encode, Nat.sub_diag. simpl. by rewrite app_nil_r.
Qed.

(** ** Bytes and text *)

Lemma string_of_bytes_of_string s : string_of_bytes (bytes_of_string s) = s.
Proof.
  induction s as [| c s IH]; [done |].
  change (String (byte_of (Z.of_N (Ascii.N_of_ascii c))) (string_of_bytes (bytes_of_string s)) = String c s).
  rewrite IH. f_equal. unfold byte_of. rewrite N2Z.id. apply Ascii.ascii_N_embedding.
Qed.

(** ** CBC and padding *)

Lemma is_byte_lxor a b : is_byte a -> is_byte b -> is_byte (Z.lxor a b).
Proof.
  unfold is_byte. intros Ha Hb. split; [apply Z.lxor_nonneg; lia |].
  destruct (Z.eq_dec (Z.lxor a b) 0) as [-> | Hne]; [lia |].
  assert (0 <= Z.lxor a b) by (apply Z.lxor_nonneg; lia).
  apply Z.log2_lt_pow2; [lia |]. eapply Z.le_lt_trans; [apply Z.log2_lxor; lia |].
  apply Z.max_lub_lt.
  - destruct (Z.eq_dec a 0) as [-> |]; [done |]. apply Z.log2_lt_pow2; lia.
  - destruct (Z.eq_dec b 0) as [-> |]; [done |]. apply Z.log2_lt_pow2; lia.
Qed.

Lemma xor_bytes_ok a b : Forall is_byte a -> Forall is_byte b -> Forall is_byte (xor_bytes a b).
Proof.
  intros Ha. revert b. induction Ha as [| x a Hx Ha IH]; intros b Hb; [constructor |].
  destruct Hb as [| y b Hy Hb]; [constructor |]. simpl. constructor; [by apply is_byte_lxor | by apply IH].
Qed.

Lemma length_xor_bytes a b : length a = length b -> length (xor_bytes a b) = length a.
Proof. intros E. unfold xor_bytes. rewrite length_zip_with. lia. Qed.

Lemma xor_bytes_twice a b : length a = length b -> xor_bytes (xor_bytes a b) b = a.
Proof.
  revert b. induction a as [| x a IH]; intros [| y b] E; try done. simpl in *. f_equal; [| apply IH; lia].
  by rewrite Z.lxor_assoc, Z.lxor_nilpotent, Z.lxor_0_r.
Qed.

Lemma NewAesCBCCrypto_key key : NewCipher_ok (NewAesCBCCrypto key) = true.
Proof.
  unfold NewCipher_ok, NewAesCBCCrypto.
  destruct (Nat.leb_spec (length key) 16); [| destruct (Nat.leb_spec (length key) 24); [| destruct (Nat.leb_spec (length key) 32)]];
    rewrite ?length_app, ?length_replicate, ?length_take;
    [rewrite bool_decide_true by lia | rewrite (bool_decide_true (_ = 24%nat)) by lia
     | rewrite (bool_decide_true (_ = 32%nat)) by lia | rewrite (bool_decide_true (_ = 32%nat)) by lia];
    by rewrite ?orb_true_r.
Qed.

Lemma length_pkcs7_pad src : (length (pkcs7_pad src) mod block_size = 0)%nat.
Proof.
  unfold pkcs7_pad, block_size. rewrite length_app, length_replicate.
  pose proof (Nat.mod_upper_bound (length src) 16 ltac:(lia)).
  pose proof (Nat.div_mod_eq (length src) 16).
  replace (length src + (16 - length src mod 16))%nat with ((length src / 16 + 1) * 16)%nat by lia.
  by rewrite Nat.Div0.mod_mul.
Qed.

Lemma last_pad src : last (pkcs7_pad src) = Some (Z.of_nat (block_size - length src mod block_size)).
Proof.
  unfold pkcs7_pad. pose proof (Nat.mod_upper_bound (length src) block_size ltac:(unfold block_size; lia)).
  destruct (block_size - length src mod block_size)%nat as [| p] eqn:E; [lia |].
  rewrite last_app. rewrite replicate_S_end. by rewrite last_snoc.
Qed.

Section cbc.
Context `{BlockCipher}.

Lemma length_cbc_encrypt n key iv src :
  Forall is_byte src -> Forall is_byte iv -> length iv = block_size -> length src = (n * block_size)%nat ->
  length (cbc_encrypt n key iv src) = length src /\ Forall is_byte (cbc_encrypt n key iv src).
Proof.
  revert iv src. induction n as [| n IH]; intros iv src Hs Hi Hli Hls; cbn [cbc_encrypt].
  { destruct src; [by split | simpl in Hls; lia]. }
  assert (Ht : length (take block_size src) = block_size) by (rewrite length_take; unfold block_size in *; lia).
  assert (Hx : length (xor_bytes (take block_size src) iv) = block_size) by (rewrite length_xor_bytes; lia).
  assert (Hxb : Forall is_byte (xor_bytes (take block_size src) iv)) by (apply xor_bytes_ok; [by apply Forall_take | done]).
  destruct (block_encrypt_ok key _ Hx Hxb) as [Hl Hb].
  destruct (IH (block_encrypt key (xor_bytes (take block_size src) iv)) (drop block_size src)) as [Hl' Hb'];
    [by apply Forall_drop | done | done | rewrite length_drop, Nat.mul_succ_l in *; lia |].
  split; [| by apply Forall_app]. rewrite length_app, Hl, Hl', length_drop. rewrite Nat.mul_succ_l in Hls. lia.
Qed.

Lemma cbc_roundtrip n key iv src :
  Forall is_byte src -> Forall is_byte iv -> length iv = block_size -> length src = (n * block_size)%nat ->
  cbc_decrypt n key iv (cbc_encrypt n key iv src) = src.
Proof.
  revert iv src. induction n as [| n IH]; intros iv src Hs Hi Hli Hls; cbn [cbc_encrypt cbc_decrypt].
  { destruct src; [done | simpl in Hls; lia]. }
  assert (Ht : length (take block_size src) = block_size) by (rewrite length_take; unfold block_size in *; lia).
  assert (Hx : length (xor_bytes (take block_size src) iv) = block_size) by (rewrite length_xor_bytes; lia).
  assert (Hxb : Forall is_byte (xor_bytes (take block_size src) iv)) by (apply xor_bytes_ok; [by apply Forall_take | done]).
  destruct (block_encrypt_ok key _ Hx Hxb) as [Hl Hb].
  rewrite take_app_le by lia. rewrite take_ge by lia. rewrite drop_app_ge by lia. rewrite Hl, Nat.sub_diag, drop_0.
  rewrite block_decrypt_encrypt, xor_bytes_twice by (done || lia). rewrite IH.
  - apply take_drop.
  - by apply Forall_drop.
  - done.
  - done.
  - rewrite length_drop. rewrite Nat.mul_succ_l in Hls. lia.
Qed.

Lemma is_byte_small n : (n < 256)%nat -> is_byte (Z.of_nat n).
Proof. intros Hn. unfold is_byte. change (2 ^ 8) with 256. lia. Qed.

Lemma pkcs7_bytes src : Forall is_byte src -> Forall is_byte (pkcs7_pad src).
Proof.
  intros Hs. unfold pkcs7_pad. apply Forall_app. split; [done |]. apply Forall_replicate.
  apply is_byte_small. unfold block_size. lia.
Qed.

(** [Decrypt] undoes [Encrypt]. *)
Lemma Decrypt_Encrypt key src iv :
  NewCipher_ok key = true -> Forall is_byte src -> Forall is_byte iv -> length iv = block_size ->
  exists body, Encrypt key src iv = inl body /\ Forall is_byte body /\
    (length body mod block_size = 0)%nat /\ Decrypt key body iv = Some (inl src).
Proof.
  intros Hk Hs Hi Hli. unfold Encrypt, Decrypt. rewrite Hk. cbn [negb].
  rewrite bool_decide_false by (intros Hne; by apply Hne).
  pose proof (length_pkcs7_pad src) as Hmod. pose proof (pkcs7_bytes src Hs) as Hpb.
  set (p := pkcs7_pad src) in *.
  assert (Hn : length p = (length p / block_size * block_size)%nat).
  { pose proof (Nat.div_mod_eq (length p) block_size). lia. }
  destruct (length_cbc_encrypt (length p / block_size) key iv p) as [Hlen Hb]; try done.
  eexists. split; [done |]. split; [done |]. rewrite Hlen. split; [done |].
  rewrite bool_decide_true by done. cbn [negb].
  rewrite cbc_roundtrip by done. unfold p at 1. rewrite last_pad. fold p.
  set (q := (block_size - length src mod block_size)%nat).
  assert (Hq : length p = (length src + q)%nat) by (unfold p, pkcs7_pad; by rewrite length_app, length_replicate).
  rewrite (proj2 (Z.ltb_ge _ _)) by lia. do 2 f_equal. rewrite Nat2Z.id, Hq, Nat.add_sub.
  unfold p, pkcs7_pad. by rewrite take_app_length.
Qed.
End cbc.

(** ** Credentials as JSON *)

Lemma json_text_opt {A} (f : A -> string) o : (forall a, json_text (f a)) -> json_text (encode_opt f o).
Proof. intros Hf. destruct o; simpl; auto with json. Qed.

Lemma encode_secrets_text s : json_text (encode_secrets s).
Proof. unfold encode_secrets. auto with json. Qed.
Lemma encode_risk_text r : json_text (encode_risk r).
Proof. unfold encode_risk. auto with json. Qed.
Lemma encode_config_text c : json_text (encode_config c).
Proof. unfold encode_config. auto with json. Qed.
#[export] Hint Resolve json_text_opt encode_secrets_text encode_risk_text encode_config_text : json.

Lemma credentials_members_text c : members_text (credentials_members c).
Proof. unfold credentials_members. auto 20 with json. Qed.

Definition credentials_ok (c : ClientAuthCredentials) : Prop :=
  in_int64 (cr_Type c) /\ in_int64 (cr_Timestamp c) /\
  (forall r, cr_RiskControl c = Some r -> in_int64 (MaxMessagesPeerSecond r)) /\
  (forall k, cr_ConnectionConfig c = Some k -> in_int64 (AllowMaxHeartbeatLost k) /\ in_int64 (HeartbeatDuration k)).

Section steps.
Context {T : Type} (fs : list (field T)).

Lemma decode_step k raw ms t step t' :
  find_field fs (to_valid k) = Some step -> step raw t = (nil_error, t') ->
  decode_members fs (valid_key <$> (k, raw) :: ms) nil_error t = decode_members fs (valid_key <$> ms) nil_error t'.
Proof. intros Hf Hs. cbn [fmap list_fmap valid_key decode_members fst snd]. by rewrite Hf, Hs. Qed.

Lemma set_string_ok (get : T -> string) set s t :
  set_string get set (json_string s) t = (nil_error, set (to_valid s) t).
Proof. unfold set_string. by rewrite decode_string_json. Qed.

Lemma set_int_ok bits (get : T -> Z) set z t :
  - 2 ^ (bits - 1) <= z < 2 ^ (bits - 1) -> set_int bits get set (json_int z) t = (nil_error, set z t).
Proof. intros Hz. unfold set_int. by rewrite decode_int_json. Qed.

Lemma set_bool_ok (set : bool -> T -> T) b t : set_bool set (json_bool b) t = (nil_error, set b t).
Proof. by destruct b. Qed.

Lemma set_pointer_ok {A} (afs : list (field A)) zero get set (enc : A -> string) (f : A -> A) o (t : T) :
  get t = None -> (forall a, enc a <> "null") ->
  (forall a, o = Some a -> Unmarshal afs (enc a) zero = (nil_error, f a)) ->
  set_pointer afs zero get set (encode_opt enc o) t = (nil_error, set (f <$> o) t).
Proof.
  intros Hg Hn Hu. unfold set_pointer. rewrite Hg. destruct o as [a |]; simpl; [| done].
  rewrite bool_decide_false by done. by rewrite Hu.
Qed.
End steps.

(** Credentials as they are read: their strings are made valid UTF-8. *)
Definition valid_secrets (s : ClientSecrets) : ClientSecrets :=
  MkClientSecrets (to_valid (MessageDeliverSecret s)) (to_valid (OnlineStateSecret s)).
Definition valid_credentials (c : ClientAuthCredentials) : ClientAuthCredentials :=
  MkCredentials (cr_Type c) (to_valid (cr_UserID c)) (to_valid (cr_DeviceID c)) (to_valid (cr_DeviceName c))
    (valid_secrets <$> cr_Secrets c) (cr_RiskControl c) (cr_ConnectionConfig c) (to_valid (cr_ConnectionID c)) (cr_Timestamp c).

Definition utf8_secrets (s : ClientSecrets) : bool := utf8_valid (MessageDeliverSecret s) && utf8_valid (OnlineStateSecret s).
Definition utf8_credentials (c : ClientAuthCredentials) : bool :=
  utf8_valid (cr_UserID c) && utf8_valid (cr_DeviceID c) && utf8_valid (cr_DeviceName c) && utf8_valid (cr_ConnectionID c) &&
  match cr_Secrets c with Some s => utf8_secrets s | None => true end.

Lemma valid_credentials_id c : utf8_credentials c = true -> valid_credentials c = c.
Proof.
  unfold utf8_credentials. rewrite !andb_true_iff. intros [[[[H1 H2] H3] H4] H5].
  unfold valid_credentials. rewrite !to_valid_id by done. destruct c as [? ? ? ? [s |]]; [| done]. cbn in *.
  unfold utf8_secrets in H5. apply andb_true_iff in H5 as [H5 H6].
  unfold valid_secrets. rewrite !to_valid_id by done. by destruct s.
Qed.

Lemma Unmarshal_secrets s :
  Unmarshal secrets_fields (encode_secrets s) (MkClientSecrets "" "") = (nil_error, valid_secrets s).
Proof.
  unfold encode_secrets. rewrite Unmarshal_object by auto with json.
  erewrite decode_step; [| reflexivity | apply set_string_ok].
  erewrite decode_step; [| reflexivity | apply set_string_ok]. done.
Qed.

Lemma Unmarshal_risk r : in_int64 (MaxMessagesPeerSecond r) ->
  Unmarshal risk_fields (encode_risk r) (MkRiskControl 0) = (nil_error, r).
Proof.
  intros Hr. unfold encode_risk. rewrite Unmarshal_object by auto with json.
  erewrite decode_step; [| reflexivity | by apply set_int_ok]. by destruct r.
Qed.

Lemma Unmarshal_config c : in_int64 (AllowMaxHeartbeatLost c) -> in_int64 (HeartbeatDuration c) ->
  Unmarshal config_fields (encode_config c) (MkConnectionConfig 0 0 false) = (nil_error, c).
Proof.
  intros H1 H2. unfold encode_config. rewrite Unmarshal_object by auto with json.
  erewrite decode_step; [| reflexivity | by apply set_int_ok].
  erewrite decode_step; [| reflexivity | by apply set_int_ok].
  erewrite decode_step; [| reflexivity | apply set_bool_ok]. by destruct c.
Qed.

Ltac norm_credentials := cbv beta; cbn [zero_credentials cr_Type cr_UserID cr_DeviceID cr_DeviceName cr_Secrets
  cr_RiskControl cr_ConnectionConfig cr_ConnectionID cr_Timestamp].

Lemma Unmarshal_credentials c :
  credentials_ok c -> Unmarshal credentials_fields (encode_credentials c) zero_credentials = (nil_error, valid_credentials c).
Proof.
  intros (Ht & Hts & Hr & Hc). unfold encode_credentials.
  rewrite Unmarshal_object by apply credentials_members_text. unfold credentials_members.
  erewrite decode_step; [| reflexivity | by apply set_int_ok]; norm_credentials.
  erewrite decode_step; [| reflexivity | apply set_string_ok]; norm_credentials.
  erewrite decode_step; [| reflexivity | apply set_string_ok]; norm_credentials.
  erewrite decode_step; [| reflexivity | apply set_string_ok]; norm_credentials.
  erewrite decode_step; [| reflexivity | apply (set_pointer_ok _ _ _ _ _ valid_secrets); [done | intros; apply json_object_not_null |
    intros s _; apply Unmarshal_secrets]]; norm_credentials.
  erewrite decode_step; [| reflexivity | apply (set_pointer_ok _ _ _ _ _ id); [done | intros; apply json_object_not_null |
    intros r Er; apply Unmarshal_risk, Hr, Er]]; norm_credentials.
  erewrite decode_step; [| reflexivity | apply (set_pointer_ok _ _ _ _ _ id); [done | intros; apply json_object_not_null |
    intros k Ek; apply Unmarshal_config; apply (Hc k Ek)]]; norm_credentials.
  erewrite decode_step; [| reflexivity | apply set_string_ok]; norm_credentials.
  erewrite decode_step; [| reflexivity | by apply set_int_ok]; norm_credentials.
  rewrite !option_fmap_id. done.
Qed.

(** C23: for every secret key, what the business service encrypts the gateway decrypts to the same
    credentials, whatever the random initialization vector, when their strings are UTF-8; in other strings
    U+FFFD stands for each byte that is not part of a rune, and nothing else changes. *)
Theorem credentials_roundtrip `{BlockCipher} key iv c :
  credentials_ok c -> length iv = block_size -> Forall is_byte iv ->
  exists text, EncryptCredentials (NewAesCBCCrypto key) iv c = inl text /\
    DecryptCredentials (NewAesCBCCrypto key) text = Some (inl (valid_credentials c)) /\
    (utf8_credentials c = true -> valid_credentials c = c).
Proof.
  intros Hc Hli Hi.
  destruct (Decrypt_Encrypt (NewAesCBCCrypto key) (bytes_of_string (encode_credentials c)) iv)
    as (body & He & Hb & Hmod & Hd); [apply NewAesCBCCrypto_key | apply bytes_of_string_bytes | done | done |].
  unfold EncryptCredentials. rewrite He. eexists. split; [done |]. split; [| apply valid_credentials_id].
  unfold DecryptCredentials. rewrite b64_roundtrip by (by apply Forall_app).
  rewrite length_app, (proj2 (Nat.ltb_ge _ _)) by lia.
  rewrite <- Hli at 1. rewrite drop_app_length. rewrite <- Hli at 1. rewrite take_app_length, Hd.
  rewrite string_of_bytes_of_string, Unmarshal_credentials by done. done.
Qed.

(** A toy permutation of blocks, for examples: every byte is complemented. *)
Definition flip (b : list Z) : list Z := map (fun x => Z.lxor x 255) b.

Lemma flip_flip b : flip (flip b) = b.
Proof.
  induction b as [| x b IH]; [done |]. simpl. rewrite IH. f_equal.
  by rewrite Z.lxor_assoc, Z.lxor_nilpotent, Z.lxor_0_r.
Qed.

Lemma flip_ok b : length b = block_size -> Forall is_byte b -> length (flip b) = block_size /\ Forall is_byte (flip b).
Proof.
  intros Hl Hb. split; [unfold flip; by rewrite length_map |]. clear Hl.
  induction Hb as [| x b Hx Hb IH]; [constructor |]. simpl. constructor; [| done].
  apply is_byte_lxor; [done |]. apply (is_byte_small 255). lia.
Qed.

Definition flip_cipher : BlockCipher := {|
  block_encrypt _ b := flip b;
  block_decrypt _ b := flip b;
  block_encrypt_ok _ b := flip_ok b;
  block_decrypt_encrypt _ b _ _ := flip_flip b |}.

Definition demo_credentials : ClientAuthCredentials :=
  MkCredentials 1 "user-1" "d" "phone" (Some (MkClientSecrets "secret" "")) None
    (Some (MkConnectionConfig 3 30 true)) "" 1700000000000.

Lemma credentials_roundtrip_witness :
  exists text, EncryptCredentials (H := flip_cipher) (NewAesCBCCrypto [1; 2; 3]) (replicate 16 7) demo_credentials = inl text /\
    DecryptCredentials (H := flip_cipher) (NewAesCBCCrypto [1; 2; 3]) text = Some (inl demo_credentials).
Proof.
  destruct (credentials_roundtrip (H := flip_cipher) [1; 2; 3] (replicate 16 7) demo_credentials) as (text & H1 & H2 & H3).
  - split_and!; [by vm_compute; split | by vm_compute; split | discriminate |].
    intros k [= <-]. split; by vm_compute; split.
  - reflexivity.
  - apply Forall_replicate. by vm_compute; split.
  - exists text. split; [exact H1 |]. by rewrite H2, H3 by (vm_compute; reflexivity).
Defined.

(** The key of an authenticator is the text of its secret, cut to 32 bytes: [Sum] hashes nothing. *)
Lemma authenticator_key_raw key :
  (32 <= String.length key)%nat -> authenticator_key key = take 32 (bytes_of_string key).
Proof.
  intros Hl. unfold authenticator_key, NewAesCBCCrypto.
  assert (Hlen : length (bytes_of_string key) = String.length key).
  { unfold bytes_of_string. rewrite length_map. clear Hl. induction key as [| c key IH]; [done |]. simpl. by rewrite IH. }
  assert (Hs : length sha512_empty = 64%nat) by reflexivity.
  rewrite length_app, Hs. rewrite !(proj2 (Nat.leb_gt _ _)) by lia. by rewrite take_app_le by lia.
Qed.
