(* ===== verification/Gate.v ===== *)
(** * The gateway: [pkg/gate/client_impl.go], [gateway.go], [reader.go] and the interceptors of
      [authenticator.go]

    Clients are shared by reference: the gateway maps IDs to references ([nat]) and the clients
    live in a store. [Impl]'s operations and the clients' are functions in the [GoM] monad over
    the whole gateway; the goroutines of a client ([runRead], [runWrite], the flush after
    [Exit]) and of the pool are steps that run between them.

    The message handler is asynchronous ([messaging] submits to a pool): what it is called
    with is appended to [handled]. A handler keeps the [*Info] it was given, so calls made for
    a client hold its reference. The pool of the gateway keeps the tasks submitted to it in
    [pool] until [run_pool] runs them; [Submit] fails when [pool_cap] tasks are waiting.

    Each operation is one step: the mutex of [Impl] is not modelled. *)

From S2P Require Import Prelude GoStrings Json Messages GateId Digest Credentials.

Local Open Scope Z_scope.
Local Open Scope go_scope.

(** ** Data *)

Record Info := MkInfo {
  info_ID : ID;
  ConnectionId : string;
  Version : string;
  AliveAt : Z;
  ConnectionAt : Z;
  info_Gateway : string;
  CliAddr : string }.

Definition set_info_ID (i : ID) (x : Info) : Info :=
  MkInfo i (ConnectionId x) (Version x) (AliveAt x) (ConnectionAt x) (info_Gateway x) (CliAddr x).
Definition set_ConnectionId (c : string) (x : Info) : Info :=
  MkInfo (info_ID x) c (Version x) (AliveAt x) (ConnectionAt x) (info_Gateway x) (CliAddr x).
Definition set_Version (v : string) (x : Info) : Info :=
  MkInfo (info_ID x) (ConnectionId x) v (AliveAt x) (ConnectionAt x) (info_Gateway x) (CliAddr x).

(** Durations are in nanoseconds. *)
Record ClientConfig := MkClientConfig {
  ClientHeartbeatDuration : Z;
  ServerHeartbeatDuration : Z;
  HeartbeatLostLimit : Z;
  CloseImmediately : bool }.

Definition second : Z := 1000000000.

Inductive client_state := stateInit | stateRunning | stateClosed.

(** What a connection saw: a message written, or its closing. *)
Inductive conn_event := Wrote (text : string) | ConnClosed.

Record UserClient := MkClient {
  state : client_state;
  queuedMessage : Z;
  messages : list (option GlideMessage);   (* the buffered channel; [None] is a nil pointer *)
  messages_closed : bool;
  closeReadCh : bool;                      (* closed *)
  closeWriteCh : bool;
  hbLost : Z;
  info : Info;
  credentials : option ClientAuthCredentials;
  has_mgr : bool;
  intercepted : bool;                      (* [AddClient] wrapped its handler *)
  config : ClientConfig;
  flushing : bool;                         (* the goroutine [Exit] starts *)
  conn : list conn_event }.

Definition msgs_cap : nat := 100.

(** What [msgHandler] is called with: the pointer of a client's info, or a copy. *)
Inductive info_ref := InfoOf (r : nat) | InfoCopy (i : Info).

Record World := MkWorld {
  gate_id : string;
  heap : gmap nat UserClient;
  clients : gmap ID nat;
  pool : list (nat * option GlideMessage);
  pool_cap : Z;
  handled : list (info_ref * GlideMessage);
  authenticator : option (list Z);         (* the key of its crypto *)
  now : Z;                                 (* milliseconds *)
  random : list (list Z) }.                (* what the random source will return *)

Definition set_heap (h : gmap nat UserClient) (w : World) : World :=
  MkWorld (gate_id w) h (clients w) (pool w) (pool_cap w) (handled w) (authenticator w) (now w) (random w).
Definition set_clients (m : gmap ID nat) (w : World) : World :=
  MkWorld (gate_id w) (heap w) m (pool w) (pool_cap w) (handled w) (authenticator w) (now w) (random w).
Definition set_pool (l : list (nat * option GlideMessage)) (w : World) : World :=
  MkWorld (gate_id w) (heap w) (clients w) l (pool_cap w) (handled w) (authenticator w) (now w) (random w).
Definition set_now (t : Z) (w : World) : World :=
  MkWorld (gate_id w) (heap w) (clients w) (pool w) (pool_cap w) (handled w) (authenticator w) t (random w).
Definition add_handled (h : info_ref * GlideMessage) (w : World) : World :=
  MkWorld (gate_id w) (heap w) (clients w) (pool w) (pool_cap w) (handled w ++ [h]) (authenticator w) (now w) (random w).
Definition set_random (l : list (list Z)) (w : World) : World :=
  MkWorld (gate_id w) (heap w) (clients w) (pool w) (pool_cap w) (handled w) (authenticator w) (now w) l.

Definition with_state (s : client_state) (c : UserClient) : UserClient :=
  MkClient s (queuedMessage c) (messages c) (messages_closed c) (closeReadCh c) (closeWriteCh c) (hbLost c)
    (info c) (credentials c) (has_mgr c) (intercepted c) (config c) (flushing c) (conn c).
Definition with_messages (q : Z) (l : list (option GlideMessage)) (c : UserClient) : UserClient :=
  MkClient (state c) q l (messages_closed c) (closeReadCh c) (closeWriteCh c) (hbLost c)
    (info c) (credentials c) (has_mgr c) (intercepted c) (config c) (flushing c) (conn c).
Definition with_closing (rd wr : bool) (c : UserClient) : UserClient :=
  MkClient (state c) (queuedMessage c) (messages c) (messages_closed c) rd wr (hbLost c)
    (info c) (credentials c) (has_mgr c) (intercepted c) (config c) (flushing c) (conn c).
Definition with_hbLost (n : Z) (c : UserClient) : UserClient :=
  MkClient (state c) (queuedMessage c) (messages c) (messages_closed c) (closeReadCh c) (closeWriteCh c) n
    (info c) (credentials c) (has_mgr c) (intercepted c) (config c) (flushing c) (conn c).
Definition with_info (i : Info) (c : UserClient) : UserClient :=
  MkClient (state c) (queuedMessage c) (messages c) (messages_closed c) (closeReadCh c) (closeWriteCh c) (hbLost c)
    i (credentials c) (has_mgr c) (intercepted c) (config c) (flushing c) (conn c).
Definition with_credentials (o : option ClientAuthCredentials) (cf : ClientConfig) (c : UserClient) : UserClient :=
  MkClient (state c) (queuedMessage c) (messages c) (messages_closed c) (closeReadCh c) (closeWriteCh c) (hbLost c)
    (info c) o (has_mgr c) (intercepted c) cf (flushing c) (conn c).
Definition with_mgr (m i : bool) (c : UserClient) : UserClient :=
  MkClient (state c) (queuedMessage c) (messages c) (messages_closed c) (closeReadCh c) (closeWriteCh c) (hbLost c)
    (info c) (credentials c) m i (config c) (flushing c) (conn c).
Definition with_flushing (f : bool) (c : UserClient) : UserClient :=
  MkClient (state c) (queuedMessage c) (messages c) (messages_closed c) (closeReadCh c) (closeWriteCh c) (hbLost c)
    (info c) (credentials c) (has_mgr c) (intercepted c) (config c) f (conn c).
Definition with_conn (closed : bool) (l : list conn_event) (c : UserClient) : UserClient :=
  MkClient (state c) (queuedMessage c) (messages c) closed (closeReadCh c) (closeWriteCh c) (hbLost c)
    (info c) (credentials c) (has_mgr c) (intercepted c) (config c) (flushing c) l.

Definition get_client (r : nat) : GoM World UserClient := fun w =>
  match heap w !! r with Some c => (Val c, w) | None => (Panics "nil client", w) end.
Definition upd_client (r : nat) (f : UserClient -> UserClient) : GoM World unit :=
  modify (fun w => set_heap (alter f r (heap w)) w).

(** ** Clients *)

Definition default_config : ClientConfig := MkClientConfig (20 * second) (30 * second) 3 false.

(** [NewClientWithConfig] on a connection from [addr]. *)
Definition new_client (addr : string) (at_ : Z) (cfg : option ClientConfig) : UserClient :=
  MkClient stateInit 0 [] false false false 0 (MkInfo "" "" "" 0 at_ "" addr) None true false
    (default default_config cfg) false [].

Definition SetID (r : nat) (id : ID) : GoM World unit :=
  upd_client r (fun c => with_info (set_info_ID id (info c)) c).

Definition IsRunning (r : nat) : GoM World bool :=
  let! c := get_client r in ret (if state c is stateRunning then true else false).

Definition SetCredentials (r : nat) (cr : ClientAuthCredentials) : GoM World unit :=
  upd_client r (fun c =>
    let cfg := match cr_ConnectionConfig cr with
               | Some k => MkClientConfig (int64 (HeartbeatDuration k * second)) (ServerHeartbeatDuration (config c))
                             (AllowMaxHeartbeatLost k) (cc_CloseImmediately k)
               | None => config c
               end in
    with_credentials (Some cr) cfg (with_info (set_ConnectionId (cr_ConnectionID cr) (info c)) c)).

(** [UserClient.EnqueueMessage]: a full queue drops the message without an error. *)
Definition client_EnqueueMessage (r : nat) (m : option GlideMessage) : GoM World error :=
  let! c := get_client r in
  if (if state c is stateClosed then true else false) then ret (errors_New "client has closed")
  else if messages_closed c then panic "send on closed channel"
  else if (length (messages c) <? msgs_cap)%nat
  then upd_client r (with_messages (int64 (queuedMessage c + 1)) (messages c ++ [m])) ;;; ret nil_error
  else ret nil_error.

(** [write2Conn]; [ok] is whether the connection takes the text. Encoding a nil message
    dereferences nothing and writes [null]. *)
Definition encode_ptr (m : option GlideMessage) : option string :=
  match m with Some m => Encode m | None => Some "null" end.

Definition write2Conn (r : nat) (m : option GlideMessage) (ok : bool) : GoM World unit :=
  match encode_ptr m with
  | None => ret tt
  | Some text =>
      upd_client r (fun c =>
        let c := with_messages (int64 (queuedMessage c - 1)) (messages c) c in
        if ok then with_conn (messages_closed c) (conn c ++ [Wrote text]) c
        else with_closing (closeReadCh c) true c)
  end.

(** [close(c.messages)], which panics when it is closed, and [c.conn.Close()]. *)
Definition close_client (r : nat) : GoM World unit :=
  let! c := get_client r in
  if messages_closed c then panic "close of closed channel"
  else upd_client r (fun c => with_conn true (conn c ++ [ConnClosed]) c).

Definition stopReadWrite (r : nat) : GoM World unit := upd_client r (with_closing true true).

(** The end of [Exit], after the manager was told. *)
Definition stop (r : nat) : GoM World unit :=
  SetID r "" ;;;
  upd_client r (fun c => with_mgr false (intercepted c) c) ;;;
  stopReadWrite r ;;;
  let! c := get_client r in
  if CloseImmediately (config c) then close_client r else upd_client r (with_flushing true).

(** [Exit] of a client whose ID is empty: there is no manager to tell. *)
Definition Exit_no_id (r : nat) : GoM World unit :=
  let! c := get_client r in
  if (if state c is stateClosed then true else false) then ret tt
  else upd_client r (with_state stateClosed) ;;; stop r.

(** [c.msgHandler] of the gateway, as the gateway calls it: the handler takes what it is given. When the
    gateway holds its mutex and the handler cannot take an event, the code may wait for itself: see
    [ExitRace]. *)
Definition call_handler (i : info_ref) (m : GlideMessage) : GoM World unit := modify (add_handled (i, m)).

Definition internal (action : string) (id : ID) : GlideMessage := NewMessage 0 action (PID id).

(** ** [Impl] *)

Definition gateway_id (id : ID) : GoM World ID := gets (fun w => route (gate_id w) id).
Definition lookup_client (id : ID) : GoM World (option nat) := gets (fun w => clients w !! id).

(** [ExitClient]; the client's ID is empty when its [Exit] runs. *)
Definition ExitClient (id : ID) : GoM World error :=
  let! id := gateway_id id in
  let! o := lookup_client id in
  match o with
  | None => ret (errors_New errClientNotExist)
  | Some r =>
      let! c := get_client r in
      SetID r "" ;;;
      modify (fun w => set_clients (delete id (clients w)) w) ;;;
      call_handler (InfoCopy (info c)) (internal ActionInternalOffline id) ;;;
      Exit_no_id r ;;;
      ret nil_error
  end.

(** [UserClient.Exit]. *)
Definition Exit (r : nat) : GoM World unit :=
  let! c := get_client r in
  if (if state c is stateClosed then true else false) then ret tt
  else
    upd_client r (with_state stateClosed) ;;;
    (if has_mgr c && negb (bool_decide (info_ID (info c) = ""))
     then let! _ := ExitClient (info_ID (info c)) in ret tt else ret tt) ;;;
    stop r.

Definition Run (r : nat) : GoM World unit := upd_client r (with_state stateRunning).

Definition GetClient (id : ID) : GoM World (option nat) := lookup_client id.

Definition GetAll : GoM World (gmap ID Info) :=
  gets (fun w => omap (fun r => info <$> heap w !! r) (clients w)).

(** [UpdateClient] dereferences the credentials of a client that may have none. *)
Definition UpdateClient (id : ID) (secrets : option ClientSecrets) : GoM World error :=
  let! id := gateway_id id in
  let! o := lookup_client id in
  match o with
  | None => ret (errors_New errClientNotExist)
  | Some r =>
      let! c := get_client r in
      match credentials c with
      | None => panic "nil credentials"
      | Some cr =>
          SetCredentials r (MkCredentials (cr_Type cr) (cr_UserID cr) (cr_DeviceID cr) (cr_DeviceName cr) secrets
            (cr_RiskControl cr) (cr_ConnectionConfig cr) (cr_ConnectionID cr) (cr_Timestamp cr)) ;;;
          match secrets with
          | None => panic "nil secrets"        (* the log line reads [info.MessageDeliverSecret] *)
          | Some _ => ret nil_error
          end
      end
  end.

Definition AddClient (r : nat) : GoM World unit :=
  let! c := get_client r in
  let! id := gateway_id (info_ID (info c)) in
  upd_client r (fun c => with_mgr (has_mgr c) true c) ;;;
  modify (fun w => set_clients (<[id := r]> (clients w)) w) ;;;
  let! c := get_client r in
  call_handler (InfoCopy (info c)) (internal ActionInternalOnline id).

Definition SetClientID (oldID newID : ID) : GoM World error :=
  let! oldID := gateway_id oldID in
  let! newID := gateway_id newID in
  let! o := lookup_client oldID in
  match o with
  | None => ret (errors_New errClientNotExist)
  | Some r =>
      let! cliLogged := lookup_client newID in
      match cliLogged with
      | Some _ => ret (errors_New errClientAlreadyExist)
      | None =>
          let! c := get_client r in
          SetID r newID ;;;
          let! c' := get_client r in
          modify (fun w => set_clients (delete oldID (clients w)) w) ;;;
          call_handler (InfoCopy (info c)) (internal ActionInternalOffline oldID) ;;;
          call_handler (InfoCopy (info c')) (internal ActionInternalOnline newID) ;;;
          modify (fun w => set_clients (<[newID := r]> (clients w)) w) ;;;
          ret nil_error
      end
  end.

Definition gate_enqueue (r : nat) (m : option GlideMessage) : GoM World error :=
  let! running := IsRunning r in
  if running : bool then
    let! l := gets pool in
    let! cap := gets pool_cap in
    if Z.of_nat (length l) <? cap
    then modify (set_pool (l ++ [(r, m)])) ;;; ret nil_error
    else ret (errors_New "enqueue message to client failed")
  else ret (errors_New errClientClosed).

(** [Impl.EnqueueMessage]. *)
Definition EnqueueMessage (id : ID) (m : option GlideMessage) : GoM World error :=
  let! id := gateway_id id in
  let! o := lookup_client id in
  match o with
  | None => ret (errors_New errClientNotExist)
  | Some r => gate_enqueue r m
  end.

(** ** Authentication *)

Definition forbid (r : nat) (m : GlideMessage) (why : string) : GoM World bool :=
  let! c := get_client r in
  let! _ := EnqueueMessage (info_ID (info c)) (Some (NewMessage (Seq m) ActionNotifyForbidden (PString why))) in
  ret true.

(** The ticket a client must show to send to [to]. *)
Definition message_ticket (secret uid to : string) : string := SHA1 (secret +:+ uid +:+ SHA1 (secret +:+ to)).

(** [Authenticator.MessageInterceptor]: true when the message is stopped. The second check of the
    credentials only fails on their secrets. *)
Definition MessageInterceptor (r : nat) (m : GlideMessage) : GoM World bool :=
  let! c := get_client r in
  match credentials c with
  | None => ret false
  | Some cr =>
      if bool_decide (Action m ∈ [ActionGroupMessage; ActionChatMessage; ActionChatMessageResend]) then
        match cr_Secrets cr with
        | None => forbid r m "no credentials"
        | Some secrets =>
            let secret := MessageDeliverSecret secrets in
            if bool_decide (secret = "") then forbid r m "no message deliver secret"
            else if negb (String.length (Ticket m) =? 40)%nat then forbid r m "invalid ticket"
            else if bool_decide (strings_ToUpper (Ticket m) =
                                 strings_ToUpper (message_ticket secret (UID (info_ID (info c))) (To m)))
            then ret false
            else forbid r m "ticket expired"
        end
      else ret false
  end.

Definition take_random : GoM World (list Z) :=
  let! l := gets random in
  match l with
  | x :: l' => modify (set_random l') ;;; ret x
  | [] => panic "no random bytes"
  end.

(** [Authenticator.updateClient]: a client that holds the ID is renamed and told. *)
Definition updateClient (r : nat) (cr : ClientAuthCredentials) : GoM World (ID * error) :=
  SetCredentials r cr ;;;
  let! c := get_client r in
  let oldID := info_ID (info c) in
  let newID := NewID2 (cr_UserID cr) in
  let! err := SetClientID oldID newID in
  if IsIDAlreadyExist err then
    if Equals newID oldID then ret (newID, nil_error)
    else
      let! bytes := take_random in
      let tempID := GenTempID "" bytes in
      let! err := SetClientID newID tempID in
      match err with
      | Some _ => ret ("", err)
      | None =>
          let! _ := EnqueueMessage tempID (Some (NewMessage 0 ActionNotifyKickOut
                      (PKickOutNotify (MkKickOutNotify (cr_DeviceID cr) (cr_DeviceName cr))))) in
          let! err := SetClientID oldID newID in
          match err with
          | Some _ => ret ("", err)
          | None => ret (newID, nil_error)
          end
      end
  else ret (newID, err).

Definition credential_lifetime : Z := 1500 * 1000.

Section authentication.
Context `{BlockCipher}.

(** The credentials of an authentication message, or the text of the reply. *)
Definition read_credentials (key : list Z) (m : GlideMessage) : GoM World (ClientAuthCredentials + string) :=
  match Deserialize (Data m) zero_EncryptedCredential with
  | (Some _, _) => ret (inr "invalid authenticate message")
  | (None, credential) =>
      if (String.length (ec_Credential credential) <? 5)%nat then ret (inr "invalid authenticate message")
      else
        match DecryptCredentials key (ec_Credential credential) with
        | None => panic "slice bounds out of range"
        | Some (inr _) => ret (inr "invalid authenticate message")
        | Some (inl cr) =>
            let! t := gets now in
            if credential_lifetime <? int64 (t - cr_Timestamp cr) then ret (inr "credential expired")
            else ret (inl cr)
        end
  end.

(** [Authenticator.ClientAuthMessageInterceptor], on an authentication message. *)
Definition ClientAuthMessageInterceptor (key : list Z) (r : nat) (m : GlideMessage) : GoM World bool :=
  if negb (bool_decide (Action m = ActionAuthenticate)) then ret false
  else
    let! res := read_credentials key m in
    let! done_ :=
      (match res with
       | inr errMsg => ret (inr errMsg)
       | inl cr =>
           let! p := updateClient r cr in
           match p.2 with
           | Some _ => ret (inr "")
           | None => ret (inl p.1)
           end
       end) in
    match done_ with
    | inr errMsg =>
        let! c := get_client r in
        let! _ := EnqueueMessage (info_ID (info c)) (Some (NewMessage (Seq m) ActionNotifyError (PString errMsg))) in
        ret true
    | inl newId =>
        let! _ := EnqueueMessage newId (Some (NewMessage (Seq m) ActionNotifySuccess PNil)) in
        ret true
    end.

(** [MessageInterceptor] on a nil receiver, which it dereferences on the paths that stop the message. *)
Definition on_nil (m : GoM World bool) : GoM World bool := fun w =>
  match m w with
  | (Val true, _) => (Panics "nil authenticator", w)
  | res => res
  end.

(** [Impl.interceptClientMessage]. *)
Definition interceptClientMessage (r : nat) (m : GlideMessage) : GoM World bool :=
  let! a := gets authenticator in
  match a with
  | Some key =>
      if bool_decide (Action m = ActionAuthenticate) then ClientAuthMessageInterceptor key r m
      else MessageInterceptor r m
  | None => on_nil (MessageInterceptor r m)
  end.

(** The handler of a client, as [AddMessageInterceptor] wraps it. *)
Definition client_handler (r : nat) (m : GlideMessage) : GoM World unit :=
  let! c := get_client r in
  if intercepted c then
    let! stop := interceptClientMessage r m in
    if stop : bool then ret tt else call_handler (InfoOf r) m
  else call_handler (InfoOf r) m.

(** ** The goroutines of a client *)

Definition heartbeat : GlideMessage := NewMessage 0 ActionHeartbeat PNil.

Definition handleHello (r : nat) (m : GlideMessage) : GoM World unit :=
  match Deserialize (Data m) zero_Hello with
  | (Some _, _) =>
      let! _ := client_EnqueueMessage r (Some (NewMessage 0 ActionNotifyError (PString "invalid handleHello message"))) in
      ret tt
  | (None, hello) => upd_client r (fun c => with_info (set_Version (ClientVersion hello) (info c)) c)
  end.

(** What wakes [runRead]: the close channel, the heartbeat timer, or the reader: a closed channel, an
    error, or a message. *)
Inductive read_event :=
  | ReadClose
  | ReadHeartbeat
  | ReadNil
  | ReadError (err : string)
  | ReadMessage (m : GlideMessage).

(** [defaultReader.Read] on what the connection returned: a frame, or an error. *)
Definition Read (frame : string + string) : error * GlideMessage :=
  match frame with
  | inr err => (errors_New err, NewEmptyMessage)
  | inl bytes => decode_message bytes
  end.

(** What [ReadCh] sends for the frames of a connection: a decoding error does not stop it, an error of the
    connection closes the channel, which then yields nil. *)
Fixpoint ReadCh (frames : list (string + string)) : list read_event :=
  match frames with
  | [] => []
  | frame :: frames' =>
      match Read frame with
      | (Some err, _) =>
          if IsDecodeError (Some err) then ReadError err :: ReadCh frames' else [ReadError err; ReadNil]
      | (None, m) => ReadMessage m :: ReadCh frames'
      end
  end.

(** One round of the loop; false at [STOP]. *)
Definition runRead (r : nat) (ev : read_event) : GoM World bool :=
  match ev with
  | ReadClose => ret false
  | ReadHeartbeat =>
      let! running := IsRunning r in
      if negb running then ret false
      else
        let! c := get_client r in
        let lost := int64 (hbLost c + 1) in
        upd_client r (with_hbLost lost) ;;;
        (if HeartbeatLostLimit (config c) <? lost then Exit r else ret tt) ;;;
        let! _ := client_EnqueueMessage r (Some heartbeat) in
        ret true
  | ReadNil => Exit r ;;; ret true
  | ReadError err =>
      if IsDecodeError (Some err) then
        let! _ := client_EnqueueMessage r (Some (NewMessage 0 ActionNotifyError (PString err))) in
        ret true
      else Exit r ;;; ret true
  | ReadMessage m =>
      let! c := get_client r in
      if bool_decide (info_ID (info c) = "") then Exit r ;;; ret true
      else
        upd_client r (with_hbLost 0) ;;;
        (if bool_decide (Action m = ActionHello) then handleHello r m else client_handler r m) ;;;
        ret true
  end.

(** The deferred [recover] of both goroutines: a panic exits the client and ends the loop. *)
Definition recovered (r : nat) (m : GoM World bool) : GoM World bool := fun w =>
  match m w with
  | (Panics _, w') => (Exit r ;;; ret false) w'
  | x => x
  end.

(** The read loop on the events that wake it; true when it waits for another one. *)
Fixpoint read_loop (r : nat) (evs : list read_event) : GoM World bool :=
  match evs with
  | [] => ret true
  | ev :: evs' =>
      let! go := recovered r (runRead r ev) in
      if go : bool then read_loop r evs' else ret false
  end.

(** What wakes [runWrite]; [ok] is whether the connection takes what is written. *)
Inductive write_event := WriteClose | WriteHeartbeat | WriteMessage (ok : bool).

Definition runWrite (r : nat) (ev : write_event) : GoM World bool :=
  match ev with
  | WriteClose => ret false
  | WriteHeartbeat =>
      let! running := IsRunning r in
      if negb running then ret false
      else let! _ := client_EnqueueMessage r (Some heartbeat) in ret true
  | WriteMessage ok =>
      let! c := get_client r in
      match messages c with
      | [] =>        (* a closed channel yields nil, an open one makes the loop wait *)
          if messages_closed c then Exit r ;;; ret true else ret true
      | None :: l => upd_client r (with_messages (queuedMessage c) l) ;;; Exit r ;;; ret true
      | Some m :: l =>
          upd_client r (with_messages (queuedMessage c) l) ;;;
          write2Conn r (Some m) ok ;;; ret true
      end
  end.

(** One round of the goroutine of [Exit]: write a queued message, or close; a closed queue yields nil for
    ever, which is written as [null]. *)
Definition flush (r : nat) (ok : bool) : GoM World bool :=
  let! c := get_client r in
  match messages c with
  | m :: l => upd_client r (with_messages (queuedMessage c) l) ;;; write2Conn r m ok ;;; ret true
  | [] =>
      if messages_closed c then write2Conn r None ok ;;; ret true
      else upd_client r (with_flushing false) ;;; close_client r ;;; ret false
  end.

Fixpoint flush_loop (n : nat) (r : nat) (ok : bool) : GoM World bool :=
  match n with
  | O => ret true
  | S n' => let! go := flush r ok in if go : bool then flush_loop n' r ok else ret false
  end.

(** A worker of the pool runs the [n]th submitted task: the workers run in any order. *)
Definition run_pool (n : nat) : GoM World unit :=
  let! l := gets pool in
  match l !! n with
  | Some (r, m) => modify (set_pool (delete n l)) ;;; let! _ := client_EnqueueMessage r m in ret tt
  | None => ret tt
  end.
End authentication.

(** ** Connections *)

(** [WebsocketGatewayServer.HandleConnection]: [r] is the new client's reference, [bytes] what the random
    source returns for its temporary ID. *)
Definition HandleConnection (r : nat) (addr : string) (bytes : list Z) : GoM World ID :=
  let! g := gets gate_id in
  let! t := gets now in
  let id := GenTempID g bytes in
  modify (fun w => set_heap (<[r := new_client addr t
    (Some (MkClientConfig (30 * second) (30 * second) 3 false))]> (heap w)) w) ;;;
  SetID r id ;;;
  AddClient r ;;;
  Run r ;;;
  let! _ := client_EnqueueMessage r (Some (NewMessage 0 ActionHello
              (PServerHello (MkServerHello "" (UID id) 30 [])))) in
  ret id.

(** [NewServer]. *)
Definition NewServer (id secretKey : string) (cap : Z) (t : Z) (rnd : list (list Z)) : World :=
  MkWorld id ∅ ∅ [] cap [] (if bool_decide (secretKey = "") then None else Some (authenticator_key secretKey)) t rnd.

(** [NewWebsocketServer]: the addresses are for the server of connections. *)
Definition NewWebsocketServer (gateId secretKey : string) (t : Z) (rnd : list (list Z)) : World :=
  NewServer gateId secretKey 300000 t rnd.
