(* ===== verification/Interfaces.v ===== *)
(** * The interfaces between the components

    [gate.Gateway] is what messaging, the subscriptions and the RPC service see of the gateway;
    the gateway implements it ([Impl_Gateway]), and so does a gateway that only records what it
    is asked, on which the clients of the interface are run.

    [subscription_impl.SubscribeWrap] is what messaging and the world channel see of the channels;
    [NewSubscribeWrap] builds it from a directory. Last, both interfaces on one half of a pair of states. *)

From S2P Require Import Prelude Messages GateId Channel Subscription Credentials Gate.

Local Open Scope Z_scope.
Local Open Scope go_scope.

Class Gateway_ (S : Type) := {
  gw_SetClientID : ID -> ID -> GoM S error;
  gw_UpdateClient : ID -> option ClientSecrets -> GoM S error;
  gw_ExitClient : ID -> GoM S error;
  gw_EnqueueMessage : ID -> option GlideMessage -> GoM S error }.

#[global] Instance Impl_Gateway : Gateway_ World := {|
  gw_SetClientID := SetClientID;
  gw_UpdateClient := UpdateClient;
  gw_ExitClient := ExitClient;
  gw_EnqueueMessage := EnqueueMessage |}.

(** [subscription_impl.SubscribeWrap], what the RPC service and the world channel see of the
    channels. *)
Class SubscribeWrap_ (S : Type) := {
  sw_Subscribe : ChanID -> SubscriberID -> extra -> GoM S error;
  sw_UnSubscribe : ChanID -> SubscriberID -> GoM S error;
  sw_UpdateSubscriber : ChanID -> SubscriberID -> extra -> GoM S error;
  sw_RemoveChannel : ChanID -> GoM S error;
  sw_CreateChannel : ChanID -> ChanInfo -> GoM S error;
  sw_UpdateChannel : ChanID -> ChanInfo -> GoM S error;
  sw_Publish : ChanID -> message_arg -> GoM S error }.

(** [NewSubscribeWrap], at the time [now]. *)
Definition NewSubscribeWrap {S} `{Subscribe_ S} (now : Z) : SubscribeWrap_ S := {|
  sw_Subscribe := wrap_Subscribe now;
  sw_UnSubscribe := wrap_UnSubscribe now;
  sw_UpdateSubscriber := wrap_UpdateSubscriber now;
  sw_RemoveChannel := wrap_RemoveChannel now;
  sw_CreateChannel := wrap_CreateChannel now;
  sw_UpdateChannel := wrap_UpdateChannel now;
  sw_Publish := wrap_Publish now |}.

(** ** A recording gateway *)

Inductive gw_call :=
  | CSetClientID (old new : ID)
  | CUpdateClient (id : ID) (secrets : option ClientSecrets)
  | CExitClient (id : ID)
  | CEnqueueMessage (id : ID) (m : option GlideMessage).

(** Appends the call to the log and answers [answer call]. *)
Definition record_call (answer : gw_call -> error) (call : gw_call) : GoM (list gw_call) error :=
  fun log => (Val (answer call), log ++ [call]).

Definition recorder (answer : gw_call -> error) : Gateway_ (list gw_call) := {|
  gw_SetClientID old new := record_call answer (CSetClientID old new);
  gw_UpdateClient id secrets := record_call answer (CUpdateClient id secrets);
  gw_ExitClient id := record_call answer (CExitClient id);
  gw_EnqueueMessage id m := record_call answer (CEnqueueMessage id m) |}.

(** ** Interfaces on one component of a state *)

(** A process is a gateway and a directory of channels. *)
#[global] Instance Gateway_fst {A B} `{Gateway_ A} : Gateway_ (A * B) :=
  let at_fst {R} (m : GoM A R) := zoom fst (fun a (p : A * B) => (a, p.2)) m in {|
  gw_SetClientID old new := at_fst (gw_SetClientID old new);
  gw_UpdateClient i secrets := at_fst (gw_UpdateClient i secrets);
  gw_ExitClient i := at_fst (gw_ExitClient i);
  gw_EnqueueMessage i m := at_fst (gw_EnqueueMessage i m) |}.

Definition SubscribeWrap_snd {A B} (W : SubscribeWrap_ B) : SubscribeWrap_ (A * B) :=
  let at_snd {R} (m : GoM B R) := zoom snd (fun b (p : A * B) => (p.1, b)) m in {|
  sw_Subscribe ch i ex := at_snd (sw_Subscribe ch i ex);
  sw_UnSubscribe ch i := at_snd (sw_UnSubscribe ch i);
  sw_UpdateSubscriber ch i ex := at_snd (sw_UpdateSubscriber ch i ex);
  sw_RemoveChannel ch := at_snd (sw_RemoveChannel ch);
  sw_CreateChannel ch i := at_snd (sw_CreateChannel ch i);
  sw_UpdateChannel ch i := at_snd (sw_UpdateChannel ch i);
  sw_Publish ch m := at_snd (sw_Publish ch m) |}.
