(* ===== verification/UserState.v ===== *)
(** * Online-state subscriptions: [pkg/messaging/user_state_sub.go]

    Users subscribe to the online state of other users; going online or offline notifies the
    subscribers through the gateway. Go's order of map iteration is unspecified: the model uses
    the order of [elements]. The mutex is not modelled; the log time is dropped. *)

From S2P Require Import Prelude GoStrings Json Messages GateId Interfaces.

Local Open Scope Z_scope.
Local Open Scope go_scope.

Record StateSubscribeData := MkStateSubscribeData { Uids : list string }.
Definition zero_StateSubscribeData : StateSubscribeData := MkStateSubscribeData [].

(** An array of strings; an element that is not a string is an error and stays empty. *)
Fixpoint decode_strings (raws : list string) : error * list string :=
  match raws with
  | [] => (nil_error, [])
  | raw :: raws' =>
      let '(e, l) := decode_strings raws' in
      match decode_string raw "" with
      | inl s => (e, s :: l)
      | inr e' => (first_error (errors_New e') e, "" :: l)
      end
  end.

Definition set_uids (raw : string) (t : StateSubscribeData) : error * StateSubscribeData :=
  if bool_decide (raw = "null") then (nil_error, MkStateSubscribeData [])
  else match json_elements raw with
       | Some raws => let '(e, l) := decode_strings raws in (e, MkStateSubscribeData l)
       | None => (errors_New "json: cannot unmarshal value into Go struct field StateSubscribeData.uids of type []string", t)
       end.

#[global] Instance StateSubscribeData_struct : GoStruct StateSubscribeData := {|
  fields := [("uids", set_uids)];
  of_payload _ := None |}.

(** [map[string]byte] used as a set. *)
Record UserState := MkUserState {
  us_subscribers : gmap string (gset string);
  us_mySubs : gmap string (gset string) }.

Definition NewUserState : UserState := MkUserState ∅ ∅.

(** The set a missing key reads as. *)
Definition members (m : gmap string (gset string)) (k : string) : gset string := default ∅ (m !! k).

Section UserState.
Context {S : Type} `{Gateway_ S}.

Definition US : Type := UserState * S.
Definition get_subscribers : GoM US (gmap string (gset string)) := gets (fun s => us_subscribers s.1).
Definition get_mySubs : GoM US (gmap string (gset string)) := gets (fun s => us_mySubs s.1).
Definition set_subscribers (m : gmap string (gset string)) : GoM US unit :=
  modify (fun s => (MkUserState m (us_mySubs s.1), s.2)).
Definition set_mySubs (m : gmap string (gset string)) : GoM US unit :=
  modify (fun s => (MkUserState (us_subscribers s.1) m, s.2)).
Definition us_EnqueueMessage (id : ID) (m : GlideMessage) : GoM US error :=
  zoom snd (fun s u => (u.1, s)) (gw_EnqueueMessage id (Some m)).

Definition state_message (uid : string) (online : bool) : GlideMessage :=
  NewMessage 0 ActionNotifyUserState (PUserState (MkUserStateData uid online)).

Definition notify_state (src : ID) (online : bool) (to : gset string) : GoM US unit :=
  foreach (elements to) (fun uid => let! _ := us_EnqueueMessage (NewID2 uid) (state_message (UID src) online) in ret tt).

(** The flags are the ones of the code. *)
Definition notifyOnline (src : ID) (to : gset string) : GoM US unit := notify_state src false to.
Definition notifyOffline (src : ID) (to : gset string) : GoM US unit := notify_state src true to.

Definition onUserOnline (id : ID) : GoM US unit :=
  let! subs := get_subscribers in
  match subs !! UID id with
  | Some mySubList => notifyOnline id mySubList
  | None => set_subscribers (<[UID id := ∅]> subs) ;;; notifyOnline id ∅
  end.

(** [delete(target, uid)] for every [uid] the user subscribed to. *)
Definition forget (subs : gmap string (gset string)) (sub : gset string) : gmap string (gset string) :=
  foldr (fun uid subs => match subs !! uid with
                         | Some target => <[uid := target ∖ {[uid]}]> subs
                         | None => subs
                         end) subs (elements sub).

Definition onUserOffline (id : ID) : GoM US unit :=
  let! subs := get_subscribers in
  match subs !! UID id with
  | None => ret tt
  | Some mySubList =>
      if bool_decide (mySubList = ∅) then ret tt
      else
        notifyOffline id mySubList ;;;
        let! my := get_mySubs in
        match my !! UID id with
        | None => ret tt
        | Some sub =>
            let! subs := get_subscribers in
            set_subscribers (forget subs sub) ;;;
            set_mySubs (delete (UID id) my)
        end
  end.

(** The loop over [data.Uids]; the set of the user's own subscriptions is in [mySubs] already. *)
Fixpoint subscribe_uids (myId : string) (uids : list string) : GoM US unit :=
  match uids with
  | [] => ret tt
  | uid :: uids' =>
      let! subs := get_subscribers in
      set_subscribers (<[uid := {[myId]} ∪ members subs uid]> subs) ;;;
      let! my := get_mySubs in
      set_mySubs (<[myId := {[uid]} ∪ members my myId]> my) ;;;
      subscribe_uids myId uids'
  end.

Definition subUserStateApi (c : ID) (m : GlideMessage) : GoM US error :=
  match Deserialize (Data m) zero_StateSubscribeData with
  | (Some err, _) => ret (Some err)
  | (None, data) =>
      let myId := UID c in
      let! my := get_mySubs in
      (if my !! myId then ret tt else set_mySubs (<[myId := ∅]> my)) ;;;
      subscribe_uids myId (Uids data) ;;;
      ret nil_error
  end.
End UserState.

(** ** Properties, on a recording gateway *)

Section properties.
Context (answer : gw_call -> error).
#[local] Instance rec_gateway : Gateway_ (list gw_call) := recorder answer.

(** The notification to one subscriber. *)
Definition notification (src : string) (online : bool) (uid : string) : gw_call :=
  CEnqueueMessage (NewID2 uid) (Some (state_message src online)).

Lemma notify_state_run src online to u log :
  notify_state src online to (u, log) =
    (Val tt, (u, log ++ (notification (UID src) online <$> elements to))).
Proof.
  unfold notify_state. generalize (elements to). intros l. revert log.
  induction l as [| uid l IH]; intros log; [by rewrite app_nil_r |].
  cbn [foreach fmap list_fmap]. unfold bind at 1 2. cbn. rewrite IH. by rewrite <- app_assoc.
Qed.

Lemma onUserOnline_run id u (log : list gw_call) :
  exists u', onUserOnline id (u, log) =
    (Val tt, (u', log ++ (notification (UID id) false <$> elements (members (us_subscribers u) (UID id))))) /\
    us_mySubs u' = us_mySubs u /\ (forall a, members (us_subscribers u') a = members (us_subscribers u) a).
Proof.
  unfold onUserOnline, get_subscribers. unfold bind at 1. cbn [gets fst].
  unfold members at 1. destruct (us_subscribers u !! UID id) as [l |] eqn:E; cbn [default].
  - unfold notifyOnline. rewrite notify_state_run. exists u. done.
  - unfold bind at 1. cbn [set_subscribers modify fst snd]. unfold notifyOnline. rewrite notify_state_run.
    eexists. split; [done |]. split; [done |]. intros a. cbn. unfold members.
    destruct (decide (a = UID id)) as [-> | Hne]; [by rewrite lookup_insert_eq, E | by rewrite lookup_insert_ne].
Qed.

Lemma members_insert m k k' s : members (<[k := s]> m) k' = if decide (k' = k) then s else members m k'.
Proof.
  unfold members. case_decide as E; [subst; by rewrite lookup_insert_eq | by rewrite lookup_insert_ne].
Qed.

Lemma subscribe_uids_run myId uids : forall u (log : list gw_call),
  exists u', subscribe_uids myId uids (u, log) = (Val tt, (u', log)) /\
    (forall a b, b ∈ members (us_subscribers u') a <-> b ∈ members (us_subscribers u) a \/ b = myId /\ a ∈ uids) /\
    (forall a b, a ∈ members (us_mySubs u') b <-> a ∈ members (us_mySubs u) b \/ b = myId /\ a ∈ uids).
Proof.
  induction uids as [| uid uids IH]; intros u log.
  - exists u. split; [done |]. split; set_solver.
  - cbn [subscribe_uids]. unfold bind at 1 2 3 4. cbn [get_subscribers get_mySubs gets set_subscribers set_mySubs modify fst snd].
    edestruct IH as (u' & Hrun & H1 & H2). exists u'. split; [exact Hrun |].
    split; intros a b; [rewrite H1 | rewrite H2]; cbn; rewrite members_insert; case_decide; set_solver.
Qed.

Lemma subUserStateApi_run c m data u (log : list gw_call) :
  Deserialize (Data m) zero_StateSubscribeData = (nil_error, data) ->
  exists u', subUserStateApi c m (u, log) = (Val nil_error, (u', log)) /\
    (forall a b, b ∈ members (us_subscribers u') a <-> b ∈ members (us_subscribers u) a \/ b = UID c /\ a ∈ Uids data) /\
    (forall a b, a ∈ members (us_mySubs u') b <-> a ∈ members (us_mySubs u) b \/ b = UID c /\ a ∈ Uids data).
Proof.
  intros Hd. unfold subUserStateApi. rewrite Hd. unfold bind at 1. cbn [get_mySubs gets fst].
  assert (Hempty : exists u0, (if us_mySubs u !! UID c then ret tt else set_mySubs (<[UID c := ∅]> (us_mySubs u))) (u, log)
    = (Val tt, (u0, log)) /\ us_subscribers u0 = us_subscribers u /\
      (forall b, members (us_mySubs u0) b = members (us_mySubs u) b)).
  { destruct (us_mySubs u !! UID c) eqn:E; [by exists u |]. eexists. split; [done |]. split; [done |]. cbn.
    intros b. rewrite members_insert. case_decide; [| done]. subst. unfold members. by rewrite E. }
  destruct Hempty as (u0 & Hrun0 & E1 & E2). rewrite (bind_Val _ _ _ _ _ Hrun0).
  destruct (subscribe_uids_run (UID c) (Uids data) u0 log) as (u' & Hrun & H1 & H2).
  rewrite (bind_Val _ _ _ _ _ Hrun). exists u'. split; [done |].
  split; intros a b; [rewrite H1, E1 | rewrite H2, E2]; done.
Qed.

(** C38: a user that asks for the states of some users is registered as a subscriber of exactly those,
    besides what was registered before, and nobody is notified by asking; when a user then comes
    online, each of its subscribers gets exactly one notification that names it, and nobody else gets
    one. *)
Theorem state_subscriptions_notify c m data id u (log : list gw_call) :
  Deserialize (Data m) zero_StateSubscribeData = (nil_error, data) ->
  exists u1 u2 to,
    subUserStateApi c m (u, log) = (Val nil_error, (u1, log)) /\
    onUserOnline id (u1, log) = (Val tt, (u2, log ++ (notification (UID id) false <$> to))) /\
    NoDup to /\
    (forall b, b ∈ to <-> b ∈ members (us_subscribers u) (UID id) \/ b = UID c /\ UID id ∈ Uids data).
Proof.
  intros Hd. destruct (subUserStateApi_run c m data u log Hd) as (u1 & H1 & H2 & _).
  destruct (onUserOnline_run id u1 log) as (u2 & H3 & _ & _).
  exists u1, u2, (elements (members (us_subscribers u1) (UID id))). split_and!; [done | done | apply NoDup_elements |].
  intros b. rewrite elem_of_elements. apply H2.
Qed.
End properties.

Definition demo_sub (uids : list string) : GlideMessage :=
  set_Data (Some (PBytes (json_object [("uids", json_array (json_string <$> uids))])))
    (NewMessage 1 ActionApiSubUserState PNil).
Definition quiet (call : gw_call) : error := nil_error.
#[local] Instance demo_gateway : Gateway_ (list gw_call) := recorder quiet.

Lemma state_subscriptions_notify_witness :
  exists u1 u2 to,
    subUserStateApi (NewID2 "bob") (demo_sub ["alice"; "carol"]) (NewUserState, [] : list gw_call) =
      (Val nil_error, (u1, [])) /\
    onUserOnline (NewID "g" "alice" "") (u1, [] : list gw_call) =
      (Val tt, (u2, [] ++ (notification "alice" false <$> to))) /\
    NoDup to /\
    (forall b, b ∈ to <-> b ∈ members (us_subscribers NewUserState) "alice" \/ b = "bob" /\ "alice" ∈ ["alice"; "carol"]).
Proof.
  apply (state_subscriptions_notify quiet (NewID2 "bob") (demo_sub ["alice"; "carol"])
    (MkStateSubscribeData ["alice"; "carol"]) (NewID "g" "alice" "") NewUserState []).
  vm_compute. reflexivity.
Defined.

(** Going offline does not end the user's own subscriptions: [delete(target, uid)] deletes the wrong
    key. [bob] watches [alice], [alice] watches [bob]; [bob] leaves; [alice] coming online still notifies
    [bob]. *)
Definition demo_offline : GoM (UserState * list gw_call) unit :=
  let! _ := subUserStateApi (NewID2 "bob") (demo_sub ["alice"]) in
  let! _ := subUserStateApi (NewID2 "alice") (demo_sub ["bob"]) in
  onUserOffline (NewID2 "bob") ;;;
  onUserOnline (NewID2 "alice").

Example offline_keeps_subscriptions :
  (demo_offline (NewUserState, [])).2.2 = [notification "bob" true "alice"; notification "alice" false "bob"].
Proof. vm_compute. reflexivity. Qed.
