(* ===== verification/Rpc.v ===== *)
(** * The RPC service: [im_service/server] and [im_service/client]

    The server exposes the gateway and the channels of this process; the client implements their
    interfaces by calling it. The rpcx library that carries the calls is a parameter,
    [rpcx_Call]: [reliable] says what the client relies on. Protobuf messages are records; the
    JSON texts inside them are encoded and decoded as the code does. *)

From S2P Require Import Prelude GoStrings Json Messages GateId Channel Subscription Credentials Gate Interfaces UserState.

Local Open Scope Z_scope.
Local Open Scope go_scope.

(** ** The protobuf messages *)

Definition Response_OK : Z := 0.
Definition Response_ERROR : Z := 1.
Definition UpdateClient_UpdateID : Z := 1.
Definition UpdateClient_Close : Z := 2.
Definition UpdateClient_Kick : Z := 3.
Definition UpdateClient_UpdateSecret : Z := 4.

Record Response := MkResponse { rs_Code : Z; rs_Msg : string }.
Definition zero_Response : Response := MkResponse 0 "".

Record UpdateClientRequest := MkUpdateClient {
  uc_Id : string; uc_NewId : string; uc_Secret : string; uc_Message : string; uc_Type : Z }.

Record ChannelInfo := MkChannelInfo {
  pi_ID : string; pi_Type : Z; pi_Muted : bool; pi_Blocked : bool; pi_Closed : bool;
  pi_Parent : string; pi_Children : list string }.

Inductive request :=
  | ReqUpdateClient (q : UpdateClientRequest)
  | ReqEnqueueMessage (Id Msg : string)
  | ReqSubscribe (ChannelID SubscriberID Extra : string)
  | ReqUnsubscribe (ChannelID SubscriberID : string)
  | ReqUpdateSubscriber (ChannelID SubscriberID Extra : string)
  | ReqRemoveChannel (ChannelID : string)
  | ReqCreateChannel (ChannelID : string) (Info : option ChannelInfo)
  | ReqUpdateChannel (ChannelID : string) (Info : option ChannelInfo)
  | ReqPublish (ChannelID Message : string).

(** ** JSON of the structs inside them *)

Definition zero_options : SubscriberOptions := MkSubscriberOptions 0 "".
Definition zero_GlideMessage : GlideMessage := blank_message 0.
Definition zero_PublishMessage : PublishMessage := MkPublishMessage "" [] 0 0 None.

Definition encode_options (o : SubscriberOptions) : string :=
  json_object [("Perm", json_int (so_Perm o)); ("Ticket", json_string (so_Ticket o))].

(** A nil slice is written [null]. *)
Definition encode_slice (l : list string) : string :=
  if bool_decide (l = []) then "null" else json_array (json_string <$> l).

Definition encode_ChanInfo (i : ChanInfo) : string :=
  json_object [("ID", json_string (ci_ID i)); ("Type", json_int (ci_Type i)); ("Muted", json_bool (Muted i));
    ("Blocked", json_bool (Blocked i)); ("Closed", json_bool (Closed i)); ("Secret", json_string (Secret i));
    ("Parent", encode_opt json_string (Parent i)); ("Child", encode_slice (Child i))].

Definition publish_members (m : PublishMessage) (message : string) : list (string * string) :=
  [("From", json_string (pm_From m)); ("To", encode_slice (pm_To m)); ("Seq", json_int (pm_Seq m));
   ("Type", json_int (pm_Type m)); ("Message", message)].

Definition encode_PublishMessage (m : PublishMessage) : option string :=
  match pm_Message m with
  | None => Some (json_object (publish_members m "null"))
  | Some g => (fun t => json_object (publish_members m t)) <$> Encode g
  end.

Definition options_fields : list (field SubscriberOptions) := [
  ("Perm", set_int 64 so_Perm (fun z o => MkSubscriberOptions z (so_Ticket o)));
  ("Ticket", set_string so_Ticket (fun s o => MkSubscriberOptions (so_Perm o) s))].

Definition set_slice {T} (set : list string -> T -> T) (raw : string) (t : T) : error * T :=
  if bool_decide (raw = "null") then (nil_error, set [] t)
  else match json_elements raw with
       | Some raws => let '(e, l) := decode_strings raws in (e, set l t)
       | None => (errors_New "json: cannot unmarshal value into Go struct field of slice type", t)
       end.

Definition publish_fields : list (field PublishMessage) := [
  ("From", set_string pm_From (fun s m => MkPublishMessage s (pm_To m) (pm_Seq m) (pm_Type m) (pm_Message m)));
  ("To", set_slice (fun l m => MkPublishMessage (pm_From m) l (pm_Seq m) (pm_Type m) (pm_Message m)));
  ("Seq", set_int 64 pm_Seq (fun z m => MkPublishMessage (pm_From m) (pm_To m) z (pm_Type m) (pm_Message m)));
  ("Type", set_int 64 pm_Type (fun z m => MkPublishMessage (pm_From m) (pm_To m) (pm_Seq m) z (pm_Message m)));
  ("Message", set_pointer message_fields zero_GlideMessage pm_Message
     (fun o m => MkPublishMessage (pm_From m) (pm_To m) (pm_Seq m) (pm_Type m) o))].

(** ** The server: [IMRpcService]

    A handler gets the request and the response it fills in; its error is what it returns. *)

Section server.
Context {S : Type} `{Gateway_ S} `{SubscribeWrap_ S}.

Definition handler : Type := Response -> GoM S (error * Response).

Definition failed (e : string) (response : Response) : Response := MkResponse Response_ERROR e.

(** [if err != nil { response.Code = ...; response.Msg = ... }]. *)
Definition respond (err : error) (response : Response) : Response :=
  match err with Some e => failed e response | None => response end.

Definition srv_UpdateClient (q : UpdateClientRequest) : handler := fun response =>
  let id := uc_Id q in
  let! err :=
    (if uc_Type q =? UpdateClient_UpdateID then gw_SetClientID id (uc_NewId q)
     else if uc_Type q =? UpdateClient_Close then gw_ExitClient id
     else if uc_Type q =? UpdateClient_UpdateSecret then gw_UpdateClient id (Some (MkClientSecrets (uc_Secret q) ""))
     else ret (errors_New "unknown update type")) in
  match err with
  | Some e => ret (err, failed e response)
  | None => ret (err, MkResponse Response_OK (rs_Msg response))
  end.

Definition srv_EnqueueMessage (Id Msg : string) : handler := fun response =>
  match Unmarshal message_fields Msg zero_GlideMessage with
  | (Some e, _) => ret (nil_error, failed e response)
  | (None, msg) =>
      let! err := gw_EnqueueMessage Id (Some msg) in
      ret (err, respond err response)
  end.

Definition srv_Subscribe (ch id ex : string) : handler := fun response =>
  match Unmarshal options_fields ex zero_options with
  | (Some e, _) => ret (nil_error, failed e response)
  | (None, info) =>
      let! err := sw_Subscribe ch id (ExtraOptions info) in
      ret (nil_error, respond err response)
  end.

Definition srv_UnSubscribe (ch id : string) : handler := fun response =>
  let! err := sw_UnSubscribe ch id in ret (nil_error, respond err response).

Definition srv_UpdateSubscriber (ch id ex : string) : handler := fun response =>
  match Unmarshal options_fields ex zero_options with
  | (Some e, _) => ret (nil_error, failed e response)
  | (None, info) =>
      let! err := sw_UpdateSubscriber ch id (ExtraOptions info) in
      ret (nil_error, respond err response)
  end.

Definition srv_RemoveChannel (ch : string) : handler := fun response =>
  let! err := sw_RemoveChannel ch in ret (nil_error, respond err response).

(** The [ChanInfo] of a request: no secret, no parent, no children. *)
Definition info_of (ch : ChanID) (c : ChannelInfo) : ChanInfo :=
  MkChanInfo ch (pi_Type c) (pi_Muted c) (pi_Blocked c) (pi_Closed c) "" None [].

Definition srv_CreateChannel (ch : string) (cInfo : option ChannelInfo) : handler := fun response =>
  match cInfo with
  | None => panic "nil pointer dereference"
  | Some c =>
      let! err := sw_CreateChannel ch (info_of ch c) in
      ret (nil_error, respond err response)
  end.

Definition srv_UpdateChannel (ch : string) (cInfo : option ChannelInfo) : handler := fun response =>
  match cInfo with
  | None => panic "nil pointer dereference"
  | Some c =>
      let! err := sw_UpdateChannel ch (info_of ch c) in
      ret (nil_error, respond err response)
  end.

Definition srv_Publish (ch message : string) : handler := fun response =>
  match Unmarshal publish_fields message zero_PublishMessage with
  | (Some e, _) => ret (nil_error, failed e response)
  | (None, msg) =>
      let! err := sw_Publish ch (AsPublish msg) in
      ret (nil_error, respond err response)
  end.

(** The methods of the registered service, by name. *)
Definition serve (fn : string) (q : request) : option handler :=
  let method (name : string) (h : handler) := if bool_decide (fn = name) then Some h else None in
  match q with
  | ReqUpdateClient q => method "UpdateClient" (srv_UpdateClient q)
  | ReqEnqueueMessage id m => method "EnqueueMessage" (srv_EnqueueMessage id m)
  | ReqSubscribe ch id ex => method "Subscribe" (srv_Subscribe ch id ex)
  | ReqUnsubscribe ch id => method "UnSubscribe" (srv_UnSubscribe ch id)
  | ReqUpdateSubscriber ch id ex => method "UpdateSubscriber" (srv_UpdateSubscriber ch id ex)
  | ReqRemoveChannel ch => method "RemoveChannel" (srv_RemoveChannel ch)
  | ReqCreateChannel ch i => method "CreateChannel" (srv_CreateChannel ch i)
  | ReqUpdateChannel ch i => method "UpdateChannel" (srv_UpdateChannel ch i)
  | ReqPublish ch m => method "Publish" (srv_Publish ch m)
  end.
End server.

(** ** The client *)

Definition errRpcInvocation : string := "gate invocation error: ".

(** [IMServiceError.Error()]. *)
Definition IMServiceError (code : Z) (message : string) : string :=
  "IM Service Error: " +:+ Itoa code +:+ ", " +:+ message.

Definition IsRpcInvocationError (err : error) : bool :=
  match err with Some e => strings_HasPrefix e errRpcInvocation | None => false end.

Definition getResponseError (r : Response) : error :=
  if negb (rs_Code r =? Response_OK) then errors_New (IMServiceError (rs_Code r) (rs_Msg r)) else nil_error.

Section client.
Context {S : Type}.
(** [BaseClient.Call], with a fresh reply. *)
Context (rpcx_Call : string -> request -> GoM S (error * Response)).
(** The JSON of a value of a type the model knows only by name. *)
Context (marshal_other : string -> option string).

(** [GatewayRpcClient] and [subscriptionRpcClient]. *)
Definition call_UpdateClient (q : UpdateClientRequest) := rpcx_Call "UpdateClient" (ReqUpdateClient q).
Definition call_EnqueueMessage (Id Msg : string) := rpcx_Call "EnqueueMessage" (ReqEnqueueMessage Id Msg).
Definition call_Subscribe (ch id ex : string) := rpcx_Call "Subscribe" (ReqSubscribe ch id ex).
Definition call_UnSubscribe (ch id : string) := rpcx_Call "UnSubscribe" (ReqUnsubscribe ch id).
Definition call_UpdateSubscriber (ch id ex : string) := rpcx_Call "UpdateSubscriber" (ReqUpdateSubscriber ch id ex).
Definition call_RemoveChannel (ch : string) := rpcx_Call "RemoveChannel" (ReqRemoveChannel ch).
Definition call_CreateChannel (ch : string) (i : option ChannelInfo) := rpcx_Call "CreateChannel" (ReqCreateChannel ch i).
Definition call_UpdateChannel (ch : string) (i : option ChannelInfo) := rpcx_Call "UpdateChannel" (ReqUpdateChannel ch i).
Definition call_Publish (ch m : string) := rpcx_Call "Publish" (ReqPublish ch m).

Definition cli_SetClientID (old new : ID) : GoM S error :=
  let! r := call_UpdateClient (MkUpdateClient old new "" "" UpdateClient_UpdateID) in
  ret r.1.

Definition cli_UpdateClient (id : ID) (info : option ClientSecrets) : GoM S error :=
  match info with
  | None => panic "nil pointer dereference"
  | Some info =>
      let! r := call_UpdateClient
        (MkUpdateClient id "" (MessageDeliverSecret info) "" UpdateClient_UpdateSecret) in
      ret r.1
  end.

Definition cli_ExitClient (id : ID) : GoM S error :=
  let! r := call_UpdateClient (MkUpdateClient id "" "" "" UpdateClient_Close) in
  ret r.1.

(** [json.Marshal]; the text of its error is the library's. *)
Definition errMarshal : error := errors_New "json: error calling MarshalJSON".

Definition cli_EnqueueMessage (id : ID) (message : option GlideMessage) : GoM S error :=
  match (match message with None => Some "null" | Some m => Encode m end) with
  | None => ret errMarshal
  | Some marshal =>
      let! r := call_EnqueueMessage id marshal in
      match r.1 with
      | Some err => ret (errors_New (errRpcInvocation +:+ err))
      | None => ret (getResponseError r.2)
      end
  end.

(** [if err != nil { return err }; return getResponseError(reply)]. *)
Definition answer (call : GoM S (error * Response)) : GoM S error :=
  let! r := call in
  match r.1 with Some _ => ret r.1 | None => ret (getResponseError r.2) end.

Definition marshal_extra (e : extra) : option string :=
  match e with
  | ExtraOptions o => Some (encode_options o)
  | ExtraInfo i => Some (encode_ChanInfo i)
  | ExtraNil => Some "null"
  | ExtraOther ty => marshal_other ty
  end.

Definition cli_Subscribe (ch : ChanID) (id : SubscriberID) (ex : extra) : GoM S error :=
  match marshal_extra ex with
  | None => ret errMarshal
  | Some marshal => answer (call_Subscribe ch id marshal)
  end.
Definition cli_UnSubscribe (ch : ChanID) (id : SubscriberID) : GoM S error :=
  answer (call_UnSubscribe ch id).
Definition cli_UpdateSubscriber (ch : ChanID) (id : SubscriberID) (ex : extra) : GoM S error :=
  match marshal_extra ex with
  | None => ret errMarshal
  | Some marshal => answer (call_UpdateSubscriber ch id marshal)
  end.
Definition cli_RemoveChannel (ch : ChanID) : GoM S error := answer (call_RemoveChannel ch).

Definition channel_info (i : ChanInfo) : ChannelInfo :=
  MkChannelInfo (ci_ID i) (ci_Type i) (Muted i) (Blocked i) (Closed i) (default "" (Parent i)) (Child i).
Definition cli_CreateChannel (ch : ChanID) (update : ChanInfo) : GoM S error :=
  answer (call_CreateChannel ch (Some (channel_info update))).
Definition cli_UpdateChannel (ch : ChanID) (update : ChanInfo) : GoM S error :=
  answer (call_UpdateChannel ch (Some (channel_info update))).

Definition marshal_message (m : message_arg) : option string :=
  match m with
  | AsPublish m => encode_PublishMessage m
  | AsNil => Some "null"
  | AsOther ty => marshal_other ty
  end.
Definition cli_Publish (ch : ChanID) (msg : message_arg) : GoM S error :=
  match marshal_message msg with
  | None => ret errMarshal
  | Some marshal => answer (call_Publish ch marshal)
  end.

(** The client as a gateway and as a directory of channels. *)
Definition rpc_Gateway : Gateway_ S := {|
  gw_SetClientID := cli_SetClientID;
  gw_UpdateClient := cli_UpdateClient;
  gw_ExitClient := cli_ExitClient;
  gw_EnqueueMessage := cli_EnqueueMessage |}.

Definition rpc_SubscribeWrap : SubscribeWrap_ S := {|
  sw_Subscribe := cli_Subscribe;
  sw_UnSubscribe := cli_UnSubscribe;
  sw_UpdateSubscriber := cli_UpdateSubscriber;
  sw_RemoveChannel := cli_RemoveChannel;
  sw_CreateChannel := cli_CreateChannel;
  sw_UpdateChannel := cli_UpdateChannel;
  sw_Publish := cli_Publish |}.
End client.
