(* ===== verification/RpcSpec.v ===== *)
(** * The RPC client implements the interfaces of the server's components

    Over a reliable transport, an operation of the client has the effect of the same operation of the
    server's gateway or directory, on the arguments that survive the journey. *)

From S2P Require Import Prelude GoStrings Json Messages GateId Channel ChannelSpec Subscription Credentials Gate Interfaces UserState Rpc.

Local Open Scope Z_scope.
Local Open Scope go_scope.

(** ** The transport *)

(** The strings of a request; the JSON texts are fields of bytes. *)
Definition request_strings (q : request) : list string :=
  match q with
  | ReqUpdateClient q => [uc_Id q; uc_NewId q; uc_Secret q; uc_Message q]
  | ReqEnqueueMessage i _ => [i]
  | ReqSubscribe ch i _ | ReqUnsubscribe ch i | ReqUpdateSubscriber ch i _ => [ch; i]
  | ReqRemoveChannel ch | ReqPublish ch _ => [ch]
  | ReqCreateChannel ch info | ReqUpdateChannel ch info =>
      ch :: match info with Some i => pi_ID i :: pi_Parent i :: pi_Children i | None => [] end
  end.

(** All of these strings are UTF-8. *)
Definition utf8 (l : list string) : Prop := Forall (fun s => utf8_valid s = true) l.
Definition carried (q : request) : Prop := utf8 (request_strings q).

Ltac carry :=
  unfold carried, utf8 in *; cbn [request_strings uc_Id uc_NewId uc_Secret uc_Message] in *; rewrite ?Forall_cons in *; intuition.

Section transport.
Context {S : Type} `{Gateway_ S} `{SubscribeWrap_ S}.

(** What the rpcx client documents of a call that reaches its server: the handler runs once; its
    response is returned when it returns no error; its error, or the panic it recovered, is
    returned as an error, with a reply nothing is said of. Protobuf carries the strings that are UTF-8:
    nothing is said of a request with another one, and a response with another one is an error. *)
Record reliable (call : string -> request -> GoM S (error * Response)) : Prop := {
  rel_ok : forall fn q h s r s', carried q -> serve fn q = Some h -> utf8_valid (rs_Msg r) = true ->
    h zero_Response s = (Val (nil_error, r), s') -> call fn q s = (Val (nil_error, r), s');
  rel_unsent : forall fn q h s r s', carried q -> serve fn q = Some h -> utf8_valid (rs_Msg r) = false ->
    h zero_Response s = (Val (nil_error, r), s') -> exists e r', call fn q s = (Val (Some e, r'), s');
  rel_error : forall fn q h s e r s', carried q -> serve fn q = Some h ->
    h zero_Response s = (Val (Some e, r), s') -> exists r', call fn q s = (Val (Some e, r'), s');
  rel_panic : forall fn q h s why s', carried q -> serve fn q = Some h ->
    h zero_Response s = (Panics why, s') -> exists e r', call fn q s = (Val (Some e, r'), s') }.

(** A transport that calls the handlers of the same process. *)
Definition direct_call (fn : string) (q : request) : GoM S (error * Response) := fun s =>
  match serve fn q with
  | None => (Val (errors_New "rpcx: can't find method", zero_Response), s)
  | Some h =>
      match h zero_Response s with
      | (Val (None, r), s') =>
          if utf8_valid (rs_Msg r) then (Val (nil_error, r), s')
          else (Val (errors_New "string field contains invalid UTF-8", zero_Response), s')
      | (Val r, s') => (Val r, s')
      | (Panics why, s') => (Val (errors_New why, zero_Response), s')
      end
  end.

Lemma direct_call_reliable : reliable direct_call.
Proof.
  split; intros; unfold direct_call;
    match goal with Hs : serve _ _ = _, Hh : _ zero_Response _ = _ |- _ => rewrite Hs, Hh end;
    try match goal with Hu : utf8_valid _ = _ |- _ => rewrite Hu end; eauto.
Qed.
End transport.

(** What a remote caller sees of a local outcome: the same state; the same success; an error
    whose text is wrapped by [text]; an error for a panic. *)
Definition seen {S} (text : string -> string) (local remote : res error * S) : Prop :=
  match local with
  | (Val None, s') => remote = (Val nil_error, s')
  | (Val (Some e), s') => remote = (Val (Some (text e)), s')
  | (Panics _, s') => exists e, remote = (Val (Some e), s')
  end.

(** What a remote caller of the channels sees: the error of a response as an [IMServiceError], if
    its text can be carried. *)
Definition seen_service {S} (local remote : res error * S) : Prop :=
  match local with
  | (Val None, s') => remote = (Val nil_error, s')
  | (Val (Some e), s') =>
      exists e', remote = (Val (Some e'), s') /\ (utf8_valid e = true -> e' = IMServiceError Response_ERROR e)
  | (Panics _, s') => exists e, remote = (Val (Some e), s')
  end.

(** ** JSON round trips *)

Lemma decode_strings_json l : decode_strings (json_string <$> l) = (nil_error, to_valid <$> l).
Proof. induction l as [| s l IH]; [done |]. cbn [fmap list_fmap decode_strings]. by rewrite IH, decode_string_json. Qed.

Lemma json_text_slice l : json_text (encode_slice l).
Proof. unfold encode_slice. case_bool_decide; auto with json. Qed.
#[local] Hint Resolve json_text_slice : json.

(** The options as the server decodes them. *)
Definition remote_options (o : SubscriberOptions) : SubscriberOptions := MkSubscriberOptions (so_Perm o) (to_valid (so_Ticket o)).

Lemma Unmarshal_options o :
  in_int64 (so_Perm o) -> Unmarshal options_fields (encode_options o) zero_options = (nil_error, remote_options o).
Proof.
  intros Hp. unfold encode_options. rewrite Unmarshal_object by auto with json.
  erewrite decode_step; [| reflexivity | by apply set_int_ok].
  erewrite decode_step; [| reflexivity | apply set_string_ok]. done.
Qed.

Lemma set_slice_ok {T} (set : list string -> T -> T) l t :
  set_slice set (encode_slice l) t = (nil_error, set (to_valid <$> l) t).
Proof.
  destruct (decide (l = [])) as [-> | Hl]; [done |].
  unfold encode_slice. rewrite (bool_decide_false (l = [])) by done. unfold set_slice. rewrite bool_decide_false.
  - rewrite json_elements_array; [by rewrite decode_strings_json |].
    intros v (s & -> & _)%list_elem_of_fmap. apply json_text_string.
  - intros Ha%(f_equal (String.get 0)). done.
Qed.

(** What the server decodes of a published message whose data was written as [d]. *)
Definition remote_publish (m : PublishMessage) (d : option string) : PublishMessage :=
  MkPublishMessage (to_valid (pm_From m)) (to_valid <$> pm_To m) (pm_Seq m) (pm_Type m)
    ((fun g => received_into 0 g d) <$> pm_Message m).

(** Its numbers are of their Go types, and its data has a JSON text, [d]. *)
Definition publishable (m : PublishMessage) (d : option string) : Prop :=
  in_int64 (pm_Seq m) /\ in_int64 (pm_Type m) /\
  forall g, pm_Message m = Some g -> in_int64 (Ver g) /\ in_int64 (Seq g) /\ encoded_data g d.

Ltac norm_publish := cbv beta; cbn [zero_PublishMessage pm_From pm_To pm_Seq pm_Type pm_Message].

Lemma publish_roundtrip m d :
  publishable m d -> exists text, encode_PublishMessage m = Some text /\
    Unmarshal publish_fields text zero_PublishMessage = (nil_error, remote_publish m d).
Proof.
  intros (Hs & Ht & Hm).
  assert (Hmsg : exists t, json_text t /\ encode_PublishMessage m = Some (json_object (publish_members m t)) /\
    forall p : PublishMessage, pm_Message p = None ->
      set_pointer message_fields zero_GlideMessage pm_Message
        (fun o m => MkPublishMessage (pm_From m) (pm_To m) (pm_Seq m) (pm_Type m) o) t p =
      (nil_error, MkPublishMessage (pm_From p) (pm_To p) (pm_Seq p) (pm_Type p)
        ((fun g => received_into 0 g d) <$> pm_Message m))).
  { unfold encode_PublishMessage. destruct (pm_Message m) as [g |] eqn:Eg.
    - destruct (Hm g eq_refl) as (Hv & Hsq & Hd). destruct (message_unmarshal 0 g d Hv Hsq Hd) as (ms & He & Hms & Hu).
      exists (json_object ms). split; [auto with json |]. split; [by rewrite He |].
      intros p Hp. unfold set_pointer. rewrite bool_decide_false by apply json_object_not_null. rewrite Hp.
      cbn [default]. by rewrite (Hu : Unmarshal _ _ zero_GlideMessage = _).
    - exists "null". split; [auto with json |]. done. }
  destruct Hmsg as (t & Htext & He & Hp). eexists. split; [exact He |].
  unfold publish_members. rewrite Unmarshal_object by auto 20 with json.
  erewrite decode_step; [| reflexivity | apply set_string_ok]; norm_publish.
  erewrite decode_step; [| reflexivity | apply set_slice_ok]; norm_publish.
  erewrite decode_step; [| reflexivity | by apply set_int_ok]; norm_publish.
  erewrite decode_step; [| reflexivity | by apply set_int_ok]; norm_publish.
  erewrite decode_step; [| reflexivity | by apply Hp]. reflexivity.
Qed.

(** ** The client over a reliable transport *)

Section over_transport.
Context {S : Type} `{Gateway_ S} `{SubscribeWrap_ S}.
Context (rpcx_Call : string -> request -> GoM S (error * Response)).
Context (Hrel : reliable rpcx_Call).

(** A handler of the gateway returns the error of the operation, and the response [f] makes of it;
    the client returns it, with [text]. *)
Lemma gateway_call fn q h (op : GoM S error) f (k : error * Response -> error) text s :
  carried q -> serve fn q = Some h -> utf8_valid (rs_Msg (f nil_error)) = true ->
  (forall s, h zero_Response s = bind op (fun err => ret (err, f err)) s) ->
  (forall e r, k (Some e, r) = Some (text e)) -> k (nil_error, f nil_error) = nil_error ->
  seen text (op s) (bind (rpcx_Call fn q) (fun r => ret (k r)) s).
Proof.
  intros Hc0 Hq Hr Hh He Hn. unfold seen. destruct (op s) as [[[e |] | why] s'] eqn:Eo.
  - destruct (rel_error _ Hrel fn q h s e (f (Some e)) s' Hc0 Hq) as [r' Hc].
    { rewrite Hh. by rewrite (bind_Val _ _ _ _ _ Eo). }
    rewrite (bind_Val _ _ _ _ _ Hc). unfold ret. by rewrite He.
  - assert (Hc : rpcx_Call fn q s = (Val (nil_error, f nil_error), s')).
    { eapply (rel_ok _ Hrel); [exact Hc0 | exact Hq | exact Hr |]. rewrite Hh. by rewrite (bind_Val _ _ _ _ _ Eo). }
    rewrite (bind_Val _ _ _ _ _ Hc). unfold ret. by rewrite Hn.
  - destruct (rel_panic _ Hrel fn q h s why s' Hc0 Hq) as (e & r' & Hc).
    { rewrite Hh. unfold bind. by rewrite Eo. }
    rewrite (bind_Val _ _ _ _ _ Hc). exists (text e). unfold ret. by rewrite He.
Qed.

(** A handler of the channels puts the error in the response; the client returns it as an
    [IMServiceError]. *)
Lemma channel_call fn q h (op : GoM S error) s :
  carried q -> serve fn q = Some h ->
  (forall s, h zero_Response s = bind op (fun err => ret (nil_error, respond err zero_Response)) s) ->
  seen_service (op s) (answer (rpcx_Call fn q) s).
Proof.
  intros Hc0 Hq Hh. unfold seen_service, answer. destruct (op s) as [[err | why] s'] eqn:Eo.
  - assert (Hh' : h zero_Response s = (Val (nil_error, respond err zero_Response), s')).
    { rewrite Hh. by rewrite (bind_Val _ _ _ _ _ Eo). }
    destruct (utf8_valid (rs_Msg (respond err zero_Response))) eqn:Hr.
    + rewrite (bind_Val _ _ _ _ _ (rel_ok _ Hrel fn q h s _ s' Hc0 Hq Hr Hh')). destruct err; [by eexists | done].
    + destruct err as [e |]; [| done]. destruct (rel_unsent _ Hrel fn q h s _ s' Hc0 Hq Hr Hh') as (e' & r' & Hc).
      exists e'. split; [by rewrite (bind_Val _ _ _ _ _ Hc) |]. change (rs_Msg (respond (Some e) zero_Response)) with e in Hr. by rewrite Hr.
  - destruct (rel_panic _ Hrel fn q h s why s' Hc0 Hq) as (e & r' & Hc).
    { rewrite Hh. unfold bind. by rewrite Eo. }
    rewrite (bind_Val _ _ _ _ _ Hc). by eexists.
Qed.

(** The answer of [UpdateClient] to the error of the operation it called. *)
Definition update_response (err : error) : Response :=
  match err with Some e => failed e zero_Response | None => MkResponse Response_OK "" end.

Lemma update_answer (op : GoM S error) s :
  bind op (fun err : error => match err with
    | Some e => ret (err, failed e zero_Response) | None => ret (err, MkResponse Response_OK (rs_Msg zero_Response)) end) s =
  bind op (fun err => ret (err, update_response err)) s.
Proof. unfold bind. by destruct (op s) as [[[e |] | why] s1]. Qed.

Lemma update_call q op s :
  carried (ReqUpdateClient q) ->
  (forall s, srv_UpdateClient q zero_Response s = bind op (fun err => ret (err, update_response err)) s) ->
  seen id (op s) (bind (call_UpdateClient rpcx_Call q) (fun r => ret r.1) s).
Proof. intros Hq Hh. by eapply (gateway_call "UpdateClient" _ _ _ update_response fst id). Qed.

Lemma enqueue_call i text m s :
  utf8 [i] -> Unmarshal message_fields text zero_GlideMessage = (nil_error, m) ->
  seen (fun e => errRpcInvocation +:+ e) (gw_EnqueueMessage i (Some m) s)
    (bind (call_EnqueueMessage rpcx_Call i text) (fun r => match r.1 with
      | Some err => ret (errors_New (errRpcInvocation +:+ err)) | None => ret (getResponseError r.2) end) s).
Proof.
  intros Hi Hu.
  assert (Hk : forall s0, bind (call_EnqueueMessage rpcx_Call i text) (fun r => match r.1 with
    | Some err => ret (errors_New (errRpcInvocation +:+ err)) | None => ret (getResponseError r.2) end) s0 =
    bind (rpcx_Call "EnqueueMessage" (ReqEnqueueMessage i text)) (fun r => ret (match r.1 with
    | Some err => errors_New (errRpcInvocation +:+ err) | None => getResponseError r.2 end)) s0).
  { intros s0. unfold call_EnqueueMessage, bind. by destruct (rpcx_Call _ _ s0) as [[[[e |] r] | why] s1]. }
  rewrite Hk. eapply (gateway_call "EnqueueMessage" _ _ _ (fun err => respond err zero_Response)); try done.
  intros s0. unfold srv_EnqueueMessage. by rewrite Hu.
Qed.


(** The operations of the channels, one by one. *)
Section channels.
Context (marshal_other : string -> option string) (ch : ChanID).

(** What the server decodes of the [extra] of a subscription. *)
Definition received_options (e : extra) : option SubscriberOptions :=
  match e with
  | ExtraOptions o => Some (remote_options o)
  | ExtraNil | ExtraInfo _ => Some zero_options
  | ExtraOther _ => None
  end.

Lemma Unmarshal_extra e o text :
  (forall o, e = ExtraOptions o -> in_int64 (so_Perm o)) -> received_options e = Some o ->
  marshal_extra marshal_other e = Some text -> Unmarshal options_fields text zero_options = (nil_error, o).
Proof.
  intros Hp Ho Ht. destruct e as [o' | info | | ty]; simplify_eq/=.
  - apply Unmarshal_options. by apply Hp.
  - unfold encode_ChanInfo. rewrite Unmarshal_object by (destruct (Parent info); cbn [encode_opt]; auto 20 with json). reflexivity.
  - reflexivity.
Qed.

Lemma cli_Subscribe_seen i e o s : utf8 [ch; i] ->
  (forall o, e = ExtraOptions o -> in_int64 (so_Perm o)) -> received_options e = Some o ->
  seen_service (sw_Subscribe ch i (ExtraOptions o) s) (cli_Subscribe rpcx_Call marshal_other ch i e s).
Proof.
  intros Hu Hp Ho. unfold cli_Subscribe. destruct (marshal_extra marshal_other e) as [text |] eqn:Et; [| by destruct e].
  eapply channel_call; [exact Hu | reflexivity |]. intros s0. unfold srv_Subscribe. by rewrite (Unmarshal_extra _ _ _ Hp Ho Et).
Qed.
Lemma cli_UpdateSubscriber_seen i e o s : utf8 [ch; i] ->
  (forall o, e = ExtraOptions o -> in_int64 (so_Perm o)) -> received_options e = Some o ->
  seen_service (sw_UpdateSubscriber ch i (ExtraOptions o) s) (cli_UpdateSubscriber rpcx_Call marshal_other ch i e s).
Proof.
  intros Hu Hp Ho. unfold cli_UpdateSubscriber. destruct (marshal_extra marshal_other e) as [text |] eqn:Et; [| by destruct e].
  eapply channel_call; [exact Hu | reflexivity |]. intros s0. unfold srv_UpdateSubscriber. by rewrite (Unmarshal_extra _ _ _ Hp Ho Et).
Qed.
Lemma cli_RemoveChannel_seen s : utf8 [ch] -> seen_service (sw_RemoveChannel ch s) (cli_RemoveChannel rpcx_Call ch s).
Proof. intros Hu. by eapply channel_call. Qed.

(** The strings of the update of a channel. *)
Definition info_strings (i : ChanInfo) : list string := ch :: ci_ID i :: default "" (Parent i) :: Child i.

Lemma cli_CreateChannel_seen i s : utf8 (info_strings i) ->
  seen_service (sw_CreateChannel ch (info_of ch (channel_info i)) s) (cli_CreateChannel rpcx_Call ch i s).
Proof. intros Hu. by eapply channel_call. Qed.
Lemma cli_UpdateChannel_seen i s : utf8 (info_strings i) ->
  seen_service (sw_UpdateChannel ch (info_of ch (channel_info i)) s) (cli_UpdateChannel rpcx_Call ch i s).
Proof. intros Hu. by eapply channel_call. Qed.
Lemma cli_Publish_seen m d s : utf8 [ch] -> publishable m d ->
  seen_service (sw_Publish ch (AsPublish (remote_publish m d)) s) (cli_Publish rpcx_Call marshal_other ch (AsPublish m) s).
Proof.
  intros Hu Hm. destruct (publish_roundtrip m d Hm) as (text & He & Ht). unfold cli_Publish, marshal_message.
  rewrite He. eapply channel_call; [exact Hu | reflexivity |]. intros s0. unfold srv_Publish. by rewrite Ht.
Qed.
End channels.

(** C37: over a reliable transport the RPC client does what the directory of channels of the server does, up to
    the fields that are not carried: the same effect, the same success and failure, errors as [IMServiceError]s, for
    identifiers and error texts of UTF-8. A [ChanInfo] arrives under the identifier of the channel and without its
    secret, parent and children, so creating a channel drops its secret and updating one clears it; the data of a
    message arrives as its text; options that are nil or a [ChanInfo] arrive as empty options, and a nil message
    as an empty one. *)
Theorem rpc_subscription_refines marshal_other s ch :
  let stripped i := MkChanInfo ch (ci_Type i) (Muted i) (Blocked i) (Closed i) "" None [] in
  (forall i e o, utf8 [ch; i] -> (forall o, e = ExtraOptions o -> in_int64 (so_Perm o)) -> received_options e = Some o ->
     seen_service (sw_Subscribe ch i (ExtraOptions o) s) (cli_Subscribe rpcx_Call marshal_other ch i e s) /\
     seen_service (sw_UpdateSubscriber ch i (ExtraOptions o) s) (cli_UpdateSubscriber rpcx_Call marshal_other ch i e s)) /\
  (forall i, utf8 [ch; i] -> seen_service (sw_UnSubscribe ch i s) (cli_UnSubscribe rpcx_Call ch i s)) /\
  (utf8 [ch] -> seen_service (sw_RemoveChannel ch s) (cli_RemoveChannel rpcx_Call ch s)) /\
  (forall i, utf8 (info_strings ch i) ->
     seen_service (sw_CreateChannel ch (stripped i) s) (cli_CreateChannel rpcx_Call ch i s) /\
     seen_service (sw_UpdateChannel ch (stripped i) s) (cli_UpdateChannel rpcx_Call ch i s)) /\
  (forall m d, utf8 [ch] -> publishable m d ->
     seen_service (sw_Publish ch (AsPublish (remote_publish m d)) s) (cli_Publish rpcx_Call marshal_other ch (AsPublish m) s)) /\
  (utf8 [ch] -> seen_service (sw_Publish ch (AsPublish zero_PublishMessage) s) (cli_Publish rpcx_Call marshal_other ch AsNil s)).
Proof.
  intros stripped. split_and!.
  - intros i e o Hu Hp Ho. split; [by apply cli_Subscribe_seen | by apply cli_UpdateSubscriber_seen].
  - intros i Hu. by eapply channel_call.
  - intros Hu. by apply cli_RemoveChannel_seen.
  - intros i Hu. split; [by apply cli_CreateChannel_seen | by apply cli_UpdateChannel_seen].
  - intros m d Hu Hm. by apply cli_Publish_seen.
  - intros Hu. by eapply channel_call.
Qed.
End over_transport.

(** An update of a channel made over RPC clears its secret, the one in the update included. *)
Section remote_update.
Context {E : Type} `{ChanEnv E} `{Gateway_ (SubState (E := E))}.

Lemma remote_update_clears_secret now rpcx_Call ch g ci (s : SubState (E := E)) :
  reliable (H0 := NewSubscribeWrap now) rpcx_Call -> utf8 (info_strings ch ci) -> s.1 !! ch = Some g ->
  exists g', cli_UpdateChannel rpcx_Call ch ci s = (Val nil_error, (<[ch := g']> s.1, s.2)) /\ Secret (Channel.info g') = "".
Proof.
  intros Hrel Hci Hg. eexists. split.
  - pose proof (cli_UpdateChannel_seen (H0 := NewSubscribeWrap now) rpcx_Call Hrel ch ci s Hci) as Hu.
    assert (El : forall i, sw_UpdateChannel (SubscribeWrap_ := NewSubscribeWrap now) ch i s = with_channel ch (Update i) s) by done.
    rewrite El in Hu. unfold with_channel in Hu. rewrite Hg in Hu. exact Hu.
  - reflexivity.
Qed.
End remote_update.

(** ** A process whose gateway records its calls *)

Definition demo_process : Type := list gw_call * SubState (E := demo_env).
Definition offline_bob (call : gw_call) : error :=
  match call with CEnqueueMessage i _ => if bool_decide (UID i = "bob") then errors_New errClientNotExist else nil_error | _ => nil_error end.
#[local] Instance demo_rpc_Gateway : Gateway_ (list gw_call) := recorder offline_bob.
#[local] Instance demo_rpc_Wrap : SubscribeWrap_ demo_process := SubscribeWrap_snd (NewSubscribeWrap 5).
Definition demo_process0 : demo_process := ([], (∅, MkDemo [] 100)).


Definition demo_room : demo_process := Eval vm_compute in
  (sw_CreateChannel "room" (MkChanInfo "room" 0 false false false "" None []) demo_process0).2.
Definition demo_perm : SubscriberOptions := MkSubscriberOptions (PermRead + PermWrite) "".
Definition demo_joined : demo_process := Eval vm_compute in (sw_Subscribe "room" "u1" (ExtraOptions demo_perm) demo_room).2.

Lemma rpc_subscription_refines_witness :
  cli_Subscribe direct_call (fun _ => None) "room" "u1" (ExtraOptions demo_perm) demo_room = (Val nil_error, demo_joined) /\
  exists e s', cli_Subscribe direct_call (fun _ => None) "hall" "u1" (ExtraOptions demo_perm) demo_room = (Val (Some e), s').
Proof.
  split.
  - pose proof (rpc_subscription_refines direct_call direct_call_reliable (fun _ => None) demo_room "room") as (Hc & _).
    refine (proj1 (Hc "u1" (ExtraOptions demo_perm) demo_perm _ _ _)); [by repeat constructor | by intros ? [= <-] | done].
  - pose proof (rpc_subscription_refines direct_call direct_call_reliable (fun _ => None) demo_room "hall") as (Hc & _).
    destruct (proj1 (Hc "u1" (ExtraOptions demo_perm) demo_perm ltac:(by repeat constructor) ltac:(by intros ? [= <-]) eq_refl))
      as (e & He & _); by eexists _, _.
Defined.
