(* ===== verification/RpcRouting.v ===== *)
(** * Choosing a server: [pkg/rpc/selector.go], [service_router.go] and [context.go]

    The selectors rpcx asks for the server of a call, and the metadata of a call that the first of
    them reads. The maps a context holds are shared by the contexts derived from it: they live in
    a heap. The order of the keys of a map is unspecified in Go: [UpdateServer] gets the keys in the
    order of its range. *)

From S2P Require Import Prelude GoStrings.

Local Open Scope Z_scope.
Local Open Scope go_scope.

(** ** Metadata *)

Definition Meta : Type := gmap string string.
Definition Heap : Type := gmap nat Meta.

(** The values a context holds under [share.ReqMetaDataKey] and [share.ResMetaDataKey]. *)
Record ExtraContext := MkContext { req_meta : option nat; res_meta : option nat }.
Definition NewContextFrom (c : ExtraContext) : ExtraContext := c.
Definition NewContext : ExtraContext := MkContext None None.

Definition alloc : GoM Heap nat := fun h =>
  let r := fresh (dom h) in (Val r, <[r := ∅]> h).
Definition map_put (r : nat) (k v : string) : GoM Heap unit :=
  modify (fun h => <[r := <[k := v]> (default ∅ (h !! r))]> h).
Definition map_get (r : nat) (k : string) : GoM Heap (string * bool) :=
  gets (fun h => match default ∅ (h !! r) !! k with Some v => (v, true) | None => ("", false) end).

(** The methods return the context as it is afterwards. *)
Definition PutReqExtra (c : ExtraContext) (k v : string) : GoM Heap ExtraContext :=
  let! c := (match req_meta c with
             | None => let! r := alloc in ret (MkContext (Some r) (res_meta c))
             | Some _ => ret c
             end) in
  match req_meta c with Some r => map_put r k v ;;; ret c | None => panic "interface conversion" end.

Definition PutResExtra (c : ExtraContext) (k v : string) : GoM Heap ExtraContext :=
  let! c := (match res_meta c with
             | None => let! r := alloc in ret (MkContext (req_meta c) (Some r))
             | Some _ => ret c
             end) in
  match res_meta c with Some r => map_put r k v ;;; ret c | None => panic "interface conversion" end.

Definition GetReqExtra (c : ExtraContext) (k : string) : GoM Heap (string * bool) :=
  match req_meta c with None => ret ("", false) | Some r => map_get r k end.
Definition GetResExtra (c : ExtraContext) (k : string) : GoM Heap (string * bool) :=
  match res_meta c with None => ret ("", false) | Some r => map_get r k end.

(** ** Round robin *)

Record RoundRobinSelector := MkRoundRobin { rr_servers : list string; rr_i : Z }.
Definition NewRoundRobinSelector : RoundRobinSelector := MkRoundRobin [] 0.

Definition go_index {S A} (l : list A) (i : Z) : GoM S A :=
  if i <? 0 then panic "index out of range"
  else match l !! Z.to_nat i with Some a => ret a | None => panic "index out of range" end.

Definition SelectNext : GoM RoundRobinSelector string :=
  let! ss := gets rr_servers in
  if (length ss =? 0)%nat then ret ""
  else
    let! i := gets rr_i in
    let i := Z.rem i (Z.of_nat (length ss)) in
    modify (fun s => MkRoundRobin (rr_servers s) (int64 (i + 1))) ;;;
    go_index ss i.

Definition rr_Select : GoM RoundRobinSelector string := SelectNext.

Definition rr_UpdateServer (keys : list string) : GoM RoundRobinSelector unit :=
  modify (fun s => MkRoundRobin keys (rr_i s)).

(** ** The selector *)

Record selector := MkSelector {
  services : gmap string string; round : RoundRobinSelector; tags : gmap string string }.
Definition newSelector : selector := MkSelector ∅ NewRoundRobinSelector ∅.

Definition on_round {A} (m : GoM RoundRobinSelector A) : GoM selector A := fun s =>
  let '(r, rr) := m (round s) in (r, MkSelector (services s) rr (tags s)).

(** [meta] is the map of request metadata of the context, [None] when it has none: the type assertion
    panics. *)
Definition Select (meta : option Meta) : GoM selector string :=
  match meta with
  | None => panic "interface conversion: interface {} is nil, not map[string]string"
  | Some m =>
      let! svc := gets services in
      let! tg := gets tags in
      let by_tag :=
        match m !! "ExtraTag" with
        | Some tag =>
            match tg !! tag with
            | Some path => if svc !! path then Some path else None
            | None => None
            end
        | None => None
        end in
      let otherwise := match by_tag with Some path => ret path | None => on_round rr_Select end in
      match m !! "ExtraTarget" with
      | Some target => if svc !! target then ret target else otherwise
      | None => otherwise
      end
  end.

(** [servers], with its keys in the order of the range of the round robin. *)
Definition UpdateServer (keys : list string) (servers : gmap string string) : GoM selector unit :=
  on_round (rr_UpdateServer keys) ;;;
  modify (fun s => MkSelector (servers ∪ services s) (round s) (tags s)).

(** ** Properties *)

(** What [n] calls select. *)
Fixpoint select_times (n : nat) : GoM RoundRobinSelector (list string) :=
  match n with
  | O => ret []
  | S n => let! a := SelectNext in let! l := select_times n in ret (a :: l)
  end.

Lemma SelectNext_run ss i a :
  0 <= i -> Z.of_nat (length ss) <= MaxInt64 ->
  ss !! Z.to_nat (i mod Z.of_nat (length ss)) = Some a ->
  SelectNext (MkRoundRobin ss i) = (Val a, MkRoundRobin ss (i mod Z.of_nat (length ss) + 1)).
Proof.
  intros Hi Hlen Ha. pose proof (lookup_lt_Some _ _ _ Ha) as Hlt. unfold MaxInt64 in Hlen.
  unfold SelectNext. unfold bind at 1. cbn [gets rr_servers].
  destruct (Nat.eqb_spec (length ss) 0) as [E | E]; [lia |].
  unfold bind at 1. cbn [gets rr_i]. rewrite Z.rem_mod_nonneg by lia.
  assert (Hm : 0 <= i mod Z.of_nat (length ss) < Z.of_nat (length ss)) by (apply Z.mod_pos_bound; lia).
  unfold bind. cbn [modify rr_servers]. unfold go_index.
  rewrite (proj2 (Z.ltb_ge _ _)) by lia. rewrite Ha. cbn [ret].
  unfold int64. rewrite Z.mod_small by lia. do 2 f_equal. lia.
Qed.

(** [n] calls from position [k] that stay before the end of the list. *)
Lemma select_times_run ss n k i :
  (k + n <= length ss)%nat -> Z.of_nat (length ss) <= MaxInt64 -> 0 <= i ->
  i mod Z.of_nat (length ss) = Z.of_nat k mod Z.of_nat (length ss) ->
  exists i', select_times n (MkRoundRobin ss i) = (Val (take n (drop k ss)), MkRoundRobin ss i') /\
    0 <= i' /\ i' mod Z.of_nat (length ss) = Z.of_nat (k + n) mod Z.of_nat (length ss).
Proof.
  intros Hkn Hlen. revert k i Hkn. induction n as [| n IH]; intros k i Hkn Hi Hk.
  { exists i. rewrite Nat.add_0_r. done. }
  destruct (lookup_lt_is_Some_2 ss k) as [a Ha]; [lia |].
  assert (Hk' : i mod Z.of_nat (length ss) = Z.of_nat k) by (rewrite Hk; apply Z.mod_small; lia).
  assert (Hr : SelectNext (MkRoundRobin ss i) = (Val a, MkRoundRobin ss (Z.of_nat k + 1))).
  { rewrite <- Hk'. apply SelectNext_run; [done | done |]. by rewrite Hk', Nat2Z.id. }
  destruct (IH (S k) (Z.of_nat k + 1)) as (i' & Hr' & Hi' & Hk''); [lia | lia | f_equal; lia |].
  exists i'. split_and!; [| done | rewrite Hk''; f_equal; lia].
  cbn [select_times]. rewrite (bind_Val _ _ _ _ _ Hr), (bind_Val _ _ _ _ _ Hr').
  rewrite (drop_S _ _ _ Ha). done.
Qed.

Lemma select_times_app a b : forall s l1 s1 l2 s2,
  select_times a s = (Val l1, s1) -> select_times b s1 = (Val l2, s2) ->
  select_times (a + b) s = (Val (l1 ++ l2), s2).
Proof.
  induction a as [| a IH]; intros s l1 s1 l2 s2 Ha Hb; [by injection Ha as <- <- |].
  cbn [select_times Nat.add] in *.
  destruct (bind_Val_inv _ _ _ _ _ Ha) as (x & s3 & Hx & Ha').
  destruct (bind_Val_inv _ _ _ _ _ Ha') as (l3 & s4 & Hl & Hret).
  injection Hret as <- <-. rewrite (bind_Val _ _ _ _ _ Hx).
  by rewrite (bind_Val _ _ _ _ _ (IH _ _ _ _ _ Hl Hb)).
Qed.

(** the round robin is fair: whatever position it is at, as many calls as there are servers select
    each server once, in a rotation of the list, and leave it at the same position for the next
    round. *)
Theorem round_robin_is_fair ss i :
  0 <= i -> Z.of_nat (length ss) <= MaxInt64 ->
  exists l i', select_times (length ss) (MkRoundRobin ss i) = (Val l, MkRoundRobin ss i') /\
    (exists k, l = drop k ss ++ take k ss) /\ l ≡ₚ ss /\
    0 <= i' /\ i' mod Z.of_nat (length ss) = i mod Z.of_nat (length ss).
Proof.
  intros Hi Hlen. destruct (decide (ss = [])) as [-> | Hne].
  { exists [], i. split_and!; try done. by exists 0%nat. }
  assert (Hpos : 0 < Z.of_nat (length ss)) by (destruct ss; simpl in *; [done | lia]).
  pose proof (Z.mod_pos_bound i (Z.of_nat (length ss)) Hpos) as Hm.
  set (k := Z.to_nat (i mod Z.of_nat (length ss))).
  assert (Hk : i mod Z.of_nat (length ss) = Z.of_nat k mod Z.of_nat (length ss)).
  { unfold k. rewrite Z2Nat.id by lia. by rewrite Z.mod_mod by lia. }
  destruct (select_times_run ss (length ss - k) k i) as (i1 & H1 & Hi1 & Hm1); [lia | done | done | done |].
  destruct (select_times_run ss k 0 i1) as (i2 & H2 & Hi2 & Hm2); [lia | done | done | |].
  { rewrite Hm1. replace (Z.of_nat (k + (length ss - k))) with (Z.of_nat (length ss)) by lia.
    rewrite Z.mod_same by lia. by rewrite Z.mod_0_l by lia. }
  exists (drop k ss ++ take k ss), i2. split_and!.
  - replace (length ss) with ((length ss - k) + k)%nat at 1 by lia.
    rewrite (select_times_app _ _ _ _ _ _ _ H1 H2). rewrite drop_0, (take_ge (drop k ss)); [done |]. rewrite length_drop. lia.
  - by exists k.
  - by rewrite Permutation_app_comm, take_drop.
  - done.
  - rewrite Hm2, Hk. done.
Qed.

Lemma round_robin_is_fair_witness :
  exists l i', select_times 3 (MkRoundRobin ["a"; "b"; "c"] 5) = (Val l, MkRoundRobin ["a"; "b"; "c"] i') /\
    (exists k, l = drop k ["a"; "b"; "c"] ++ take k ["a"; "b"; "c"]) /\ l ≡ₚ ["a"; "b"; "c"] /\
    0 <= i' /\ i' mod 3 = 5 mod 3.
Proof. apply (round_robin_is_fair ["a"; "b"; "c"] 5); [done | vm_compute; discriminate]. Defined.

Example round_robin_run : (select_times 3 (MkRoundRobin ["a"; "b"; "c"] 5)).1 = Val ["c"; "a"; "b"].
Proof. reflexivity. Qed.

(** Writing the metadata of a context is seen by the contexts derived from it once it has a map,
    and not by those derived before. *)
Example context_extras_alias :
  (let! c1 := PutReqExtra NewContext "k" "v" in
   let c2 := NewContextFrom c1 in
   let! _ := PutReqExtra c2 "ExtraTag" "t" in
   let! r1 := GetReqExtra c1 "ExtraTag" in
   let c3 := NewContextFrom c1 in
   let! c3 := PutResExtra c3 "k" "w" in
   let! r2 := GetResExtra c1 "k" in
   let! r3 := GetResExtra c3 "k" in
   ret (r1, r2, r3)) ∅ = (Val (("t", true), ("", false), ("w", true)),
     {[0%nat := {["k" := "v"; "ExtraTag" := "t"]}; 1%nat := {["k" := "w"]}]}).
Proof. vm_compute. reflexivity. Qed.
