(* ===== verification/Transport.v ===== *)
(** * The ends of the RPC service: [pkg/rpc/server.go] and [client.go]

    What a server does before it serves, and what a client is built from. The calls of rpcx and of
    etcd are the classes [RpcxServer_] and [RpcxClient_]; [NewServer] of rpcx is the state they run on.
    A pointer to options is shared with the caller: the constructors return the options as they leave
    them. *)

From S2P Require Import Prelude GoStrings Rpc RpcRouting.

Local Open Scope Z_scope.
Local Open Scope go_scope.

Definition BaseServicePath : string := "/im_service".

(** [fmt.Sprintf("%s@%s:%d", name, addr, port)]. *)
Definition sprintf_at (name addr : string) (port : Z) : string := name +:+ "@" +:+ addr +:+ ":" +:+ Itoa port.

(** ** The server *)

Record ServerOptions := MkServerOptions {
  sv_Name : string; sv_Network : string; sv_Addr : string; sv_Port : Z;
  MaxRecvMsgSize : Z; MaxSendMsgSize : Z; sv_EtcdServers : list string }.

Definition set_Network (n : string) (o : ServerOptions) : ServerOptions :=
  MkServerOptions (sv_Name o) n (sv_Addr o) (sv_Port o) (MaxRecvMsgSize o) (MaxSendMsgSize o) (sv_EtcdServers o).

(** The fields of [serverplugin.EtcdV3RegisterPlugin] the code sets; the interval is in seconds. *)
Record EtcdRegister := MkEtcdRegister {
  ServiceAddress : string; er_EtcdServers : list string; er_BasePath : string; UpdateInterval : Z }.
Definition set_ServiceAddress (a : string) (r : EtcdRegister) : EtcdRegister :=
  MkEtcdRegister a (er_EtcdServers r) (er_BasePath r) (UpdateInterval r).

(** What the code calls of rpcx's server and of the plugin; [V] are the services. *)
Class RpcxServer_ (S V : Type) := {
  etcd_Start : EtcdRegister -> GoM S error;
  Plugins_Add : EtcdRegister -> GoM S unit;
  RegisterName : string -> V -> string -> GoM S error;
  Serve : string -> string -> GoM S error }.

(** A function in [reg] is the pair it closes over. *)
Record BaseServer (V : Type) := MkBaseServer {
  srv_Options : ServerOptions;
  etcdRegister : option EtcdRegister;
  reg : list (string * V);
  srv_id : string }.
Arguments MkBaseServer {V}.
Arguments srv_Options {V}.
Arguments etcdRegister {V}.
Arguments reg {V}.
Arguments srv_id {V}.

Definition NewBaseServer {V} (o : ServerOptions) : BaseServer V :=
  let id := sprintf_at (sv_Name o) (sv_Addr o) (sv_Port o) in
  let o := if bool_decide (sv_Network o = "") then set_Network "tcp" o else o in
  MkBaseServer o
    (if (length (sv_EtcdServers o) =? 0)%nat then None
     else Some (MkEtcdRegister "" (sv_EtcdServers o) BaseServicePath 60))
    [] id.

Definition GetServerID {V} : GoM (BaseServer V) string := fun s =>
  let s := if (String.length (srv_id s) =? 0)%nat
           then MkBaseServer (srv_Options s) (etcdRegister s) (reg s)
                  (sprintf_at (sv_Name (srv_Options s)) (sv_Addr (srv_Options s)) (sv_Port (srv_Options s)))
           else s in
  (Val (srv_id s), s).

Definition Register {V} (name : string) (sv : V) (s : BaseServer V) : BaseServer V :=
  MkBaseServer (srv_Options s) (etcdRegister s) (reg s ++ [(name, sv)]) (srv_id s).

Section run.
Context {S V : Type} `{RpcxServer_ S V}.

(** [for _, f := range s.reg]. *)
Fixpoint run_reg (l : list (string * V)) : GoM S error :=
  match l with
  | [] => ret nil_error
  | (name, sv) :: l' =>
      let! er := RegisterName name sv "" in
      match er with Some _ => ret er | None => run_reg l' end
  end.

(** The block of [Run] for a server that registers itself. *)
Definition start_register (addr : string) (s : BaseServer V) : GoM S error :=
  match etcdRegister s with
  | None => ret nil_error
  | Some r =>
      let r := set_ServiceAddress (sv_Network (srv_Options s) +:+ "@" +:+ addr) r in
      let! err := etcd_Start r in
      match err with Some _ => ret err | None => Plugins_Add r ;;; ret nil_error end
  end.

Definition Run (s : BaseServer V) : GoM S error :=
  let addr := sv_Addr (srv_Options s) +:+ ":" +:+ Itoa (sv_Port (srv_Options s)) in
  let! err := start_register addr s in
  match err with
  | Some _ => ret err
  | None =>
      let! er := run_reg (reg s) in
      match er with Some _ => ret er | None => Serve (sv_Network (srv_Options s)) addr end
  end.

(** [RunRpcService]; [service] is the [IMRpcService] of the gateway and the wrapped subscription. *)
Definition RunRpcService (o : ServerOptions) (service : V) : GoM S error :=
  Run (Register (sv_Name o) service (NewBaseServer o)).
End run.

(** ** The client *)

Section client.
(** rpcx's [client.Option], its discoveries and its selectors. *)
Context {Opt Disc Sel : Type} (SerializeType : Opt -> Z) (set_SerializeType : Z -> Opt -> Opt).
Context (SerializeNone ProtoBuffer Failtry RoundRobin : Z).

(** A nil and an empty slice of servers differ. *)
Record ClientOptions := MkClientOptions {
  Option_ : Opt; co_Addr : string; co_Port : Z; co_Name : string;
  co_EtcdServers : option (list string); co_Selector : option Sel }.

(** The selector of a client: the caller's, or a new round robin. *)
Inductive selection := Given (s : Sel) | Default (s : RoundRobinSelector).

Class RpcxClient_ (S X : Type) := {
  NewEtcdV3Discovery : string -> string -> list string -> bool -> GoM S (option Disc * error);
  NewPeer2PeerDiscovery : string -> string -> GoM S (option Disc * error);
  NewXClient : string -> Z -> Z -> option Disc -> Opt -> GoM S X;
  SetSelector : X -> selection -> GoM S unit;
  X_Call : X -> string -> request -> GoM S (error * Response);
  X_Broadcast : X -> string -> request -> GoM S (error * Response);
  X_Close : X -> GoM S error }.

Context {S X : Type} `{RpcxClient_ S X}.

Record BaseClient := MkBaseClient { bc_cli : X; bc_options : ClientOptions }.

Definition with_serializer (o : ClientOptions) : ClientOptions :=
  if SerializeType (Option_ o) =? SerializeNone
  then MkClientOptions (set_SerializeType ProtoBuffer (Option_ o)) (co_Addr o) (co_Port o) (co_Name o)
         (co_EtcdServers o) (co_Selector o)
  else o.

Definition NewBaseClient (o : ClientOptions) : GoM S (option BaseClient * error) :=
  let! discovered :=
    (match co_EtcdServers o with
     | Some servers => NewEtcdV3Discovery BaseServicePath (co_Name o) servers false
     | None => let! d := NewPeer2PeerDiscovery (sprintf_at "tcp" (co_Addr o) (co_Port o)) "" in ret (d.1, nil_error)
     end) in
  match discovered.2 with
  | Some _ => ret (None, discovered.2)
  | None =>
      let o := with_serializer o in
      let! cli := NewXClient (co_Name o) Failtry RoundRobin discovered.1 (Option_ o) in
      SetSelector cli (match co_Selector o with Some s => Given s | None => Default NewRoundRobinSelector end) ;;;
      ret (Some (MkBaseClient cli o), nil_error)
  end.

Definition Call (c : BaseClient) (fn : string) (arg : request) : GoM S (error * Response) := X_Call (bc_cli c) fn arg.
Definition Call2 (c : BaseClient) (fn : string) (arg : request) : GoM S (error * Response) := Call c fn arg.
Definition Broadcast (c : BaseClient) (fn : string) (arg : request) : GoM S (error * Response) :=
  X_Broadcast (bc_cli c) fn arg.
Definition bc_Run (c : BaseClient) : GoM S error := ret nil_error.
Definition Close (c : BaseClient) : GoM S error := X_Close (bc_cli c).

(** *** The clients of the service

    [GatewayRpcImpl] and [SubscriptionRpcImpl] hold the client they call; their methods are those of
    [Rpc], with [Call] of that client. *)

Record GatewayRpcImpl := MkGatewayRpc { gate_cli : BaseClient }.
Record SubscriptionRpcImpl := MkSubscriptionRpc { rpcCli : BaseClient }.
Record Client := MkRpcClient { client_sub : SubscriptionRpcImpl; client_gate : GatewayRpcImpl }.

Definition NewGatewayRpcImplWithClient (c : BaseClient) : GatewayRpcImpl := MkGatewayRpc c.
Definition NewSubscriptionRpcImplWithClient (c : BaseClient) : SubscriptionRpcImpl := MkSubscriptionRpc c.

(** [if err != nil { return nil, err }] of a constructor over a client. *)
Definition over_client {A} (mk : BaseClient -> A) (o : ClientOptions) : GoM S (option A * error) :=
  let! r := NewBaseClient o in
  match r with
  | (_, Some err) => ret (None, Some err)
  | (Some c, None) => ret (Some (mk c), nil_error)
  | (None, None) => panic "nil client"
  end.

Definition NewGatewayRpcImpl : ClientOptions -> GoM S (option GatewayRpcImpl * error) :=
  over_client NewGatewayRpcImplWithClient.
Definition NewSubscriptionRpcImpl : ClientOptions -> GoM S (option SubscriptionRpcImpl * error) :=
  over_client NewSubscriptionRpcImplWithClient.
Definition NewClient : ClientOptions -> GoM S (option Client * error) :=
  over_client (fun c => MkRpcClient (NewSubscriptionRpcImplWithClient c) (NewGatewayRpcImplWithClient c)).

Definition gate_Close (g : GatewayRpcImpl) : GoM S error := Close (gate_cli g).
Definition sub_Close (s : SubscriptionRpcImpl) : GoM S error := Close (rpcCli s).
End client.

(** ** A server stops at the first call that fails

    The calls a server makes, as a script; [run_script] makes them until one fails. *)

Inductive server_call (V : Type) :=
  | CStart (r : EtcdRegister)
  | CPlugin (r : EtcdRegister)
  | CRegister (name : string) (sv : V) (meta : string)
  | CServe (network addr : string).
Arguments CStart {V}.
Arguments CPlugin {V}.
Arguments CRegister {V}.
Arguments CServe {V}.

Section script.
Context {V : Type} (answers : server_call V -> error).
Implicit Types (o : ServerOptions) (services : list (string * V)) (tr : list (server_call V)).

(** A library that records the calls; adding a plugin does not fail. *)
#[export] Instance recording_rpcx : RpcxServer_ (list (server_call V)) V := {|
  etcd_Start r := fun tr => (Val (answers (CStart r)), tr ++ [CStart r]);
  Plugins_Add r := fun tr => (Val tt, tr ++ [CPlugin r]);
  RegisterName n v m := fun tr => (Val (answers (CRegister n v m)), tr ++ [CRegister n v m]);
  Serve n a := fun tr => (Val (answers (CServe n a)), tr ++ [CServe n a]) |}.

Definition answer_of (c : server_call V) : error := match c with CPlugin _ => nil_error | _ => answers c end.

Fixpoint run_script (l : list (server_call V)) : error * list (server_call V) :=
  match l with
  | [] => (nil_error, [])
  | c :: l' =>
      match answer_of c with
      | Some e => (Some e, [c])
      | None => let '(e, made) := run_script l' in (e, c :: made)
      end
  end.

(** What a server of these options and services has to do, in this order. *)
Definition network_of (o : ServerOptions) : string := if bool_decide (sv_Network o = "") then "tcp" else sv_Network o.
Definition address_of (o : ServerOptions) : string := sv_Addr o +:+ ":" +:+ Itoa (sv_Port o).
Definition register_of (o : ServerOptions) : EtcdRegister :=
  MkEtcdRegister (network_of o +:+ "@" +:+ address_of o) (sv_EtcdServers o) BaseServicePath 60.
Definition script (o : ServerOptions) (services : list (string * V)) : list (server_call V) :=
  (if (length (sv_EtcdServers o) =? 0)%nat then [] else [CStart (register_of o); CPlugin (register_of o)]) ++
  ((fun p => CRegister p.1 p.2 "") <$> services) ++ [CServe (network_of o) (address_of o)].

Definition registered (o : ServerOptions) (services : list (string * V)) : BaseServer V :=
  foldl (fun s p => Register p.1 p.2 s) (NewBaseServer o) services.

Lemma registered_fields o services s :
  let s' := foldl (fun s p => Register p.1 p.2 s) s services in
  srv_Options s' = srv_Options s /\ etcdRegister s' = etcdRegister s /\ srv_id s' = srv_id s /\ reg s' = reg s ++ services.
Proof.
  revert s. induction services as [| [n v] l IH]; intros s; cbn; [by rewrite app_nil_r |].
  destruct (IH (Register n v s)) as (E1 & E2 & E3 & E4). rewrite E1, E2, E3, E4. cbn. by rewrite <- app_assoc.
Qed.

Lemma New_options o :
  srv_Options (NewBaseServer (V := V) o) = set_Network (network_of o) o.
Proof. unfold NewBaseServer, network_of. case_bool_decide; [done |]. by destruct o. Qed.

Lemma run_script_app l1 l2 :
  run_script (l1 ++ l2) =
    match (run_script l1).1 with
    | Some e => run_script l1
    | None => let r := run_script l2 in (r.1, (run_script l1).2 ++ r.2)
    end.
Proof.
  induction l1 as [| c l1 IH]; cbn; [by destruct (run_script l2) |].
  destruct (answer_of c) as [e |]; [done |]. rewrite IH. destruct (run_script l1) as [[e |] made]; [done |]. done.
Qed.

Lemma run_reg_script services tr :
  run_reg services tr =
    let r := run_script ((fun p => CRegister p.1 p.2 "") <$> services) in (Val r.1, tr ++ r.2).
Proof.
  revert tr. induction services as [| [n v] l IH]; intros tr; [cbn; by rewrite app_nil_r |].
  cbn [run_reg fmap list_fmap run_script fst snd answer_of]. erewrite bind_Val by reflexivity.
  destruct (answers (CRegister n v "")) as [e |]; [done |]. rewrite IH. cbn.
  destruct (run_script _) as [e made]. cbn. by rewrite <- app_assoc.
Qed.

Lemma start_register_script o services tr :
  start_register (address_of o) (registered o services) tr =
    let r := run_script (if (length (sv_EtcdServers o) =? 0)%nat then [] else [CStart (register_of o); CPlugin (register_of o)])
    in (Val r.1, tr ++ r.2).
Proof.
  destruct (registered_fields o services (NewBaseServer o)) as (E1 & E2 & _). unfold start_register, registered.
  rewrite E2, E1, New_options. unfold NewBaseServer. cbn [etcdRegister].
  assert (Ee : sv_EtcdServers (if bool_decide (sv_Network o = "") then set_Network "tcp" o else o) = sv_EtcdServers o)
    by by case_bool_decide.
  rewrite Ee. destruct (length (sv_EtcdServers o) =? 0)%nat; [cbn; by rewrite app_nil_r |].
  cbn [run_script answer_of]. unfold set_ServiceAddress. cbn. unfold bind. cbn.
  change (MkEtcdRegister (network_of o +:+ "@" +:+ address_of o) (sv_EtcdServers o) BaseServicePath 60) with (register_of o).
  destruct (answers (CStart (register_of o))) as [e |]; cbn; by rewrite <- ?app_assoc.
Qed.

(** a server makes its calls in order and stops at the first that fails, whose error it returns: it
    registers itself before its services, its services in the order they were given, and serves only when
    every registration succeeded; an empty network is TCP. *)
Theorem server_stops_at_the_first_error o services tr :
  Run (registered o services) tr =
    let r := run_script (script o services) in (Val r.1, tr ++ r.2).
Proof.
  destruct (registered_fields o services (NewBaseServer o)) as (E1 & E2 & _ & E4).
  assert (Eo : srv_Options (registered o services) = set_Network (network_of o) o)
    by (unfold registered; by rewrite E1, New_options).
  unfold Run. rewrite Eo. cbn [sv_Addr sv_Port sv_Network set_Network]. fold (address_of o).
  unfold bind at 1. rewrite start_register_script. cbv zeta. unfold script. rewrite run_script_app.
  destruct (run_script (if (length (sv_EtcdServers o) =? 0)%nat then _ else _)) as [[e |] made1]; [done |].
  cbn [fst snd]. unfold registered at 1. rewrite E4. unfold bind. rewrite run_reg_script. cbv zeta.
  rewrite run_script_app. cbn [app NewBaseServer reg].
  destruct (run_script ((fun p => CRegister p.1 p.2 "") <$> services)) as [[e |] made2]; cbn;
    [by rewrite <- app_assoc |]. destruct (answers (CServe (network_of o) (address_of o))); cbn; by rewrite <- !app_assoc.
Qed.
End script.

(** The identifier of a server names it, whether or not it was computed before, and reading it changes
    nothing. *)
Lemma GetServerID_names {V} (o : ServerOptions) (services : list (string * V)) :
  GetServerID (registered o services) =
    (Val (sprintf_at (sv_Name o) (sv_Addr o) (sv_Port o)), registered o services).
Proof.
  destruct (registered_fields o services (NewBaseServer o)) as (_ & _ & E3 & _). unfold GetServerID.
  assert (E : srv_id (registered o services) = sprintf_at (sv_Name o) (sv_Addr o) (sv_Port o)) by apply E3.
  rewrite E. assert (Hl : (String.length (sprintf_at (sv_Name o) (sv_Addr o) (sv_Port o)) =? 0)%nat = false).
  { apply Nat.eqb_neq. unfold sprintf_at. rewrite !length_app_string. cbn. lia. }
  by rewrite Hl, E.
Qed.

(** ** What a client is made of

    The two halves of a client call through one connection; a discovery that fails makes no client. *)
Section constructors.
Context {Opt Disc Sel S X : Type} (SerializeType : Opt -> Z) (set_SerializeType : Z -> Opt -> Opt).
Context (SerializeNone ProtoBuffer Failtry RoundRobin : Z).
Context `{!RpcxClient_ (Opt := Opt) (Disc := Disc) (Sel := Sel) S X}.

Lemma NewClient_one_connection o s c s' :
  NewClient SerializeType set_SerializeType SerializeNone ProtoBuffer Failtry RoundRobin o s = (Val (Some c, nil_error), s') ->
  rpcCli (client_sub c) = gate_cli (client_gate c).
Proof.
  unfold NewClient, over_client. intros ([[b |] [err |]] & s1 & _ & Hr)%bind_Val_inv; try done.
  by injection Hr as <- _.
Qed.

Lemma NewClient_without_discovery o servers err s s' :
  co_EtcdServers o = Some servers ->
  NewEtcdV3Discovery BaseServicePath (co_Name o) servers false s = (Val (None, Some err), s') ->
  NewClient SerializeType set_SerializeType SerializeNone ProtoBuffer Failtry RoundRobin o s = (Val (None, Some err), s').
Proof.
  intros Ho Hd. unfold NewClient, over_client, NewBaseClient. rewrite Ho. unfold bind. by rewrite Hd.
Qed.
End constructors.
