(* ===== verification/Stores.v ===== *)
(** * Message stores: [pkg/store] and [internal/message_store_db]

    The stores that ignore what they are given, the MySQL store, and the Kafka producer and
    consumer. The database and the brokers are parameters: [db_Exec] is the result of the insertion,
    [Kafka_] the calls of the consumer's library. What the producer sends is a log of records.

    [Store_] is what the process wants of its stores, [store.MessageStore] and
    [store.SubscriptionStore]; [main_store] is the one [main] chooses from the configuration. *)

From S2P Require Import Prelude GoStrings Json Messages Channel.

Local Open Scope Z_scope.
Local Open Scope go_scope.

(** ** Stores without a backend *)

Definition IdleMessageStore_StoreOffline (m : ChatMessage) : error := nil_error.
Definition IdleMessageStore_StoreMessage (m : ChatMessage) : error * ChatMessage := (nil_error, m).

Definition SubscriptionMessageStore_NextSegmentSequence (id : ChanID) (i : ChanInfo) : Z * Z * error :=
  (1, MaxInt64, nil_error).
Definition SubscriptionMessageStore_StoreChannelMessage (ch : ChanID) (m : ChatMessage) : error := nil_error.
Definition IdleSubscriptionStore_NextSegmentSequence (id : ChanID) (i : ChanInfo) : Z * Z * error :=
  (1, MaxInt64, nil_error).
Definition IdleSubscriptionStore_StoreChannelMessage (ch : ChanID) (m : ChatMessage) : error := nil_error.

Definition set_Mid (z : Z) (m : ChatMessage) : ChatMessage :=
  MkChatMessage (cm_CliMid m) z (cm_Seq m) (cm_From m) (cm_To m) (cm_Type m) (cm_Content m) (cm_SendAt m).

Definition IdleChatMessageStore_StoreOffline (m : ChatMessage) : error := nil_error.
(** [now] in seconds. *)
Definition IdleChatMessageStore_StoreMessage (now : Z) (m : ChatMessage) : error * ChatMessage :=
  (nil_error, set_Mid now m).

(** ** The MySQL store *)

Definition read_number_sign (s : string) : bool * string :=
  match s with
  | String c s' => if code c =? 45 then (true, s') else if code c =? 43 then (false, s') else (false, s)
  | EmptyString => (false, s)
  end.

(** [strconv.ParseInt(s, 10, 64)]; [None] is an error. *)
Definition strconv_ParseInt (s : string) : option Z :=
  let '(neg, ds) := read_number_sign s in
  if bool_decide (ds = "") then None
  else
    match digits_value 0 ds with
    | Some n =>
        let z := if neg : bool then - n else n in
        if (- 2 ^ 63 <=? z) && (z <? 2 ^ 63) then Some z else None
    | None => None
    end.

(** The row inserted, but for the constant columns; [send_at] is also what an existing row gets. *)
Record Row := MkRow {
  session_id : string; row_from : Z; row_to : Z; row_type : Z; content : string; send_at : Z; create_at : Z }.

Definition session (from to : Z) : string :=
  let '(lg, sm) := if from <? to then (to, from) else (from, to) in
  Itoa lg +:+ "_" +:+ Itoa sm.

Section mysql.
Context {S : Type}.
(** The insertion: the identifier of the row, or an error. *)
Context (db_Exec : Row -> GoM S (Z + string)).

Definition ChatMessageStore_StoreOffline (m : ChatMessage) : GoM S error := panic "implement me".

Definition ChatMessageStore_StoreMessage (now : Z) (m : ChatMessage) : GoM S (error * ChatMessage) :=
  match strconv_ParseInt (cm_From m) with
  | None => ret (nil_error, m)
  | Some from =>
      match strconv_ParseInt (cm_To m) with
      | None => ret (nil_error, m)
      | Some to =>
          let! r := db_Exec (MkRow (session from to) from to (cm_Type m) (cm_Content m) (cm_SendAt m) now) in
          match r with
          | inr e => ret (Some e, m)
          | inl mid => ret (nil_error, set_Mid mid m)
          end
      end
  end.
End mysql.

(** ** The Kafka producer *)

Definition KafkaChatMessageTopic : string := "getaway_chat_message".
Definition KafkaChatOfflineMessageTopic : string := "getaway_chat_offline_message".
Definition KafkaChannelMessageTopic : string := "gateway_channel_message".

Record ProducerMessage := MkRecord { Topic : string; Value : string }.

(** The records put on the producer's input. *)
Definition Log : Type := list ProducerMessage.
Definition send (topic : string) (m : ChatMessage) : GoM Log error :=
  modify (fun log => log ++ [MkRecord topic (encode_ChatMessage m)]) ;;; ret nil_error.

Definition Kafka_StoreOffline (m : ChatMessage) : GoM Log error := send KafkaChatOfflineMessageTopic m.
Definition Kafka_StoreMessage (m : ChatMessage) : GoM Log error := send KafkaChatMessageTopic m.
Definition Kafka_StoreChannelMessage (ch : ChanID) (m : ChatMessage) : GoM Log error := send KafkaChannelMessageTopic m.
Definition Kafka_NextSegmentSequence (id : ChanID) (i : ChanInfo) : Z * Z * error := (0, 0, nil_error).

(** ** The Kafka consumer *)

Section consumer.
Context {S : Type}.

Definition callback : Type := ChatMessage -> GoM S unit.
Record KafkaConsumer := MkConsumer {
  cf : option callback; offlineCf : option callback; channelCf : option callback }.
Definition no_callbacks : KafkaConsumer := MkConsumer None None None.

Definition ConsumeChatMessage (f : callback) (c : KafkaConsumer) : KafkaConsumer :=
  MkConsumer (Some f) (offlineCf c) (channelCf c).
Definition ConsumeChannelMessage (f : callback) (c : KafkaConsumer) : KafkaConsumer :=
  MkConsumer (cf c) (offlineCf c) (Some f).
Definition ConsumeOfflineMessage (f : callback) (c : KafkaConsumer) : KafkaConsumer :=
  MkConsumer (cf c) (Some f) (channelCf c).

(** The loops of the three goroutines, on the records of their partition. *)
Definition consume (f : option callback) (values : list string) : GoM S unit :=
  foreach values (fun value =>
    match Decode fields value zero_ChatMessage with
    | (Some _, _) => ret tt
    | (None, m) => match f with Some f => f m | None => ret tt end
    end).
Definition callback_of (c : KafkaConsumer) (topic : string) : option callback :=
  if bool_decide (topic = KafkaChatMessageTopic) then cf c
  else if bool_decide (topic = KafkaChannelMessageTopic) then channelCf c
  else if bool_decide (topic = KafkaChatOfflineMessageTopic) then offlineCf c
  else None.
End consumer.

(** [run]: the goroutines it starts, by topic and partition. *)
Class Kafka_ (S : Type) := {
  sarama_NewConsumer : list string -> GoM S error;
  consumer_Close : GoM S error;
  Partitions : string -> GoM S (list Z * error);
  ConsumePartition : string -> Z -> GoM S error }.

Section run.
Context {S : Type} `{Kafka_ S}.

Definition started : Type := list (string * Z).

Fixpoint consume_topics (topics : list string) (partition : Z) (acc : started) : GoM S (started * error) :=
  match topics with
  | [] => ret (acc, nil_error)
  | topic :: topics' =>
      let! err := ConsumePartition topic partition in
      match err with
      | Some _ => ret (acc, err)
      | None => consume_topics topics' partition (acc ++ [(topic, partition)])
      end
  end.

Definition consumed_topics : list string :=
  [KafkaChatMessageTopic; KafkaChannelMessageTopic; KafkaChatOfflineMessageTopic].

Fixpoint consume_partitions (partitions : list Z) (acc : started) : GoM S (started * error) :=
  match partitions with
  | [] => ret (acc, nil_error)
  | partition :: partitions' =>
      let! r := consume_topics consumed_topics partition acc in
      match r.2 with
      | Some _ => ret r
      | None => consume_partitions partitions' r.1
      end
  end.

Definition consumer_run : GoM S (started * error) :=
  let! p := Partitions KafkaChatMessageTopic in
  match p.2 with
  | Some _ => ret ([], p.2)
  | None => consume_partitions p.1 []
  end.

(** The consumer, and the goroutines that already read when it is returned: its callbacks are not set yet. *)
Definition NewKafkaConsumer {T} (address : list string) : GoM S (option (KafkaConsumer (S := T) * started) * error) :=
  let! err := sarama_NewConsumer address in
  match err with
  | Some _ => ret (None, err)
  | None =>
      let c := no_callbacks in
      let! r := consumer_run in
      match r.2 with
      | Some _ => ret (None, r.2)
      | None => ret (Some (c, r.1), nil_error)
      end
  end.

Definition Consumer_Close : GoM S error := consumer_Close.
End run.

(** ** The stores of the process *)

(** [store.MessageStore] and [store.SubscriptionStore] over one state; [now] in seconds. *)
Class Store_ (T : Type) := {
  st_StoreMessage : Z -> ChatMessage -> GoM T (error * ChatMessage);
  st_StoreOffline : ChatMessage -> GoM T error;
  st_StoreChannelMessage : ChanID -> ChatMessage -> T -> error * T;
  st_NextSegmentSequence : ChanID -> ChanInfo -> T -> (Z * Z * error) * T }.

(** [IdleChatMessageStore] and [IdleSubscriptionStore]. *)
Definition IdleStore (T : Type) : Store_ T := {|
  st_StoreMessage now m := ret (IdleChatMessageStore_StoreMessage now m);
  st_StoreOffline m := ret (IdleChatMessageStore_StoreOffline m);
  st_StoreChannelMessage ch m s := (IdleSubscriptionStore_StoreChannelMessage ch m, s);
  st_NextSegmentSequence ch i s := (IdleSubscriptionStore_NextSegmentSequence ch i, s) |}.

(** The Kafka producer, for both. [KafkaMessageStore] does not fill in the message. *)
Definition KafkaStore : Store_ Log := {|
  st_StoreMessage now m := let! err := Kafka_StoreMessage m in ret (err, m);
  st_StoreOffline m := Kafka_StoreOffline m;
  st_StoreChannelMessage ch m log := (nil_error, (Kafka_StoreChannelMessage ch m log).2);
  st_NextSegmentSequence ch i log := (Kafka_NextSegmentSequence ch i, log) |}.

(** [ChatMessageStore] and [SubscriptionMessageStore]. *)
Definition MySqlStore {T} (db_Exec : Row -> GoM T (Z + string)) : Store_ T := {|
  st_StoreMessage now m := ChatMessageStore_StoreMessage db_Exec now m;
  st_StoreOffline m := ChatMessageStore_StoreOffline m;
  st_StoreChannelMessage ch m s := (SubscriptionMessageStore_StoreChannelMessage ch m, s);
  st_NextSegmentSequence ch i s := (SubscriptionMessageStore_NextSegmentSequence ch i, s) |}.

(** A store on one part of a state. *)
Definition StoreAt {T U} (get : T -> U) (set : U -> T -> T) (St : Store_ U) : Store_ T := {|
  st_StoreMessage now m := zoom get set (st_StoreMessage now m);
  st_StoreOffline m := zoom get set (st_StoreOffline m);
  st_StoreChannelMessage ch m t := let '(e, u) := st_StoreChannelMessage ch m (get t) in (e, set u t);
  st_NextSegmentSequence ch i t := let '(e, u) := st_NextSegmentSequence ch i (get t) in (e, set u t) |}.

(** [config.Common.StoreMessageHistory] and [config.Kafka.Address]; [None] is a nil [config.Kafka]. *)
Record StoreConf := MkStoreConf { StoreMessageHistory : bool; Kafka_Address : option (list string) }.

(** The stores [main] gives to messaging and to the channels, on the state of the producer and of the
    database. *)
Definition main_store {D} (db_Exec : Row -> GoM D (Z + string)) (conf : StoreConf) : Store_ (Log * D) :=
  if StoreMessageHistory conf then
    match Kafka_Address conf with
    | Some (_ :: _) => StoreAt fst (fun l t => (l, t.2)) KafkaStore
    | _ => StoreAt snd (fun d t => (t.1, d)) (MySqlStore db_Exec)
    end
  else IdleStore (Log * D).

(** What messaging relies on: a store changes nothing of a message but its number. *)
Class FillsMid (T : Type) `{Store_ T} : Prop :=
  fills_mid now m t r t' : st_StoreMessage now m t = (Val (nil_error, r), t') -> exists mid, r = set_Mid mid m.

Lemma set_Mid_same m : set_Mid (cm_Mid m) m = m.
Proof. by destruct m. Qed.

Lemma Idle_fills_mid T : @FillsMid T (IdleStore T).
Proof. intros now m t r t' [= <- <-]. by exists now. Qed.

Lemma Kafka_fills_mid : @FillsMid Log KafkaStore.
Proof. intros now m t r t' [= <- <-]. exists (cm_Mid m). by rewrite set_Mid_same. Qed.

Lemma MySql_fills_mid {T} (db_Exec : Row -> GoM T (Z + string)) : @FillsMid T (MySqlStore db_Exec).
Proof.
  intros now m t r t' Hr. cbn in Hr. unfold ChatMessageStore_StoreMessage in Hr.
  assert (Hsame : exists mid, m = set_Mid mid m) by (exists (cm_Mid m); by rewrite set_Mid_same).
  repeat case_match; try (by injection Hr as <- <-).
  apply bind_Val_inv in Hr as ([mid | err] & t1 & _ & Hr); [injection Hr as <- <-; by exists mid | done].
Qed.

Lemma StoreAt_fills_mid {T U} (get : T -> U) (set : U -> T -> T) (St : Store_ U) :
  @FillsMid U St -> @FillsMid T (StoreAt get set St).
Proof.
  intros Hf now m t r t' Hr. cbn in Hr. unfold zoom in Hr.
  destruct (st_StoreMessage now m (get t)) as [res u] eqn:E. injection Hr as -> _. by eapply Hf.
Qed.

(** Whichever store the configuration asks for. *)
#[export] Instance main_store_fills_mid {D} (db_Exec : Row -> GoM D (Z + string)) conf :
  @FillsMid (Log * D) (main_store db_Exec conf).
Proof.
  unfold main_store. destruct (StoreMessageHistory conf); [| apply Idle_fills_mid].
  destruct (Kafka_Address conf) as [[| a l] |];
    first [apply StoreAt_fills_mid, Kafka_fills_mid | apply StoreAt_fills_mid, MySql_fills_mid].
Qed.

(** ** Sessions *)

Lemma Itoa_no_separator z : has_byte "_"%char (Itoa z) = false.
Proof.
  destruct (Itoa_cases z) as (sg & ds & E & Hsg & Hd & _). rewrite E, has_byte_app.
  assert (Hs : has_byte "_"%char sg = false) by (subst sg; by destruct (z <? 0)). rewrite Hs. cbn [orb].
  clear E. induction ds as [| c ds IH]; [done |]. cbn [all_digits] in Hd. apply andb_true_iff in Hd as [Hc Hd].
  cbn [has_byte]. rewrite (IH Hd), orb_false_r. destruct (Ascii.eqb_spec c "_"%char) as [-> | Hne]; [done |].
  by rewrite ?bool_decide_false by congruence.
Qed.

Lemma session_parts a b : strings_Split (session a b) "_"%char = [Itoa (Z.max a b); Itoa (Z.min a b)].
Proof.
  unfold session. destruct (Z.ltb_spec a b);
    [rewrite Z.max_r, Z.min_l by lia | rewrite Z.max_l, Z.min_r by lia];
    change ("_" +:+ ?s) with (String "_"%char s);
    rewrite Split_cons by apply Itoa_no_separator; f_equal; apply Split_no_sep, Itoa_no_separator.
Qed.

(** two chat messages are stored under the same session exactly when they are between the same two
    users, whoever is the sender. *)
Theorem session_identifies_the_pair a b c d :
  session a b = session c d <-> (a = c /\ b = d) \/ (a = d /\ b = c).
Proof.
  split.
  - intros E. pose proof (session_parts a b) as E1. rewrite E, session_parts in E1.
    injection E1 as E1%(inj Itoa) E2%(inj Itoa). lia.
  - intros [[-> ->] | [-> ->]]; [done |]. unfold session.
    destruct (Z.ltb_spec d c), (Z.ltb_spec c d); try done; try lia. by replace d with c by lia.
Qed.

(** ** From the producer to the consumer *)

Inductive store_op := OpMessage (m : ChatMessage) | OpOffline (m : ChatMessage) | OpChannel (ch : ChanID) (m : ChatMessage).

Definition run_store_op (op : store_op) : GoM Log error :=
  match op with
  | OpMessage m => Kafka_StoreMessage m
  | OpOffline m => Kafka_StoreOffline m
  | OpChannel ch m => Kafka_StoreChannelMessage ch m
  end.
Definition op_topic (op : store_op) : string :=
  match op with
  | OpMessage _ => KafkaChatMessageTopic
  | OpOffline _ => KafkaChatOfflineMessageTopic
  | OpChannel _ _ => KafkaChannelMessageTopic
  end.
Definition op_message (op : store_op) : ChatMessage :=
  match op with OpMessage m | OpOffline m | OpChannel _ m => m end.

(** Runs the operations on an empty log. *)
Definition produced (ops : list store_op) : Log :=
  (foreach ops (fun op => let! _ := run_store_op op in ret tt) []).2.

(** A callback that appends what it is given to a list. *)
Definition recording : callback (S := list ChatMessage) := fun m => modify (fun l => l ++ [m]).

Definition decoded (value : string) : option ChatMessage :=
  match Decode fields value zero_ChatMessage with (None, m) => Some m | (Some _, _) => None end.

Lemma consume_run values l : consume (Some recording) values l = (Val tt, l ++ omap decoded values).
Proof.
  unfold consume, recording. revert l. induction values as [| v vs IH]; intros l; [by rewrite app_nil_r |].
  cbn [foreach omap list_omap]. unfold decoded at 1. destruct (Decode fields v zero_ChatMessage) as [[e |] m].
  - erewrite bind_Val by reflexivity. apply IH.
  - erewrite bind_Val by reflexivity. rewrite IH. by rewrite <- app_assoc.
Qed.

Lemma produced_records ops :
  produced ops = (fun op => MkRecord (op_topic op) (encode_ChatMessage (op_message op))) <$> ops.
Proof.
  unfold produced.
  assert (E : forall log, foreach ops (fun op => let! _ := run_store_op op in ret tt) log =
    (Val tt, log ++ ((fun op => MkRecord (op_topic op) (encode_ChatMessage (op_message op))) <$> ops))).
  { induction ops as [| op ops IH]; intros log; [by rewrite app_nil_r |].
    cbn [foreach]. rewrite (bind_Val _ _ log tt (log ++ [MkRecord (op_topic op) (encode_ChatMessage (op_message op))]));
      [| by destruct op]. rewrite IH, fmap_cons. by rewrite <- app_assoc. }
  by rewrite E.
Qed.

Lemma decoded_values ops :
  Forall (fun op => ChatMessage_ok (op_message op)) ops ->
  omap decoded ((fun op => encode_ChatMessage (op_message op)) <$> ops) = (fun op => valid_chat (op_message op)) <$> ops.
Proof.
  induction 1 as [| op ops Hop Hops IH]; [done |]. rewrite !fmap_cons. cbn [omap list_omap].
  unfold decoded at 1. rewrite (decode_ChatMessage _ Hop). cbn. f_equal. exact IH.
Qed.

(** whatever is stored through the producer reaches the callback of its kind: a consumer that reads
    the records of a topic, in any order and among records that do not decode, calls the callback
    exactly once for each message stored under that topic, its strings made valid UTF-8, and for nothing
    else. *)
Theorem stored_messages_reach_the_callback ops topic values junk l :
  Forall (fun op => ChatMessage_ok (op_message op)) ops ->
  Forall (fun v => decoded v = None) junk ->
  values ≡ₚ (Value <$> filter (fun r => Topic r = topic) (produced ops)) ++ junk ->
  exists received, consume (Some recording) values l = (Val tt, l ++ received) /\
    received ≡ₚ (fun op => valid_chat (op_message op)) <$> filter (fun op => op_topic op = topic) ops.
Proof.
  intros Hok Hjunk Hv. eexists. split; [apply consume_run |].
  assert (Ef : (Value <$> filter (fun r => Topic r = topic) (produced ops)) =
    (fun op => encode_ChatMessage (op_message op)) <$> filter (fun op => op_topic op = topic) ops).
  { rewrite produced_records. clear. induction ops as [| op ops IH]; [done |].
    rewrite fmap_cons. destruct (decide (op_topic op = topic)) as [E | E].
    - rewrite (filter_cons_True (fun r => Topic r = topic)), (filter_cons_True (fun op => op_topic op = topic)) by exact E.
      rewrite !fmap_cons. by rewrite <- IH.
    - by rewrite (filter_cons_False (fun r => Topic r = topic)), (filter_cons_False (fun op => op_topic op = topic)) by exact E. }
  rewrite Hv, Ef, omap_app, decoded_values.
  2: { apply Forall_forall. intros op [_ Hop]%list_elem_of_filter. by eapply Forall_forall in Hok. }
  assert (Ej : omap decoded junk = []).
  { clear -Hjunk. induction Hjunk as [| v vs Hd Hvs IH]; [done |]. cbn [omap list_omap]. by rewrite Hd. }
  by rewrite Ej, app_nil_r.
Qed.

Definition demo_stored (mid : Z) (text : string) : ChatMessage := MkChatMessage "c" mid 1 "1" "2" 1 text 10.
Definition demo_ops : list store_op :=
  [OpMessage (demo_stored 1 "one"); OpChannel "room" (demo_stored 2 "two"); OpMessage (demo_stored 3 "three")].

Lemma stored_messages_reach_the_callback_witness :
  exists received,
    consume (Some recording) [encode_ChatMessage (demo_stored 3 "three"); "not json"; encode_ChatMessage (demo_stored 1 "one")] [] =
      (Val tt, [] ++ received) /\
    received ≡ₚ [demo_stored 1 "one"; demo_stored 3 "three"].
Proof.
  apply (stored_messages_reach_the_callback demo_ops KafkaChatMessageTopic _ ["not json"] []).
  - repeat constructor; by vm_compute.
  - repeat constructor.
  - change (Value <$> filter (fun r => Topic r = KafkaChatMessageTopic) (produced demo_ops)) with
      [encode_ChatMessage (demo_stored 1 "one"); encode_ChatMessage (demo_stored 3 "three")].
    apply (Permutation_trans (l' := [encode_ChatMessage (demo_stored 3 "three"); encode_ChatMessage (demo_stored 1 "one"); "not json"]));
      [apply perm_skip, perm_swap | apply perm_swap].
Defined.

(** The MySQL store accepts a message between users whose identifiers are not numbers and stores nothing. *)
Lemma text_ids_are_not_stored {S} (db_Exec : Row -> GoM S (Z + string)) now m s :
  strconv_ParseInt (cm_From m) = None -> ChatMessageStore_StoreMessage db_Exec now m s = (Val (nil_error, m), s).
Proof. intros E. unfold ChatMessageStore_StoreMessage. by rewrite E. Qed.

(** The consumer reads the three topics of every partition of the chat topic. *)
#[local] Instance demo_kafka : Kafka_ unit := {|
  sarama_NewConsumer _ := ret nil_error;
  consumer_Close := ret nil_error;
  Partitions _ := ret ([0; 1], nil_error);
  ConsumePartition topic p := ret (if bool_decide (topic = KafkaChatOfflineMessageTopic) && (p =? 1)
    then errors_New "unknown partition" else nil_error) |}.
Example consumer_run_stops_at_an_error :
  (consumer_run tt).1 = Val ([(KafkaChatMessageTopic, 0); (KafkaChannelMessageTopic, 0); (KafkaChatOfflineMessageTopic, 0);
    (KafkaChatMessageTopic, 1); (KafkaChannelMessageTopic, 1)], errors_New "unknown partition").
Proof. reflexivity. Qed.
