(* ===== verification/Examples.v ===== *)
(** * The samples of [src/example]

    The programs that show how a business service uses the RPC clients, as scripts over
    the clients of [Transport] and [Rpc], and the one that reads the Kafka topics.

    Over a connection to a server, the sample of the API makes a group nobody can write to
    ([api_sample_makes_a_silent_group]), and the sample of the channels cannot succeed
    ([subscriber_sample_never_succeeds]): it removes the channel it then publishes to.
    The login of the API's sample calls a package the repository does not have. *)

From S2P Require Import Prelude GoStrings Json Messages GateId Channel ChannelSpec Subscription Credentials Interfaces Rpc RpcSpec RpcRouting Transport Stores.

Local Open Scope Z_scope.
Local Open Scope go_scope.

Section samples.
Context {Opt Disc Sel S X : Type} (SerializeType : Opt -> Z) (set_SerializeType : Z -> Opt -> Opt).
Context (SerializeNone ProtoBuffer Failtry RoundRobin : Z).
Context `{!RpcxClient_ (Opt := Opt) (Disc := Disc) (Sel := Sel) S X}.
(** The zero value of rpcx's options, and the JSON of the types the model knows by name. *)
Context (zero_Option : Opt) (marshal_other : string -> option string).

Definition sample_options : ClientOptions (Opt := Opt) (Sel := Sel) :=
  MkClientOptions zero_Option "127.0.0.1" 8092 "im_rpc_server" None None.

(** [cli, err := new(options)], [defer cli.Close()], [if err != nil { panic(err) }], and the rest. *)
Definition with_client {C} (new : ClientOptions (Opt := Opt) (Sel := Sel) -> GoM S (option C * error))
    (close : C -> GoM S error) (rest : C -> GoM S unit) : GoM S unit :=
  let! r := new sample_options in
  let '(cli, err) := r in
  deferring (let! c := deref cli in let! _ := close c in ret tt)
    (must (ret err) ;;; let! c := deref cli in rest c).

Definition new_gateway := NewGatewayRpcImpl SerializeType set_SerializeType SerializeNone ProtoBuffer Failtry RoundRobin.
Definition new_subscription := NewSubscriptionRpcImpl SerializeType set_SerializeType SerializeNone ProtoBuffer Failtry RoundRobin.
Definition make_client := NewClient SerializeType set_SerializeType SerializeNone ProtoBuffer Failtry RoundRobin.

(** ** [rpc_client_example.go] *)

Definition RpcGatewayClientUpdateClient : GoM S unit :=
  with_client new_gateway gate_Close (fun cli =>
    must (cli_UpdateClient (Call (gate_cli cli)) (NewID2 "544607") (Some (MkClientSecrets "secret" "")))).

Definition RpcGatewayClientExample : GoM S unit :=
  with_client new_gateway gate_Close (fun cli =>
    must (cli_EnqueueMessage (Call (gate_cli cli)) (NewID2 "1") (Some NewEmptyMessage)) ;;;
    must (cli_SetClientID (Call (gate_cli cli)) (NewID2 "1") (NewID2 "2")) ;;;
    let! _ := cli_ExitClient (Call (gate_cli cli)) (NewID "" "1" "1") in ret tt).

Definition sample_message : PublishMessage :=
  MkPublishMessage "1" [] 1 TypeMessage (Some (NewMessage 0 "1" (PChatMessage zero_ChatMessage))).

Definition sample_subscriber : SubscriberOptions := MkSubscriberOptions (Z.lor PermRead PermWrite) "".

Definition RpcSubscriberClientExample : GoM S unit :=
  with_client new_subscription sub_Close (fun cli =>
    must (cli_Subscribe (Call (rpcCli cli)) marshal_other "1" "1" (ExtraOptions sample_subscriber)) ;;;
    let! _ := cli_RemoveChannel (Call (rpcCli cli)) "1" in
    must (cli_Publish (Call (rpcCli cli)) marshal_other "1" (AsPublish sample_message))).

(** [return] comes before the two other samples. *)
Definition client_main : GoM S unit := RpcGatewayClientUpdateClient.

(** ** [api_example.go]

    The global variable [imServiceRpcCli] is what [initialize] returns. *)

Definition initialize : GoM S (option (Client (Opt := Opt) (Sel := Sel) (X := X))) :=
  let! r := make_client sample_options in
  must (ret r.2) ;;; ret r.1.

Definition ExampleCreateGroup (imServiceRpcCli : option (Client (Opt := Opt) (Sel := Sel) (X := X))) (channelId adminId : string) : GoM S unit :=
  let info := MkChanInfo channelId 0 false false false "" None [] in
  let! c := deref imServiceRpcCli in
  must (cli_CreateChannel (Call (rpcCli (client_sub c))) (ci_ID info) info) ;;;
  must (cli_Subscribe (Call (rpcCli (client_sub c))) marshal_other channelId adminId
          (ExtraOptions (MkSubscriberOptions PermAdmin ""))).

Definition ExampleAddMember (imServiceRpcCli : option (Client (Opt := Opt) (Sel := Sel) (X := X))) (channelId memberId : string) : GoM S unit :=
  let! c := deref imServiceRpcCli in
  must (cli_Subscribe (Call (rpcCli (client_sub c))) marshal_other channelId memberId
          (ExtraOptions (MkSubscriberOptions PermRead ""))).

Definition api_main : GoM S unit :=
  let! cli := initialize in
  ExampleCreateGroup cli "c1" "1" ;;;
  ExampleAddMember cli "c1" "2".
End samples.

(** ** [kafka_store.go]

    What the callbacks log is a list of lines; [main] then waits for ever. *)

Definition log_message (what : string) (m : ChatMessage) : GoM (list string) unit :=
  modify (fun lines => lines ++ ["on " +:+ what +:+ " message: " +:+ encode_ChatMessage m]).

Definition with_callbacks (c : KafkaConsumer (S := list string)) : KafkaConsumer (S := list string) :=
  ConsumeChannelMessage (log_message "channel")
    (ConsumeOfflineMessage (log_message "offline")
      (ConsumeChatMessage (log_message "chat") c)).

Definition kafka_main {S} `{Kafka_ S} : GoM S (KafkaConsumer (S := list string) * started) :=
  let! r := NewKafkaConsumer ["192.168.99.191:9092"] in
  must (ret r.2) ;;;
  let! c := deref r.1 in
  ret (with_callbacks c.1, c.2).

(** ** What a connection to a server is

    The documented behaviour of rpcx: discovery and the construction of a client do not touch the server;
    a call of a client runs the handler once. *)
Section online.
Context {Opt Disc Sel S X : Type} `{RL : !RpcxClient_ (Opt := Opt) (Disc := Disc) (Sel := Sel) S X}.
Context `{!Gateway_ S, !SubscribeWrap_ S}.

Record online (x : X) : Prop := {
  on_discovery : forall addr s, exists d, NewPeer2PeerDiscovery addr "" s = (Val d, s);
  on_client : forall name f sel d o s, NewXClient name f sel d o s = (Val x, s);
  on_selector : forall sel s, SetSelector x sel s = (Val tt, s);
  on_close : forall s, exists err, X_Close x s = (Val err, s);
  on_call : reliable (X_Call x) }.

Context (SerializeType : Opt -> Z) (set_SerializeType : Z -> Opt -> Opt).
Context (SerializeNone ProtoBuffer Failtry RoundRobin : Z) (zero_Option : Opt).
Context (x : X) (Hx : online x).

Lemma over_client_online {A} (mk : BaseClient (Opt := Opt) (Sel := Sel) (X := X) -> A) o s :
  co_EtcdServers o = None ->
  exists b, bc_cli b = x /\
    over_client SerializeType set_SerializeType SerializeNone ProtoBuffer Failtry RoundRobin mk o s = (Val (Some (mk b), nil_error), s).
Proof.
  intros Ho. unfold over_client, NewBaseClient. rewrite Ho.
  destruct (on_discovery _ Hx (sprintf_at "tcp" (co_Addr o) (co_Port o)) s) as [d Hd].
  eexists. split; [| unfold bind, ret; rewrite Hd; cbn; rewrite (on_client _ Hx), (on_selector _ Hx); reflexivity]. done.
Qed.

Lemma Call_online (b : BaseClient (Opt := Opt) (Sel := Sel) (X := X)) : bc_cli b = x -> Call b = X_Call x.
Proof. intros Hb. unfold Call. by rewrite Hb. Qed.

(** The body of a sample, once its client is made. *)
Lemma with_client_online {C} (mk : BaseClient (Opt := Opt) (Sel := Sel) (X := X) -> C) close rest s :
  (forall b s, bc_cli b = x -> exists err, close (mk b) s = (Val err, s)) ->
  exists b, bc_cli b = x /\
    with_client zero_Option (over_client SerializeType set_SerializeType SerializeNone ProtoBuffer Failtry RoundRobin mk) close rest s = rest (mk b) s.
Proof.
  intros Hclose. destruct (over_client_online mk (sample_options (Sel := Sel) zero_Option) s eq_refl) as (b & Hb & Hn).
  exists b. split; [done |]. unfold with_client. rewrite (bind_Val _ _ _ _ _ Hn).
  unfold deferring, must, deref, bind, ret. destruct (rest (mk b) s) as [r s'].
  destruct (Hclose b s' Hb) as [err ->]. done.
Qed.
End online.

(** ** The samples against a server *)

Section process.
Context {Opt Disc Sel X G E : Type} `{ChanEnv E} `{!Gateway_ G} (now : Z).
(** A server: a gateway and a directory of channels, whose wrapper the service calls. *)
Abbreviation process := (G * SubState (E := E))%type.
#[local] Instance process_Wrap : SubscribeWrap_ process := SubscribeWrap_snd (NewSubscribeWrap now).
Context `{RL : !RpcxClient_ (Opt := Opt) (Disc := Disc) (Sel := Sel) process X}.
Context (SerializeType : Opt -> Z) (set_SerializeType : Z -> Opt -> Opt).
Context (SerializeNone ProtoBuffer Failtry RoundRobin : Z) (zero_Option : Opt) (marshal_other : string -> option string).
Context (x : X).

(** What [must] makes of a call whose local counterpart ran. *)
Lemma must_accepted (op call : GoM process error) s s' :
  seen_service (op s) (call s) -> op s = (Val nil_error, s') -> must call s = (Val tt, s').
Proof. unfold seen_service, must, bind. intros Hs Ho. rewrite Ho in Hs. by rewrite Hs. Qed.
Lemma must_error (op call : GoM process error) s e s' :
  seen_service (op s) (call s) -> op s = (Val (Some e), s') -> utf8_valid e = true ->
  must call s = (Panics (IMServiceError Response_ERROR e), s').
Proof. unfold seen_service, must, bind. intros Hs Ho He. rewrite Ho in Hs. destruct Hs as (e' & -> & Ht). by rewrite (Ht He). Qed.
Lemma must_refused (op call : GoM process error) s r s' :
  seen_service (op s) (call s) -> op s = (r, s') -> r <> Val nil_error -> exists why, must call s = (Panics why, s').
Proof.
  unfold seen_service, must, bind. intros Hs Ho Hr. rewrite Ho in Hs.
  destruct r as [[e |] | why]; [destruct Hs as (e' & -> & _) | done | destruct Hs as [e ->]]; by eexists.
Qed.

Lemma sample_publishable : publishable sample_message (Some (encode_ChatMessage zero_ChatMessage)).
Proof.
  split; [by vm_compute |]. split; [by vm_compute |]. intros g [= <-]. split; [by vm_compute |]. split; [by vm_compute |].
  destruct (MarshalJSON_text (PChatMessage zero_ChatMessage)) as (d & E1 & Ht); [done |].
  split; [reflexivity |]. by injection E1 as <-.
Qed.

Lemma accepted_exists ch id o s s' :
  sw_Subscribe ch id (ExtraOptions o) s = (Val nil_error, s') -> is_Some (s'.2.1 !! ch).
Proof.
  destruct s as [w d]. unfold sw_Subscribe, process_Wrap, SubscribeWrap_snd, zoom. cbn [snd fst].
  change (sw_Subscribe ch id (ExtraOptions o) d) with (wrap_Subscribe now ch id (ExtraOptions o) d).
  unfold wrap_Subscribe. rewrite (one_update now ch _ (real_Subscribe now ch id (ExtraOptions o)) d) by done. cbn [snd fst].
  unfold newline_errors, real_Subscribe, with_channel. destruct (d.1 !! ch) as [g |]; [| done].
  destruct (Subscribe now id (ExtraOptions o) (g, d.2)) as [[[e |] | why] [g' e']]; intros [=]; subst. cbn.
  rewrite lookup_insert_eq. eauto.
Qed.

Lemma sw_Remove_run ch (s : process) g :
  s.2.1 !! ch = Some g -> sw_RemoveChannel ch s = (Val nil_error, (s.1, (delete ch s.2.1, s.2.2))).
Proof. destruct s as [w [m e]]. cbn. intros Hg. cbv [zoom wrap_RemoveChannel UpdateChannel_ subscriptionImpl impl_UpdateChannel]. cbn. unfold real_RemoveChannel, bind, channels_of, gets. cbn. by rewrite Hg. Qed.

Lemma sw_Publish_absent ch m (s : process) :
  s.2.1 !! ch = None -> sw_Publish ch m s = (Val (Some ErrChanNotExist), s).
Proof.
  destruct s as [w [mm e]]. cbn. intros Hg. unfold zoom, wrap_Publish. cbn. unfold impl_PublishMessage, real_Publish, with_channel. cbn.
  by rewrite Hg.
Qed.

(** the sample of the channels cannot succeed, whatever the server's state: where the
    subscription is refused it panics with the refusal; where it is accepted the sample deletes the
    channel, with every subscriber it had, and panics because the channel it publishes to does not exist. *)
Theorem subscriber_sample_never_succeeds (s : process) :
  online x ->
  let r := sw_Subscribe "1" "1" (ExtraOptions sample_subscriber) s in
  exists why,
    RpcSubscriberClientExample SerializeType set_SerializeType SerializeNone ProtoBuffer Failtry RoundRobin
      zero_Option marshal_other s =
      (Panics why, match r.1 with Val None => (r.2.1, (delete "1" r.2.2.1, r.2.2.2)) | _ => r.2 end) /\
    (r.1 = Val nil_error -> why = IMServiceError Response_ERROR ErrChanNotExist).
Proof.
  intros Hx r. unfold RpcSubscriberClientExample, new_subscription, NewSubscriptionRpcImpl.
  edestruct (with_client_online SerializeType set_SerializeType SerializeNone ProtoBuffer Failtry RoundRobin
    zero_Option x Hx NewSubscriptionRpcImplWithClient sub_Close) as (b & Hb & Hrun).
  { intros b' s' Hb'. unfold sub_Close, Close. cbn. rewrite Hb'. apply (on_close _ Hx). }
  rewrite Hrun. clear Hrun. cbv beta. cbn [rpcCli NewSubscriptionRpcImplWithClient]. rewrite !(Call_online x b Hb).
  pose proof (on_call _ Hx) as Hrel.
  assert (Hs : seen_service (sw_Subscribe "1" "1" (ExtraOptions sample_subscriber) s)
    (cli_Subscribe (X_Call x) marshal_other "1" "1" (ExtraOptions sample_subscriber) s)).
  { apply (cli_Subscribe_seen (X_Call x) Hrel); [by repeat constructor | by intros ? [= <-] | done]. }
  destruct r as [[[err |] | why] s1] eqn:Er; subst r.
  - destruct (must_refused _ _ _ _ _ Hs Er) as [why Hw]; [done |]. exists why. unfold bind at 1. by rewrite Hw.
  - destruct (accepted_exists _ _ _ _ _ Er) as [g Hg]. rewrite (bind_Val _ _ _ _ _ (must_accepted _ _ _ _ Hs Er)).
    pose proof (cli_RemoveChannel_seen (X_Call x) Hrel "1" s1 ltac:(by repeat constructor)) as Hd. rewrite (sw_Remove_run _ _ _ Hg) in Hd.
    rewrite (bind_Val _ _ _ _ _ Hd).
    rewrite (must_error _ _ _ _ _ (cli_Publish_seen (X_Call x) Hrel marshal_other "1" sample_message _ _ ltac:(by repeat constructor) sample_publishable)
      (sw_Publish_absent _ _ (s1.1, (delete "1" s1.2.1, s1.2.2)) (lookup_delete_eq _ _))) by done.
    by eexists.
  - destruct (must_refused _ _ _ _ _ Hs Er) as [why' Hw]; [done |]. exists why'. unfold bind at 1. by rewrite Hw.
Qed.
Lemma sw_Create_run ch ci (s : process) sq len e :
  s.2.1 !! ch = None -> NextSegmentSequence ch zero_ChanInfo s.2.2 = ((sq, len, nil_error), e) ->
  exists g, sw_CreateChannel ch ci s = (Val nil_error, (s.1, (<[ch := g]> s.2.1, e))) /\
    Blocked (info g) = Blocked ci /\ Secret (info g) = Secret ci /\ Closed (info g) = false /\
    subscribers g = ∅ /\ messages_closed g = false.
Proof.
  intros Hc Hn. destruct (real_CreateChannel_run now ch ci s.2 sq len e Hc Hn) as (g & Hr & _ & Hb & Hs & Ho & Hsu & Hmc).
  exists g. split; [| done]. unfold sw_CreateChannel, process_Wrap, SubscribeWrap_snd, zoom.
  change (sw_CreateChannel ch ci s.2) with (real_CreateChannel now ch ci s.2). by rewrite Hr.
Qed.

Lemma sw_Create_exists ch ci (s : process) :
  is_Some (s.2.1 !! ch) -> sw_CreateChannel ch ci s = (Val (Some ErrChanAlreadyExists), s).
Proof.
  intros [g Hg]. destruct s as [w d]. unfold sw_CreateChannel, process_Wrap, SubscribeWrap_snd, zoom.
  change (sw_CreateChannel ch ci d) with (real_CreateChannel now ch ci d).
  unfold real_CreateChannel, bind, channels_of, gets. cbn in Hg |- *. by rewrite Hg.
Qed.

(** A first subscription to an open channel without a secret. *)
Lemma sw_Subscribe_run ch id perm (s : process) g :
  s.2.1 !! ch = Some g -> Closed (info g) = false -> Blocked (info g) = false -> messages_closed g = false ->
  Secret (info g) = "" -> subscribers g !! id = None ->
  exists g', sw_Subscribe ch id (ExtraOptions (MkSubscriberOptions perm "")) s =
      (Val nil_error, (s.1, (<[ch := g']> s.2.1, s.2.2))) /\
    subscribers g' = <[id := MkSubscriberInfo perm]> (subscribers g) /\ info g' = info g /\ messages_closed g' = false.
Proof.
  intros Hg Hc Hb Hmc Hsec Hid.
  destruct (Subscribe_admits now id (MkSubscriberOptions perm "") g s.2.2 Hc Hb Hmc Hid (or_introl Hsec)) as (g' & Hr & Hrest).
  exists g'. split; [| exact Hrest]. destruct s as [w d]. unfold sw_Subscribe, process_Wrap, SubscribeWrap_snd, zoom. cbn [fst snd] in *.
  change (sw_Subscribe ch id ?e d) with (wrap_Subscribe now ch id e d).
  unfold wrap_Subscribe. rewrite (one_update now ch _ (real_Subscribe now ch id (ExtraOptions (MkSubscriberOptions perm ""))) d) by done.
  unfold newline_errors, real_Subscribe, with_channel. by rewrite Hg, Hr.
Qed.

Definition sample_group : ChanInfo := MkChanInfo "c1" 0 false false false "" None [].
Definition subscribe_call (id : SubscriberID) (perm : Z) : GoM process error :=
  cli_Subscribe (X_Call x) marshal_other "c1" id (ExtraOptions (MkSubscriberOptions perm "")).

(** The sample's calls, once it has a client. *)
Lemma api_main_online (s : process) :
  online x ->
  api_main SerializeType set_SerializeType SerializeNone ProtoBuffer Failtry RoundRobin zero_Option marshal_other s =
  bind (bind (must (cli_CreateChannel (X_Call x) "c1" sample_group)) (fun _ => must (subscribe_call "1" PermAdmin)))
    (fun _ => must (subscribe_call "2" PermRead)) s.
Proof.
  intros Hx. unfold api_main, initialize, make_client, NewClient.
  edestruct (over_client_online SerializeType set_SerializeType SerializeNone ProtoBuffer Failtry RoundRobin x Hx
    (fun c => MkRpcClient (NewSubscriptionRpcImplWithClient c) (NewGatewayRpcImplWithClient c)) (sample_options zero_Option) s)
    as (b & Hb & Hrun); [done |].
  unfold bind at 1. rewrite (bind_Val _ _ _ _ _ Hrun). unfold subscribe_call. rewrite <- !(Call_online x b Hb). done.
Qed.

(** against a server without a channel c1, the sample of the API creates it with the two subscribers
    it names and changes nothing else; but its administrator may neither read nor write there, so what is
    published to the channel is refused, whoever sends it, and a message would reach the member only. Run
    again, it panics and changes nothing. *)
Theorem api_sample_makes_a_silent_group (s : process) sq len e :
  online x ->
  NextSegmentSequence "c1" zero_ChanInfo s.2.2 = ((sq, len, nil_error), e) ->
  let main := api_main SerializeType set_SerializeType SerializeNone ProtoBuffer Failtry RoundRobin zero_Option marshal_other in
  match s.2.1 !! "c1" with
  | Some _ => main s = (Panics (IMServiceError Response_ERROR ErrChanAlreadyExists), s)
  | None => exists g, main s = (Val tt, (s.1, (<["c1" := g]> s.2.1, e))) /\
      subscribers g = <["2" := MkSubscriberInfo PermRead]> {["1" := MkSubscriberInfo PermAdmin]} /\
      (forall m id, id ∈ recipients g m -> id = "2") /\
      (forall later m, exists err,
        real_Publish later "c1" (AsPublish m) (<["c1" := g]> s.2.1, e) = (Val (Some err), (<["c1" := g]> s.2.1, e)))
  end.
Proof.
  intros Hx Hn main. pose proof (on_call _ Hx) as Hrel. unfold main. rewrite api_main_online by done.
  pose proof (cli_CreateChannel_seen (X_Call x) Hrel "c1" sample_group s ltac:(by repeat constructor)) as Hcreate.
  assert (Hsub : forall id perm s0, utf8 [id] -> in_int64 perm ->
    seen_service (sw_Subscribe "c1" id (ExtraOptions (MkSubscriberOptions perm "")) s0) (subscribe_call id perm s0)).
  { intros id perm s0 Hu Hp. apply (cli_Subscribe_seen (X_Call x) Hrel); [by constructor | by intros ? [= <-] | done]. }
  destruct (s.2.1 !! "c1") as [g0 |] eqn:Hc.
  { unfold bind at 1 2. by rewrite (must_error _ _ _ _ _ Hcreate (sw_Create_exists "c1" _ s (mk_is_Some _ _ Hc))). }
  destruct (sw_Create_run "c1" (info_of "c1" (channel_info sample_group)) s sq len e Hc Hn) as (g1 & H1 & Hb1 & Hs1 & Hc1 & Hu1 & Hm1).
  edestruct (sw_Subscribe_run "c1" "1" PermAdmin (s.1, (<["c1" := g1]> s.2.1, e)) g1) as (g2 & H2 & Hu2 & Hi2 & Hm2);
    [apply lookup_insert_eq | done.. | by rewrite Hu1 |]. cbn [fst snd] in H2. rewrite insert_insert_eq in H2.
  edestruct (sw_Subscribe_run "c1" "2" PermRead (s.1, (<["c1" := g2]> s.2.1, e)) g2) as (g3 & H3 & Hu3 & Hi3 & Hm3);
    [apply lookup_insert_eq | by rewrite Hi2 | by rewrite Hi2 | done | by rewrite Hi2 | by rewrite Hu2, Hu1 |]. cbn [fst snd] in H3. rewrite insert_insert_eq in H3.
  assert (Hu : subscribers g3 = <["2" := MkSubscriberInfo PermRead]> {["1" := MkSubscriberInfo PermAdmin]})
    by by rewrite Hu3, Hu2, Hu1.
  assert (Hwho : forall id i, subscribers g3 !! id = Some i -> canWrite i = false /\ (canRead i = true -> id = "2")).
  { intros id i. rewrite Hu. intros [[<- <-] | [_ [<- <-]%lookup_singleton_Some]]%lookup_insert_Some; done. }
  exists g3. split_and!; [| exact Hu | |].
  - etransitivity; [apply bind_Val; etransitivity; [apply bind_Val, (must_accepted _ _ _ _ Hcreate H1) |] |].
    + exact (must_accepted _ _ _ _ (Hsub "1" PermAdmin _ ltac:(by repeat constructor) ltac:(by vm_compute)) H2).
    + exact (must_accepted _ _ _ _ (Hsub "2" PermRead _ ltac:(by repeat constructor) ltac:(by vm_compute)) H3).
  - intros m id ([id' i] & -> & [Hr Hin]%list_elem_of_filter)%list_elem_of_fmap. cbn.
    apply elem_of_map_to_list in Hin. apply (proj2 (Hwho _ _ Hin)).
    unfold receives in Hr. by apply andb_prop in Hr as [_ ?].
  - intros later m. destruct (Publish_refused later m g3 e) as [err Hp].
    { intros (_ & _ & i & Hi & Hw & _). by rewrite (proj1 (Hwho _ _ Hi)) in Hw. }
    exists err. unfold real_Publish, with_channel. cbn [fst snd]. by rewrite lookup_insert_eq, Hp, insert_insert_eq.
Qed.
End process.

(** *** A server whose gateway records its calls *)

Section demo.
#[local] Instance demo_sample_Gateway : Gateway_ (list gw_call) := recorder (fun _ => nil_error).
#[local] Instance demo_sample_Wrap : SubscribeWrap_ demo_process := process_Wrap 5.
(** A library whose connection is the server itself; options are their serializer. *)
#[local] Instance demo_library : RpcxClient_ (Opt := Z) (Disc := unit) (Sel := unit) demo_process unit := {|
  NewEtcdV3Discovery _ _ _ _ := ret (Some tt, nil_error);
  NewPeer2PeerDiscovery _ _ := ret (Some tt, nil_error);
  NewXClient _ _ _ _ _ := ret tt;
  SetSelector _ _ := ret tt;
  X_Call _ := direct_call;
  X_Broadcast _ := direct_call;
  X_Close _ := ret nil_error |}.

Lemma demo_library_online : online (Opt := Z) (Disc := unit) (Sel := unit) (S := demo_process) tt.
Proof. split; try done; [by eexists | by eexists | apply direct_call_reliable]. Qed.

Definition demo_sample_room : demo_process := Eval vm_compute in
  (sw_CreateChannel "1" (MkChanInfo "1" 0 false false false "" None []) demo_process0).2.

Lemma subscriber_sample_never_succeeds_witness :
  exists s, RpcSubscriberClientExample (S := demo_process) id (fun z _ => z) 0 1 2 3 0 (fun _ => None) demo_sample_room =
    (Panics "IM Service Error: 1, channel does not exist", s) /\ s.2.1 = ∅.
Proof.
  destruct (subscriber_sample_never_succeeds 5 id (fun z _ => z) 0 1 2 3 0 (fun _ => None) tt demo_sample_room demo_library_online)
    as (why & Hrun & Hwhy).
  eexists. split; [refine (eq_trans Hrun _); rewrite (Hwhy ltac:(by vm_compute)); reflexivity | by vm_compute].
Defined.

Lemma api_sample_makes_a_silent_group_witness :
  exists g e, api_main (S := demo_process) id (fun z _ => z) 0 1 2 3 0 (fun _ => None) demo_process0 =
    (Val tt, ([], ({["c1" := g]}, e))) /\ recipients g (sample_message) = ["2"].
Proof.
  destruct (api_sample_makes_a_silent_group 5 id (fun z _ => z) 0 1 2 3 0 (fun _ => None) tt demo_process0 _ _ _
    demo_library_online eq_refl) as (g & Hg & Hu & _).
  eexists g, _. split; [exact Hg |]. unfold recipients. rewrite Hu. by vm_compute.
Defined.

(** The calls the sample of the gateway makes of it. *)
Example gateway_sample_calls :
  (RpcGatewayClientExample (S := demo_process) id (fun z _ => z) 0 1 2 3 0 demo_process0).2.1 =
    [CEnqueueMessage (NewID2 "1") (Some (MkGlideMessage 1 0 "" "" "" None "" "" "" ∅));
     CSetClientID (NewID2 "1") (NewID2 "2"); CExitClient (NewID "" "1" "1")].
Proof. by vm_compute. Qed.
End demo.

(** When no client can be made, the [Close] that was deferred before the error is looked at dereferences
    nil while the panic with the error unwinds. *)
Lemma sample_without_a_client {Opt Sel S C : Type} (zero_Option : Opt) new (close : C -> GoM S error) rest s err s' :
  new (sample_options (Sel := Sel) zero_Option) s = (Val (None, Some err), s') ->
  with_client zero_Option new close rest s = (Panics "invalid memory address or nil pointer dereference", s').
Proof. intros Hn. unfold with_client. by rewrite (bind_Val _ _ _ _ _ Hn). Qed.

(** The lines the Kafka sample writes: one for each record of the topic that is a message, once the callbacks are set. *)
Lemma kafka_sample_logs values lines :
  consume (cf (with_callbacks no_callbacks)) values lines =
    (Val tt, lines ++ omap (fun v => match Decode fields v zero_ChatMessage with
      | (None, m) => Some ("on chat message: " +:+ encode_ChatMessage m) | _ => None end) values) /\
  consume (S := list string) (cf no_callbacks) values lines = (Val tt, lines).
Proof.
  unfold consume. revert lines. induction values as [| v l IH]; intros lines; cbn [foreach omap list_omap]; [by rewrite app_nil_r |].
  destruct (Decode fields v zero_ChatMessage) as [[err |] m]; [apply (IH lines) |].
  split; [| apply (proj2 (IH lines))]. etransitivity; [apply (proj1 (IH _)) |]. by rewrite <- app_assoc.
Qed.
