(* ===== verification/Messaging.v ===== *)
(** * Messaging: [pkg/messaging]

    The entry point of the messages the gateway hands over: [Handle] submits a task to a pool, and
    the task runs the chain of handlers. The handlers call the gateway, the subscriptions, the
    message store and Redis, which are the classes [Gateway_] and [MsgEnv].

    The tasks a worker has not finished are [m_tasks]; [run_task] runs one of them, at any time. A
    task keeps the pointer to the client's info, so what it reads of it is read when it runs. The
    goroutines a handler starts are collected in [m_spawned]. *)

From S2P Require Import Prelude GoStrings Json Messages GateId Gate Channel Interfaces UserState.

Local Open Scope Z_scope.
Local Open Scope go_scope.

(** ** What the handlers call *)

Class MsgEnv (S : Type) := {
  info_ID_of : info_ref -> GoM S ID;                             (* [cInfo.ID] *)
  PublishMessage_ : ChanID -> message_arg -> GoM S error;        (* [subscription.Interface] *)
  StoreMessage : ChatMessage -> GoM S (error * ChatMessage);     (* may fill in the message *)
  StoreOffline : ChatMessage -> GoM S error;
  redis_SAdd : string -> string -> GoM S unit;
  redis_Expire : string -> Z -> GoM S unit;
  redis_SMembers : string -> GoM S (list string * error);
  redis_Del : string -> GoM S unit }.

(** A goroutine a handler started. *)
Inductive spawned := WorldOnline (c : info_ref) | WorldOffline (id : ID).

Record MState (S : Type) := MkMState {
  m_env : S;
  m_userState : UserState;
  m_tasks : list (info_ref * GlideMessage);
  m_spawned : list spawned }.
Arguments MkMState {S}.
Arguments m_env {S}.
Arguments m_userState {S}.
Arguments m_tasks {S}.
Arguments m_spawned {S}.

Record Options := MkOptions { NotifyServerError : bool; MaxMessageConcurrency : Z; pool_error : string }.

Definition KeyRedisOfflineMsgPrefix : string := "im:msg:offline:".

Section messaging.
Context {S : Type} `{Gateway_ S} `{MsgEnv S}.

Definition M (A : Type) : Type := GoM (MState S) A.

Definition env {A} (m : GoM S A) : M A :=
  zoom m_env (fun s x => MkMState s (m_userState x) (m_tasks x) (m_spawned x)) m.
Definition user_state {A} (m : GoM (UserState * S) A) : M A :=
  zoom (fun x => (m_userState x, m_env x)) (fun p x => MkMState p.2 p.1 (m_tasks x) (m_spawned x)) m.
Definition spawn (g : spawned) : M unit :=
  modify (fun x => MkMState (m_env x) (m_userState x) (m_tasks x) (m_spawned x ++ [g])).
Definition set_tasks (l : list (info_ref * GlideMessage)) : M unit :=
  modify (fun x => MkMState (m_env x) (m_userState x) l (m_spawned x)).

Definition c_ID (c : info_ref) : M ID := env (info_ID_of c).
Definition m_EnqueueMessage (id : ID) (m : GlideMessage) : M error := env (gw_EnqueueMessage id (Some m)).

(** ** Handlers *)

Definition HandlerFunc : Type := info_ref -> GlideMessage -> M error.
Definition ReplyHandlerFunc : Type := info_ref -> GlideMessage -> M (option GlideMessage * error).
Definition MessageValidator : Type := GlideMessage -> error * option GlideMessage.

(** The implementations of [MessageHandler]. *)
Inductive MessageHandler :=
  | ActionHandler (action : string) (fn : HandlerFunc)
  | ActionWithReplyHandler (action : string) (fn : ReplyHandlerFunc)
  | MessageValidationHandler (validators : list MessageValidator)
  | ClientCustomMessageHandler
  | InternalHandler.

Definition OnHandleMessageError (o : Options) (c : info_ref) (m : GlideMessage) (err : string) : M unit :=
  if NotifyServerError o then
    let! id := c_ID c in
    let! _ := m_EnqueueMessage id (NewMessage (-1) ActionNotifyError (PString err)) in ret tt
  else ret tt.

(** [if err != nil { h.OnHandleMessageError(...) }]. *)
Definition report (o : Options) (c : info_ref) (m : GlideMessage) (err : error) : M unit :=
  match err with Some err => OnHandleMessageError o c m err | None => ret tt end.

(** The devices an ID of a user may name. *)
Definition devices : list string := [""; "1"; "2"; "3"].

Definition dispatch2AllDevice (uid : string) (m : GlideMessage) : M bool :=
  foreach devices (fun device => let! _ := m_EnqueueMessage (NewID "" uid device) m in ret tt) ;;; ret true.

Fixpoint validate (validators : list MessageValidator) (c : info_ref) (m : GlideMessage) : M bool :=
  match validators with
  | [] => ret false
  | v :: vs =>
      match v m with
      | (None, _) => validate vs c m
      | (Some err, reply) =>
          let! id := c_ID c in
          let! _ := m_EnqueueMessage id (default (NewMessage (Seq m) ActionNotifyError (PString err)) reply) in
          ret true
      end
  end.

Definition ActionHandler_Handle (o : Options) (action : string) (fn : HandlerFunc) (c : info_ref) (m : GlideMessage) : M bool :=
  if bool_decide (Action m = action) then
    let! err := fn c m in
    report o c m err ;;; ret true
  else ret false.

Definition ActionWithReplyHandler_Handle (o : Options) (action : string) (fn : ReplyHandlerFunc)
    (c : info_ref) (m : GlideMessage) : M bool :=
  if bool_decide (Action m = action) then
    let! r := fn c m in
    report o c m r.2 ;;;
    let! id := c_ID c in
    let! _ := env (gw_EnqueueMessage id r.1) in ret true
  else ret false.

Definition ClientCustomMessageHandler_Handle (m : GlideMessage) : M bool :=
  if bool_decide (Action m = ActionClientCustom) then let! _ := dispatch2AllDevice (To m) m in ret true
  else ret false.

Definition InternalHandler_Handle (m : GlideMessage) : M bool := ret (IsInternal (Action m)).

(** [Handle] of the interface. *)
Definition Handle_ (o : Options) (h : MessageHandler) (c : info_ref) (m : GlideMessage) : M bool :=
  match h with
  | ActionHandler action fn => ActionHandler_Handle o action fn c m
  | ActionWithReplyHandler action fn => ActionWithReplyHandler_Handle o action fn c m
  | MessageValidationHandler vs => validate vs c m
  | ClientCustomMessageHandler => ClientCustomMessageHandler_Handle m
  | InternalHandler => InternalHandler_Handle m
  end.

Definition DefaultMessageValidator (m : GlideMessage) : error * option GlideMessage :=
  if bool_decide (To m = "") then (errors_New "message.To is empty", None)
  else if bool_decide (Action m = "") then (errors_New "message.Action is empty", None)
  else (nil_error, None).

(** ** The chain *)

Inductive handlerChain := Chain (h : option MessageHandler) (next : option handlerChain).

Definition empty_chain : handlerChain := Chain None None.

Fixpoint add (hc : handlerChain) (i : MessageHandler) : handlerChain :=
  match hc with
  | Chain h None => Chain h (Some (Chain (Some i) None))
  | Chain h (Some next) => Chain h (Some (add next i))
  end.

(** [hc.h != nil && hc.h.Handle(...)]. *)
Definition handle_head (o : Options) (h : option MessageHandler) (c : info_ref) (m : GlideMessage) : M bool :=
  match h with Some h => Handle_ o h c m | None => ret false end.

Fixpoint handle (o : Options) (hc : handlerChain) (c : info_ref) (m : GlideMessage) : M bool :=
  match hc with
  | Chain h next =>
      let! handled := handle_head o h c m in
      if handled : bool then ret true
      else match next with Some next => handle o next c m | None => ret false end
  end.

(** ** The entry point *)

Definition Handle (o : Options) (c : info_ref) (m : GlideMessage) : M error :=
  let! id := c_ID c in
  let m := if IsInternal (Action m) then m else set_From (UID id) m in
  let! l := gets m_tasks in
  if Z.of_nat (length l) <? MaxMessageConcurrency o then set_tasks (l ++ [(c, m)]) ;;; ret nil_error
  else OnHandleMessageError o c m (pool_error o) ;;; ret (errors_New (pool_error o)).

Definition task (o : Options) (hc : handlerChain) (c : info_ref) (m : GlideMessage) : M unit :=
  let! handled := handle o hc c m in
  if handled : bool then ret tt
  else if IsInternal (Action m) then ret tt
  else
    let! id := c_ID c in
    let! _ := m_EnqueueMessage id (NewMessage (Seq m) ActionNotifyUnknownAction (PAction (Action m))) in ret tt.

(** The worker that has the [n]th task runs it; the pool recovers its panic. *)
Definition run_task (o : Options) (hc : handlerChain) (n : nat) : M unit := fun s =>
  match m_tasks s !! n with
  | None => (Val tt, s)
  | Some (c, m) =>
      let '(_, s') := (set_tasks (delete n (m_tasks s)) ;;; task o hc c m) s in (Val tt, s')
  end.

(** ** The handlers of [MessageHandlerImpl] *)

(** [unmarshalData]: the decoded value, when there was no error. *)
Definition unmarshalData {T} `{GoStruct T} (m : GlideMessage) (zero : T) : option T :=
  match Deserialize (Data m) zero with (None, t) => Some t | (Some _, _) => None end.

Definition with_sender (from to : string) (m : ChatMessage) : ChatMessage :=
  MkChatMessage (cm_CliMid m) (cm_Mid m) (cm_Seq m) from to (cm_Type m) (cm_Content m) (cm_SendAt m).

Definition ack_message (m : ChatMessage) : GlideMessage :=
  NewMessage 0 ActionAckMessage (PAckMessage (MkAckMessage (cm_CliMid m) (cm_Mid m) (cm_To m) (cm_Seq m))).
Definition ackChatMessage (c : info_ref) (m : ChatMessage) : M error :=
  let! id := c_ID c in m_EnqueueMessage id (ack_message m).

Definition ack_notify (m : ChatMessage) : GlideMessage :=
  NewMessage 0 ActionAckNotify (PAckNotify (MkAckNotify (cm_CliMid m) (cm_Seq m) (cm_Mid m) (cm_From m))).
Definition ackNotifyMessage (m : ChatMessage) : M error :=
  m_EnqueueMessage (NewID2 (cm_To m)) (ack_notify m).

Definition dispatchOffline (m : ChatMessage) : M error := env (StoreOffline m).

Fixpoint dispatch_devices (ds : list string) (uid : string) (m : GlideMessage) (ok : bool) : M bool :=
  match ds with
  | [] => ret ok
  | device :: ds' =>
      let! err := m_EnqueueMessage (NewID "" uid device) m in
      dispatch_devices ds' uid m (match err with Some _ => ok | None => true end)
  end.
Definition dispatchAllDevice (uid : string) (m : GlideMessage) : M bool := dispatch_devices devices uid m false.

Definition push_message (m : ChatMessage) : GlideMessage := NewMessage 0 ActionChatMessage (PChatMessage m).

Definition handleChatMessage : HandlerFunc := fun c m =>
  match unmarshalData m zero_ChatMessage with
  | None => ret nil_error
  | Some msg =>
      let! id := c_ID c in
      let msg := with_sender (UID id) (To m) msg in
      let! stored :=
        (if (cm_Mid msg =? 0) && negb (bool_decide (Action m = ActionChatMessageResend))
         then env (StoreMessage msg) else ret (nil_error, msg)) in
      let '(err, msg) := stored in
      match err with
      | Some _ => ret err
      | None =>
          let! _ := ackChatMessage c msg in
          let! ok := dispatchAllDevice (cm_To msg) (push_message msg) in
          if ok : bool then ret nil_error
          else let! _ := ackNotifyMessage msg in dispatchOffline msg
      end
  end.

Definition handleChatRecallMessage : HandlerFunc := fun c m => handleChatMessage c m.

Definition dispatchOnline (c : info_ref) (m : ChatMessage) : M error :=
  let! id := c_ID c in
  m_EnqueueMessage id (NewMessage (-1) ActionChatMessage (PChatMessage (with_sender (UID id) (cm_To m) m))).

Definition enqueueMessage (id : ID) (m : GlideMessage) : M unit := let! _ := m_EnqueueMessage id m in ret tt.

Definition dispatchGroupMessage (gid : Z) (m : ChatMessage) : M error := env (PublishMessage_ "" AsNil).

Definition handleGroupMsg : HandlerFunc := fun c m =>
  match Deserialize (Data m) zero_ChatMessage with
  | (Some e, _) => ret (Some e)
  | (None, cm) =>
      let! err := env (PublishMessage_ (To m) (AsPublish (MkPublishMessage (From m) [] 0 TypeMessage (Some m)))) in
      match err with
      | Some err =>
          let! id := c_ID c in
          enqueueMessage id (NewMessage (Seq m) ActionNotifyError (PString err)) ;;; ret nil_error
      | None => let! _ := ackChatMessage c cm in ret nil_error
      end
  end.

Definition handleApiGroupMembers : HandlerFunc := fun c m => ret nil_error.
Definition handleAckGroupMsgRequest : HandlerFunc := fun c m =>
  match unmarshalData m zero_AckGroupMessage with
  | None => ret nil_error
  | Some ack => ret nil_error       (* the rest of the body is commented out *)
  end.
Definition handleHeartbeat : HandlerFunc := fun c m => ret nil_error.

Definition handleAckRequest : HandlerFunc := fun c m =>
  match unmarshalData m zero_AckRequest with
  | None => ret nil_error
  | Some ackMsg =>
      let! _ := dispatchAllDevice (ar_To ackMsg) (NewMessage 0 ActionAckNotify (PAckRequest ackMsg)) in
      ret nil_error
  end.

Definition AckOfflineMessage (id : string) : M unit := env (redis_Del (KeyRedisOfflineMsgPrefix +:+ id)).

Definition handleAckOffline : HandlerFunc := fun c m =>
  let! id := c_ID c in
  if IsTemp id then ret nil_error else AckOfflineMessage (UID id) ;;; ret nil_error.

Definition handleInternalOffline : HandlerFunc := fun c m =>
  let! id := c_ID c in
  spawn (WorldOffline id) ;;;
  user_state (onUserOffline id) ;;; ret nil_error.

Definition handleInternalOnline : HandlerFunc := fun c m =>
  let! id := c_ID c in
  user_state (onUserOnline id) ;;;
  spawn (WorldOnline c) ;;; ret nil_error.

Definition sub_user_state : HandlerFunc := fun c m =>
  let! id := c_ID c in user_state (subUserStateApi id m).

(** ** Offline messages *)

Definition storeOfflineMessage (to msg : string) : M unit :=
  let key := KeyRedisOfflineMsgPrefix +:+ to in
  env (redis_SAdd key msg) ;;; env (redis_Expire key (2 * 24 * 3600)).

Definition offlineMessageHandler (StoreOfflineMessage : bool) (m : GlideMessage) : M unit :=
  if negb StoreOfflineMessage then ret tt
  else if bool_decide (Action m = ActionChatMessage) || bool_decide (Action m = ActionChatMessageResend) then
    match Deserialize (Data m) zero_ChatMessage with
    | (Some _, _) => ret tt
    | (None, _) =>
        match Encode m with
        | None => ret tt
        | Some bytes => storeOfflineMessage (To m) bytes
        end
    end
  else ret tt.

Definition PushOfflineMessage (id : string) : M unit :=
  let! r := env (redis_SMembers (KeyRedisOfflineMsgPrefix +:+ id)) in
  match r.2 with
  | Some _ => ret tt
  | None =>
      foreach r.1 (fun member =>
        match decode_message member with
        | (Some _, _) => ret tt
        | (None, msg) => let! _ := m_EnqueueMessage (NewID2 id) msg in ret tt
        end)
  end.

(** ** The default handlers

    [InitDefaultHandler] ranges over a map, in an order Go does not specify: [order] is the map's
    entries in the order of this range. *)

Definition default_map : list (string * HandlerFunc) := [
  (ActionChatMessage, handleChatMessage);
  (ActionGroupMessage, handleGroupMsg);
  (ActionApiGroupMembers, handleApiGroupMembers);
  (ActionAckRequest, handleAckRequest);
  (ActionAckGroupMsg, handleAckGroupMsgRequest);
  (AckOffline, handleAckOffline);
  (ActionHeartbeat, handleHeartbeat);
  (ActionInternalOnline, handleInternalOnline);
  (ActionInternalOffline, handleInternalOffline);
  (ActionApiSubUserState, sub_user_state)].

Definition InitDefaultHandler (order : list (string * HandlerFunc)) (callback : option (string -> HandlerFunc -> HandlerFunc))
    (hc : handlerChain) : handlerChain :=
  let hc := foldl (fun hc p =>
    add hc (ActionHandler p.1 (match callback with Some f => f p.1 p.2 | None => p.2 end))) hc order in
  add (add hc ClientCustomMessageHandler) (ActionHandler ActionHeartbeat handleHeartbeat).

(** [NewHandlerWithOptions], when the pool can be created; [pool_error] is what the pool answers when
    it is full. *)
Definition NewHandlerWithOptions (pool_error : string) (order : list (string * HandlerFunc))
    (DontInitDefaultHandler NotifyOnErr : bool) : Options * handlerChain :=
  (MkOptions NotifyOnErr 100000 pool_error,
   if DontInitDefaultHandler then empty_chain else InitDefaultHandler order None empty_chain).

Definition default_chain (order : list (string * HandlerFunc)) : handlerChain :=
  InitDefaultHandler order None empty_chain.
End messaging.
