(* ===== verification/MessagingSpec.v ===== *)
(** * What messaging does with each message

    The handlers run on an environment that records every call and answers as it pleases: the
    answers are the parameters of the section, so the theorems hold for every gateway, store and
    subscription service that answers at all. *)

From S2P Require Import Prelude GoStrings Json Messages GateId Gate Channel Interfaces UserState Messaging.

Local Open Scope Z_scope.
Local Open Scope go_scope.

(** ** The chain of handlers *)

Section chain.
Context {S : Type} `{Gateway_ S} `{MsgEnv S}.
Implicit Types (hc : handlerChain (S := S)) (s : MState S).

(** Induction through the optional rest. *)
Lemma chain_ind (P : handlerChain (S := S) -> Prop) :
  (forall h, P (Chain h None)) -> (forall h next, P next -> P (Chain h (Some next))) -> forall hc, P hc.
Proof. intros H1 H2. fix IH 1. intros [h [next |]]; [apply H2, IH | apply H1]. Qed.

Lemma handle_add o hc i c m s :
  handle o (add hc i) c m s = (let! b := handle o hc c m in if b : bool then ret true else Handle_ o i c m) s.
Proof.
  revert s. induction hc as [h | h next IH] using chain_ind; intros s; cbn [add handle]; unfold bind;
    destruct (handle_head o h c m s) as [[[|] | why] s']; try done.
  cbn -[Handle_]. by destruct (Handle_ o i c m s') as [[[|] | why] s''].
Qed.

Definition add_actions (l : list (string * HandlerFunc (S := S))) hc : handlerChain :=
  foldl (fun hc p => add hc (ActionHandler p.1 p.2)) hc l.

(** A chain of action handlers is a table: the order in which they were added does not matter. *)
Lemma handle_actions o l c m s :
  NoDup l.*1 ->
  handle o (add_actions l empty_chain) c m s =
    match (list_to_map l : gmap string (HandlerFunc (S := S))) !! Action m with
    | Some fn => Handle_ o (ActionHandler (Action m) fn) c m s
    | None => (Val false, s)
    end.
Proof.
  induction l as [| [action fn] l IH] using rev_ind; intros Hnd; [done |].
  rewrite fmap_app in Hnd. cbn in Hnd. apply NoDup_app in Hnd as (Hl & Hnot & _).
  assert (Hfresh : (list_to_map l : gmap string (HandlerFunc (S := S))) !! action = None).
  { apply not_elem_of_list_to_map_1. intros Hin. apply (Hnot action Hin). by constructor. }
  unfold add_actions. rewrite foldl_app. cbn [foldl]. rewrite handle_add. fold (add_actions l empty_chain).
  unfold bind. rewrite IH by done. rewrite list_to_map_app. cbn [list_to_map fold_right curry].
  rewrite lookup_union. destruct (decide (Action m = action)) as [E | Hne].
  - subst action. rewrite Hfresh. cbn. rewrite lookup_insert_eq. cbn.
    unfold ActionHandler_Handle. destruct (bool_decide _); done.
  - rewrite lookup_insert_ne by done. rewrite lookup_empty.
    assert (Hnone : forall x : option (HandlerFunc (S := S)), x ∪ None = x) by (by intros [|]). rewrite Hnone.
    destruct ((list_to_map l : gmap string (HandlerFunc (S := S))) !! Action m) as [fn' |] eqn:El.
    + cbn [Handle_ fst snd]; unfold ActionHandler_Handle. rewrite (bool_decide_true (Action m = Action m)) by done.
      unfold bind. destruct (fn' c m s) as [[e | why] s']; [| done].
      by destruct (report o c m e s') as [[[] | why] s''].
    + cbn [Handle_ fst snd]; unfold ActionHandler_Handle. by rewrite (bool_decide_false _ Hne).
Qed.

Lemma default_map_NoDup : NoDup (default_map (S := S)).*1.
Proof. cbn. repeat constructor; set_solver. Qed.

Definition default_table : gmap string (HandlerFunc (S := S)) := list_to_map default_map.

(** Dispatch by the default chain, from any range over the map of handlers. *)
Lemma handle_default o order c m s :
  order ≡ₚ default_map ->
  handle o (default_chain order) c m s =
    match default_table !! Action m with
    | Some fn => Handle_ o (ActionHandler (Action m) fn) c m s
    | None => Handle_ o ClientCustomMessageHandler c m s
    end.
Proof.
  intros Hp. assert (Hnd : NoDup order.*1) by (rewrite Hp; apply default_map_NoDup).
  unfold default_chain, InitDefaultHandler. change (foldl _ empty_chain order) with (add_actions order empty_chain).
  rewrite !handle_add. unfold bind at 1. rewrite handle_add. unfold bind at 1. rewrite handle_actions by done.
  rewrite (list_to_map_proper order default_map) by done. fold default_table.
  destruct (default_table !! Action m) as [fn |] eqn:E.
  - cbn [Handle_]. unfold ActionHandler_Handle, ClientCustomMessageHandler_Handle. rewrite (bool_decide_true (Action m = Action m)) by done.
    unfold bind. destruct (fn c m s) as [[e | why] s']; [| done].
    by destruct (report o c m e s') as [[[] | why] s''].
  - assert (Hhb : Action m <> ActionHeartbeat) by (intros Hhb; rewrite Hhb in E; vm_compute in E; discriminate).
    destruct (Handle_ o ClientCustomMessageHandler c m s) as [[[|] | why] s'] eqn:Ec; try done.
    cbn [Handle_]. unfold ActionHandler_Handle, ClientCustomMessageHandler_Handle. by rewrite (bool_decide_false _ Hhb).
Qed.
(** The state in which a worker starts the only task there is. *)
Lemma run_only_task o hc c m s r s' :
  m_tasks s = [] -> task o hc c m s = (r, s') ->
  run_task o hc 0 (MkMState (m_env s) (m_userState s) (m_tasks s ++ [(c, m)]) (m_spawned s)) = (Val tt, s').
Proof.
  intros Ht Hrun. unfold run_task. cbn [m_tasks]. rewrite Ht. cbn [app lookup list_lookup delete list_delete].
  unfold bind. cbn [set_tasks modify m_env m_userState m_spawned].
  assert (E : MkMState (m_env s) (m_userState s) [] (m_spawned s) = s) by (destruct s; cbn in *; by subst).
  rewrite E, Hrun. done.
Qed.

(** A message whose default handler returns no error is handled by it alone. *)
Lemma task_handled o order c m (fn : HandlerFunc (S := S)) s s' :
  order ≡ₚ default_map -> default_table !! Action m = Some fn -> fn c m s = (Val nil_error, s') ->
  task o (default_chain order) c m s = (Val tt, s').
Proof.
  intros Hp Htab Hrun. unfold task. rewrite (bind_Val (handle o (default_chain order) c m) _ s true s'); [done |].
  rewrite handle_default, Htab by done. cbn [Handle_]. unfold ActionHandler_Handle, ClientCustomMessageHandler_Handle. rewrite bool_decide_true by done.
  by rewrite (bind_Val _ _ _ _ _ Hrun).
Qed.

Lemma Handle_submits o c m i s :
  c_ID c s = (Val i, s) -> Z.of_nat (length (m_tasks s)) < MaxMessageConcurrency o ->
  Handle o c m s = (Val nil_error, MkMState (m_env s) (m_userState s)
    (m_tasks s ++ [(c, if IsInternal (Action m) then m else set_From (UID i) m)]) (m_spawned s)).
Proof.
  intros Hid Hroom%Z.ltb_lt. unfold Handle. rewrite (bind_Val _ _ _ _ _ Hid).
  rewrite (bind_Val (gets m_tasks) _ s _ _ eq_refl). by rewrite Hroom.
Qed.
End chain.

(** ** The recording environment *)

Inductive env_call :=
  | EGateway (call : gw_call)
  | EPublish (id : ChanID) (m : message_arg)
  | EStore (m : ChatMessage)
  | EStoreOffline (m : ChatMessage)
  | ESAdd (key msg : string)
  | EExpire (key : string) (t : Z)
  | EDel (key : string).

Record Answers := MkAnswers {
  a_ids : info_ref -> ID;
  a_gateway : gw_call -> error;
  a_publish : ChanID -> message_arg -> error;
  a_store : ChatMessage -> error * ChatMessage;
  a_offline : ChatMessage -> error;
  a_members : string -> list string * error }.

Definition recorded {A} (call : env_call) (a : A) : GoM (list env_call) A := fun log => (Val a, log ++ [call]).

Section environment.
Context (a : Answers).

#[export] Instance rec_Gateway : Gateway_ (list env_call) := {|
  gw_SetClientID old new := recorded (EGateway (CSetClientID old new)) (a_gateway a (CSetClientID old new));
  gw_UpdateClient id s := recorded (EGateway (CUpdateClient id s)) (a_gateway a (CUpdateClient id s));
  gw_ExitClient id := recorded (EGateway (CExitClient id)) (a_gateway a (CExitClient id));
  gw_EnqueueMessage id m := recorded (EGateway (CEnqueueMessage id m)) (a_gateway a (CEnqueueMessage id m)) |}.

#[export] Instance rec_MsgEnv : MsgEnv (list env_call) := {|
  info_ID_of c := ret (a_ids a c);
  PublishMessage_ id m := recorded (EPublish id m) (a_publish a id m);
  StoreMessage m := recorded (EStore m) (a_store a m);
  StoreOffline m := recorded (EStoreOffline m) (a_offline a m);
  redis_SAdd key msg := recorded (ESAdd key msg) tt;
  redis_Expire key t := recorded (EExpire key t) tt;
  redis_SMembers key := ret (a_members a key);
  redis_Del key := recorded (EDel key) tt |}.

Abbreviation St := (MState (list env_call)).

(** The state after the calls [l]. *)
Definition after (l : list env_call) (s : St) : St :=
  MkMState (m_env s ++ l) (m_userState s) (m_tasks s) (m_spawned s).

Lemma after_after l l' s : after l' (after l s) = after (l ++ l') s.
Proof. unfold after. cbn. by rewrite app_assoc. Qed.
Lemma after_nil s : after [] s = s.
Proof. unfold after. rewrite app_nil_r. by destruct s. Qed.

Definition enqueued (id : ID) (m : GlideMessage) : env_call := EGateway (CEnqueueMessage id (Some m)).
Definition answered (id : ID) (m : GlideMessage) : error := a_gateway a (CEnqueueMessage id (Some m)).

Lemma m_EnqueueMessage_run id m s :
  m_EnqueueMessage id m s = (Val (answered id m), after [enqueued id m] s).
Proof. by destruct s. Qed.
Lemma c_ID_run c s : c_ID c s = (Val (a_ids a c), s).
Proof. by destruct s. Qed.

Lemma OnHandleMessageError_run o c m err s :
  OnHandleMessageError o c m err s =
    (Val tt, after (if NotifyServerError o then
       [enqueued (a_ids a c) (NewMessage (-1) ActionNotifyError (PString err))] else []) s).
Proof.
  unfold OnHandleMessageError. destruct (NotifyServerError o); [| by rewrite after_nil].
  rewrite (bind_Val _ _ _ _ _ (c_ID_run c s)). by rewrite (bind_Val _ _ _ _ _ (m_EnqueueMessage_run _ _ s)).
Qed.

(** ** Chat messages *)

Definition reached (uid : string) (m : GlideMessage) (ds : list string) : bool :=
  existsb (fun d => match answered (NewID "" uid d) m with None => true | Some _ => false end) ds.

Lemma dispatch_devices_run ds uid m : forall ok s,
  dispatch_devices ds uid m ok s =
    (Val (ok || reached uid m ds), after ((fun d => enqueued (NewID "" uid d) m) <$> ds) s).
Proof.
  induction ds as [| d ds IH]; intros ok s; cbn [dispatch_devices].
  - rewrite after_nil. cbn. by rewrite orb_false_r.
  - rewrite (bind_Val _ _ _ _ _ (m_EnqueueMessage_run _ _ s)), IH, after_after. f_equal. f_equal.
    cbn. destruct (answered _ m); [done | by rewrite orb_true_r].
Qed.

Definition must_store (m : GlideMessage) (chat : ChatMessage) : bool :=
  (cm_Mid chat =? 0) && negb (bool_decide (Action m = ActionChatMessageResend)).

(** The calls a chat message leads to once it is stored as [final]. *)
Definition delivery (c : info_ref) (final : ChatMessage) : list env_call :=
  enqueued (a_ids a c) (ack_message final) ::
  ((fun d => enqueued (NewID "" (cm_To final) d) (push_message final)) <$> devices) ++
  (if reached (cm_To final) (push_message final) devices then []
   else [enqueued (NewID2 (cm_To final)) (ack_notify final); EStoreOffline final]).

Lemma deliver_run c final s :
  (let! _ := ackChatMessage c final in
   let! ok := dispatchAllDevice (cm_To final) (push_message final) in
   if ok : bool then ret nil_error
   else let! _ := ackNotifyMessage final in dispatchOffline final) s =
  (Val (if reached (cm_To final) (push_message final) devices then nil_error else a_offline a final),
   after (delivery c final) s).
Proof.
  erewrite (bind_Val (ackChatMessage c final)).
  2: { unfold ackChatMessage. rewrite (bind_Val _ _ _ _ _ (c_ID_run c s)). apply m_EnqueueMessage_run. }
  erewrite (bind_Val (dispatchAllDevice _ _)) by apply dispatch_devices_run.
  cbn [orb]. rewrite after_after. unfold delivery.
  destruct (reached _ _ _); [by rewrite app_nil_r |].
  unfold ackNotifyMessage. rewrite (bind_Val _ _ _ _ _ (m_EnqueueMessage_run _ _ _)).
  rewrite after_after. transitivity (Val (a_offline a final), after [EStoreOffline final]
    (after (([enqueued (a_ids a c) (ack_message final)] ++
      ((fun d => enqueued (NewID "" (cm_To final) d) (push_message final)) <$> devices)) ++
      [enqueued (NewID2 (cm_To final)) (ack_notify final)]) s)); [done |].
  rewrite after_after, <- !app_assoc. done.
Qed.

(** C35: a chat message is sent on as its sender's, whatever sender it names. If it is new it is stored
    first, and when that fails nothing else happens. Otherwise its sender is acknowledged and it is
    offered to every device of its receiver; when no device takes it, the receiver's acknowledgement
    is sent and it is stored offline. So a message the sender saw acknowledged was taken by a device or
    given to the offline store. *)
Theorem chat_message_outcome c m chat s :
  Deserialize (Data m) zero_ChatMessage = (nil_error, chat) ->
  let sent := with_sender (UID (a_ids a c)) (To m) chat in
  if must_store m chat then
    match a_store a sent with
    | (Some err, _) => handleChatMessage c m s = (Val (Some err), after [EStore sent] s)
    | (None, final) =>
        handleChatMessage c m s =
          (Val (if reached (cm_To final) (push_message final) devices then nil_error else a_offline a final),
           after (EStore sent :: delivery c final) s)
    end
  else handleChatMessage c m s =
         (Val (if reached (cm_To sent) (push_message sent) devices then nil_error else a_offline a sent),
          after (delivery c sent) s).
Proof.
  intros Hd sent. unfold handleChatMessage, unmarshalData. rewrite Hd, (bind_Val _ _ _ _ _ (c_ID_run c s)).
  fold sent. change (cm_Mid sent =? 0) with (cm_Mid chat =? 0). fold (must_store m chat).
  destruct (must_store m chat).
  - destruct (a_store a sent) as [err final] eqn:Hst.
    erewrite (bind_Val (env (StoreMessage sent)) _ _ (err, final) (after [EStore sent] s))
      by (cbn; unfold env, zoom, recorded; cbn; by rewrite Hst).
    destruct err as [err |]; [done |].
    rewrite deliver_run, after_after. done.
  - rewrite (bind_Val (ret (nil_error, sent)) _ s _ _ eq_refl). apply deliver_run.
Qed.

(** ** From the entry point to the handler *)

Definition stamped (c : info_ref) (m : GlideMessage) : GlideMessage :=
  if IsInternal (Action m) then m else set_From (UID (a_ids a c)) m.

Lemma Handle_run o c m s :
  Z.of_nat (length (m_tasks s)) < MaxMessageConcurrency o ->
  Handle o c m s = (Val nil_error, MkMState (m_env s) (m_userState s) (m_tasks s ++ [(c, stamped c m)]) (m_spawned s)).
Proof.
  apply Handle_submits, c_ID_run.
Qed.

(** A message of the default table is the business of its handler alone. *)
Lemma task_default o order c m (fn : HandlerFunc (S := list env_call)) s e s' :
  order ≡ₚ default_map -> default_table !! Action m = Some fn -> fn c m s = (Val e, s') ->
  task o (default_chain order) c m s =
    (Val tt, after (match e with
                    | Some err => if NotifyServerError o
                        then [enqueued (a_ids a c) (NewMessage (-1) ActionNotifyError (PString err))] else []
                    | None => []
                    end) s').
Proof.
  intros Hp Htab Hrun. unfold task.
  match goal with |- _ = (_, ?s'') => assert (Hh : handle o (default_chain order) c m s = (Val true, s'')) end.
  2: by rewrite (bind_Val _ _ _ _ _ Hh).
  rewrite handle_default, Htab by done. cbn [Handle_]. unfold ActionHandler_Handle, ClientCustomMessageHandler_Handle. rewrite bool_decide_true by done.
  rewrite (bind_Val _ _ _ _ _ Hrun). destruct e as [err |]; cbn [report].
  - by rewrite (bind_Val _ _ _ _ _ (OnHandleMessageError_run o c m err s')).
  - by rewrite after_nil.
Qed.

Lemma env_publish_run id m s : env (PublishMessage_ id m) s = (Val (a_publish a id m), after [EPublish id m] s).
Proof. by destruct s. Qed.

(** a group message reaches the subscription service in its sender's name, for the channel it
    names, whatever sender it claims, exactly once; the sender gets one reply: the acknowledgement, or
    the error. *)
Theorem group_message_speaks_for_its_sender o order c m cm s :
  order ≡ₚ default_map -> Action m = ActionGroupMessage ->
  Deserialize (Data m) zero_ChatMessage = (nil_error, cm) ->
  m_tasks s = [] -> 0 < MaxMessageConcurrency o ->
  let pub := AsPublish (MkPublishMessage (UID (a_ids a c)) [] 0 TypeMessage (Some (set_From (UID (a_ids a c)) m))) in
  exists s', Handle o c m s = (Val nil_error, s') /\
    run_task o (default_chain order) 0 s' =
      (Val tt, after [EPublish (To m) pub;
        enqueued (a_ids a c) (match a_publish a (To m) pub with
                              | Some err => NewMessage (Seq m) ActionNotifyError (PString err)
                              | None => ack_message cm
                              end)] s).
Proof.
  intros Hp Hact Hd Ht Hroom pub. eexists. split; [apply Handle_run; by rewrite Ht |].
  assert (Hst : stamped c m = set_From (UID (a_ids a c)) m) by (unfold stamped; by rewrite Hact). rewrite Hst.
  apply run_only_task with (r := Val tt); [done |].
  erewrite (task_default _ _ _ _ handleGroupMsg _ nil_error); [by rewrite after_nil | done | | ].
  - change (default_table !! Action m = Some handleGroupMsg). by rewrite Hact.
  - unfold handleGroupMsg. change (Data (set_From _ m)) with (Data m). rewrite Hd.
    rewrite (bind_Val _ _ _ _ _ (env_publish_run _ _ s)). change (To (set_From _ m)) with (To m).
    change (From (set_From ?x m)) with x. fold pub. destruct (a_publish a (To m) pub) as [err |].
    + rewrite (bind_Val _ _ _ _ _ (c_ID_run c _)). unfold enqueueMessage.
      erewrite (bind_Val (bind (m_EnqueueMessage _ _) _))
        by (rewrite (bind_Val _ _ _ _ _ (m_EnqueueMessage_run _ _ _)); reflexivity).
      rewrite after_after. done.
    + unfold ackChatMessage. erewrite (bind_Val (bind (c_ID c) _))
        by (rewrite (bind_Val _ _ _ _ _ (c_ID_run c _)); apply m_EnqueueMessage_run).
      rewrite after_after. done.
Qed.

(** a message whose action has no default handler is not lost silently: it is answered with one
    message that names the action, unless the action is an internal one or the custom action, which is
    relayed to every device of its receiver. *)
Theorem unknown_action_is_answered o order c m s :
  order ≡ₚ default_map -> default_table !! Action m = None ->
  task o (default_chain order) c m s =
    (Val tt, after
      (if bool_decide (Action m = ActionClientCustom)
       then (fun d => enqueued (NewID "" (To m) d) m) <$> devices
       else if IsInternal (Action m) then []
       else [enqueued (a_ids a c) (NewMessage (Seq m) ActionNotifyUnknownAction (PAction (Action m)))]) s).
Proof.
  intros Hp Htab. unfold task.
  assert (Hh : handle o (default_chain order) c m s =
    if bool_decide (Action m = ActionClientCustom)
    then (Val true, after ((fun d => enqueued (NewID "" (To m) d) m) <$> devices) s) else (Val false, s)).
  { rewrite handle_default, Htab by done. cbn [Handle_]. unfold ActionHandler_Handle, ClientCustomMessageHandler_Handle. case_bool_decide; [| done].
    erewrite (bind_Val (dispatch2AllDevice _ _)); [reflexivity |]. destruct s. unfold after. cbn. by rewrite <- !app_assoc. }
  unfold bind at 1. rewrite Hh. case_bool_decide; [done |]. destruct (IsInternal (Action m)); [by rewrite after_nil |].
  rewrite (bind_Val _ _ _ _ _ (c_ID_run c s)). by rewrite (bind_Val _ _ _ _ _ (m_EnqueueMessage_run _ _ s)).
Qed.
End environment.

(** the default chain is a table from actions to handlers: whatever the order in which the map of
    handlers is ranged over, each message runs the same handler with the same effects. *)
Theorem dispatch_ignores_registration_order {S} `{Gateway_ S} `{MsgEnv S} o order order' :
  order ≡ₚ default_map (S := S) -> order' ≡ₚ default_map ->
  forall c m s,
    handle o (default_chain order) c m s = handle o (default_chain order') c m s /\
    (forall fn, (Action m, fn) ∈ default_map (S := S) ->
       handle o (default_chain order) c m s = Handle_ o (ActionHandler (Action m) fn) c m s).
Proof.
  intros Hp Hp' c m s. split; [by rewrite !handle_default by done |].
  intros fn Hin. rewrite handle_default by done.
  assert (E : default_table (S := S) !! Action m = Some fn)
    by (apply elem_of_list_to_map_1; [apply default_map_NoDup | done]).
  by rewrite E.
Qed.

(** ** Concrete runs *)

Definition demo_answers : Answers :=
  MkAnswers (fun c => match c with InfoOf _ => NewID "g1" "alice" "" | InfoCopy i => info_ID i end)
    (fun call => match call with
                 | CEnqueueMessage id _ => if bool_decide (UID id = "bob") then errors_New errClientNotExist else nil_error
                 | _ => nil_error
                 end)
    (fun _ _ => nil_error)
    (fun m => (nil_error, MkChatMessage (cm_CliMid m) 77 (cm_Seq m) (cm_From m) (cm_To m) (cm_Type m) (cm_Content m) (cm_SendAt m)))
    (fun _ => nil_error) (fun _ => ([], nil_error)).

#[local] Instance demo_Gateway : Gateway_ (list env_call) := rec_Gateway demo_answers.
#[local] Instance demo_MsgEnv : MsgEnv (list env_call) := rec_MsgEnv demo_answers.

Definition demo_start : MState (list env_call) := MkMState [] NewUserState [] [].
Definition demo_options : Options := MkOptions true 10 "too many goroutines blocked on submit or Nonblocking is set".

(** [alice] writes to [bob], who is offline, under the name of [carol]. *)
Definition demo_chat : ChatMessage := MkChatMessage "c1" 0 4 "carol" "dave" 1 "hello" 9.
Definition demo_to_bob (action : string) : GlideMessage :=
  MkGlideMessage 1 3 action "carol" "bob" (Some (PBytes (encode_ChatMessage demo_chat))) "" "" "" ∅.

Lemma chat_message_outcome_witness :
  exists final, cm_From final = "alice" /\ cm_To final = "bob" /\ cm_Mid final = 77 /\
    handleChatMessage (InfoOf 0) (demo_to_bob ActionChatMessage) demo_start =
      (Val nil_error, after (EStore (with_sender "alice" "bob" demo_chat) :: delivery demo_answers (InfoOf 0) final) demo_start).
Proof.
  exists (a_store demo_answers (with_sender "alice" "bob" demo_chat)).2.
  split; [reflexivity |]. split; [reflexivity |]. split; [reflexivity |].
  refine (chat_message_outcome demo_answers (InfoOf 0) (demo_to_bob ActionChatMessage) demo_chat demo_start _).
  vm_compute. reflexivity.
Defined.

Lemma group_message_speaks_for_its_sender_witness :
  exists s', Handle demo_options (InfoOf 0) (demo_to_bob ActionGroupMessage) demo_start = (Val nil_error, s') /\
    m_env (run_task demo_options (default_chain default_map) 0 s').2 =
      [EPublish "bob" (AsPublish (MkPublishMessage "alice" [] 0 TypeMessage (Some (set_From "alice" (demo_to_bob ActionGroupMessage)))));
       enqueued (NewID "g1" "alice" "") (ack_message demo_chat)].
Proof.
  destruct (group_message_speaks_for_its_sender demo_answers demo_options default_map (InfoOf 0)
    (demo_to_bob ActionGroupMessage) demo_chat demo_start) as (s' & H1 & H2).
  - reflexivity.
  - reflexivity.
  - vm_compute. reflexivity.
  - reflexivity.
  - reflexivity.
  - exists s'. split; [exact H1 |]. exact (f_equal (fun x => m_env x.2) H2).
Defined.

(** A resent chat message has no handler: its sender is told that the action is unknown. *)
Lemma unknown_action_is_answered_witness :
  m_env (task demo_options (default_chain default_map) (InfoOf 0) (demo_to_bob ActionChatMessageResend) demo_start).2 =
    [enqueued (NewID "g1" "alice" "") (NewMessage 3 ActionNotifyUnknownAction (PAction ActionChatMessageResend))].
Proof.
  refine (f_equal (fun x => m_env x.2) (unknown_action_is_answered demo_answers demo_options default_map (InfoOf 0)
    (demo_to_bob ActionChatMessageResend) demo_start _ _)); [reflexivity | vm_compute; reflexivity].
Defined.

Lemma dispatch_ignores_registration_order_witness :
  handle demo_options (default_chain (reverse default_map)) (InfoOf 0) (demo_to_bob ActionChatMessage) demo_start =
  handle demo_options (default_chain default_map) (InfoOf 0) (demo_to_bob ActionChatMessage) demo_start.
Proof.
  apply (dispatch_ignores_registration_order demo_options (reverse default_map) default_map).
  - apply reverse_Permutation.
  - reflexivity.
Defined.

(** A client can announce itself offline while it stays connected: internal actions are not refused. *)
Example forged_presence :
  m_spawned (run_task demo_options (default_chain default_map) 0
    (Handle demo_options (InfoOf 0) (demo_to_bob ActionInternalOffline) demo_start).2).2 =
  [WorldOffline (NewID "g1" "alice" "")].
Proof. vm_compute. reflexivity. Qed.
