(* ===== verification/GateFrame.v ===== *)
(** * What an operation of the gateway leaves as it was

    Every operation but a new connection changes the clients by the same few updates, and the rest of the
    gateway without forgetting what its handler was called with: [framed K] is that these keep the property [K] of
    the gateway, and then every operation does. [at_client d r A] is that the clients are [d], and that the client [r] has the
    property [A], which exiting, queueing, renaming and writing keep if [stable A]; authenticating changes its credentials
    and its configuration too, reading its count of lost heartbeats. So no operation brings a client
    back ([stable_running]). [saw e] is that the handler was called with [e]. *)

From S2P Require Import Prelude GoStrings Json Messages GateId Credentials Gate.

Local Open Scope Z_scope.
Local Open Scope go_scope.

Record stable (A : UserClient -> Prop) : Prop := {
  stable_closed c : A c -> A (with_state stateClosed c);
  stable_messages q l c : A c -> A (with_messages q l c);
  stable_closing a b c : A c -> A (with_closing a b c);
  stable_info i c : A c -> A (with_info i c);
  stable_mgr a b c : A c -> A (with_mgr a b c);
  stable_flushing f c : A c -> A (with_flushing f c);
  stable_conn b l c : A c -> A (with_conn b l c) }.

(** An update of a client that keeps what is stable. *)
Definition basic (f : UserClient -> UserClient) : Prop := forall A, stable A -> forall c, A c -> A (f c).

(** A change of the gateway around its clients. *)
Definition tame (f : World -> World) : Prop := forall w, heap (f w) = heap w /\ handled w ⊆ handled (f w).

Record framed (K : World -> Prop) : Prop := {
  framed_client r f : basic f -> preserves K (upd_client r f);
  framed_modify f : tame f -> preserves K (modify f) }.

(** ** Properties of one client *)

Definition at_client (d : gset nat) (r : nat) (A : UserClient -> Prop) (w : World) : Prop :=
  dom (heap w) = d /\ forall c, heap w !! r = Some c -> A c.

(** Properties that exiting keeps: of the clients that run, and of the configuration. *)
Lemma stable_running (B : Z -> Prop) : stable (fun c => state c = stateRunning -> B (hbLost c)).
Proof. by split. Qed.
Lemma stable_config (B : ClientConfig -> Prop) : stable (fun c => B (config c)).
Proof. by split. Qed.

Section at_client.
Context (d : gset nat) (r : nat) (A : UserClient -> Prop).
Abbreviation kept := (preserves (at_client d r A)).

Lemma kept_get_client r0 : kept (get_client r0).
Proof. intros w Hw. unfold get_client. by destruct (heap w !! r0). Qed.

Lemma kept_upd_client r0 f : (r0 = r -> forall c, A c -> A (f c)) -> kept (upd_client r0 f).
Proof.
  intros Hf w [Hd Hw]. unfold upd_client, modify. cbn [snd]. split; cbn [heap set_heap]; [by rewrite dom_alter_L |].
  intros c Hc. destruct (decide (r0 = r)) as [-> | Hne].
  - rewrite lookup_alter_eq in Hc. destruct (heap w !! r) as [c0 |] eqn:Hr; [| done]. injection Hc as <-. auto.
  - rewrite lookup_alter_ne in Hc by done. auto.
Qed.

Lemma kept_modify f : (forall w, heap (f w) = heap w) -> kept (modify f).
Proof. intros Hf w [Hd Hw]. unfold modify. cbn [snd]. split; by rewrite Hf. Qed.

Lemma at_client_framed : stable A -> framed (at_client d r A).
Proof.
  intros HA. split.
  - intros r0 f Hf. apply kept_upd_client. intros _ c Hc. by apply Hf.
  - intros f Hf. apply kept_modify. intros w. by destruct (Hf w).
Qed.

Lemma kept_credentials r0 cr :
  stable A -> (r0 = r -> forall o cf c, A c -> A (with_credentials o cf c)) -> kept (SetCredentials r0 cr).
Proof. intros HA Hcr. apply kept_upd_client. intros E c Hc. apply Hcr; [done | by apply HA]. Qed.
End at_client.

(** ** What the handler was called with *)

Definition saw (e : info_ref * GlideMessage) (w : World) : Prop := e ∈ handled w.

Lemma saw_upd_client e r f : preserves (saw e) (upd_client r f).
Proof. by intros w Hw. Qed.

Lemma saw_framed e : framed (saw e).
Proof.
  split; [intros; apply saw_upd_client |]. intros f Hf w Hw. unfold modify. cbn [snd]. destruct (Hf w) as [_ Hs]. by apply Hs.
Qed.

(** ** The operations *)

Section frame.
Context (K : World -> Prop) (HK : framed K).
Abbreviation kept := (preserves K).

Lemma frame_get_client r0 : kept (get_client r0).
Proof. intros w Hw. unfold get_client. by destruct (heap w !! r0). Qed.

#[local] Hint Extern 1 (preserves _ (modify _)) => apply HK; intros ?; cbn; set_solver : preserves.
#[local] Hint Extern 1 (preserves _ (call_handler _ _)) => apply HK; intros ?; cbn; set_solver : preserves.
#[local] Hint Extern 1 (preserves _ (upd_client _ _)) => apply HK; intros ? HA ? ?; by apply HA : preserves.
#[local] Hint Extern 1 (preserves _ (SetID _ _)) => apply HK; intros ? HA ? ?; by apply HA : preserves.
#[local] Hint Extern 1 (preserves _ (gateway_id _)) => apply preserves_gets : preserves.
#[local] Hint Extern 1 (preserves _ (lookup_client _)) => apply preserves_gets : preserves.
#[local] Hint Resolve frame_get_client : preserves.

Lemma frame_client_EnqueueMessage r0 m : kept (client_EnqueueMessage r0 m).
Proof.
  unfold client_EnqueueMessage. apply preserves_bind; [apply frame_get_client | intros c0].
  repeat preserves_step.
Qed.
Lemma frame_IsRunning r0 : kept (IsRunning r0).
Proof. unfold IsRunning. repeat preserves_step. Qed.
Lemma frame_stop r0 : kept (stop r0).
Proof. unfold stop, stopReadWrite, close_client. repeat preserves_step. Qed.
#[local] Hint Resolve frame_client_EnqueueMessage frame_IsRunning frame_stop : preserves.
Lemma frame_Exit_no_id r0 : kept (Exit_no_id r0).
Proof. unfold Exit_no_id. repeat preserves_step. Qed.
#[local] Hint Resolve frame_Exit_no_id : preserves.
Lemma frame_ExitClient id : kept (ExitClient id).
Proof. unfold ExitClient. repeat preserves_step. Qed.
#[local] Hint Resolve frame_ExitClient : preserves.
Lemma frame_Exit r0 : kept (Exit r0).
Proof. unfold Exit. repeat preserves_step. Qed.
Lemma frame_SetClientID old new : kept (SetClientID old new).
Proof. unfold SetClientID. repeat preserves_step. Qed.
Lemma frame_gate_enqueue r0 m : kept (gate_enqueue r0 m).
Proof. unfold gate_enqueue. repeat preserves_step. Qed.
#[local] Hint Resolve frame_Exit frame_SetClientID frame_gate_enqueue : preserves.
Lemma frame_EnqueueMessage id m : kept (EnqueueMessage id m).
Proof. unfold EnqueueMessage. repeat preserves_step. Qed.
#[local] Hint Resolve frame_EnqueueMessage : preserves.
Lemma frame_MessageInterceptor r0 m : kept (MessageInterceptor r0 m).
Proof. unfold MessageInterceptor, forbid. repeat preserves_step. Qed.
#[local] Hint Resolve frame_MessageInterceptor : preserves.

(** ** Credentials *)

Section credentials.
Context (r0 : nat) (Hcr : forall cr, kept (SetCredentials r0 cr)).
#[local] Hint Resolve Hcr : preserves.

Lemma frame_updateClient cr : kept (updateClient r0 cr).
Proof. unfold updateClient, take_random. repeat preserves_step. Qed.
#[local] Hint Resolve frame_updateClient : preserves.

Context `{BlockCipher}.

Lemma frame_on_nil (m : GoM World bool) : kept m -> kept (on_nil m).
Proof. intros Hm w Hw. unfold on_nil. specialize (Hm w Hw). by destruct (m w) as [[[|] |] w']. Qed.
#[local] Hint Resolve frame_on_nil : preserves.

Lemma frame_client_handler m : kept (client_handler r0 m).
Proof.
  unfold client_handler, interceptClientMessage, ClientAuthMessageInterceptor, read_credentials. repeat preserves_step.
Qed.

Lemma frame_handleHello m : kept (handleHello r0 m).
Proof. unfold handleHello. repeat preserves_step. Qed.
#[local] Hint Resolve frame_client_handler frame_handleHello : preserves.

Lemma frame_runRead ev : (forall n, kept (upd_client r0 (with_hbLost n))) -> kept (runRead r0 ev).
Proof. intros Hhb. unfold runRead. repeat preserves_step. Qed.
#[local] Hint Resolve frame_runRead : preserves.

Lemma frame_recovered m : kept m -> kept (recovered r0 m).
Proof.
  intros Hm w Hw. unfold recovered. specialize (Hm w Hw). destruct (m w) as [[a | why] w']; [done |].
  apply (preserves_bind K (Exit r0)); [apply frame_Exit | intros; apply preserves_ret | done].
Qed.

Lemma frame_read_loop evs : (forall n, kept (upd_client r0 (with_hbLost n))) -> kept (read_loop r0 evs).
Proof.
  intros Hhb. induction evs as [| ev evs IH]; cbn [read_loop]; [apply preserves_ret |].
  apply preserves_bind; [by apply frame_recovered, frame_runRead |]. intros [|]; [done | apply preserves_ret].
Qed.
End credentials.

Lemma frame_UpdateClient id secrets :
  (forall r0 cr, kept (SetCredentials r0 cr)) -> kept (UpdateClient id secrets).
Proof. intros Hcr. unfold UpdateClient. repeat preserves_step. Qed.

(** ** Writing *)

Lemma frame_write2Conn r0 m ok : kept (write2Conn r0 m ok).
Proof.
  unfold write2Conn. destruct (encode_ptr m); [| apply preserves_ret]. apply HK. intros A HA c Hc.
  destruct ok; repeat apply HA; exact Hc.
Qed.
#[local] Hint Resolve frame_write2Conn : preserves.
Lemma frame_runWrite r0 ev : kept (runWrite r0 ev).
Proof. unfold runWrite. repeat preserves_step. Qed.
Lemma frame_flush r0 ok : kept (flush r0 ok).
Proof. unfold flush, close_client. repeat preserves_step. Qed.
Lemma frame_run_pool n : kept (run_pool n).
Proof. unfold run_pool. repeat preserves_step. Qed.
End frame.
