(* ===== verification/GateSpec.v ===== *)
(** * The gateway's invariant and properties

    [gate_inv] relates the gateway's map to the clients in the store and to the presence events
    it sent; every step of the gateway keeps it ([gate_invariant]). The other theorems say what
    each operation does on each of its branches. *)

From S2P Require Import Prelude GoStrings Json Messages GateId Digest Credentials Gate GateFrame.

Local Open Scope Z_scope.
Local Open Scope go_scope.

(** ** Running the primitives *)

Lemma alter_as_insert {A} (f : A -> A) (h : gmap nat A) r c :
  h !! r = Some c -> alter f r h = <[r := f c]> h.
Proof.
  intros Hr. apply map_eq. intros i. destruct (decide (i = r)) as [-> | Hne].
  - by rewrite lookup_alter_eq, lookup_insert_eq, Hr.
  - by rewrite lookup_alter_ne, lookup_insert_ne.
Qed.

Lemma get_client_run r c w : heap w !! r = Some c -> get_client r w = (Val c, w).
Proof. intros H. unfold get_client. by rewrite H. Qed.

Lemma upd_client_run r f c w :
  heap w !! r = Some c -> upd_client r f w = (Val tt, set_heap (<[r := f c]> (heap w)) w).
Proof. intros H. unfold upd_client, modify. by rewrite (alter_as_insert _ _ _ _ H). Qed.

Lemma set_heap_twice h h' w : set_heap h (set_heap h' w) = set_heap h w.
Proof. done. Qed.
Lemma set_heap_same w : set_heap (heap w) w = w.
Proof. by destruct w. Qed.

(** One primitive at the head of a body. *)
Ltac client_lookup := cbn [heap set_heap set_clients add_handled set_pool set_random clients];
  rewrite ?lookup_insert_eq; first [done | eassumption].
Ltac run_step :=
  match goal with
  | |- context [bind (get_client ?r) ?k ?w] =>
      erewrite (bind_Val (get_client r) k w) by (apply get_client_run; client_lookup)
  | |- context [bind (upd_client ?r ?f) ?k ?w] =>
      erewrite (bind_Val (upd_client r f) k w) by (apply upd_client_run; client_lookup)
  | |- context [bind (SetID ?r ?id) ?k ?w] =>
      erewrite (bind_Val (SetID r id) k w) by (apply upd_client_run; client_lookup)
  | |- context [bind (gets ?f) ?k ?w] => rewrite (bind_Val (gets f) k w _ _ eq_refl)
  | |- context [bind (modify ?f) ?k ?w] => rewrite (bind_Val (modify f) k w _ _ eq_refl)
  | |- context [bind (ret ?a) ?k ?w] => rewrite (bind_Val (ret a) k w _ _ eq_refl)
  end; cbn [heap set_heap set_clients add_handled set_pool set_random clients gate_id pool pool_cap];
       rewrite ?insert_insert_eq.

(** ** Routing *)

Lemma route_idem g i : route g (route g i) = route g i.
Proof.
  unfold route at 2 3, SetGateway. destruct (strings_HasPrefix i g) eqn:Hp; [by apply route_id |].
  cbn [snd].
  destruct (strings_Split i idSeparator) as [| a [| u [| d [| ? ?]]]] eqn:Hs; cbn [snd];
    try (unfold route, SetGateway; rewrite Hp, Hs; done).
  apply route_same.
Qed.

(** ** What [Exit] leaves of a client *)

Definition exited (c : UserClient) : UserClient :=
  let c := with_closing true true
    (with_mgr false (intercepted c) (with_info (set_info_ID "" (info c)) (with_state stateClosed c))) in
  if CloseImmediately (config c) then with_conn true (conn c ++ [ConnClosed]) c else with_flushing true c.

Definition renamed (id : ID) (c : UserClient) : UserClient := with_info (set_info_ID id (info c)) c.

Lemma stop_run r c w :
  heap w !! r = Some c -> state c = stateClosed -> messages_closed c = false ->
  stop r w = (Val tt, set_heap (<[r := exited c]> (heap w)) w).
Proof.
  intros Hr Hs Hm. unfold stop, stopReadWrite. do 4 run_step. cbn [config with_closing with_mgr with_info].
  assert (Hc : with_state stateClosed c = c) by (by destruct c; simpl in *; subst).
  unfold exited. rewrite Hc. cbn [config with_closing with_mgr with_info].
  destruct (CloseImmediately (config c)).
  - unfold close_client. run_step. cbn [messages_closed with_closing with_mgr with_info]. rewrite Hm.
    erewrite upd_client_run by client_lookup. cbn [heap set_heap]. by rewrite insert_insert_eq, set_heap_twice.
  - erewrite upd_client_run by client_lookup. cbn [heap set_heap]. by rewrite insert_insert_eq, set_heap_twice.
Qed.

Lemma close_client_run r c w :
  heap w !! r = Some c -> messages_closed c = false ->
  close_client r w = (Val tt, set_heap (<[r := with_conn true (conn c ++ [ConnClosed]) c]> (heap w)) w).
Proof. intros Hr Hm. unfold close_client. run_step. rewrite Hm. by rewrite (upd_client_run r _ c w Hr). Qed.

Lemma Exit_closed_run r c w : heap w !! r = Some c -> state c = stateClosed -> Exit r w = (Val tt, w).
Proof. intros Hr Hs. unfold Exit. run_step. by rewrite Hs. Qed.

Lemma Exit_no_id_run r c w :
  heap w !! r = Some c -> state c <> stateClosed -> messages_closed c = false ->
  Exit_no_id r w = (Val tt, set_heap (<[r := exited c]> (heap w)) w).
Proof.
  intros Hr Hs Hm. unfold Exit_no_id. run_step.
  assert (Hb : (if state c is stateClosed then true else false) = false) by (by destruct (state c)).
  rewrite Hb. run_step. erewrite stop_run by (done || client_lookup).
  cbn [heap set_heap]. rewrite insert_insert_eq, set_heap_twice. by unfold exited.
Qed.

(** ** [ExitClient] and [Exit] *)

Definition leave (id : ID) (r : nat) (c : UserClient) (w : World) : World :=
  add_handled (InfoCopy (info c), internal ActionInternalOffline id)
    (set_clients (delete id (clients w)) (set_heap (<[r := exited c]> (heap w)) w)).

Lemma exited_renamed id c : exited (renamed id c) = exited c.
Proof. by destruct c as [? ? ? ? ? ? ? [] ? ? ? ? ? ?]. Qed.

Lemma ExitClient_run id r c w :
  clients w !! route (gate_id w) id = Some r -> heap w !! r = Some c -> state c <> stateClosed -> messages_closed c = false ->
  ExitClient id w = (Val nil_error, leave (route (gate_id w) id) r c w).
Proof.
  intros Hid Hr Hs Hm. unfold ExitClient, gateway_id, lookup_client. do 2 run_step. rewrite Hid.
  do 2 run_step. run_step. unfold call_handler. run_step.
  erewrite (bind_Val (Exit_no_id r)) by (apply (Exit_no_id_run _ (renamed "" c)); [client_lookup | done | done]).
  rewrite exited_renamed. unfold leave. cbn [heap set_heap set_clients add_handled].
  rewrite insert_insert_eq. reflexivity.
Qed.

Lemma ExitClient_unknown id w :
  clients w !! route (gate_id w) id = None -> ExitClient id w = (Val (errors_New errClientNotExist), w).
Proof. intros Hid. unfold ExitClient, gateway_id, lookup_client. do 2 run_step. by rewrite Hid. Qed.

(** The manager calls [Exit] back on a client that is already closed: nothing more happens. *)
Lemma ExitClient_closed_run id r c w :
  clients w !! route (gate_id w) id = Some r -> heap w !! r = Some c -> state c = stateClosed ->
  ExitClient id w = (Val nil_error,
    add_handled (InfoCopy (info c), internal ActionInternalOffline (route (gate_id w) id))
      (set_clients (delete (route (gate_id w) id) (clients w)) (set_heap (<[r := renamed "" c]> (heap w)) w))).
Proof.
  intros Hid Hr Hs. unfold ExitClient, gateway_id, lookup_client. do 2 run_step. rewrite Hid.
  do 2 run_step. run_step. unfold call_handler. run_step.
  erewrite (bind_Val (Exit_no_id r)); [reflexivity |].
  unfold Exit_no_id. erewrite bind_Val by (apply get_client_run; client_lookup).
  cbn [state with_info]. rewrite Hs. reflexivity.
Qed.

Lemma exited_closed c : exited (renamed "" (with_state stateClosed c)) = exited c.
Proof. by destruct c as [? ? ? ? ? ? ? [] ? ? ? ? ? ?]. Qed.

(** [Exit] of a registered client. *)
Lemma Exit_run r c w :
  heap w !! r = Some c -> state c <> stateClosed -> messages_closed c = false -> has_mgr c = true -> info_ID (info c) <> "" ->
  clients w !! route (gate_id w) (info_ID (info c)) = Some r ->
  Exit r w = (Val tt, leave (route (gate_id w) (info_ID (info c))) r c w).
Proof.
  intros Hr Hs Hmc Hm Hne Hid. unfold Exit. run_step.
  assert (Hb : (if state c is stateClosed then true else false) = false) by (by destruct (state c)).
  rewrite Hb, Hm, (bool_decide_false _ Hne). cbn [negb andb]. run_step.
  erewrite (bind_Val (bind (ExitClient _) _)).
  2: { erewrite (bind_Val (ExitClient _)); [reflexivity |].
       apply (ExitClient_closed_run _ r (with_state stateClosed c)); [done | client_lookup | done]. }
  erewrite (stop_run r (renamed "" (with_state stateClosed c))); [| client_lookup | done | done].
  rewrite exited_closed. unfold leave. cbn [heap set_heap set_clients add_handled clients gate_id].
  rewrite !insert_insert_eq. reflexivity.
Qed.

(** ** The other operations *)

Lemma SetClientID_run old new r c w :
  let o := route (gate_id w) old in let n := route (gate_id w) new in
  clients w !! o = Some r -> clients w !! n = None -> heap w !! r = Some c ->
  SetClientID old new w = (Val nil_error,
    set_clients (<[n := r]> (delete o (clients w)))
      (add_handled (InfoCopy (info (renamed n c)), internal ActionInternalOnline n)
        (add_handled (InfoCopy (info c), internal ActionInternalOffline o)
          (set_heap (<[r := renamed n c]> (heap w)) w)))).
Proof.
  intros o n Ho Hn Hr. unfold SetClientID, gateway_id, lookup_client. do 3 run_step. fold o n. rewrite Ho.
  run_step. rewrite Hn. do 4 run_step. unfold call_handler. do 3 run_step. reflexivity.
Qed.

Lemma SetClientID_unknown old new w :
  clients w !! route (gate_id w) old = None ->
  SetClientID old new w = (Val (errors_New errClientNotExist), w).
Proof. intros Ho. unfold SetClientID, gateway_id, lookup_client. do 3 run_step. by rewrite Ho. Qed.

Lemma SetClientID_taken old new r r' w :
  clients w !! route (gate_id w) old = Some r -> clients w !! route (gate_id w) new = Some r' ->
  SetClientID old new w = (Val (errors_New errClientAlreadyExist), w).
Proof.
  intros Ho Hn. unfold SetClientID, gateway_id, lookup_client. do 3 run_step. rewrite Ho.
  run_step. by rewrite Hn.
Qed.

(** The client's queue after a message was offered to it. *)
Definition queued_one (m : option GlideMessage) (c : UserClient) : UserClient :=
  if (length (messages c) <? msgs_cap)%nat
  then with_messages (int64 (queuedMessage c + 1)) (messages c ++ [m]) c else c.

Lemma client_EnqueueMessage_run r m c w :
  heap w !! r = Some c -> state c <> stateClosed -> messages_closed c = false ->
  client_EnqueueMessage r m w = (Val nil_error, set_heap (<[r := queued_one m c]> (heap w)) w).
Proof.
  intros Hr Hs Hm. unfold client_EnqueueMessage, queued_one. run_step.
  assert (Hb : (if state c is stateClosed then true else false) = false) by (by destruct (state c)).
  rewrite Hb, Hm. destruct (_ <? _)%nat.
  - run_step. done.
  - rewrite insert_id, set_heap_same by done. done.
Qed.

Lemma client_EnqueueMessage_closed r m c w :
  heap w !! r = Some c -> state c = stateClosed ->
  client_EnqueueMessage r m w = (Val (errors_New "client has closed"), w).
Proof. intros Hr Hs. unfold client_EnqueueMessage. run_step. by rewrite Hs. Qed.

Lemma gate_enqueue_run r m c w :
  heap w !! r = Some c ->
  gate_enqueue r m w =
    (if (if state c is stateRunning then true else false)
     then if Z.of_nat (length (pool w)) <? pool_cap w then (Val nil_error, set_pool (pool w ++ [(r, m)]) w)
          else (Val (errors_New "enqueue message to client failed"), w)
     else (Val (errors_New errClientClosed), w)).
Proof.
  intros Hr. unfold gate_enqueue, IsRunning.
  erewrite (bind_Val (bind (get_client r) _)) by (by erewrite (bind_Val (get_client r)) by (by apply get_client_run)).
  destruct (state c); try done. do 2 run_step. by destruct (_ <? _).
Qed.

(** ** The presence events

    [online l] is the set of IDs the events of [l] announce, those that carry a copy of the info
    being the gateway's own. *)

Definition apply_event (e : info_ref * GlideMessage) (s : gset ID) : gset ID :=
  match e with
  | (InfoCopy _, m) =>
      match Data m with
      | Some (PID id) =>
          if bool_decide (Action m = ActionInternalOnline) then {[id]} ∪ s
          else if bool_decide (Action m = ActionInternalOffline) then s ∖ {[id]} else s
      | _ => s
      end
  | _ => s
  end.

Definition online (l : list (info_ref * GlideMessage)) : gset ID := foldl (fun s e => apply_event e s) ∅ l.

Lemma online_snoc l e : online (l ++ [e]) = apply_event e (online l).
Proof. unfold online. by rewrite foldl_app. Qed.

Lemma apply_offline i id s : apply_event (InfoCopy i, internal ActionInternalOffline id) s = s ∖ {[id]}.
Proof. done. Qed.
Lemma apply_online i id s : apply_event (InfoCopy i, internal ActionInternalOnline id) s = {[id]} ∪ s.
Proof. done. Qed.

(** ** The invariant *)

Definition conn_ok (closed : bool) (l : list conn_event) : Prop :=
  exists l', l = l' ++ (if closed then [ConnClosed] else []) /\ ConnClosed ∉ l'.

Record client_ok (c : UserClient) : Prop := {
  closed_state : messages_closed c = true -> state c = stateClosed;
  queue_bound : (length (messages c) <= msgs_cap)%nat;
  exited_client : state c = stateClosed ->
    info_ID (info c) = "" /\ has_mgr c = false /\ closeReadCh c = true /\ closeWriteCh c = true /\
    messages_closed c = negb (flushing c);
  flushing_state : flushing c = true -> state c = stateClosed;
  live_client : state c <> stateClosed -> info_ID (info c) <> "" /\ has_mgr c = true;
  conn_once : conn_ok (messages_closed c) (conn c) }.

Record gate_inv (w : World) : Prop := {
  gi_registered : forall id r, clients w !! id = Some r ->
    exists c, heap w !! r = Some c /\ state c <> stateClosed /\ route (gate_id w) (info_ID (info c)) = id;
  gi_live : forall r c, heap w !! r = Some c -> state c <> stateClosed ->
    clients w !! route (gate_id w) (info_ID (info c)) = Some r;
  gi_clients : forall r c, heap w !! r = Some c -> client_ok c;
  gi_online : online (handled w) = dom (clients w);
  gi_pool : forall r m, (r, m) ∈ pool w -> is_Some (heap w !! r) }.

Lemma gate_inv_NewServer id key cap t rnd : gate_inv (NewServer id key cap t rnd).
Proof.
  unfold NewServer. split; cbn; try done.
  - intros r m H. by apply not_elem_of_nil in H.
Qed.

(** Two registered IDs of one client are equal, and a client is registered under its own. *)
Lemma registered_unique w id r c :
  gate_inv w -> clients w !! id = Some r -> heap w !! r = Some c -> route (gate_id w) (info_ID (info c)) = id.
Proof. intros Hi Hid Hr. destruct (gi_registered _ Hi _ _ Hid) as (c' & Hc' & _ & E). congruence. Qed.

(** An update of one client that keeps who it is. *)
Definition keeps_identity (c c' : UserClient) : Prop :=
  state c' = state c /\ info_ID (info c') = info_ID (info c).

Lemma gate_inv_client r c c' w :
  gate_inv w -> heap w !! r = Some c -> keeps_identity c c' -> client_ok c' ->
  gate_inv (set_heap (<[r := c']> (heap w)) w).
Proof.
  intros [Hreg Hlive Hcl Hon Hpool] Hr [Hst Hid] Hok. split; cbn [heap set_heap clients gate_id handled pool].
  - intros id r0 Hc. destruct (Hreg _ _ Hc) as (c0 & Hc0 & Hs0 & E).
    destruct (decide (r0 = r)) as [-> | Hne].
    + exists c'. rewrite lookup_insert_eq. assert (c0 = c) by congruence. subst. by rewrite Hst, Hid.
    + exists c0. by rewrite lookup_insert_ne.
  - intros r0 c0. destruct (decide (r0 = r)) as [-> | Hne].
    + rewrite lookup_insert_eq. intros [= <-]. rewrite Hst, Hid. by apply Hlive.
    + rewrite lookup_insert_ne by done. apply Hlive.
  - intros r0 c0. destruct (decide (r0 = r)) as [-> | Hne].
    + rewrite lookup_insert_eq. by intros [= <-].
    + rewrite lookup_insert_ne by done. apply Hcl.
  - done.
  - intros r0 m Hin. destruct (decide (r0 = r)) as [-> | Hne].
    + rewrite lookup_insert_eq. eauto.
    + rewrite lookup_insert_ne by done. eauto.
Qed.

(** Events that are not presence events of the gateway. *)
Lemma gate_inv_handled r m w : gate_inv w -> gate_inv (add_handled (InfoOf r, m) w).
Proof.
  intros [Hreg Hlive Hcl Hon Hpool]. split; cbn [heap add_handled clients gate_id handled pool]; try done.
  by rewrite online_snoc.
Qed.

Lemma gate_inv_pool l w :
  gate_inv w -> (forall r m, (r, m) ∈ l -> is_Some (heap w !! r)) -> gate_inv (set_pool l w).
Proof. intros [Hreg Hlive Hcl Hon Hpool] Hl. by split. Qed.

Lemma gate_inv_random l w : gate_inv w -> gate_inv (set_random l w).
Proof. intros [Hreg Hlive Hcl Hon Hpool]. by split. Qed.

(** ** Every step keeps the invariant *)

Lemma conn_ok_close l : conn_ok false l -> conn_ok true (l ++ [ConnClosed]).
Proof. intros (l' & -> & H). exists l'. by rewrite app_nil_r. Qed.

Lemma conn_ok_write l text : conn_ok false l -> conn_ok false (l ++ [Wrote text]).
Proof.
  intros (l' & -> & H). exists (l' ++ [Wrote text]). rewrite !app_nil_r. split; [done |].
  intros [Hin | Hin]%elem_of_app; [done |]. by apply list_elem_of_singleton in Hin.
Qed.

Lemma not_closed_open c : client_ok c -> state c <> stateClosed -> messages_closed c = false.
Proof. intros Hc Hs. destruct (messages_closed c) eqn:E; [by destruct Hs; apply Hc | done]. Qed.

Lemma client_ok_exited c : client_ok c -> state c <> stateClosed -> client_ok (exited c).
Proof.
  intros Hc Hs. pose proof (not_closed_open c Hc Hs) as Hm. destruct Hc as [H1 H2 H3 H4 H5 H6].
  assert (Hf : flushing c = false) by (destruct (flushing c); [by destruct Hs; apply H4 | done]).
  unfold exited. cbn [config with_closing with_mgr with_info with_state conn].
  rewrite Hm in H6.
  destruct (CloseImmediately (config c)); split; cbn; rewrite ?Hf, ?Hm; try done. by apply conn_ok_close.
Qed.

Lemma gate_inv_leave r c w :
  gate_inv w -> heap w !! r = Some c -> state c <> stateClosed ->
  gate_inv (leave (route (gate_id w) (info_ID (info c))) r c w).
Proof.
  intros Hi Hr Hs. set (id := route _ _). pose proof (gi_live _ Hi _ _ Hr Hs) as Hid. fold id in Hid.
  destruct Hi as [Hreg Hlive Hcl Hon Hpool]. unfold leave.
  assert (Hother : forall r0, r0 <> r -> <[r := exited c]> (heap w) !! r0 = heap w !! r0)
    by (intros; by rewrite lookup_insert_ne).
  split; cbn [heap set_heap set_clients add_handled clients gate_id handled pool].
  - intros id0 r0 [Hne Hid0]%lookup_delete_Some. destruct (Hreg _ _ Hid0) as (c0 & Hc0 & Hs0 & E0).
    destruct (decide (r0 = r)) as [-> | Hner].
    + destruct Hne. unfold id. congruence.
    + exists c0. by rewrite Hother.
  - intros r0 c0. destruct (decide (r0 = r)) as [-> | Hner].
    + rewrite lookup_insert_eq. intros [= <-] Hs0. destruct Hs0. unfold exited. by destruct (CloseImmediately _).
    + rewrite Hother by done. intros Hc0 Hs0. pose proof (Hlive _ _ Hc0 Hs0) as Hid0.
      rewrite lookup_delete_ne; [done |]. intros E. congruence.
  - intros r0 c0. destruct (decide (r0 = r)) as [-> | Hner].
    + rewrite lookup_insert_eq. intros [= <-]. apply client_ok_exited; eauto.
    + rewrite Hother by done. apply Hcl.
  - rewrite online_snoc, apply_offline, Hon. by rewrite dom_delete_L.
  - intros r0 m Hin. destruct (decide (r0 = r)) as [-> | Hner].
    + rewrite lookup_insert_eq. eauto.
    + rewrite Hother by done. eauto.
Qed.

Lemma gate_inv_SetClientID r c (o n : ID) w :
  gate_inv w -> clients w !! o = Some r -> clients w !! n = None -> heap w !! r = Some c ->
  n <> "" -> route (gate_id w) n = n ->
  gate_inv (set_clients (<[n := r]> (delete o (clients w)))
      (add_handled (InfoCopy (info (renamed n c)), internal ActionInternalOnline n)
        (add_handled (InfoCopy (info c), internal ActionInternalOffline o)
          (set_heap (<[r := renamed n c]> (heap w)) w)))).
Proof.
  intros Hi Ho Hn Hr Hne Hroute. pose proof (registered_unique _ _ _ _ Hi Ho Hr) as Hoid.
  destruct Hi as [Hreg Hlive Hcl Hon Hpool].
  assert (Hs : state c <> stateClosed) by (destruct (Hreg _ _ Ho) as (c1 & ? & ? & _); congruence).
  assert (Hother : forall r0, r0 <> r -> <[r := renamed n c]> (heap w) !! r0 = heap w !! r0)
    by (intros; by rewrite lookup_insert_ne).
  split; cbn [heap set_heap set_clients add_handled clients gate_id handled pool].
  - intros id0 r0 [[<- <-] | [Hne0 [Hne1 Hid0]%lookup_delete_Some]]%lookup_insert_Some.
    + exists (renamed n c). by rewrite lookup_insert_eq.
    + destruct (Hreg _ _ Hid0) as (c0 & Hc0 & Hs0 & E0).
      assert (r0 <> r) by (intros ->; destruct Hne1; congruence).
      exists c0. by rewrite Hother.
  - intros r0 c0. destruct (decide (r0 = r)) as [-> | Hner].
    + rewrite lookup_insert_eq. intros [= <-] _. cbn. rewrite Hroute. by rewrite lookup_insert_eq.
    + rewrite Hother by done. intros Hc0 Hs0. pose proof (Hlive _ _ Hc0 Hs0) as Hid0.
      rewrite lookup_insert_ne by (intros ->; congruence). rewrite lookup_delete_ne; [done |]. intros ->; congruence.
  - intros r0 c0. destruct (decide (r0 = r)) as [-> | Hner].
    + rewrite lookup_insert_eq. intros [= <-]. destruct (Hcl _ _ Hr) as [H1 H2 H3 H4 H5 H6].
      split; try done. intros Hs'. by destruct (H5 Hs').
    + rewrite Hother by done. apply Hcl.
  - rewrite online_snoc, online_snoc, apply_offline, apply_online, Hon. by rewrite dom_insert_L, dom_delete_L.
  - intros r0 m Hin. destruct (decide (r0 = r)) as [-> | Hner].
    + rewrite lookup_insert_eq. eauto.
    + rewrite Hother by done. eauto.
Qed.

(** *** Monadic forms *)

Lemma preserves_get_client r : preserves gate_inv (get_client r).
Proof. intros w Hi. unfold get_client. by destruct (heap w !! r). Qed.
Lemma preserves_gateway_id id : preserves gate_inv (gateway_id id).
Proof. apply preserves_gets. Qed.
Lemma preserves_lookup_client id : preserves gate_inv (lookup_client id).
Proof. apply preserves_gets. Qed.
Lemma preserves_IsRunning r : preserves gate_inv (IsRunning r).
Proof. apply preserves_bind; [apply preserves_get_client | intros; apply preserves_ret]. Qed.

(** An update that keeps every client in order. *)
Lemma preserves_upd_client r f :
  (forall c, client_ok c -> keeps_identity c (f c) /\ client_ok (f c)) -> preserves gate_inv (upd_client r f).
Proof.
  intros Hf w Hi. unfold upd_client, modify. cbn [snd]. destruct (heap w !! r) as [c |] eqn:Hr.
  - rewrite (alter_as_insert _ _ _ _ Hr). destruct (Hf c (gi_clients _ Hi _ _ Hr)).
    by apply (gate_inv_client r c).
  - replace (alter f r (heap w)) with (heap w); [by rewrite set_heap_same |].
    apply map_eq. intros i. destruct (decide (i = r)) as [-> | Hne].
    + by rewrite lookup_alter_eq, Hr.
    + by rewrite lookup_alter_ne.
Qed.

(** Its fields decide whether a client is in order. *)
Ltac client_update :=
  apply preserves_upd_client; let H := fresh in intros ? H; destruct H; split; [done | split; cbn; done].

Lemma preserves_client_EnqueueMessage r m : preserves gate_inv (client_EnqueueMessage r m).
Proof.
  intros w Hi. unfold client_EnqueueMessage, bind, get_client.
  destruct (heap w !! r) as [c |] eqn:Hr; [| done].
  pose proof (gi_clients _ Hi _ _ Hr) as Hc.
  destruct (if state c is stateClosed then true else false) eqn:Hs; [done |].
  destruct (messages_closed c) eqn:Hm; [done |].
  destruct (Nat.ltb_spec (length (messages c)) msgs_cap) as [Hlt | _]; [| done].
  erewrite upd_client_run by done. apply (gate_inv_client r c); [done | done | done |].
  destruct Hc. split; cbn; try done. rewrite length_app. cbn. lia.
Qed.

Lemma preserves_call_handler_of r m : preserves gate_inv (call_handler (InfoOf r) m).
Proof. apply preserves_modify. intros w. apply gate_inv_handled. Qed.

Lemma preserves_ExitClient id : preserves gate_inv (ExitClient id).
Proof.
  intros w Hi. destruct (clients w !! route (gate_id w) id) as [r |] eqn:Hid.
  - destruct (gi_registered _ Hi _ _ Hid) as (c & Hr & Hs & E).
    erewrite ExitClient_run by eauto using not_closed_open, gi_clients. cbn [snd]. rewrite <- E. by apply gate_inv_leave.
  - by rewrite ExitClient_unknown.
Qed.

(** [Exit] on any client of the store. *)
Lemma Exit_cases r w :
  gate_inv w ->
  Exit r w = match heap w !! r with
             | None => (Panics "nil client", w)
             | Some c => if state c is stateClosed then (Val tt, w)
                         else (Val tt, leave (route (gate_id w) (info_ID (info c))) r c w)
             end.
Proof.
  intros Hi. destruct (heap w !! r) as [c |] eqn:Hr.
  - destruct (state c) eqn:Hs; try (by erewrite Exit_closed_run by done);
      (assert (Hne : state c <> stateClosed) by congruence;
       destruct (live_client _ (gi_clients _ Hi _ _ Hr) Hne);
       pose proof (not_closed_open _ (gi_clients _ Hi _ _ Hr) Hne);
       erewrite Exit_run by (try done; by apply gi_live); done).
  - unfold Exit, bind, get_client. by rewrite Hr.
Qed.

Lemma preserves_Exit r : preserves gate_inv (Exit r).
Proof.
  intros w Hi. rewrite Exit_cases by done. destruct (heap w !! r) as [c |] eqn:Hr; [| done].
  destruct (state c) eqn:Hs; try done; apply gate_inv_leave; congruence.
Qed.

Lemma route_nonempty g i : i <> "" -> route g i <> "".
Proof.
  intros Hne. unfold route, SetGateway. destruct (strings_HasPrefix i g); [done |].
  destruct (strings_Split i idSeparator) as [| a [| u [| d [| ? ?]]]]; try done. cbn [snd].
  change (NewID g u d <> ""). unfold NewID. cbn. intros E.
  apply (f_equal String.length) in E. rewrite !length_app_string in E. simpl in E. lia.
Qed.

Lemma preserves_SetClientID old new : new <> "" -> preserves gate_inv (SetClientID old new).
Proof.
  intros Hne w Hi. destruct (clients w !! route (gate_id w) old) as [r |] eqn:Ho.
  - destruct (clients w !! route (gate_id w) new) as [r' |] eqn:Hn.
    + by erewrite SetClientID_taken.
    + destruct (gi_registered _ Hi _ _ Ho) as (c & Hr & _).
      erewrite SetClientID_run by done. cbn [snd]. apply gate_inv_SetClientID; try done.
      * by apply route_nonempty.
      * apply route_idem.
  - by rewrite SetClientID_unknown.
Qed.

(** The code accepts an empty new ID, and then the presence events show it: a client was renamed to the
    empty ID. *)
Definition announces_empty (e : info_ref * GlideMessage) : bool :=
  match e with
  | (InfoCopy _, m) => bool_decide (Action m = ActionInternalOnline) && (if Data m is Some (PID id) then bool_decide (id = "") else false)
  | _ => false
  end.
Definition anonymous (w : World) : bool := existsb announces_empty (handled w).

Lemma anonymous_saw w : anonymous w = true <-> exists e, saw e w /\ announces_empty e = true.
Proof.
  unfold anonymous, saw. rewrite existsb_exists. split; intros (e & Hin & He); exists e; (split; [| done]); by apply list_elem_of_In.
Qed.

Lemma route_empty g : route g "" = "".
Proof. unfold route, SetGateway. by destruct (strings_HasPrefix "" g). Qed.

Lemma SetClientID_empty old w :
  gate_inv w -> anonymous (SetClientID old "" w).2 = true \/ gate_inv (SetClientID old "" w).2.
Proof.
  intros Hi. destruct (clients w !! route (gate_id w) old) as [r |] eqn:Ho; [| right; by rewrite SetClientID_unknown].
  destruct (clients w !! route (gate_id w) "") as [r' |] eqn:Hn; [right; by erewrite SetClientID_taken |].
  destruct (gi_registered _ Hi _ _ Ho) as (c & Hr & _). erewrite SetClientID_run by done. cbn [snd]. left.
  apply anonymous_saw. eexists (InfoCopy _, _). split; [unfold saw; cbn [handled set_clients add_handled]; apply elem_of_app; right; constructor |].
  by rewrite route_empty.
Qed.

Lemma preserves_gate_enqueue r m : preserves gate_inv (gate_enqueue r m).
Proof.
  intros w Hi. destruct (heap w !! r) as [c |] eqn:Hr.
  - rewrite (gate_enqueue_run _ _ c) by done. destruct (state c); try done.
    destruct (_ <? _); [| done]. apply gate_inv_pool; [done |].
    intros r0 m0 [Hin | [= -> ->]%list_elem_of_singleton]%elem_of_app; [| eauto].
    by eapply gi_pool.
  - unfold gate_enqueue, IsRunning, bind, get_client. by rewrite Hr.
Qed.

#[export] Hint Resolve preserves_get_client preserves_gateway_id preserves_lookup_client preserves_IsRunning
  preserves_client_EnqueueMessage preserves_call_handler_of preserves_ExitClient preserves_Exit
  preserves_gate_enqueue : preserves.

Lemma preserves_EnqueueMessage id m : preserves gate_inv (EnqueueMessage id m).
Proof. unfold EnqueueMessage. repeat preserves_step. Qed.

Lemma preserves_SetCredentials r cr : preserves gate_inv (SetCredentials r cr).
Proof. unfold SetCredentials. client_update. Qed.

#[export] Hint Resolve preserves_EnqueueMessage preserves_SetCredentials : preserves.

Lemma preserves_UpdateClient id secrets : preserves gate_inv (UpdateClient id secrets).
Proof. unfold UpdateClient. repeat preserves_step. Qed.

Lemma preserves_MessageInterceptor r m : preserves gate_inv (MessageInterceptor r m).
Proof. unfold MessageInterceptor, forbid. repeat preserves_step. Qed.

Lemma preserves_take_random : preserves gate_inv take_random.
Proof. unfold take_random. repeat preserves_step. apply preserves_modify. intros. by apply gate_inv_random. Qed.

Lemma NewID2_nonempty u : NewID2 u <> "".
Proof. done. Qed.
Lemma GenTempID_nonempty g bytes : GenTempID g bytes <> "".
Proof.
  unfold GenTempID, NewID. cbn. intros E. apply (f_equal String.length) in E.
  rewrite !length_app_string in E. simpl in E. lia.
Qed.

Lemma preserves_updateClient r cr : preserves gate_inv (updateClient r cr).
Proof.
  unfold updateClient.
  assert (Hset : forall old u, preserves gate_inv (SetClientID old (NewID2 u)))
    by (intros; apply preserves_SetClientID, NewID2_nonempty).
  assert (Htmp : forall old bytes, preserves gate_inv (SetClientID old (GenTempID "" bytes)))
    by (intros; apply preserves_SetClientID, GenTempID_nonempty).
  pose proof preserves_take_random as Hr. repeat preserves_step.
Qed.

#[export] Hint Resolve preserves_UpdateClient preserves_MessageInterceptor preserves_updateClient : preserves.

Section steps.
Context `{BlockCipher}.

Lemma preserves_on_nil (m : GoM World bool) : preserves gate_inv m -> preserves gate_inv (on_nil m).
Proof. intros Hm w Hi. unfold on_nil. specialize (Hm w Hi). by destruct (m w) as [[[|] |] w']. Qed.
#[local] Hint Resolve preserves_on_nil : preserves.

Lemma preserves_client_handler r m : preserves gate_inv (client_handler r m).
Proof.
  unfold client_handler, interceptClientMessage, ClientAuthMessageInterceptor, read_credentials.
  repeat preserves_step.
Qed.

Lemma preserves_handleHello r m : preserves gate_inv (handleHello r m).
Proof.
  unfold handleHello. destruct (Deserialize (Data m) zero_Hello) as [[err |] h].
  - repeat preserves_step.
  - client_update.
Qed.

Lemma preserves_hbLost r n : preserves gate_inv (upd_client r (with_hbLost n)).
Proof. client_update. Qed.

#[local] Hint Resolve preserves_client_handler preserves_handleHello preserves_hbLost : preserves.

Lemma preserves_runRead r ev : preserves gate_inv (runRead r ev).
Proof. unfold runRead. repeat preserves_step. Qed.

Lemma preserves_recovered r m : preserves gate_inv m -> preserves gate_inv (recovered r m).
Proof.
  intros Hm w Hi. unfold recovered. specialize (Hm w Hi). destruct (m w) as [[a | why] w']; [done |].
  apply (preserves_bind gate_inv (Exit r)); eauto with preserves.
Qed.

Lemma preserves_read_loop r evs : preserves gate_inv (read_loop r evs).
Proof.
  induction evs as [| ev evs IH]; simpl; [apply preserves_ret |].
  apply preserves_bind; [apply preserves_recovered, preserves_runRead |].
  intros [|]; [done | apply preserves_ret].
Qed.
End steps.

(** *** Writing *)

Lemma client_ok_dequeue c m l : client_ok c -> messages c = m :: l -> client_ok (with_messages (queuedMessage c) l c).
Proof. intros [] Hm. rewrite Hm in *. split; cbn in *; try done. lia. Qed.

(** What writing a message does to the client. *)
Definition written (m : option GlideMessage) (ok : bool) (c : UserClient) : UserClient :=
  match encode_ptr m with
  | None => c
  | Some text =>
      let c := with_messages (int64 (queuedMessage c - 1)) (messages c) c in
      if ok then with_conn (messages_closed c) (conn c ++ [Wrote text]) c
      else with_closing (closeReadCh c) true c
  end.

Lemma write2Conn_run r m ok c w :
  heap w !! r = Some c -> write2Conn r m ok w = (Val tt, set_heap (<[r := written m ok c]> (heap w)) w).
Proof.
  intros Hr. unfold write2Conn, written. destruct (encode_ptr m).
  - by erewrite upd_client_run.
  - by rewrite insert_id, set_heap_same.
Qed.

Lemma client_ok_written m ok c :
  client_ok c -> (ok = true -> messages_closed c = false) -> client_ok (written m ok c).
Proof.
  intros Hc Hok. unfold written. destruct (encode_ptr m); [| done]. destruct Hc as [H1 H2 H3 H4 H5 H6].
  destruct ok; split; cbn; try done.
  - rewrite Hok in * by done. by apply conn_ok_write.
  - intros Hs. by destruct (H3 Hs) as (? & ? & ? & ? & ?).
Qed.

Lemma keeps_identity_written m ok c : keeps_identity c (written m ok c).
Proof. unfold written. by destruct (encode_ptr m), ok. Qed.

Definition dequeued (l : list (option GlideMessage)) (c : UserClient) : UserClient :=
  with_messages (queuedMessage c) l c.

Lemma runWrite_message r ok c w m l :
  heap w !! r = Some c -> messages c = Some m :: l ->
  runWrite r (WriteMessage ok) w =
    (Val true, set_heap (<[r := written (Some m) ok (dequeued l c)]> (heap w)) w).
Proof.
  intros Hr Hm. unfold runWrite. run_step. rewrite Hm. run_step.
  erewrite (bind_Val (write2Conn _ _ _)) by (apply write2Conn_run; client_lookup).
  cbn [heap set_heap]. by rewrite insert_insert_eq.
Qed.

Lemma runWrite_inv r ev w :
  gate_inv w ->
  (ev = WriteMessage true -> forall c, heap w !! r = Some c -> messages_closed c = false) ->
  gate_inv (runWrite r ev w).2.
Proof.
  intros Hi Hok. destruct ev as [| | ok].
  - done.
  - assert (Hp : preserves gate_inv (runWrite r WriteHeartbeat)) by (unfold runWrite; repeat preserves_step).
    by apply Hp.
  - destruct (heap w !! r) as [c |] eqn:Hr.
    2: { unfold runWrite, bind, get_client. by rewrite Hr. }
    pose proof (gi_clients _ Hi _ _ Hr) as Hc. destruct (messages c) as [| [m |] l] eqn:Hm.
    + unfold runWrite. run_step. rewrite Hm.
      assert (Hp : preserves gate_inv (Exit r ;;; ret true)) by (repeat preserves_step).
      destruct (messages_closed c); [by apply Hp | done].
    + erewrite runWrite_message by done. cbn [snd]. apply (gate_inv_client r c); [done | done | | ].
      * destruct (keeps_identity_written (Some m) ok (dequeued l c)). by split.
      * apply client_ok_written; [by eapply client_ok_dequeue |]. intros ->. exact (Hok eq_refl c eq_refl).
    + unfold runWrite. run_step. rewrite Hm. run_step.
      assert (Hp : preserves gate_inv (Exit r ;;; ret true)) by (repeat preserves_step). apply Hp.
      apply (gate_inv_client r c); [done | done | done |]. by eapply client_ok_dequeue.
Qed.

Lemma flush_inv r ok c w :
  gate_inv w -> heap w !! r = Some c -> flushing c = true -> gate_inv (flush r ok w).2.
Proof.
  intros Hi Hr Hf. pose proof (gi_clients _ Hi _ _ Hr) as Hc.
  pose proof (flushing_state _ Hc Hf) as Hs. destruct (exited_client _ Hc Hs) as (_ & _ & _ & _ & Hm).
  rewrite Hf in Hm. cbn [negb] in Hm. unfold flush. run_step. destruct (messages c) as [| m l] eqn:Hl.
  - rewrite Hm. run_step. erewrite (bind_Val (close_client r)) by (apply close_client_run; [client_lookup | done]).
    cbn [snd ret heap set_heap]. rewrite ?insert_insert_eq, ?set_heap_twice.
    apply (gate_inv_client r c); [done | done | done |]. destruct Hc as [H1 H2 H3 H4 H5 H6].
    rewrite Hm in H6. destruct (H3 Hs) as (? & ? & ? & ? & _).
    split; cbn; try done. by apply conn_ok_close.
  - run_step. erewrite (bind_Val (write2Conn _ _ _)) by (apply write2Conn_run; client_lookup).
    cbn [snd ret heap set_heap]. rewrite insert_insert_eq, set_heap_twice.
    apply (gate_inv_client r c); [done | done | |].
    + destruct (keeps_identity_written m ok (dequeued l c)). by split.
    + apply client_ok_written; [by eapply client_ok_dequeue |]. intros _. cbn. by rewrite Hm.
Qed.

Lemma gate_inv_pool_delete n w : gate_inv w -> gate_inv (set_pool (delete n (pool w)) w).
Proof.
  intros Hi. apply gate_inv_pool; [done |]. intros r m Hin. apply (gi_pool _ Hi r m).
  by eapply elem_of_sublist, sublist_delete.
Qed.

Lemma preserves_run_pool n : preserves gate_inv (run_pool n).
Proof.
  intros w Hi. unfold run_pool. run_step. destruct (pool w !! n) as [[r m] |] eqn:Hp; [| done]. run_step.
  assert (Hpre : preserves gate_inv (let! _ := client_EnqueueMessage r m in ret tt)) by (repeat preserves_step).
  by apply Hpre, gate_inv_pool_delete.
Qed.

(** ** Connections *)

Definition connected (addr : string) (t : Z) (id : ID) : UserClient :=
  with_state stateRunning (with_mgr true true (with_info
    (set_info_ID id (info (new_client addr t None)))
    (new_client addr t (Some (MkClientConfig (30 * second) (30 * second) 3 false))))).

Lemma route_GenTempID g bytes : route g (GenTempID g bytes) = GenTempID g bytes.
Proof. apply route_same. Qed.

Lemma HandleConnection_run r addr bytes w :
  let id := GenTempID (gate_id w) bytes in
  HandleConnection r addr bytes w =
    (Val id,
     set_heap (<[r := queued_one (Some (NewMessage 0 ActionHello (PServerHello (MkServerHello "" (UID id) 30 []))))
                        (connected addr (now w) id)]> (heap w))
       (set_clients (<[id := r]> (clients w))
         (add_handled (InfoCopy (info (connected addr (now w) id)), internal ActionInternalOnline id) w))).
Proof.
  intros id. unfold HandleConnection. do 2 run_step. fold id. do 2 run_step.
  unfold AddClient, gateway_id, Run.
  erewrite (bind_Val (bind (get_client r) _)).
  2: { do 5 run_step. reflexivity. }
  assert (Hroute : route (gate_id w) id = id) by apply route_GenTempID.
  cbn [info_ID info with_info set_info_ID new_client]. rewrite !Hroute.
  run_step. erewrite (bind_Val (client_EnqueueMessage _ _)); [| apply client_EnqueueMessage_run; [client_lookup | discriminate | reflexivity]].
  cbn [heap set_heap]. rewrite insert_insert_eq. reflexivity.
Qed.

Lemma gate_inv_HandleConnection r addr bytes w :
  gate_inv w -> heap w !! r = None -> clients w !! GenTempID (gate_id w) bytes = None ->
  gate_inv (HandleConnection r addr bytes w).2.
Proof.
  intros Hi Hr Hid. rewrite HandleConnection_run. cbn [snd]. set (id := GenTempID _ _) in *.
  set (c := queued_one _ _).
  assert (Hroute : route (gate_id w) (info_ID (info c)) = id) by apply route_GenTempID.
  destruct Hi as [Hreg Hlive Hcl Hon Hpool].
  assert (Hother : forall r0, r0 <> r -> <[r := c]> (heap w) !! r0 = heap w !! r0)
    by (intros; by rewrite lookup_insert_ne).
  split; cbn [heap set_heap set_clients add_handled clients gate_id handled pool].
  - intros id0 r0 [[<- <-] | [Hne Hid0]]%lookup_insert_Some.
    + exists c. rewrite lookup_insert_eq. done.
    + destruct (Hreg _ _ Hid0) as (c0 & Hc0 & Hs0 & E0). exists c0.
      by rewrite Hother by (intros ->; congruence).
  - intros r0 c0. destruct (decide (r0 = r)) as [-> | Hner].
    + rewrite lookup_insert_eq. intros [= <-] _. rewrite Hroute. by rewrite lookup_insert_eq.
    + rewrite Hother by done. intros Hc0 Hs0. pose proof (Hlive _ _ Hc0 Hs0) as Hid0.
      rewrite lookup_insert_ne; [done |]. intros E. rewrite <- E in Hid0. congruence.
  - intros r0 c0. destruct (decide (r0 = r)) as [-> | Hner].
    + rewrite lookup_insert_eq. intros [= <-]. split; cbn; try done.
      * unfold msgs_cap. lia.
      * intros _. split; [apply GenTempID_nonempty | done].
      * exists []. split; [done |]. apply not_elem_of_nil.
    + rewrite Hother by done. apply Hcl.
  - rewrite online_snoc, apply_online, Hon. by rewrite dom_insert_L.
  - intros r0 m Hin. destruct (decide (r0 = r)) as [-> | Hner].
    + rewrite lookup_insert_eq. eauto.
    + rewrite Hother by done. eauto.
Qed.

(** ** The gateway as a transition system *)

Section gateway.
Context `{BlockCipher}.

(** One operation of the gateway, of a client's goroutines, or of the pool. *)
Inductive gate_op :=
  | OpConnect (r : nat) (addr : string) (bytes : list Z)
  | OpSetClientID (old new : ID)
  | OpUpdateClient (id : ID) (secrets : option ClientSecrets)
  | OpExitClient (id : ID)
  | OpExit (r : nat)
  | OpEnqueue (id : ID) (m : option GlideMessage)
  | OpRead (r : nat) (evs : list read_event)
  | OpWrite (r : nat) (ev : write_event)
  | OpFlush (r : nat) (ok : bool)
  | OpPool (n : nat)
  | OpClock (t : Z).

Definition run_gate_op (op : gate_op) : GoM World unit :=
  match op with
  | OpConnect r addr bytes => let! _ := HandleConnection r addr bytes in ret tt
  | OpSetClientID old new => let! _ := SetClientID old new in ret tt
  | OpUpdateClient id secrets => let! _ := UpdateClient id secrets in ret tt
  | OpExitClient id => let! _ := ExitClient id in ret tt
  | OpExit r => Exit r
  | OpEnqueue id m => let! _ := EnqueueMessage id m in ret tt
  | OpRead r evs => let! _ := read_loop r evs in ret tt
  | OpWrite r ev => let! _ := runWrite r ev in ret tt
  | OpFlush r ok => let! _ := flush r ok in ret tt
  | OpPool n => run_pool n
  | OpClock t => modify (set_now t)
  end.

(** What the gateway relies on: a new connection has a client and a temporary ID of its own, a closed
    connection takes nothing, and only [Exit] starts the flush. *)
Definition op_ok (op : gate_op) (w : World) : Prop :=
  match op with
  | OpConnect r _ bytes => heap w !! r = None /\ clients w !! GenTempID (gate_id w) bytes = None
  | OpWrite r ev => ev = WriteMessage true -> forall c, heap w !! r = Some c -> messages_closed c = false
  | OpFlush r _ => exists c, heap w !! r = Some c /\ flushing c = true
  | _ => True
  end.

Inductive gate_reachable : World -> Prop :=
  | gate_start id key cap t rnd : gate_reachable (NewServer id key cap t rnd)
  | gate_step w op : gate_reachable w -> op_ok op w -> gate_reachable (run_gate_op op w).2.

Lemma bind_state {A} (m : GoM World A) w : (bind m (fun _ => ret tt) w).2 = (m w).2.
Proof. unfold bind. by destruct (m w) as [[a | why] w']. Qed.

(** What the handler was called with is not forgotten. *)
Lemma gate_op_saw e op : preserves (saw e) (run_gate_op op).
Proof.
  intros w Hw. pose proof (saw_framed e) as HK.
  assert (Hcr : forall r cr, preserves (saw e) (SetCredentials r cr)) by (intros; apply saw_upd_client).
  assert (Hhb : forall r n, preserves (saw e) (upd_client r (with_hbLost n))) by (intros; apply saw_upd_client).
  destruct op; cbn [run_gate_op]; rewrite ?bind_state.
  - rewrite HandleConnection_run. unfold saw. cbn. set_solver.
  - by apply frame_SetClientID.
  - by apply frame_UpdateClient.
  - by apply frame_ExitClient.
  - by apply frame_Exit.
  - by apply frame_EnqueueMessage.
  - by apply frame_read_loop.
  - by apply frame_runWrite.
  - by apply frame_flush.
  - by apply frame_run_pool.
  - done.
Qed.

Lemma gate_op_anonymous op w : anonymous w = true -> anonymous (run_gate_op op w).2 = true.
Proof. rewrite !anonymous_saw. intros (e & Hs & He). exists e. split; [by apply gate_op_saw | done]. Qed.

Lemma gate_op_inv op w : op_ok op w -> gate_inv w -> anonymous (run_gate_op op w).2 = true \/ gate_inv (run_gate_op op w).2.
Proof.
  intros Hok IH. destruct op; cbn [run_gate_op op_ok] in *; rewrite ?bind_state.
  2: { destruct (decide (new = "")) as [-> | Hne]; [by apply SetClientID_empty | right; by apply preserves_SetClientID]. }
  all: right.
  - destruct Hok. by apply gate_inv_HandleConnection.
  - by apply preserves_UpdateClient.
  - by apply preserves_ExitClient.
  - by apply preserves_Exit.
  - by apply preserves_EnqueueMessage.
  - by apply preserves_read_loop.
  - by apply runWrite_inv.
  - destruct Hok as (c & Hr & Hf). by apply (flush_inv r ok c).
  - by apply preserves_run_pool.
  - destruct IH. by split.
Qed.

(** The invariant, until a client is renamed to the empty ID. *)
Definition gate_good (w : World) : Prop := anonymous w = true \/ gate_inv w.

Lemma gate_op_good op w : op_ok op w -> gate_good w -> gate_good (run_gate_op op w).2.
Proof. intros Hok [Ha | Hi]; [left; by apply gate_op_anonymous | by apply gate_op_inv]. Qed.

(** A call that is an operation of its own, without conditions. *)
Lemma gate_good_call {A} op (m : GoM World A) :
  (forall w, op_ok op w) -> run_gate_op op = (let! _ := m in ret tt) -> preserves gate_good m.
Proof. intros Hok E w Hw. rewrite <- (bind_state m w), <- E. by apply gate_op_good. Qed.

Lemma good_SetClientID old new : preserves gate_good (SetClientID old new).
Proof. by apply (gate_good_call (OpSetClientID old new)). Qed.
Lemma good_UpdateClient id secrets : preserves gate_good (UpdateClient id secrets).
Proof. by apply (gate_good_call (OpUpdateClient id secrets)). Qed.
Lemma good_ExitClient id : preserves gate_good (ExitClient id).
Proof. by apply (gate_good_call (OpExitClient id)). Qed.
Lemma good_EnqueueMessage id m : preserves gate_good (EnqueueMessage id m).
Proof. by apply (gate_good_call (OpEnqueue id m)). Qed.

Lemma gate_good_inv w : gate_good w -> anonymous w = false -> gate_inv w.
Proof. intros [-> | Hi]; done. Qed.

Lemma gate_reachable_inv w : gate_reachable w -> anonymous w = false -> gate_inv w.
Proof.
  intros Hw. apply gate_good_inv. induction Hw as [| w op _ IH Hok]; [right; apply gate_inv_NewServer | by apply gate_op_good].
Qed.

Lemma EnqueueMessage_returns w id m : gate_inv w -> exists e w', EnqueueMessage id m w = (Val e, w').
Proof.
  intros Hi. unfold EnqueueMessage, gateway_id, lookup_client. do 2 run_step.
  destruct (clients w !! route (gate_id w) id) as [r |] eqn:Ho; [| by eexists _, _].
  destruct (gi_registered _ Hi _ _ Ho) as (c & Hr & _). rewrite (gate_enqueue_run _ _ c) by done.
  destruct (state c); try destruct (_ <? _); eauto.
Qed.

(** C4: in every state the gateway reaches, by any sequence of connections, renamings, exits, messages, heartbeats,
    writes and panics of handlers, each taken whole ([ExitRace] interleaves [Exit]), and as long as no client was
    renamed to the empty ID: the registered IDs and the clients that have not exited correspond one to one, each under
    the ID it carries; a client that has exited is unreachable, is stopped on both sides, and its queue is closed
    exactly when its connection is, once; no queue exceeds its capacity; and the presence events sent announce exactly
    the registered IDs. *)
Theorem gate_invariant w :
  gate_reachable w -> anonymous w = false ->
  (forall id r, clients w !! id = Some r <->
     exists c, heap w !! r = Some c /\ state c <> stateClosed /\ route (gate_id w) (info_ID (info c)) = id) /\
  (forall r c, heap w !! r = Some c -> client_ok c) /\
  online (handled w) = dom (clients w).
Proof.
  intros Hw Hn. pose proof (gate_reachable_inv _ Hw Hn) as Hi. split_and!.
  - intros id r. split.
    + apply Hi.
    + intros (c & Hr & Hs & <-). by apply Hi.
  - apply Hi.
  - apply Hi.
Qed.

Lemma runWrite_no_panic r ev c w :
  gate_inv w -> heap w !! r = Some c -> exists b w', runWrite r ev w = (Val b, w').
Proof.
  intros Hi Hr. destruct ev as [| | ok].
  - by eexists _, _.
  - unfold runWrite, IsRunning.
    erewrite (bind_Val (bind (get_client r) _)) by (erewrite bind_Val by (by apply get_client_run); done).
    destruct (state c) eqn:Hs; cbn [negb]; try by eexists _, _.
    pose proof (gi_clients _ Hi _ _ Hr) as Hc. assert (Hne : state c <> stateClosed) by congruence.
    erewrite bind_Val; [by eexists _, _ |]. apply client_EnqueueMessage_run; eauto using not_closed_open.
  - destruct (messages c) as [| [m |] l] eqn:Hm.
    + unfold runWrite. run_step. rewrite Hm. destruct (messages_closed c); [| by eexists _, _].
      unfold bind at 1. rewrite Exit_cases, Hr by done. destruct (state c); by eexists _, _.
    + erewrite runWrite_message by done. by eexists _, _.
    + unfold runWrite. run_step. rewrite Hm. run_step. unfold bind at 1.
      rewrite Exit_cases.
      * cbn [heap set_heap]. rewrite lookup_insert_eq. cbn [state with_messages].
        destruct (state c); by eexists _, _.
      * apply (gate_inv_client r c); [done | done | done |]. eapply client_ok_dequeue; [by eapply gi_clients | done].
Qed.

End gateway.

(** ** A concrete gateway *)

#[local] Existing Instance flip_cipher.

Definition demo_bytes (k : Z) : list Z := (fun n => (Z.of_nat n * 7 + k) mod 256) <$> seq 0 16.
Definition demo_temp (k : Z) : ID := GenTempID "g1" (demo_bytes k).

Definition demo_w0 : World := NewServer "g1" "secret" 100 5000 [demo_bytes 9; demo_bytes 10].
Definition run_ops (w : World) (ops : list gate_op) : World :=
  foldl (fun w op => (run_gate_op op w).2) w ops.

(** Two connections, one renamed to the user [alice]. *)
Definition demo_w1 : World :=
  run_ops demo_w0 [OpConnect 0 "10.0.0.1" (demo_bytes 1); OpConnect 1 "10.0.0.2" (demo_bytes 2);
                   OpSetClientID (demo_temp 1) (NewID2 "alice")].

Lemma demo_w1_reachable : gate_reachable demo_w1.
Proof.
  unfold demo_w1, run_ops, foldl.
  apply gate_step; [apply gate_step; [apply gate_step; [apply gate_start |] |] |];
    [split; reflexivity | split; vm_compute; reflexivity | done].
Qed.
Lemma demo_w1_named : anonymous demo_w1 = false.
Proof. vm_compute. reflexivity. Qed.
Lemma demo_w1_inv : gate_inv demo_w1.
Proof. apply gate_reachable_inv; [apply demo_w1_reachable | apply demo_w1_named]. Qed.

Example demo_w1_registered :
  (clients demo_w1 !! NewID "g1" "alice" "", clients demo_w1 !! demo_temp 2, clients demo_w1 !! demo_temp 1) =
  (Some 0%nat, Some 1%nat, None).
Proof. vm_compute. reflexivity. Qed.

Lemma gate_invariant_witness :
  exists c, heap demo_w1 !! 0%nat = Some c /\ state c <> stateClosed /\
            route (gate_id demo_w1) (info_ID (info c)) = NewID "g1" "alice" "".
Proof.
  destruct (gate_invariant demo_w1 demo_w1_reachable demo_w1_named) as [Hreg _].
  apply (proj1 (Hreg (NewID "g1" "alice" "") 0%nat)). vm_compute. reflexivity.
Defined.


(** What follows such a renaming: the client still sends and receives; when it exits there is no ID to tell the
    gateway, and it stays registered after it is closed. *)
Definition renamed_to_empty : World := run_ops demo_w0 [OpConnect 0 "10.0.0.1" (demo_bytes 1); OpSetClientID (demo_temp 1) ""].
Lemma empty_ID_keeps_an_exited_client :
  gate_reachable (Exit 0 renamed_to_empty).2 /\
  (SetClientID (demo_temp 1) "" (run_ops demo_w0 [OpConnect 0 "10.0.0.1" (demo_bytes 1)])).1 = Val nil_error /\
  clients (Exit 0 renamed_to_empty).2 !! "" = Some 0%nat /\
  state <$> heap (Exit 0 renamed_to_empty).2 !! 0%nat = Some stateClosed /\
  (EnqueueMessage "" None (Exit 0 renamed_to_empty).2).1 = Val (errors_New errClientClosed).
Proof.
  split; [| by vm_compute]. apply (gate_step _ (OpExit 0)); [| done]. unfold renamed_to_empty, run_ops, foldl.
  apply gate_step; [apply gate_step; [apply gate_start | split; reflexivity] | done].
Qed.
