(* ===== verification/Reader.v ===== *)
(** * The readers of the connections

    A client's [runRead] does not read its connection itself: [defaultReader.ReadCh] of [pkg/gate/reader.go] starts
    a goroutine that reads, and sends what it has read on a channel of five. What it sends are pointers to
    results that all readers take from one pool and that [runRead] gives back with [Recycle]. Here are
    the readers, their channels, the pool and the gateway in one state, a step at a time.

    [Gate] has a reader as the list of what it sends ([ReadCh] of its frames). [reader_delivers] says that this is
    what comes out, whatever the interleaving, and that the gateway only goes where its own steps take
    it; [no_frame_is_lost] that the pipeline ends with every frame taken; [abandoned_reader_hangs] what becomes of
    a reader nobody listens to. *)

From S2P Require Import Prelude GoStrings Json Messages GateId Credentials Gate GateSpec.

Local Open Scope Z_scope.
Local Open Scope go_scope.

(** ** Data *)

(** A result, in the store its pointers refer to. *)
Record readerRes := MkRes { res_err : error; res_m : option GlideMessage }.

Definition set_res_err (err : string) (s : readerRes) : readerRes := MkRes (Some err) (res_m s).
Definition set_res_m (m : GlideMessage) (s : readerRes) : readerRes := MkRes (res_err s) (Some m).
Definition no_result : readerRes := MkRes nil_error None.

(** Where the goroutine of [ReadCh] is: at the top of its loop, sending a result (the last one, or not), at
    [CLOSE], or gone. *)
Inductive reader_pc := Looping | Sending (v : nat) (last : bool) | Closing | Ended.

Record Reader := MkReader {
  unread : list (string + string);      (* what the connection will still return *)
  pc : reader_pc;
  c_ : list nat;                        (* the channel [c] *)
  c_closed : bool;
  done_closed : bool;                   (* [done] *)
  receiving : bool;                     (* [runRead] is in its loop *)
  taken : list read_event;              (* history: what [runRead] took from the channel *)
  frames : list (string + string) }.    (* history: what the connection returns in all *)

Definition c_cap : nat := 5.

Record Readers := MkReaders {
  gw : World;
  results : gmap nat readerRes;
  recyclePool : list nat;
  readers : gmap nat Reader }.

Definition with_gw (w : World) (x : Readers) : Readers := MkReaders w (results x) (recyclePool x) (readers x).
Definition set_results (l : gmap nat readerRes) (x : Readers) : Readers := MkReaders (gw x) l (recyclePool x) (readers x).
Definition set_recyclePool (l : list nat) (x : Readers) : Readers := MkReaders (gw x) (results x) l (readers x).
Definition set_reader (r : nat) (d : Reader) (x : Readers) : Readers :=
  MkReaders (gw x) (results x) (recyclePool x) (<[r := d]> (readers x)).

(** [ReadCh]: the goroutine it starts. *)
Definition new_reader (l : list (string + string)) : Reader := MkReader l Looping [] false false true [] l.

Definition with_pc (p : reader_pc) (d : Reader) : Reader :=
  MkReader (unread d) p (c_ d) (c_closed d) (done_closed d) (receiving d) (taken d) (frames d).
Definition after_read (l : list (string + string)) (p : reader_pc) (d : Reader) : Reader :=
  MkReader l p (c_ d) (c_closed d) (done_closed d) (receiving d) (taken d) (frames d).
Definition with_c (l : list nat) (p : reader_pc) (d : Reader) : Reader :=
  MkReader (unread d) p l (c_closed d) (done_closed d) (receiving d) (taken d) (frames d).
Definition close_channel (d : Reader) : Reader :=
  MkReader (unread d) Ended (c_ d) true (done_closed d) (receiving d) (taken d) (frames d).
Definition take_event (l : list nat) (ev : read_event) (d : Reader) : Reader :=
  MkReader (unread d) (pc d) l (c_closed d) (done_closed d) (receiving d) (taken d ++ [ev]) (frames d).
Definition stop_receiving (close_done : bool) (d : Reader) : Reader :=
  MkReader (unread d) (pc d) (c_ d) (c_closed d) (close_done || done_closed d) false (taken d) (frames d).

(** ** The pool *)

(** [recyclePool.Get()]: some result of the pool, or a new one. *)
Inductive pool_Get (v : nat) (x : Readers) : Readers -> Prop :=
  | Get_recycled l1 l2 : recyclePool x = l1 ++ v :: l2 -> pool_Get v x (set_recyclePool (l1 ++ l2) x)
  | Get_new : results x !! v = None -> pool_Get v x (set_results (<[v := no_result]> (results x)) x).

(** [readerRes.Recycle]. *)
Definition Recycle (v : nat) (x : Readers) : Readers :=
  set_recyclePool (v :: recyclePool x) (set_results (alter (fun _ => no_result) v (results x)) x).

(** ** The goroutine of [ReadCh] *)

(** It has read [frame] and writes what it got into the result [v]. *)
Definition read_frame (r v : nat) (frame : string + string) (l : list (string + string)) (d : Reader) (x : Readers) : Readers :=
  match Read frame with
  | (Some err, _) =>
      set_reader r (after_read l (Sending v (negb (IsDecodeError (Some err)))) d)
        (set_results (alter (set_res_err err) v (results x)) x)
  | (None, m) =>
      set_reader r (after_read l (Sending v false) d) (set_results (alter (set_res_m m) v (results x)) x)
  end.

Inductive reader_step (r : nat) (d : Reader) (x : Readers) : Readers -> Prop :=
  | reader_done : pc d = Looping -> done_closed d = true -> reader_step r d x (set_reader r (with_pc Closing d) x)
  | reader_reads v frame l x1 :
      pc d = Looping -> done_closed d = false -> unread d = frame :: l -> pool_Get v x x1 ->
      reader_step r d x (read_frame r v frame l d x1)
  | reader_sends v last :
      pc d = Sending v last -> (length (c_ d) < c_cap)%nat ->
      reader_step r d x (set_reader r (with_c (c_ d ++ [v]) (if last then Closing else Looping) d) x)
  | reader_closes : pc d = Closing -> reader_step r d x (set_reader r (close_channel d) x).

(** ** [runRead] on the channel *)

(** The branch of [runRead] a result leads to; none when it holds neither an error nor a message. *)
Definition event_of (s : readerRes) : option read_event :=
  match res_err s with
  | Some err => Some (ReadError err)
  | None => ReadMessage <$> res_m s
  end.

(** The round ends with [msg.Recycle()]. *)
Definition recycles (r : nat) (ev : read_event) (w : World) : bool :=
  match ev, heap w !! r with
  | ReadMessage _, Some c => negb (bool_decide (info_ID (info c) = ""))
  | _, _ => false
  end.

Section gateway.
Context `{BlockCipher}.

(** A round of [runRead] on [ev], which came in the result [ov]. [STOP] closes [done]; a panic does not. *)
Definition round (r : nat) (d : Reader) (ev : read_event) (ov : option nat) (x : Readers) : Readers :=
  match runRead r ev (gw x) with
  | (Val true, w) =>
      let x' := with_gw w (set_reader r d x) in
      match ov with Some v => if recycles r ev (gw x) then Recycle v x' else x' | None => x' end
  | (Val false, w) => with_gw w (set_reader r (stop_receiving true d) x)
  | (Panics _, w) => with_gw (Exit r w).2 (set_reader r (stop_receiving false d) x)
  end.

Inductive take_step (r : nat) (d : Reader) (x : Readers) : Readers -> Prop :=
  | take_result v l s ev :
      receiving d = true -> c_ d = v :: l -> results x !! v = Some s -> event_of s = Some ev ->
      take_step r d x (round r (take_event l ev d) ev (Some v) x)
  | take_nil :
      receiving d = true -> c_ d = [] -> c_closed d = true ->
      take_step r d x (round r (take_event [] ReadNil d) ReadNil None x).

(** The other cases of the [select] of [runRead]. *)
Inductive wake_step (r : nat) (d : Reader) (x : Readers) : Readers -> Prop :=
  | wake_close c :
      receiving d = true -> heap (gw x) !! r = Some c -> closeReadCh c = true -> wake_step r d x (round r d ReadClose None x)
  | wake_heartbeat : receiving d = true -> wake_step r d x (round r d ReadHeartbeat None x).

(** The operations of the gateway that do not start or continue a [runRead]. *)
Definition other_op (op : gate_op) : Prop :=
  match op with OpConnect _ _ _ | OpRead _ _ => False | _ => True end.

Inductive readers_step : Readers -> Readers -> Prop :=
  | step_connect r addr bytes l x :
      op_ok (OpConnect r addr bytes) (gw x) -> readers x !! r = None ->
      readers_step x (with_gw (run_gate_op (OpConnect r addr bytes) (gw x)).2 (set_reader r (new_reader l) x))
  | step_gate op x : other_op op -> op_ok op (gw x) -> readers_step x (with_gw (run_gate_op op (gw x)).2 x)
  | step_reader r d x x' : readers x !! r = Some d -> reader_step r d x x' -> readers_step x x'
  | step_take r d x x' : readers x !! r = Some d -> take_step r d x x' -> readers_step x x'
  | step_wake r d x x' : readers x !! r = Some d -> wake_step r d x x' -> readers_step x x'.

Inductive readers_reachable : Readers -> Prop :=
  | reach_start id key cap t rnd : readers_reachable (MkReaders (NewServer id key cap t rnd) ∅ [] ∅)
  | reach_step x x' : readers_reachable x -> readers_step x x' -> readers_reachable x'.
End gateway.

(** ** The invariant *)

(** The results on their way to [runRead]. *)
Definition held (d : Reader) : list nat := c_ d ++ match pc d with Sending v _ => [v] | _ => [] end.

Definition carries (res : gmap nat readerRes) (v : nat) (ev : read_event) : Prop := res !! v ≫= event_of = Some ev.

(** What follows the results on their way, if nobody stops the reader; [n] nils were taken past the first. *)
Definition to_come (d : Reader) (more : list read_event) (n : nat) : Prop :=
  match pc d with
  | Looping | Sending _ false => n = 0%nat /\ more = ReadCh (unread d)
  | Sending _ true => n = 0%nat /\ more = [ReadNil]
  | Closing => done_closed d = false -> n = 0%nat /\ more = [ReadNil]
  | Ended => done_closed d = false -> (n = 0%nat /\ more = [ReadNil]) \/ (more = [] /\ last (ReadCh (frames d)) = Some ReadNil)
  end.

Definition ends_with_nil (l : list (string + string)) : Prop := last (ReadCh l) = Some ReadNil.

Record reader_ok (res : gmap nat readerRes) (d : Reader) : Prop := {
  ro_cap : (length (c_ d) <= c_cap)%nat;
  ro_flow : exists evs more n, Forall2 (carries res) (held d) evs /\
    taken d ++ evs ++ more = ReadCh (frames d) ++ repeat ReadNil n /\
    ((0 < n)%nat -> ends_with_nil (frames d)) /\ to_come d more n;
  ro_done : receiving d = true -> done_closed d = false;
  ro_closed : c_closed d = true <-> pc d = Ended;
  ro_NoDup : NoDup (held d) }.

Record readers_inv (x : Readers) : Prop := {
  ri_ok : forall r d, readers x !! r = Some d -> reader_ok (results x) d;
  ri_apart : forall r r' d d' v, readers x !! r = Some d -> readers x !! r' = Some d' -> v ∈ held d -> v ∈ held d' -> r = r';
  ri_pool : forall v, v ∈ recyclePool x -> results x !! v = Some no_result;
  ri_pool_NoDup : NoDup (recyclePool x);
  ri_pool_apart : forall r d v, readers x !! r = Some d -> v ∈ held d -> v ∉ recyclePool x }.

Lemma held_result res d v : reader_ok res d -> v ∈ held d -> exists s ev, res !! v = Some s /\ event_of s = Some ev.
Proof.
  intros [_ (evs & more & n & Hf & _) _ _ _] Hv. apply list_elem_of_lookup in Hv as [i Hi].
  destruct (Forall2_lookup_l _ _ _ _ _ Hf Hi) as (ev & _ & Hc). unfold carries in Hc.
  destruct (res !! v) as [s |]; [by exists s, ev | done].
Qed.

Lemma carries_ext res res' l evs :
  (forall v, v ∈ l -> res' !! v = res !! v) -> Forall2 (carries res) l evs -> Forall2 (carries res') l evs.
Proof.
  intros Hext. induction 1 as [| v ev l evs Hv _ IH]; constructor.
  - unfold carries. rewrite Hext by set_solver. done.
  - apply IH. set_solver.
Qed.

Lemma reader_ok_ext res res' d : (forall v, v ∈ held d -> res' !! v = res !! v) -> reader_ok res d -> reader_ok res' d.
Proof.
  intros Hext [Hcap (evs & more & n & Hf & Hrest) Hdone Hcl Hnd]. split; try done.
  exists evs, more, n. eauto using carries_ext.
Qed.

(** A step of one client: what the others hold is as it was. *)
Lemma readers_inv_update r d' x x' :
  readers_inv x -> readers x' = <[r := d']> (readers x) ->
  (forall r0 d0 v, r0 <> r -> readers x !! r0 = Some d0 -> v ∈ held d0 ->
    results x' !! v = results x !! v /\ v ∉ held d' /\ v ∉ recyclePool x') ->
  (forall v, v ∈ recyclePool x' -> results x' !! v = Some no_result /\ v ∉ held d') ->
  NoDup (recyclePool x') -> reader_ok (results x') d' -> readers_inv x'.
Proof.
  intros [Hok Hap Hp Hpn Hpa] Hrs Hoth Hpool Hnd Hd'. split; rewrite ?Hrs.
  - intros r0 d0 [[<- <-] | [Hne Hr0]]%lookup_insert_Some; [done |].
    apply (reader_ok_ext (results x)); [| by eapply Hok]. intros v Hv. by destruct (Hoth r0 d0 v ltac:(done) Hr0 Hv).
  - intros r1 r2 d1 d2 v [[<- <-] | [Hne1 Hr1]]%lookup_insert_Some [[<- <-] | [Hne2 Hr2]]%lookup_insert_Some Hv1 Hv2; [done | | |].
    + by destruct (Hoth r2 d2 v ltac:(done) Hr2 Hv2) as (_ & ? & _).
    + by destruct (Hoth r1 d1 v ltac:(done) Hr1 Hv1) as (_ & ? & _).
    + by eapply Hap.
  - intros v Hv. by apply Hpool.
  - done.
  - intros r0 d0 v [[<- <-] | [Hne Hr0]]%lookup_insert_Some Hv; [| by apply (Hoth r0 d0 v)].
    intros Hin. by apply (Hpool v Hin).
Qed.

(** A step that moves no result: what the client holds, it held before. *)
Lemma readers_inv_same r d d' x x' :
  readers_inv x -> readers x !! r = Some d -> readers x' = <[r := d']> (readers x) ->
  results x' = results x -> recyclePool x' = recyclePool x ->
  (forall v, v ∈ held d' -> v ∈ held d) -> reader_ok (results x) d' -> readers_inv x'.
Proof.
  intros Hi Hr Hrs Hres Hpool Hheld Hok. apply (readers_inv_update r d' x); rewrite ?Hres, ?Hpool; try done.
  - intros r0 d0 v Hne Hr0 Hv. split_and!; [done | | by eapply ri_pool_apart].
    intros Hv'. apply Hne. by apply (ri_apart x Hi r0 r d0 d v); auto.
  - intros v Hv. split; [by apply ri_pool |]. intros Hv'. by apply (ri_pool_apart x Hi r d v); auto.
  - by apply ri_pool_NoDup.
Qed.

Lemma readers_inv_gw w x : readers_inv x -> readers_inv (with_gw w x).
Proof. intros []. by split. Qed.

(** ** Every step keeps the invariant *)

(** The result [Get] returns is clean, and nobody else's. *)
Lemma Get_clean v x x1 :
  readers_inv x -> pool_Get v x x1 ->
  gw x1 = gw x /\ readers x1 = readers x /\ results x1 !! v = Some no_result /\
  (forall v', v' <> v -> results x1 !! v' = results x !! v') /\
  (forall r d, readers x !! r = Some d -> v ∉ held d) /\
  NoDup (recyclePool x1) /\ v ∉ recyclePool x1 /\ (forall v', v' ∈ recyclePool x1 -> v' ∈ recyclePool x).
Proof.
  intros Hi [l1 l2 Hpool | Hnew].
  - pose proof (ri_pool_NoDup x Hi) as Hnd. rewrite Hpool, <- Permutation_middle, NoDup_cons in Hnd. destruct Hnd as [Hv Hnd].
    split_and!; try done; cbn [recyclePool set_recyclePool results].
    + apply Hi. rewrite Hpool. set_solver.
    + intros r d Hr Hin. apply (ri_pool_apart x Hi r d v Hr Hin). rewrite Hpool. set_solver.
    + intros v'. rewrite Hpool. set_solver.
  - split_and!; try done; cbn [recyclePool set_results results].
    + by rewrite lookup_insert_eq.
    + intros v' Hne. by rewrite lookup_insert_ne.
    + intros r d Hr Hin. destruct (held_result _ _ _ (ri_ok x Hi _ _ Hr) Hin) as (s & ev & Hs & _). congruence.
    + by apply Hi.
    + intros Hin%Hi. congruence.
Qed.

Lemma ReadCh_cons frame l :
  ReadCh (frame :: l) =
  match Read frame with
  | (Some err, _) => ReadError err :: (if IsDecodeError (Some err) then ReadCh l else [ReadNil])
  | (None, m) => ReadMessage m :: ReadCh l
  end.
Proof. cbn [ReadCh]. destruct (Read frame) as [[err |] m]; [by destruct (IsDecodeError _) | done]. Qed.

(** A reader that has read a frame into [v]. *)
Lemma reads_ok res res' d v frame l last ev more :
  reader_ok res d -> pc d = Looping -> unread d = frame :: l -> v ∉ held d ->
  (forall v', v' <> v -> res' !! v' = res !! v') -> carries res' v ev ->
  ReadCh (frame :: l) = ev :: more -> to_come (after_read l (Sending v last) d) more 0 ->
  reader_ok res' (after_read l (Sending v last) d).
Proof.
  intros [Hcap (evs & more0 & n & Hf & Hflow & Hnil & Hcome) Hdone Hcl Hnd] Hpc Hun Hv Hext Hcar Hread Hto.
  unfold held in *. rewrite Hpc, app_nil_r in *. unfold to_come in Hcome. rewrite Hpc, Hun in Hcome. destruct Hcome as [-> ->].
  split; unfold held; cbn [after_read pc c_ c_closed done_closed receiving taken Reader.frames unread]; try done.
  - exists (evs ++ [ev]), more, 0%nat. split_and!; [| | lia | done].
    + apply Forall2_app; [| by constructor]. apply (carries_ext res); [| done]. intros v' Hin. apply Hext. by intros ->.
    + rewrite <- Hflow, Hread. by rewrite <- app_assoc.
  - rewrite Hcl. by split.
  - apply NoDup_app. split_and!; [done | set_solver | apply NoDup_singleton].
Qed.

(** A step that moves the goroutine, and perhaps a result from its hand into the channel. *)
Lemma moves_ok res d d' :
  reader_ok res d -> held d' = held d -> taken d' = taken d -> frames d' = frames d ->
  (forall more n, to_come d more n -> to_come d' more n) ->
  (length (c_ d') <= c_cap)%nat -> (receiving d' = true -> done_closed d' = false) ->
  (c_closed d' = true <-> pc d' = Ended) -> reader_ok res d'.
Proof.
  intros [Hcap (evs & more & n & Hf & Hflow & Hnil & Hcome) Hdone Hcl Hnd] Hheld Htaken Hframes Hto Hcap' Hdone' Hcl'.
  split; rewrite ?Hheld; try done. exists evs, more, n. rewrite Htaken, Hframes. split_and!; auto.
Qed.

Lemma moves_inv r d d' x :
  readers_inv x -> readers x !! r = Some d -> held d' = held d -> reader_ok (results x) d' -> readers_inv (set_reader r d' x).
Proof. intros Hi Hr Hheld Hok. apply (readers_inv_same r d d' x); try done. intros v. by rewrite Hheld. Qed.

(** A result from the pool goes to the reader that asked for it. *)
Lemma Get_inv r d v d' res' x x1 :
  readers_inv x -> readers x !! r = Some d -> pool_Get v x x1 -> pc d = Looping ->
  (forall v', v' <> v -> res' !! v' = results x1 !! v') -> held d' = c_ d ++ [v] -> reader_ok res' d' ->
  readers_inv (set_reader r d' (set_results res' x1)).
Proof.
  intros Hi Hr Hget Hpc Hres' Hheld Hok'.
  destruct (Get_clean v x x1 Hi Hget) as (_ & Hrs & _ & Hext & Hfree & Hnd & Hout & Hsub).
  assert (Hold : held d = c_ d) by (unfold held; by rewrite Hpc, app_nil_r).
  apply (readers_inv_update r d' x); cbn [set_reader set_results readers results recyclePool]; try done.
  - by rewrite Hrs.
  - intros r0 d0 v0 Hne Hr0 Hv0. assert (v0 <> v) by (intros ->; by apply (Hfree r0 d0)).
    rewrite Hheld, Hres', Hext by done. split_and!; [done | |].
    + intros [Hin | ?]%elem_of_app; [| set_solver]. apply Hne, (ri_apart x Hi r0 r d0 d v0); try done. by rewrite Hold.
    + intros Hin%Hsub. by apply (ri_pool_apart x Hi r0 d0 v0).
  - intros v0 Hv0. assert (v0 <> v) by (by intros ->). rewrite Hheld, Hres', Hext by done. split; [by apply Hi, Hsub |].
    intros [Hin | ?]%elem_of_app; [| set_solver]. apply (ri_pool_apart x Hi r d v0 Hr); [by rewrite Hold | by apply Hsub].
Qed.

Lemma read_frame_inv r d v frame l x x1 :
  readers_inv x -> readers x !! r = Some d -> pc d = Looping -> unread d = frame :: l -> pool_Get v x x1 ->
  readers_inv (read_frame r v frame l d x1).
Proof.
  intros Hi Hr Hpc Hun Hget. destruct (Get_clean v x x1 Hi Hget) as (_ & _ & Hclean & Hext & Hfree & _).
  assert (Hvd : v ∉ held d) by (by apply (Hfree r)). pose proof (ri_ok x Hi r d Hr) as Hok.
  unfold read_frame. pose proof (ReadCh_cons frame l) as Hread.
  destruct (Read frame) as [[err |] m]; apply (Get_inv r d v _ _ x); try done.
  1, 3: intros v' Hne; by rewrite lookup_alter_ne by done.
  all: eapply (reads_ok (results x)); try done.
  1, 4: intros v' Hne; rewrite lookup_alter_ne by done; by apply Hext.
  1, 3: unfold carries; by rewrite lookup_alter_eq, Hclean.
  unfold to_come. cbn [after_read pc]. by destruct (IsDecodeError _).
Qed.

Lemma reader_step_inv r d x x' : readers_inv x -> readers x !! r = Some d -> reader_step r d x x' -> readers_inv x'.
Proof.
  intros Hi Hr Hstep. pose proof (ri_ok x Hi r d Hr) as Hok.
  destruct Hstep as [Hpc Hdc | v frame l x1 Hpc Hdc Hun Hget | v lst Hpc Hlen | Hpc].
  - assert (Hheld : held (with_pc Closing d) = held d) by (unfold held; by rewrite Hpc).
    apply (moves_inv r d); [done | done | done |]. apply (moves_ok _ d); try done; try apply Hok.
    + intros more n _. unfold to_come. cbn [with_pc pc done_closed]. congruence.
    + cbn [with_pc c_closed pc]. rewrite (ro_closed _ _ Hok), Hpc. by split.
  - by apply (read_frame_inv r d v frame l x).
  - assert (Hheld : held (with_c (c_ d ++ [v]) (if lst then Closing else Looping) d) = held d).
    { unfold held. rewrite Hpc. cbn [with_c c_ pc]. by destruct lst; rewrite app_nil_r. }
    apply (moves_inv r d); [done | done | done |]. apply (moves_ok _ d); try done; try apply Hok.
    + intros more n. unfold to_come. rewrite Hpc. cbn [with_c pc]. by destruct lst.
    + cbn [with_c c_]. rewrite length_app. cbn [length]. unfold c_cap in *. lia.
    + cbn [with_c c_closed pc]. rewrite (ro_closed _ _ Hok), Hpc. by destruct lst.
  - assert (Hheld : held (close_channel d) = held d) by (unfold held; by rewrite Hpc).
    apply (moves_inv r d); [done | done | done |]. apply (moves_ok _ d); try done; try apply Hok.
    intros more n. unfold to_come. rewrite Hpc. cbn [close_channel pc done_closed]. auto.
Qed.

(** [runRead] takes a result. *)
Lemma take_event_ok res d v l ev :
  reader_ok res d -> c_ d = v :: l -> carries res v ev -> reader_ok res (take_event l ev d) /\ v ∉ held (take_event l ev d).
Proof.
  intros [Hcap (evs & more & n & Hf & Hflow & Hnil & Hcome) Hdone Hcl Hnd] Hc Hcar.
  assert (Hheld : held d = v :: held (take_event l ev d)) by (unfold held; by rewrite Hc).
  rewrite Hheld in Hf, Hnd. apply NoDup_cons in Hnd as [Hv Hnd]. split; [| done].
  apply Forall2_cons_inv_l in Hf as (ev' & evs' & Hev & Hf & ->).
  assert (ev' = ev) as -> by (unfold carries in *; congruence).
  split; try done.
  - cbn [take_event c_]. rewrite Hc in Hcap. cbn [length] in Hcap. lia.
  - exists evs', more, n. split_and!; try done. cbn [take_event taken Reader.frames]. rewrite <- Hflow. by rewrite <- !app_assoc.
Qed.

Lemma take_nil_ok res d :
  reader_ok res d -> receiving d = true -> c_ d = [] -> c_closed d = true -> reader_ok res (take_event [] ReadNil d).
Proof.
  intros [Hcap (evs & more & n & Hf & Hflow & Hnil & Hcome) Hdone Hcl Hnd] Hrec Hc Hclosed.
  assert (Hpc : pc d = Ended) by (by apply Hcl). assert (Hheld : held d = []) by (unfold held; by rewrite Hc, Hpc).
  assert (Hheld' : held (take_event [] ReadNil d) = []) by (unfold held; cbn [take_event c_ pc]; by rewrite Hpc).
  rewrite Hheld in Hf. apply Forall2_nil_inv_l in Hf as ->. unfold to_come in Hcome. rewrite Hpc in Hcome.
  split; rewrite ?Hheld'; cbn [take_event c_ c_closed pc receiving done_closed taken frames]; try done; [cbn; unfold c_cap; lia | | constructor].
  destruct (Hcome (Hdone Hrec)) as [[-> ->] | [-> Hlast]].
  - exists [], [], 0%nat. split_and!; [done | rewrite <- Hflow; by rewrite !app_nil_r | lia |].
    unfold to_come. cbn [take_event pc frames]. rewrite ?Hpc. intros _. right. split; [done |].
    cbn [repeat app] in Hflow. rewrite app_nil_r in Hflow. rewrite <- Hflow. by rewrite last_snoc.
  - exists [], [], (S n). rewrite !app_nil_r in *. split_and!; [done | | done |].
    + rewrite Hflow, <- app_assoc. f_equal. by rewrite <- repeat_cons.
    + unfold to_come. cbn [take_event pc frames]. rewrite Hpc. by right.
Qed.

Lemma stop_receiving_ok res b d : reader_ok res d -> reader_ok res (stop_receiving b d).
Proof.
  intros Hok. apply (moves_ok _ d); try done; try apply Hok.
  intros more n. unfold to_come. cbn [stop_receiving pc unread done_closed frames].
  destruct (pc d) as [| v [|] | |]; try done; destruct b; cbn [orb]; auto; done.
Qed.

Section rounds.
Context `{BlockCipher}.

Lemma read_one r ev w :
  (run_gate_op (OpRead r [ev]) w).2 = match runRead r ev w with (Val _, w') => w' | (Panics _, w') => (Exit r w').2 end.
Proof.
  cbn [run_gate_op]. rewrite bind_state. cbn [read_loop]. unfold recovered. unfold bind at 1.
  destruct (runRead r ev w) as [[[|] | why] w']; [done | done |]. unfold bind. by destruct (Exit r w') as [[u | ?] w1].
Qed.

(** What a round changes: the gateway, as its own [OpRead] does; the client's reader, when the loop ends; and
    the pool, when the result is recycled. *)
Lemma round_cases r d ev ov x :
  exists d', (d' = d \/ exists b, d' = stop_receiving b d) /\
    let x1 := with_gw (run_gate_op (OpRead r [ev]) (gw x)).2 (set_reader r d' x) in
    round r d ev ov x = x1 \/ exists v, ov = Some v /\ d' = d /\ round r d ev ov x = Recycle v x1.
Proof.
  unfold round. rewrite read_one. destruct (runRead r ev (gw x)) as [[[|] | why] w]; cbv zeta.
  - exists d. split; [by left |]. destruct ov as [v |]; [| by left]. case_match; [right; by exists v | by left].
  - exists (stop_receiving true d). split; [right; by exists true | by left].
  - exists (stop_receiving false d). split; [right; by exists false | by left].
Qed.

Lemma held_stop b d : held (stop_receiving b d) = held d.
Proof. done. Qed.

(** A round after which the reader is [d]. *)
Lemma round_inv r d0 d ev ov x :
  readers_inv x -> readers x !! r = Some d0 -> reader_ok (results x) d ->
  (forall v, v ∈ held d -> v ∈ held d0) -> (forall v, ov = Some v -> v ∈ held d0 /\ v ∉ held d) ->
  readers_inv (round r d ev ov x).
Proof.
  intros Hi Hr Hok Hheld Hov. destruct (round_cases r d ev ov x) as (d' & Hd' & Hround).
  assert (Hd : held d' = held d /\ reader_ok (results x) d').
  { destruct Hd' as [-> | [b ->]]; [done | split; [done | by apply stop_receiving_ok]]. }
  destruct Hd as [Hh Hok']. cbv zeta in Hround. destruct Hround as [-> | (v & -> & -> & ->)].
  - apply readers_inv_gw. apply (readers_inv_same r d0 d' x); try done. by rewrite Hh.
  - destruct (Hov v eq_refl) as [Hin Hout].
    apply (readers_inv_update r d x); cbn [Recycle set_recyclePool set_results with_gw set_reader readers results recyclePool gw]; try done.
    + intros r0 d1 v0 Hne Hr0 Hv0.
      assert (v0 <> v) by (intros ->; by apply Hne, (ri_apart x Hi r0 r d1 d0 v)). split_and!.
      * by rewrite lookup_alter_ne.
      * intros Hv0'. apply Hne, (ri_apart x Hi r0 r d1 d0 v0); auto.
      * intros [-> | Hp]%elem_of_cons; [done |]. by apply (ri_pool_apart x Hi r0 d1 v0).
    + intros v0 [-> | Hp]%elem_of_cons.
      * split; [| done]. rewrite lookup_alter_eq. by destruct (held_result _ _ _ (ri_ok x Hi _ _ Hr) Hin) as (s & ev0 & -> & _).
      * assert (v0 <> v) by (intros ->; by apply (ri_pool_apart x Hi r d0 v)).
        rewrite lookup_alter_ne by done. split; [by apply Hi |]. intros Hv0. apply (ri_pool_apart x Hi r d0 v0); auto.
    + apply NoDup_cons. split; [by apply (ri_pool_apart x Hi r d0 v) | by apply Hi].
    + apply (reader_ok_ext (results x)); [| done]. intros v0 Hv0. rewrite lookup_alter_ne; [done |]. by intros ->.
Qed.

Lemma take_step_inv r d x x' : readers_inv x -> readers x !! r = Some d -> take_step r d x x' -> readers_inv x'.
Proof.
  intros Hi Hr Hstep. pose proof (ri_ok x Hi r d Hr) as Hok. destruct Hstep as [v l s ev Hrec Hc Hs Hev | Hrec Hc Hcl].
  - assert (Hcar : carries (results x) v ev) by (unfold carries; by rewrite Hs).
    destruct (take_event_ok _ d v l ev Hok Hc Hcar) as [Hok' Hv].
    assert (Hheld : held d = v :: held (take_event l ev d)) by (unfold held; by rewrite Hc).
    apply (round_inv r d); [done | done | done | |].
    + intros v0. rewrite Hheld. set_solver.
    + intros v0 [= <-]. split; [rewrite Hheld; set_solver | done].
  - apply (round_inv r d); [done | done | by apply take_nil_ok | | done].
    intros v. unfold held. cbn [take_event c_ pc]. by rewrite Hc.
Qed.

Lemma wake_step_inv r d x x' : readers_inv x -> readers x !! r = Some d -> wake_step r d x x' -> readers_inv x'.
Proof. intros Hi Hr [c Hrec Hc Hcl | Hrec]; (apply (round_inv r d); [done | done | by apply (ri_ok x Hi r) | done | done]). Qed.

Lemma new_reader_ok res l : reader_ok res (new_reader l).
Proof.
  split; try done; [cbn; unfold c_cap; lia | | by apply NoDup_nil].
  exists [], (ReadCh l), 0%nat. split_and!; [done | cbn [repeat]; by rewrite app_nil_r | lia | done].
Qed.

Lemma step_inv x x' : readers_inv x -> readers_step x x' -> readers_inv x'.
Proof.
  intros Hi Hs. revert Hi. destruct Hs as [r addr bytes l x0 Hok Hr | op x0 Hop Hok | r d x0 x1 Hr Hs | r d x0 x1 Hr Hs | r d x0 x1 Hr Hs]; intros Hi.
  - apply readers_inv_gw. apply (readers_inv_update r (new_reader l) x0); try done.
    + intros r0 d0 v _ Hr0 Hv. split_and!; [done | by apply not_elem_of_nil | by apply (ri_pool_apart x0 Hi r0 d0)].
    + intros v Hv. split; [by apply Hi | by apply not_elem_of_nil].
    + by apply Hi.
    + apply new_reader_ok.
  - by apply readers_inv_gw.
  - by apply (reader_step_inv r d x0).
  - by apply (take_step_inv r d x0).
  - by apply (wake_step_inv r d x0).
Qed.

Lemma readers_reachable_inv x : readers_reachable x -> readers_inv x.
Proof.
  induction 1 as [id key cap t rnd | x x' _ IH Hs]; [| by apply (step_inv x)].
  split; cbn; try done; [| by apply NoDup_nil].
  intros v []%elem_of_nil.
Qed.

(** ** The gateway behind *)

Lemma round_gate r d ev ov x : gate_reachable (gw x) -> gate_reachable (gw (round r d ev ov x)).
Proof.
  intros Hg. assert (Hg' : gate_reachable (run_gate_op (OpRead r [ev]) (gw x)).2) by (by apply gate_step).
  destruct (round_cases r d ev ov x) as (d' & _ & [-> | (v & _ & _ & ->)]); done.
Qed.

Lemma reader_step_gw r d x x' : reader_step r d x x' -> gw x' = gw x.
Proof.
  intros [| v frame l x1 _ _ _ Hget | |]; try done. unfold read_frame. destruct (Read frame) as [[err |] m]; cbn [gw set_reader set_results].
  all: by destruct Hget.
Qed.

Lemma reachable_gate x : readers_reachable x -> gate_reachable (gw x).
Proof.
  induction 1 as [id key cap t rnd | x x' _ IH Hs]; [constructor |].
  destruct Hs as [r addr bytes l x Hok Hr | op x Hop Hok | r d x x' Hr Hs | r d x x' Hr Hs | r d x x' Hr Hs].
  - by apply (gate_step _ (OpConnect r addr bytes)).
  - by apply gate_step.
  - by rewrite (reader_step_gw _ _ _ _ Hs).
  - destruct Hs; by apply round_gate.
  - destruct Hs; by apply round_gate.
Qed.

(** C18: the readers of all clients, their channels and the pool they share behave, in every interleaving with
    everything else the gateway does, like one list per connection: what a client's [runRead] has taken is a
    prefix of what [ReadCh] makes of its own connection's frames (with more nils after the one that ends it, since the closed channel yields
    them for ever); no result is in two places, those in the pool are clean; and the gateway is in a state
    that its own steps reach. *)
Theorem reader_delivers x :
  readers_reachable x ->
  gate_reachable (gw x) /\
  (forall r d, readers x !! r = Some d ->
     exists n, taken d `prefix_of` ReadCh (frames d) ++ repeat ReadNil n /\ ((0 < n)%nat -> last (ReadCh (frames d)) = Some ReadNil)) /\
  NoDup (recyclePool x) /\ (forall v, v ∈ recyclePool x -> results x !! v = Some no_result) /\
  (forall r d v, readers x !! r = Some d -> v ∈ held d -> v ∉ recyclePool x /\
     forall r' d', readers x !! r' = Some d' -> v ∈ held d' -> r = r').
Proof.
  intros Hx. pose proof (readers_reachable_inv x Hx) as Hi. split_and!.
  - by apply reachable_gate.
  - intros r d Hr. destruct (ro_flow _ _ (ri_ok x Hi r d Hr)) as (evs & more & n & _ & Hflow & Hnil & _).
    exists n. split; [| done]. rewrite <- Hflow. by exists (evs ++ more).
  - by apply Hi.
  - by apply Hi.
  - intros r d v Hr Hv. split; [by apply (ri_pool_apart x Hi r d) |]. intros r' d' Hr' Hv'. by apply (ri_apart x Hi r r' d d' v).
Qed.
End rounds.

(** ** Every frame gets through *)

(** What is left to do: two steps for a frame, those of the goroutine from where it is, and a take for each event. *)
Definition work (d : Reader) : nat :=
  2 * length (unread d) + match pc d with Looping => 2 | Sending _ _ => 3 | Closing => 1 | Ended => 0 end +
  (length (ReadCh (frames d)) - length (taken d)).

Section progress.
Context `{BlockCipher}.

(** The steps of a client's reader, and those of its [runRead] while there is something to take. *)
Definition own_step (r : nat) (d : Reader) (x x' : Readers) : Prop :=
  reader_step r d x x' \/ (take_step r d x x' /\ (length (taken d) < length (ReadCh (frames d)))%nat).

(** A run of the whole gateway, with [n] steps of the client's own. *)
Inductive run (r : nat) : nat -> Readers -> Readers -> Prop :=
  | run_nil x : run r 0 x x
  | run_own n d x x1 x2 : readers x !! r = Some d -> own_step r d x x1 -> run r n x1 x2 -> run r (S n) x x2
  | run_other n x x1 x2 : readers_step x x1 -> run r n x1 x2 -> run r n x x2.

Lemma own_step_is_a_step r d x x' : readers x !! r = Some d -> own_step r d x x' -> readers_step x x'.
Proof. intros Hr [Hs | [Hs _]]; [by eapply step_reader | by eapply step_take]. Qed.

Lemma run_reachable r n x x' : readers_reachable x -> run r n x x' -> readers_reachable x'.
Proof.
  intros Hx Hrun. revert Hx. induction Hrun; intros Hx; [done | |]; apply IHHrun; eapply reach_step; eauto using own_step_is_a_step.
Qed.

Lemma reader_step_work r d x x' :
  reader_step r d x x' -> exists d', readers x' = <[r := d']> (readers x) /\ frames d' = frames d /\ (work d' < work d)%nat.
Proof.
  intros [Hpc _ | v frame l x1 Hpc _ Hun Hget | v lst Hpc _ | Hpc].
  - eexists. split; [done |]. split; [done |]. unfold work. rewrite Hpc. cbn [with_pc pc unread taken frames]. lia.
  - assert (Hrs : readers x1 = readers x) by (by destruct Hget). unfold read_frame.
    destruct (Read frame) as [[err |] m]; eexists; cbn [set_reader set_results readers]; rewrite Hrs.
    all: split; [done |]; split; [done |]; unfold work; rewrite Hpc, Hun; cbn [after_read pc unread taken frames length]; lia.
  - eexists. split; [done |]. split; [done |]. unfold work. rewrite Hpc. cbn [with_c pc unread taken frames]. destruct lst; lia.
  - eexists. split; [done |]. split; [done |]. unfold work. rewrite Hpc. cbn [close_channel pc unread taken frames]. lia.
Qed.

Lemma round_work r d ev ov x :
  exists d', readers (round r d ev ov x) = <[r := d']> (readers x) /\ frames d' = frames d /\ work d' = work d.
Proof.
  destruct (round_cases r d ev ov x) as (d' & Hd' & Hround). exists d'. split.
  - destruct Hround as [-> | (v & _ & _ & ->)]; done.
  - destruct Hd' as [-> | [b ->]]; done.
Qed.

Lemma take_event_work l ev d :
  (work (take_event l ev d) <= work d)%nat /\
  ((length (taken d) < length (ReadCh (frames d)))%nat -> (work (take_event l ev d) < work d)%nat).
Proof. unfold work. cbn [take_event pc unread taken frames]. rewrite length_app. cbn [length]. lia. Qed.

Lemma take_step_work r d x x' :
  take_step r d x x' -> exists d', readers x' = <[r := d']> (readers x) /\ frames d' = frames d /\ (work d' <= work d)%nat /\
    ((length (taken d) < length (ReadCh (frames d)))%nat -> (work d' < work d)%nat).
Proof.
  intros [v l s ev _ _ _ _ | _ _ _];
    [destruct (round_work r (take_event l ev d) ev (Some v) x) as (d' & Hrs & Hfr & Hw); pose proof (take_event_work l ev d)
    | destruct (round_work r (take_event [] ReadNil d) ReadNil None x) as (d' & Hrs & Hfr & Hw); pose proof (take_event_work [] ReadNil d)].
  all: exists d'; rewrite Hw; split_and!; try done; by apply H0.
Qed.

Lemma own_step_work r d x x' :
  own_step r d x x' -> exists d', readers x' = <[r := d']> (readers x) /\ frames d' = frames d /\ (work d' < work d)%nat.
Proof.
  intros [Hs | [Hs Hlt]]; [by apply reader_step_work |].
  destruct (take_step_work r d x x' Hs) as (d' & Hrs & Hfr & _ & Hw). eauto.
Qed.

(** No step adds to a client's work. *)
Lemma step_work r d x x' :
  readers x !! r = Some d -> readers_step x x' ->
  exists d', readers x' !! r = Some d' /\ frames d' = frames d /\ (work d' <= work d)%nat.
Proof.
  intros Hr Hs.
  assert (Hown : forall r0 d0 d1, readers x !! r0 = Some d0 -> readers x' = <[r0 := d1]> (readers x) ->
    frames d1 = frames d0 -> (work d1 <= work d0)%nat -> exists d', readers x' !! r = Some d' /\ frames d' = frames d /\ (work d' <= work d)%nat).
  { intros r0 d0 d1 Hr0 -> Hfr Hw. destruct (decide (r0 = r)) as [-> | Hne].
    - assert (d0 = d) as -> by congruence. exists d1. by rewrite lookup_insert_eq.
    - exists d. by rewrite lookup_insert_ne. }
  destruct Hs as [r0 addr bytes l x _ Hr0 | op x _ _ | r0 d0 x x' Hr0 Hs | r0 d0 x x' Hr0 Hs | r0 d0 x x' Hr0 Hs].
  - exists d. split; [| done]. cbn [with_gw set_reader readers]. rewrite lookup_insert_ne; [done |]. intros ->. congruence.
  - by exists d.
  - destruct (reader_step_work r0 d0 x x' Hs) as (d1 & Hrs & Hfr & Hw). eapply Hown; [done | done | done | lia].
  - destruct (take_step_work r0 d0 x x' Hs) as (d1 & Hrs & Hfr & Hw & _). by eapply Hown.
  - destruct Hs as [c _ _ _ | _].
    + destruct (round_work r0 d0 ReadClose None x) as (d1 & Hrs & Hfr & Hw). eapply Hown; [done | done | done | lia].
    + destruct (round_work r0 d0 ReadHeartbeat None x) as (d1 & Hrs & Hfr & Hw). eapply Hown; [done | done | done | lia].
Qed.

Lemma run_work r n x x' : run r n x x' -> forall d, readers x !! r = Some d ->
  exists d', readers x' !! r = Some d' /\ frames d' = frames d /\ (work d' + n <= work d)%nat.
Proof.
  induction 1 as [x | n d0 x x1 x2 Hr0 Hs _ IH | n x x1 x2 Hs _ IH]; intros d Hr.
  - exists d. split_and!; [done | done | lia].
  - assert (d0 = d) as -> by congruence. destruct (own_step_work r d x x1 Hs) as (d1 & Hrs & Hfr & Hw).
    destruct (IH d1) as (d' & Hr' & Hfr' & Hw'); [by rewrite Hrs, lookup_insert_eq |].
    exists d'. split_and!; [done | congruence | lia].
  - destruct (step_work r d x x1 Hr Hs) as (d1 & Hr1 & Hfr & Hw). destruct (IH d1 Hr1) as (d' & Hr' & Hfr' & Hw').
    exists d'. split_and!; [done | congruence | lia].
Qed.

(** While [runRead] has something to take, the reader or [runRead] can go on. *)
Lemma own_step_exists r d x :
  readers_reachable x -> readers x !! r = Some d -> receiving d = true ->
  (length (taken d) < length (ReadCh (frames d)))%nat -> exists x', own_step r d x x'.
Proof.
  intros Hx Hr Hrec Hlen. pose proof (ri_ok x (readers_reachable_inv x Hx) r d Hr) as Hok.
  destruct (c_ d) as [| v l] eqn:Hc.
  - assert (Hdone : done_closed d = false) by (by apply Hok). destruct (pc d) as [| v lst | |] eqn:Hpc.
    + destruct (unread d) as [| frame l] eqn:Hun.
      * exfalso. destruct Hok as [_ (evs & more & n & Hf & Hflow & _ & Hcome) _ _ _].
        unfold held in Hf. rewrite Hc, Hpc in Hf. apply Forall2_nil_inv_l in Hf as ->.
        unfold to_come in Hcome. rewrite Hpc, Hun in Hcome. destruct Hcome as [-> ->].
        cbn [ReadCh app repeat] in Hflow. rewrite !app_nil_r in Hflow. rewrite Hflow in Hlen. lia.
      * set (v := fresh (dom (results x))). exists (read_frame r v frame l d (set_results (<[v := no_result]> (results x)) x)).
        left. apply reader_reads; try done. apply Get_new. apply not_elem_of_dom. apply is_fresh.
    + eexists. left. eapply reader_sends; [done |]. rewrite Hc. cbn. unfold c_cap. lia.
    + eexists. left. by apply reader_closes.
    + eexists. right. split; [| done]. eapply take_nil; [done | done |]. by apply Hok.
  - destruct (held_result _ d v Hok) as (s & ev & Hs & Hev); [unfold held; rewrite Hc; set_solver |].
    eexists. right. split; [| done]. by eapply take_result.
Qed.

(** C19: every frame of a connection gets through: in any run of the gateway from a state it reaches, a client's
    reader and [runRead] make at most as many steps as there is work (two for each frame not read yet, one
    for each event not taken yet, and up to three), and where they can make none while [runRead] still
    runs, it has taken everything [ReadCh] makes of the frames. *)
Theorem no_frame_is_lost r n x x' d :
  readers_reachable x -> readers x !! r = Some d -> run r n x x' ->
  (n <= work d)%nat /\
  exists d', readers x' !! r = Some d' /\
    (receiving d' = true -> (forall x2, ~ own_step r d' x' x2) -> ReadCh (frames d) `prefix_of` taken d').
Proof.
  intros Hx Hr Hrun. destruct (run_work r n x x' Hrun d Hr) as (d' & Hr' & Hfr & Hw). split; [lia |].
  exists d'. split; [done |]. intros Hrec Hstuck. rewrite <- Hfr.
  assert (Hx' : readers_reachable x') by (by eapply run_reachable).
  destruct (decide (length (taken d') < length (ReadCh (frames d')))%nat) as [Hlt | Hge].
  - destruct (own_step_exists r d' x' Hx' Hr' Hrec Hlt) as [x2 Hs]. by destruct (Hstuck x2).
  - destruct (ro_flow _ _ (ri_ok x' (readers_reachable_inv x' Hx') r d' Hr')) as (evs & more & k & _ & Hflow & _).
    assert (Hpre : ReadCh (frames d') `prefix_of` taken d' ++ (evs ++ more)) by (rewrite Hflow; by exists (repeat ReadNil k)).
    destruct (prefix_weak_total (ReadCh (frames d')) (taken d') (taken d' ++ (evs ++ more)) Hpre) as [Hp | Hp].
    + by apply prefix_app_r.
    + done.
    + rewrite (prefix_length_eq _ _ Hp); [done | lia].
Qed.
End progress.

(** ** A reader nobody listens to *)

Section abandoned.
Context `{BlockCipher}.

(** [runRead] is over, the channel is full and the goroutine is sending. *)
Definition hangs (d : Reader) : Prop :=
  receiving d = false /\ (c_cap <= length (c_ d))%nat /\ exists v last, pc d = Sending v last.

(** a reader that is sending on its full channel when [runRead] ends stays there for ever: it never looks at
    [done] again, so the goroutine and what it refers to are never released. *)
Theorem abandoned_reader_hangs r d x x' : readers x !! r = Some d -> hangs d -> rtc readers_step x x' -> readers x' !! r = Some d.
Proof.
  intros Hr (Hrec & Hfull & v & lst & Hpc) Hrun. revert Hr. induction Hrun as [x | x x1 x' Hs _ IH]; intros Hr; [done |]. apply IH. clear IH.
  assert (Hne : forall r0 d1 d2, readers x !! r0 = Some d1 -> readers x1 = <[r0 := d2]> (readers x) -> r0 <> r -> readers x1 !! r = Some d).
  { intros r0 d1 d2 _ -> Hne. by rewrite lookup_insert_ne. }
  destruct Hs as [r0 addr bytes l x _ Hr0 | op x _ _ | r0 d0 x x1 Hr0 Hs | r0 d0 x x1 Hr0 Hs | r0 d0 x x1 Hr0 Hs].
  - cbn [with_gw set_reader readers]. rewrite lookup_insert_ne; [done |]. intros ->. congruence.
  - done.
  - destruct (reader_step_work r0 d0 x x1 Hs) as (d1 & Hrs & _). apply (Hne r0 d0 d1 Hr0 Hrs). intros ->.
    assert (d0 = d) as -> by congruence. destruct Hs; [congruence | congruence | lia | congruence].
  - destruct (take_step_work r0 d0 x x1 Hs) as (d1 & Hrs & _). apply (Hne r0 d0 d1 Hr0 Hrs). intros ->.
    assert (d0 = d) as -> by congruence. destruct Hs; congruence.
  - assert (Hrec0 : receiving d0 = true) by (by destruct Hs).
    assert (r0 <> r) by (intros ->; congruence).
    destruct Hs as [c _ _ _ | _];
      [destruct (round_work r0 d0 ReadClose None x) as (d1 & Hrs & _) | destruct (round_work r0 d0 ReadHeartbeat None x) as (d1 & Hrs & _)].
    all: by apply (Hne r0 d0 d1 Hr0 Hrs).
Qed.

(** A frame that does not decode, read and sent while there is room. *)
Lemma reads_bad_frame r d x text l :
  readers_reachable x -> readers x !! r = Some d -> pc d = Looping -> done_closed d = false -> unread d = inl text :: l ->
  (exists e, (Read (inl text)).1 = Some e /\ IsDecodeError (Some e) = true) ->
  exists x1 v, readers_reachable x1 /\ gw x1 = gw x /\ readers x1 !! r = Some (after_read l (Sending v false) d).
Proof.
  intros Hx Hr Hpc Hdone Hun (e & He & Hdec). set (v := fresh (dom (results x))).
  assert (Hs : reader_step r d x (read_frame r v (inl text) l d (set_results (<[v := no_result]> (results x)) x))).
  { apply reader_reads; try done. apply Get_new. apply not_elem_of_dom. apply is_fresh. }
  exists (read_frame r v (inl text) l d (set_results (<[v := no_result]> (results x)) x)), v. split_and!.
  - apply (reach_step x); [done |]. by apply (step_reader r d).
  - by apply (reader_step_gw r d).
  - unfold read_frame. destruct (Read (inl text)) as [[e' |] m]; [| done]. cbn [fst] in He. injection He as ->.
    rewrite Hdec. cbn [negb set_reader readers]. by rewrite lookup_insert_eq.
Qed.

Lemma fills_channel r d x k l :
  readers_reachable x -> readers x !! r = Some d -> receiving d = true -> pc d = Looping -> done_closed d = false -> c_ d = [] ->
  unread d = repeat (inl "") k ++ l -> (k <= c_cap)%nat ->
  exists x1 d1, readers_reachable x1 /\ gw x1 = gw x /\ readers x1 !! r = Some d1 /\ receiving d1 = true /\ pc d1 = Looping /\
    done_closed d1 = false /\ length (c_ d1) = k /\ unread d1 = l.
Proof.
  revert d x l. induction k as [| k IH]; intros d x l Hx Hr Hrec Hpc Hdone Hc Hun Hk.
  - exists x, d. rewrite Hc. by split_and!.
  - assert (Hun' : unread d = repeat (inl "") k ++ inl "" :: l).
    { rewrite Hun. cbn [repeat]. by rewrite repeat_cons, <- app_assoc. }
    destruct (IH d x (inl "" :: l)) as (x1 & d1 & Hx1 & Hg1 & Hr1 & Hrec1 & Hpc1 & Hdone1 & Hc1 & Hun1); try done; [lia |].
    destruct (reads_bad_frame r d1 x1 "" l) as (x2 & v & Hx2 & Hg2 & Hr2); try done.
    { by eexists. }
    eexists _, _. split_and!.
    + apply (reach_step x2); [done |]. eapply step_reader; [exact Hr2 |]. eapply reader_sends; [done |].
      cbn [after_read c_]. lia.
    + cbn [gw set_reader]. congruence.
    + cbn [set_reader readers]. apply lookup_insert_eq.
    + done.
    + done.
    + done.
    + cbn [with_c after_read c_]. rewrite length_app. cbn [length]. lia.
    + done.
Qed.
End abandoned.

(** ** One connection *)

#[local] Existing Instance flip_cipher.

(** The gateway with one client, whose connection returns [l]. *)
Definition one_reader (l : list (string + string)) : Readers :=
  with_gw (run_gate_op (OpConnect 0 "10.0.0.1" (demo_bytes 1)) demo_w0).2
    (set_reader 0 (new_reader l) (MkReaders demo_w0 ∅ [] ∅)).

Lemma one_reader_reachable l : readers_reachable (one_reader l).
Proof.
  eapply reach_step; [apply (reach_start "g1" "secret" 100 5000 [demo_bytes 9; demo_bytes 10]) |].
  apply (step_connect 0 "10.0.0.1" (demo_bytes 1) l); [split; vm_compute; reflexivity | done].
Qed.

(** A client that sent six texts that do not decode, and is made to leave before [runRead] takes one. *)
Lemma abandoned_reader_is_reached :
  exists x d c, readers_reachable x /\ readers x !! 0%nat = Some d /\ hangs d /\ done_closed d = true /\
    heap (gw x) !! 0%nat = Some c /\ state c = stateClosed.
Proof.
  destruct (fills_channel 0 (new_reader (repeat (inl "") 6)) (one_reader (repeat (inl "") 6)) 5 [inl ""])
    as (x1 & d1 & Hx1 & Hg1 & Hr1 & Hrec1 & Hpc1 & Hdone1 & Hc1 & Hun1); try done.
  { apply one_reader_reachable. }
  destruct (reads_bad_frame 0 d1 x1 "" []) as (x2 & v & Hx2 & Hg2 & Hr2); try done.
  { by eexists. }
  set (d2 := after_read [] (Sending v false) d1). set (w3 := (run_gate_op (OpExit 0) (gw x2)).2).
  assert (Hw3 : exists c, heap w3 !! 0%nat = Some c /\ state c = stateClosed /\ closeReadCh c = true).
  { unfold w3. rewrite Hg2, Hg1. eexists. split; [vm_compute; reflexivity | by split]. }
  destruct Hw3 as (c & Hc & Hs & Hcl).
  exists (round 0 d2 ReadClose None (with_gw w3 x2)), (stop_receiving true d2), c. split_and!.
  - apply (reach_step (with_gw w3 x2)).
    + apply (reach_step x2); [done |]. by apply (step_gate (OpExit 0)).
    + apply (step_wake 0 d2); [done |]. by apply (wake_close 0 d2 (with_gw w3 x2) c).
  - unfold round. cbn [runRead ret with_gw set_reader readers]. apply lookup_insert_eq.
  - split; [done |]. split; [cbn; rewrite Hc1; unfold c_cap; lia |]. by exists v, false.
  - done.
  - done.
  - done.
Qed.

Lemma abandoned_reader_hangs_witness :
  exists x d, readers x !! 0%nat = Some d /\ hangs d /\ readers x !! 0%nat = Some d.
Proof.
  destruct abandoned_reader_is_reached as (x & d & c & _ & Hr & Hd & _). exists x, d. split; [done |]. split; [done |].
  exact (abandoned_reader_hangs 0 d x x Hr Hd (rtc_refl _ _)).
Defined.

Lemma reader_delivers_witness :
  exists x d, readers_reachable x /\ readers x !! 0%nat = Some d /\ length (c_ d) = 3%nat /\
    exists n, taken d `prefix_of` ReadCh (frames d) ++ repeat ReadNil n.
Proof.
  destruct (fills_channel 0 (new_reader (repeat (inl "") 3)) (one_reader (repeat (inl "") 3)) 3 [])
    as (x & d & Hx & _ & Hr & _ & _ & _ & Hc & _); try done.
  { apply one_reader_reachable. }
  { unfold c_cap. lia. }
  exists x, d. split_and!; [done | done | done |]. destruct (reader_delivers x Hx) as (_ & Htaken & _).
  destruct (Htaken 0%nat d Hr) as (n & Hn & _). by exists n.
Defined.

(** One text that does not decode: read, sent and taken; then nothing is left to do. *)
Definition bad_event : read_event := Eval vm_compute in hd ReadNil (ReadCh [inl ""]).
Definition bad_reader : Reader := new_reader [inl ""].
Definition bad_read : Readers :=
  read_frame 0 0 (inl "") [] bad_reader (set_results (<[0%nat := no_result]> (results (one_reader [inl ""]))) (one_reader [inl ""])).
Definition bad_sending : Reader := after_read [] (Sending 0 false) bad_reader.
Definition bad_sent : Readers := set_reader 0 (with_c [0%nat] Looping bad_sending) bad_read.
Definition bad_taken : Reader := take_event [] bad_event (with_c [0%nat] Looping bad_sending).

Lemma bad_run : run 0 3 (one_reader [inl ""]) (round 0 bad_taken bad_event (Some 0%nat) bad_sent).
Proof.
  apply (run_own 0 2 bad_reader _ bad_read); [done | left |].
  { by apply (reader_reads 0 bad_reader _ 0 (inl "") []); [| | | apply Get_new]. }
  apply (run_own 0 1 bad_sending _ bad_sent); [vm_compute; reflexivity | left |].
  { apply (reader_sends 0 bad_sending _ 0 false); [done | cbn; unfold c_cap; lia]. }
  eapply (run_own 0 0 (with_c [0%nat] Looping bad_sending) _ _); [done | right | apply run_nil].
  split; [| vm_compute; lia]. eapply take_result; [done | done | vm_compute; reflexivity | vm_compute; reflexivity].
Qed.

Lemma no_frame_is_lost_witness :
  (3 <= work bad_reader)%nat /\
  exists d', readers (round 0 bad_taken bad_event (Some 0%nat) bad_sent) !! 0%nat = Some d' /\ receiving d' = true /\
    ReadCh [inl ""] `prefix_of` taken d'.
Proof.
  destruct (no_frame_is_lost 0 3 (one_reader [inl ""]) (round 0 bad_taken bad_event (Some 0%nat) bad_sent) bad_reader)
    as (Hwork & d' & Hr' & Hall); [apply one_reader_reachable | done | apply bad_run |].
  split; [exact Hwork |]. exists d'. split; [done |].
  assert (d' = bad_taken) as ->.
  { assert (E : readers (round 0 bad_taken bad_event (Some 0%nat) bad_sent) !! 0%nat = Some bad_taken) by (vm_compute; reflexivity).
    rewrite E in Hr'. by injection Hr'. }
  split; [done |]. apply Hall; [done |]. intros x2 [Hs | [_ Hlt]].
  - destruct Hs; done.
  - vm_compute in Hlt. lia.
Defined.
