(* ===== verification/GateTyping.v ===== *)
(** * The messages in the gateway are typed

    Every message a client's queue or the pool holds may be sent to a client, and every message given to
    the gateway's handler is typed: each operation of the gateway keeps that ([gate_op_typed]), when
    the messages it is given from outside are typed and those its readers read come from frames. *)

From S2P Require Import Prelude GoStrings Json Messages Typing GateId Digest Credentials Gate GateSpec.

Local Open Scope Z_scope.
Local Open Scope go_scope.

Record world_typed (w : World) : Prop := {
  wt_queues : forall r c m, heap w !! r = Some c -> m ∈ messages c -> sendable m;
  wt_pool : forall r m, (r, m) ∈ pool w -> sendable m;
  wt_handled : forall c m, (c, m) ∈ handled w -> typed m = true }.

Lemma world_typed_NewServer id key cap t rnd : world_typed (NewServer id key cap t rnd).
Proof. unfold NewServer. split; cbn; try done; intros ? ? H; by apply not_elem_of_nil in H. Qed.

(** The queue of a client after an update of it: nothing new, but what may be sent. *)
Definition adds_sendable (c c' : UserClient) : Prop := forall m, m ∈ messages c' -> m ∈ messages c \/ sendable m.

Lemma world_typed_client r c c' w :
  world_typed w -> heap w !! r = Some c -> adds_sendable c c' -> world_typed (set_heap (<[r := c']> (heap w)) w).
Proof.
  intros [Hq Hp Hh] Hr Hc. split; cbn [heap set_heap pool handled]; [| done | done].
  intros r0 c0 m [[<- <-] | [_ Hr0]]%lookup_insert_Some Hm; [| by eapply Hq].
  destruct (Hc m Hm); [by eapply Hq | done].
Qed.

Lemma world_typed_handled c m w : world_typed w -> typed m = true -> world_typed (add_handled (c, m) w).
Proof.
  intros [Hq Hp Hh] Hm. split; cbn [heap add_handled pool handled]; [done | done |].
  intros c0 m0 [Hin | Hin]%elem_of_app; [by eapply Hh |]. apply list_elem_of_singleton in Hin. by injection Hin as -> ->.
Qed.

Lemma world_typed_pool l w :
  world_typed w -> (forall r m, (r, m) ∈ l -> sendable m) -> world_typed (set_pool l w).
Proof. intros [Hq Hp Hh] Hl. by split. Qed.

(** ** Monadic forms *)

Lemma typed_get_client r : preserves world_typed (get_client r).
Proof. intros w Hi. unfold get_client. by destruct (heap w !! r). Qed.

Lemma typed_upd_client r f : (forall c, adds_sendable c (f c)) -> preserves world_typed (upd_client r f).
Proof.
  intros Hf w Hi. unfold upd_client, modify. cbn [snd]. destruct (heap w !! r) as [c |] eqn:Hr.
  - rewrite (alter_as_insert _ _ _ _ Hr). by apply (world_typed_client r c).
  - replace (alter f r (heap w)) with (heap w); [by rewrite set_heap_same |].
    apply map_eq. intros i. destruct (decide (i = r)) as [-> | Hne]; [by rewrite lookup_alter_eq, Hr | by rewrite lookup_alter_ne].
Qed.

Lemma typed_modify f :
  (forall w, heap (f w) = heap w /\ pool (f w) = pool w /\ handled (f w) = handled w) -> preserves world_typed (modify f).
Proof. intros Hf w [Hq Hp Hh]. destruct (Hf w) as (E1 & E2 & E3). split; cbn; by rewrite ?E1, ?E2, ?E3. Qed.

Lemma typed_call_handler c m : typed m = true -> preserves world_typed (call_handler c m).
Proof. intros Hm. apply preserves_modify. intros w Hw. by apply world_typed_handled. Qed.

Lemma typed_gateway_id id : preserves world_typed (gateway_id id).
Proof. apply preserves_gets. Qed.
Lemma typed_lookup_client id : preserves world_typed (lookup_client id).
Proof. apply preserves_gets. Qed.

Lemma typed_client_EnqueueMessage r m : sendable m -> preserves world_typed (client_EnqueueMessage r m).
Proof.
  intros Hm w Hi. unfold client_EnqueueMessage, bind, get_client.
  destruct (heap w !! r) as [c |] eqn:Hr; [| done]. destruct (if state c is stateClosed then true else false); [done |].
  destruct (messages_closed c); [done |]. destruct (_ <? _)%nat; [| done].
  erewrite upd_client_run by done. apply (world_typed_client r c); [done | done |].
  intros m0 [Hin | Hin]%elem_of_app; [by left |]. apply list_elem_of_singleton in Hin as ->. by right.
Qed.

(** An update that leaves the queue alone. *)
#[local] Hint Extern 1 (preserves _ (upd_client _ _)) =>
  apply typed_upd_client; intros ? ? ?; left; assumption : preserves.
#[local] Hint Extern 1 (preserves _ (SetID _ _)) =>
  apply typed_upd_client; intros ? ? ?; left; assumption : preserves.
#[local] Hint Extern 1 (preserves _ (modify _)) => apply typed_modify; intros ?; split_and!; reflexivity : preserves.
(** The messages the gateway makes. *)
#[local] Hint Extern 1 (sendable (Some (NewMessage _ _ _))) => reflexivity : preserves.
#[local] Hint Extern 1 (sendable (Some heartbeat)) => reflexivity : preserves.
#[local] Hint Extern 1 (typed (internal _ _) = true) => reflexivity : preserves.
#[local] Hint Resolve typed_get_client typed_gateway_id typed_lookup_client typed_call_handler typed_client_EnqueueMessage : preserves.

Lemma typed_stop r : preserves world_typed (stop r).
Proof. unfold stop, stopReadWrite, close_client. repeat preserves_step. Qed.
#[local] Hint Resolve typed_stop : preserves.
Lemma typed_Exit_no_id r : preserves world_typed (Exit_no_id r).
Proof. unfold Exit_no_id. repeat preserves_step. Qed.
#[local] Hint Resolve typed_Exit_no_id : preserves.
Lemma typed_ExitClient id : preserves world_typed (ExitClient id).
Proof. unfold ExitClient. repeat preserves_step. Qed.
#[local] Hint Resolve typed_ExitClient : preserves.
Lemma typed_Exit r : preserves world_typed (Exit r).
Proof. unfold Exit. repeat preserves_step. Qed.
Lemma typed_SetClientID old new : preserves world_typed (SetClientID old new).
Proof. unfold SetClientID. repeat preserves_step. Qed.
Lemma typed_SetCredentials r cr : preserves world_typed (SetCredentials r cr).
Proof. unfold SetCredentials. repeat preserves_step. Qed.
#[local] Hint Resolve typed_Exit typed_SetClientID typed_SetCredentials : preserves.
Lemma typed_UpdateClient id secrets : preserves world_typed (UpdateClient id secrets).
Proof. unfold UpdateClient. repeat preserves_step. Qed.

Lemma typed_gate_enqueue r m : sendable m -> preserves world_typed (gate_enqueue r m).
Proof.
  intros Hm. unfold gate_enqueue, IsRunning. apply preserves_bind; [repeat preserves_step | intros [|]; [| apply preserves_ret]].
  intros w Hw. unfold bind, gets. destruct (_ <? _); [| done]. apply world_typed_pool; [done |].
  intros r0 m0 [Hin | Hin]%elem_of_app; [by eapply wt_pool |]. apply list_elem_of_singleton in Hin. by injection Hin as -> ->.
Qed.
#[local] Hint Resolve typed_gate_enqueue : preserves.
Lemma typed_EnqueueMessage id m : sendable m -> preserves world_typed (EnqueueMessage id m).
Proof. intros Hm. unfold EnqueueMessage. repeat preserves_step. Qed.
#[local] Hint Resolve typed_UpdateClient typed_EnqueueMessage : preserves.

Lemma typed_MessageInterceptor r m : preserves world_typed (MessageInterceptor r m).
Proof. unfold MessageInterceptor, forbid. repeat preserves_step. Qed.
Lemma typed_updateClient r cr : preserves world_typed (updateClient r cr).
Proof. unfold updateClient, take_random. repeat preserves_step. Qed.
#[local] Hint Resolve typed_MessageInterceptor typed_updateClient : preserves.

Section steps.
Context `{BlockCipher}.

Lemma typed_on_nil (m : GoM World bool) : preserves world_typed m -> preserves world_typed (on_nil m).
Proof. intros Hm w Hi. unfold on_nil. specialize (Hm w Hi). by destruct (m w) as [[[|] |] w']. Qed.
#[local] Hint Resolve typed_on_nil : preserves.

Lemma typed_client_handler r m : typed m = true -> preserves world_typed (client_handler r m).
Proof.
  intros Hm. unfold client_handler, interceptClientMessage, ClientAuthMessageInterceptor, read_credentials.
  repeat preserves_step.
Qed.

Lemma typed_handleHello r m : preserves world_typed (handleHello r m).
Proof. unfold handleHello. repeat preserves_step. Qed.
#[local] Hint Resolve typed_client_handler typed_handleHello : preserves.

(** What a reader sends: its messages come from frames. *)
Definition from_frame (ev : read_event) : Prop :=
  match ev with ReadMessage m => exists text, decode_message text = (nil_error, m) | _ => True end.

Lemma ReadCh_from_frames frames : Forall from_frame (ReadCh frames).
Proof.
  induction frames as [| [text | err] frames IH]; cbn [ReadCh Read]; [done | |].
  - destruct (decode_message text) as [[e |] m] eqn:E; [| constructor; [by exists text | done]].
    destruct (IsDecodeError (Some e)); [by constructor | by repeat constructor].
  - cbn [errors_New]. destruct (IsDecodeError (Some err)); [by constructor | by repeat constructor].
Qed.

Lemma typed_runRead r ev : from_frame ev -> preserves world_typed (runRead r ev).
Proof.
  intros Hev. unfold runRead, IsRunning. destruct ev as [| | | err | m]; [repeat preserves_step .. |].
  destruct Hev as [text E]. assert (Hm : typed m = true) by (by apply for_client_typed, (decode_message_typed _ _ _ E)).
  repeat preserves_step.
Qed.

Lemma typed_read_loop r evs : Forall from_frame evs -> preserves world_typed (read_loop r evs).
Proof.
  induction 1 as [| ev evs Hev _ IH]; simpl; [apply preserves_ret |]. apply preserves_bind; [| by intros [|]; auto with preserves].
  pose proof (typed_runRead r ev Hev) as Hm. intros w Hi. unfold recovered. specialize (Hm w Hi).
  destruct (runRead r ev w) as [[a | why] w']; [done |]. apply (preserves_bind world_typed (Exit r)); eauto with preserves.
Qed.

(** ** Writing *)

Lemma typed_dequeue r c m l w :
  world_typed w -> heap w !! r = Some c -> messages c = m :: l -> world_typed (set_heap (<[r := dequeued l c]> (heap w)) w).
Proof.
  intros Hi Hr Hm. apply (world_typed_client r c); [done | done |]. intros m0 Hin. left. rewrite Hm. by constructor.
Qed.

Lemma typed_write2Conn r m ok : preserves world_typed (write2Conn r m ok).
Proof.
  unfold write2Conn. destruct (encode_ptr m); [| apply preserves_ret]. apply typed_upd_client.
  intros c m0 Hin. left. by destruct ok.
Qed.

Lemma typed_runWrite r ev : preserves world_typed (runWrite r ev).
Proof.
  destruct ev as [| | ok]; [apply preserves_ret | unfold runWrite, IsRunning; repeat preserves_step |].
  intros w Hi. unfold runWrite. destruct (heap w !! r) as [c |] eqn:Hr; [| by unfold bind, get_client; rewrite Hr].
  run_step. destruct (messages c) as [| [m |] l] eqn:Hm.
  - assert (Hp : preserves world_typed (Exit r ;;; ret true)) by (repeat preserves_step).
    destruct (messages_closed c); [by apply Hp | done].
  - run_step. assert (Hp : preserves world_typed (write2Conn r (Some m) ok ;;; ret true))
      by (apply preserves_bind; [apply typed_write2Conn | intros; apply preserves_ret]).
    apply Hp. by eapply typed_dequeue.
  - run_step. assert (Hp : preserves world_typed (Exit r ;;; ret true)) by (repeat preserves_step).
    apply Hp. by eapply typed_dequeue.
Qed.

Lemma typed_flush r ok : preserves world_typed (flush r ok).
Proof.
  intros w Hi. unfold flush. destruct (heap w !! r) as [c |] eqn:Hr; [| by unfold bind, get_client; rewrite Hr].
  run_step. destruct (messages c) as [| m l] eqn:Hm.
  - assert (Hp : preserves world_typed (upd_client r (with_flushing false) ;;; close_client r ;;; ret false))
      by (unfold close_client; repeat preserves_step).
    assert (Hn : preserves world_typed (write2Conn r None ok ;;; ret true))
      by (apply preserves_bind; [apply typed_write2Conn | intros; apply preserves_ret]).
    destruct (messages_closed c); [by apply Hn | by apply Hp].
  - run_step. assert (Hp : preserves world_typed (write2Conn r m ok ;;; ret true))
      by (apply preserves_bind; [apply typed_write2Conn | intros; apply preserves_ret]).
    apply Hp. by eapply typed_dequeue.
Qed.

Lemma typed_run_pool n : preserves world_typed (run_pool n).
Proof.
  intros w Hi. unfold run_pool. run_step. destruct (pool w !! n) as [[r m] |] eqn:Hp; [| done]. run_step.
  assert (Hm : sendable m) by (eapply wt_pool; [done | by eapply list_elem_of_lookup_2]).
  assert (Hpre : preserves world_typed (let! _ := client_EnqueueMessage r m in ret tt)) by (repeat preserves_step).
  apply Hpre, world_typed_pool; [done |]. intros r0 m0 Hin. apply (wt_pool _ Hi r0 m0).
  by eapply elem_of_sublist, sublist_delete.
Qed.

Lemma typed_HandleConnection r addr bytes w :
  world_typed w -> world_typed (HandleConnection r addr bytes w).2.
Proof.
  intros Hi. unfold HandleConnection. do 3 run_step.
  assert (Hw : world_typed (set_heap (<[r := new_client addr (now w) (Some (MkClientConfig (30 * second) (30 * second) 3 false))]> (heap w)) w)).
  { destruct Hi as [Hq Hp Hh]. split; cbn; [| done | done].
    intros r0 c0 m [[<- <-] | [_ Hr0]]%lookup_insert_Some Hm; [by apply not_elem_of_nil in Hm | by eapply Hq]. }
  revert Hw. match goal with |- world_typed ?w0 -> world_typed (?m _).2 => assert (Hp : preserves world_typed m) end;
    [unfold AddClient, Run; repeat preserves_step | apply Hp].
Qed.

(** ** The operations *)

(** The messages an operation brings in. *)
Definition op_typed (op : gate_op) : Prop :=
  match op with
  | OpEnqueue _ m => sendable m
  | OpRead _ evs => Forall from_frame evs
  | _ => True
  end.

Lemma gate_op_typed op w : op_typed op -> world_typed w -> world_typed (run_gate_op op w).2.
Proof.
  intros Hop Hw. destruct op; cbn [run_gate_op op_typed] in *; rewrite ?bind_state.
  - by apply typed_HandleConnection.
  - by apply typed_SetClientID.
  - by apply typed_UpdateClient.
  - by apply typed_ExitClient.
  - by apply typed_Exit.
  - by apply typed_EnqueueMessage.
  - by apply typed_read_loop.
  - by apply typed_runWrite.
  - by apply typed_flush.
  - by apply typed_run_pool.
  - by apply typed_modify.
Qed.
End steps.
