(* ===== verification/ExitRace.v ===== *)
(** * Overlapping calls of [Exit]

    [Gate] takes [UserClient.Exit] and [Impl.ExitClient] as one step each. The code holds no lock in [Exit]: it loads the
    state, stores it, tells the gateway (whose mutex [ExitClient] takes) and stops the client, and
    any goroutine may do so at any time. Here a call is a stack of frames that moves one such action at a time,
    any number of calls run interleaved with one another, with the goroutines that flush the queues
    and with the rest of the gateway.

    The gateway calls its message handler with a presence event while it holds its mutex. The handler is messaging's
    [Handle]: when its pool refuses the task it reports the error to the client through the gateway
    ([OnHandleMessageError]), whose [EnqueueMessage] waits for the mutex the same goroutine holds.

    [exit_alone_is_Exit] says that a call nothing interleaves with is the step of [Gate]. [exit_calls_return] says that
    the calls never block one another for ever, unless an event was refused; [refused_event_blocks_for_ever] that then
    they do, and [refused_event_reachable] that it happens; [exit_closes_once] that a client is closed
    once as long as no two calls pass the check of its state; [overlapping_exits_crash] that two calls can, and that the
    process can die of it; [overlapping_exits_spin] that otherwise a flush may never end. *)

From S2P Require Import Prelude GoStrings Json Messages GateId Credentials Gate GateSpec GateFrame.

From stdpp Require Import numbers relations.

Local Open Scope Z_scope.
Local Open Scope go_scope.

(** ** Data *)

(** Where a call of [Exit] is: before the load of the state, the store, the load of the ID, the check of the ID and of
    [mgr], the call of the manager, for which [mgr] is loaded again, [SetID], the assignment of [mgr],
    [stopReadWrite], and the end. *)
Inductive exit_pc :=
  Entered | Checked | Stored | Named (id : ID) | Telling (id : ID) | Told | IDCleared | MgrCleared | Stopped.

(** The frames of a goroutine: [Exit] of a client; [ExitClient], waiting for the gateway's mutex or holding it;
    its deferred unlock; and [EnqueueMessage] waiting to read under the mutex, called by the handler that refused an event. *)
Inductive frame :=
  | FExit (r : nat) (pc : exit_pc)
  | FLock (id : ID)
  | FInside (id : ID)
  | FUnlock
  | FRLock.

Record Race := MkRace {
  world : World;
  calls : list (list frame);
  mu : option nat;                   (* the call that holds the gateway's mutex *)
  flushers : list (nat * bool);      (* the clients whose queue a goroutine flushes; true when it has come to [END] *)
  crashed : bool;                    (* a flushing goroutine panicked: nothing recovers it *)
  passed : list nat;                 (* history: the clients whose check a call has passed *)
  failed : list nat }.               (* history: the clients whose [Exit] was unwound by a panic *)

(** ** The actions *)

(** The handler of the gateway, called with a presence event: what it is called with, or, when messaging's pool refuses
    it, the frame of the call it makes. *)
Definition event_call (taken : bool) (i : info_ref) (m : GlideMessage) : GoM World (list frame) :=
  if taken then call_handler i m ;;; ret [] else ret [FRLock].

(** [ExitClient] between its lock and the call of [Exit]. *)
Definition inside_round (taken : bool) (id : ID) : GoM World (list frame * list (nat * bool)) :=
  let! id := gateway_id id in
  let! o := lookup_client id in
  match o with
  | None => ret ([FUnlock], [])
  | Some r =>
      let! c := get_client r in
      SetID r "" ;;;
      modify (fun w => set_clients (delete id (clients w)) w) ;;;
      let! waits := event_call taken (InfoCopy (info c)) (internal ActionInternalOffline id) in
      ret (waits ++ [FExit r Entered; FUnlock], [])
  end.

(** The next action of the frame on top: the frames that replace it, and the goroutines it starts. *)
Definition frame_round (taken : bool) (f : frame) : GoM World (list frame * list (nat * bool)) :=
  match f with
  | FExit r Entered =>
      let! c := get_client r in
      ret (if state c is stateClosed then [] else [FExit r Checked], [])
  | FExit r Checked => upd_client r (with_state stateClosed) ;;; ret ([FExit r Stored], [])
  | FExit r Stored => let! c := get_client r in ret ([FExit r (Named (info_ID (info c)))], [])
  | FExit r (Named id) =>
      let! c := get_client r in
      ret (if has_mgr c && negb (bool_decide (id = "")) then [FExit r (Telling id)] else [FExit r Told], [])
  | FExit r (Telling id) =>
      let! c := get_client r in
      if has_mgr c then ret ([FLock id; FExit r Told], []) else panic "nil pointer dereference"
  | FExit r Told => SetID r "" ;;; ret ([FExit r IDCleared], [])
  | FExit r IDCleared => upd_client r (fun c => with_mgr false (intercepted c) c) ;;; ret ([FExit r MgrCleared], [])
  | FExit r MgrCleared => stopReadWrite r ;;; ret ([FExit r Stopped], [])
  | FExit r Stopped =>
      let! c := get_client r in
      if CloseImmediately (config c) then close_client r ;;; ret ([], [])
      else upd_client r (with_flushing true) ;;; ret ([], [(r, false)])
  | FInside id => inside_round taken id
  | FLock _ | FUnlock | FRLock => panic "the mutex is not an action"
  end.

(** What the goroutine [Exit] starts does next, and where it is then: the [select] takes a message, which on a closed
    queue is nil once the queue is empty, or goes to [END]; there it closes the client and ends. *)
Definition flush_round (f : nat * bool) (ok : bool) : GoM World (list (nat * bool)) :=
  let (r, ended) := f in
  if ended : bool then upd_client r (with_flushing false) ;;; close_client r ;;; ret []
  else
    let! c := get_client r in
    match messages c with
    | m :: l => upd_client r (with_messages (queuedMessage c) l) ;;; write2Conn r m ok ;;; ret [(r, false)]
    | [] => if messages_closed c then write2Conn r None ok ;;; ret [(r, false)] else ret [(r, true)]
    end.

(** The moves of the mutex are not actions of the frame alone. *)
Definition is_mutex (f : frame) : bool := match f with FLock _ | FUnlock | FRLock => true | _ => false end.

(** A panic runs the deferred unlocks. *)
Definition is_unlock (f : frame) : bool := match f with FUnlock => true | _ => false end.
Definition unwind (fs : list frame) : list frame := List.filter is_unlock fs.

(** ** Steps *)

(** [Exit] of [r], past its check. *)
Definition past (r : nat) (f : frame) : bool :=
  match f with
  | FExit _ Entered => false
  | FExit r' _ => bool_decide (r = r')
  | _ => false
  end.

(** The clients a frame's move makes pass the check. *)
Definition passes (f : frame) (fs' : list frame) : list nat :=
  match f, fs' with FExit r Entered, _ :: _ => [r] | _, _ => [] end.

(** The clients of the calls a panic unwinds. *)
Definition unwound (fs : list frame) : list nat :=
  foldr (fun f l => match f with FExit _ Entered => l | FExit r _ => r :: l | _ => l end) [] fs.

(** The steps of a call: an action, a panic, and the two moves of the mutex. *)
Inductive call_step : nat -> Race -> Race -> Prop :=
  | call_moves taken l1 f fs l2 fs' new w w' m fl ps fd :
      frame_round taken f w = (Val (fs', new), w') ->
      call_step (length l1) (MkRace w (l1 ++ (f :: fs) :: l2) m fl false ps fd)
        (MkRace w' (l1 ++ (fs' ++ fs) :: l2) m (new ++ fl) false (passes f fs' ++ ps) fd)
  | call_panics taken l1 f fs l2 why w w' m fl ps fd :
      is_mutex f = false -> frame_round taken f w = (Panics why, w') ->
      call_step (length l1) (MkRace w (l1 ++ (f :: fs) :: l2) m fl false ps fd)
        (MkRace w' (l1 ++ unwind fs :: l2) m fl false ps (unwound (f :: fs) ++ fd))
  | call_locks l1 id fs l2 w fl ps fd :
      call_step (length l1) (MkRace w (l1 ++ (FLock id :: fs) :: l2) None fl false ps fd)
        (MkRace w (l1 ++ (FInside id :: fs) :: l2) (Some (length l1)) fl false ps fd)
  | call_unlocks l1 fs l2 w fl ps fd :
      call_step (length l1) (MkRace w (l1 ++ (FUnlock :: fs) :: l2) (Some (length l1)) fl false ps fd)
        (MkRace w (l1 ++ fs :: l2) None fl false ps fd)
  | call_reads l1 fs l2 w fl ps fd :
      call_step (length l1) (MkRace w (l1 ++ (FRLock :: fs) :: l2) None fl false ps fd)
        (MkRace w (l1 ++ fs :: l2) None fl false ps fd).

(** The operations of the gateway whose handler is called under the mutex, up to the call that refuses the event; true
    when they get there. [HandleConnection] makes the client first; [SetClientID] calls the handler twice. *)
Definition AddClient_refused (r : nat) (addr : string) (bytes : list Z) : GoM World bool :=
  let! g := gets gate_id in
  let! t := gets now in
  let id := GenTempID g bytes in
  modify (fun w => set_heap (<[r := new_client addr t
    (Some (MkClientConfig (30 * second) (30 * second) 3 false))]> (heap w)) w) ;;;
  SetID r id ;;;
  upd_client r (fun c => with_mgr (has_mgr c) true c) ;;;
  modify (fun w => set_clients (<[id := r]> (clients w)) w) ;;;
  ret true.

Definition SetClientID_refused (first : bool) (old new : ID) : GoM World bool :=
  let! oldID := gateway_id old in
  let! newID := gateway_id new in
  let! o := lookup_client oldID in
  match o with
  | None => ret false
  | Some r =>
      let! cliLogged := lookup_client newID in
      match cliLogged with
      | Some _ => ret false
      | None =>
          let! c := get_client r in
          SetID r newID ;;;
          modify (fun w => set_clients (delete oldID (clients w)) w) ;;;
          if first then ret true
          else call_handler (InfoCopy (info c)) (internal ActionInternalOffline oldID) ;;; ret true
      end
  end.

Definition run_refused (first : bool) (op : gate_op) : GoM World bool :=
  match op with
  | OpConnect r addr bytes => AddClient_refused r addr bytes
  | OpSetClientID old new => SetClientID_refused first old new
  | _ => ret false
  end.

(** What the rest of the gateway does meanwhile: the operations that take the mutex, the pool, and the
    write loops on a message. *)
Definition apart (op : gate_op) (w : World) (m : option nat) : Prop :=
  match op with
  | OpConnect _ _ _ | OpSetClientID _ _ => m = None /\ op_ok op w
  | OpEnqueue _ _ => m = None
  | OpPool _ => True
  | OpWrite r ev => exists ok c msg l, ev = WriteMessage ok /\ heap w !! r = Some c /\ messages c = Some msg :: l
  | _ => False
  end.

Section steps.
Context `{BlockCipher}.

Inductive other_step : Race -> Race -> Prop :=
  | starts_Exit r c w cs m fl ps fd :
      heap w !! r = Some c ->
      other_step (MkRace w cs m fl false ps fd) (MkRace w (cs ++ [[FExit r Entered]]) m fl false ps fd)
  | starts_ExitClient id w cs m fl ps fd :
      other_step (MkRace w cs m fl false ps fd) (MkRace w (cs ++ [[FLock id]]) m fl false ps fd)
  | flushes l1 f l2 ok w w' cs m ps fd go :
      flush_round f ok w = (Val go, w') ->
      other_step (MkRace w cs m (l1 ++ f :: l2) false ps fd) (MkRace w' cs m (l1 ++ go ++ l2) false ps fd)
  | flush_panics l1 f l2 ok w w' cs m ps fd why :
      flush_round f ok w = (Panics why, w') ->
      other_step (MkRace w cs m (l1 ++ f :: l2) false ps fd) (MkRace w' cs m (l1 ++ l2) true ps (f.1 :: fd))
  | gateway_op op w cs m fl ps fd :
      apart op w m ->
      other_step (MkRace w cs m fl false ps fd) (MkRace (run_gate_op op w).2 cs m fl false ps fd)
  | gateway_op_refused first op w w' cs fl ps fd :
      apart op w None -> run_refused first op w = (Val true, w') ->
      other_step (MkRace w cs None fl false ps fd) (MkRace w' (cs ++ [[FRLock]]) (Some (length cs)) fl false ps fd).

Inductive race_step (x x' : Race) : Prop :=
  | race_call i : call_step i x x' -> race_step x x'
  | race_other : other_step x x' -> race_step x x'.

Inductive race_reachable : Race -> Prop :=
  | race_start id key cap t rnd : race_reachable (MkRace (NewServer id key cap t rnd) [] None [] false [] [])
  | race_next x x' : race_reachable x -> race_step x x' -> race_reachable x'.
End steps.

(** ** What an action does *)

(** The action [f] on the client [r], from the record [c] to [c']. *)
Inductive moves : frame -> nat -> UserClient -> UserClient -> list frame -> list (nat * bool) -> Prop :=
  | mv_closed r c : state c = stateClosed -> moves (FExit r Entered) r c c [] []
  | mv_open r c : state c <> stateClosed -> moves (FExit r Entered) r c c [FExit r Checked] []
  | mv_store r c : moves (FExit r Checked) r c (with_state stateClosed c) [FExit r Stored] []
  | mv_read r c : moves (FExit r Stored) r c c [FExit r (Named (info_ID (info c)))] []
  | mv_manager r id c : has_mgr c = true -> id <> "" -> moves (FExit r (Named id)) r c c [FExit r (Telling id)] []
  | mv_no_manager r id c : has_mgr c = false \/ id = "" -> moves (FExit r (Named id)) r c c [FExit r Told] []
  | mv_tell r id c : has_mgr c = true -> moves (FExit r (Telling id)) r c c [FLock id; FExit r Told] []
  | mv_ID r c : moves (FExit r Told) r c (renamed "" c) [FExit r IDCleared] []
  | mv_mgr r c : moves (FExit r IDCleared) r c (with_mgr false (intercepted c) c) [FExit r MgrCleared] []
  | mv_stop r c : moves (FExit r MgrCleared) r c (with_closing true true c) [FExit r Stopped] []
  | mv_close r c : CloseImmediately (config c) = true -> messages_closed c = false ->
      moves (FExit r Stopped) r c (with_conn true (conn c ++ [ConnClosed]) c) [] []
  | mv_flush r c : CloseImmediately (config c) = false -> moves (FExit r Stopped) r c (with_flushing true c) [] [(r, false)]
  | mv_inside id r c : moves (FInside id) r c (renamed "" c) [FExit r Entered; FUnlock] []
  | mv_refused id r c : moves (FInside id) r c (renamed "" c) [FRLock; FExit r Entered; FUnlock] [].

Definition clients_known (w : World) : Prop := forall id r, clients w !! id = Some r -> is_Some (heap w !! r).
Definition frame_known (w : World) (f : frame) : Prop := match f with FExit r _ => is_Some (heap w !! r) | _ => True end.

(** The state after an action: one client changes, and at most one ID is taken out. *)
Record moved (w w' : World) (r : nat) (c c' : UserClient) : Prop := {
  mo_was : heap w !! r = Some c;
  mo_heap : heap w' = <[r := c']> (heap w);
  mo_clients : clients w' ⊆ clients w }.

Lemma moved_same w r c : heap w !! r = Some c -> moved w w r c c.
Proof. intros Hr. split; [done | by rewrite insert_id | done]. Qed.

Lemma moved_client w r c c' : heap w !! r = Some c -> moved w (set_heap (<[r := c']> (heap w)) w) r c c'.
Proof. intros Hr. by split. Qed.

Lemma inside_run taken id w :
  clients_known w ->
  match clients w !! route (gate_id w) id with
  | None => frame_round taken (FInside id) w = (Val ([FUnlock], []), w)
  | Some r => exists c w', heap w !! r = Some c /\ moved w w' r c (renamed "" c) /\
      frame_round taken (FInside id) w = (Val ((if taken then [] else [FRLock]) ++ [FExit r Entered; FUnlock], []), w')
  end.
Proof.
  intros Hcl. unfold frame_round, inside_round, gateway_id, lookup_client.
  destruct (clients w !! route (gate_id w) id) as [r |] eqn:Ho; do 2 (unfold bind at 1, gets); rewrite Ho; [| done].
  destruct (Hcl _ _ Ho) as [c Hr]. rewrite (bind_Val _ _ _ _ _ (get_client_run r c w Hr)). unfold SetID.
  rewrite (bind_Val _ _ _ _ _ (upd_client_run r _ c w Hr)).
  destruct taken; (eexists c, _; split; [done |]; split; [| reflexivity]; split; [done | done | apply delete_subseteq]).
Qed.

(** The panics of a call: the manager is gone, or the queue is closed. *)
Definition panics (pc : exit_pc) (c : UserClient) : Prop :=
  (exists id, pc = Telling id /\ has_mgr c = false) \/ (pc = Stopped /\ messages_closed c = true).

Lemma frame_round_cases taken f w :
  is_mutex f = false -> frame_known w f -> clients_known w ->
  (exists r c c' fs' new w', frame_round taken f w = (Val (fs', new), w') /\ moves f r c c' fs' new /\ moved w w' r c c') \/
  (exists id, f = FInside id /\ frame_round taken f w = (Val ([FUnlock], []), w)) \/
  (exists r pc c why, f = FExit r pc /\ frame_round taken f w = (Panics why, w) /\ heap w !! r = Some c /\ panics pc c).
Proof.
  intros Hf Hk Hcl. destruct f as [r pc | id | id | |]; [| done | | done | done].
  - destruct Hk as [c Hr]. pose proof (moved_same w r c Hr) as Hsame.
    pose proof (fun c' => moved_client w r c c' Hr) as Hmoved. unfold frame_round.
    pose proof (get_client_run r c w Hr) as Hg. pose proof (fun f => upd_client_run r f c w Hr) as Hu.
    destruct pc as [| | | id | id | | | |]; rewrite ?(bind_Val _ _ _ _ _ Hg).
    + left. exists r, c, c. destruct (state c) eqn:Hs; eexists _, _, _; (split; [reflexivity |]); (split; [| done]).
      * apply mv_open. congruence.
      * apply mv_open. congruence.
      * by apply mv_closed.
    + left. eexists r, c, _, _, _, _. rewrite (bind_Val _ _ _ _ _ (Hu _)). split; [reflexivity |]. split; [apply mv_store | apply Hmoved].
    + left. eexists r, c, c, _, _, _. split; [reflexivity |]. split; [apply mv_read | done].
    + left. exists r, c, c.
      destruct (has_mgr c) eqn:Hm; [case_bool_decide as Hid |]; eexists _, _, _; (split; [reflexivity |]); (split; [| done]).
      * apply mv_no_manager. by right.
      * by apply mv_manager.
      * apply mv_no_manager. by left.
    + destruct (has_mgr c) eqn:Hm.
      * left. eexists r, c, c, _, _, _. split; [reflexivity |]. split; [by apply mv_tell | done].
      * right. right. eexists r, _, c, _. split_and!; [done | done | done |]. left. eauto.
    + left. eexists r, c, _, _, _, _. unfold SetID. rewrite (bind_Val _ _ _ _ _ (Hu _)). split; [reflexivity |]. split; [apply mv_ID | apply Hmoved].
    + left. eexists r, c, _, _, _, _. rewrite (bind_Val _ _ _ _ _ (Hu _)). split; [reflexivity |]. split; [apply mv_mgr | apply Hmoved].
    + left. eexists r, c, _, _, _, _. unfold stopReadWrite. rewrite (bind_Val _ _ _ _ _ (Hu _)). split; [reflexivity |]. split; [apply mv_stop | apply Hmoved].
    + destruct (CloseImmediately (config c)) eqn:Hci.
      * destruct (messages_closed c) eqn:Hmc.
        -- right. right. exists r, Stopped, c, "close of closed channel". split_and!; [done | | done | by right].
           unfold close_client, bind at 1. rewrite (bind_Val _ _ _ _ _ Hg). by rewrite Hmc.
        -- left. eexists r, c, _, _, _, _. rewrite (bind_Val _ _ _ _ _ (close_client_run r c w Hr Hmc)).
           split; [reflexivity |]. split; [by apply mv_close | apply Hmoved].
      * left. eexists r, c, _, _, _, _. rewrite (bind_Val _ _ _ _ _ (Hu _)). split; [reflexivity |]. split; [by apply mv_flush | apply Hmoved].
  - pose proof (inside_run taken id w Hcl) as E. destruct (clients w !! _) as [r |]; [| right; left; by exists id].
    destruct E as (c & w' & Hr & Hm & E). left. eexists r, c, _, _, _, w'. split; [exact E |].
    split; [destruct taken; [apply mv_inside | apply mv_refused] | done].
Qed.

(** ** Counting *)

Definition count (r : nat) (l : list nat) : nat := length (List.filter (fun x => bool_decide (r = x)) l).
Definition npast (r : nat) (fs : list frame) : nat := length (List.filter (past r) fs).
(** The calls that have assigned [mgr]. *)
Definition beyond (r : nat) (f : frame) : bool :=
  match f with FExit r' MgrCleared | FExit r' Stopped => bool_decide (r = r') | _ => false end.
Definition nbeyond (r : nat) (fs : list frame) : nat := length (List.filter (beyond r) fs).
Definition b2n (b : bool) : nat := if b then 1 else 0.
Definition closed_at (r : nat) (w : World) : nat :=
  match heap w !! r with Some c => b2n (messages_closed c) | None => 0 end.
Definition closings (l : list conn_event) : nat := length (List.filter (fun e => if e is ConnClosed then true else false) l).

Lemma count_app r l k : count r (l ++ k) = (count r l + count r k)%nat.
Proof. unfold count. by rewrite List.filter_app, length_app. Qed.
Lemma count_cons r x l : count r (x :: l) = (b2n (bool_decide (r = x)) + count r l)%nat.
Proof. unfold count. cbn. by case_bool_decide. Qed.
Lemma npast_app r l k : npast r (l ++ k) = (npast r l + npast r k)%nat.
Proof. unfold npast. by rewrite List.filter_app, length_app. Qed.
Lemma npast_cons r f l : npast r (f :: l) = (b2n (past r f) + npast r l)%nat.
Proof. unfold npast. cbn. by destruct (past r f). Qed.
Lemma nbeyond_app r l k : nbeyond r (l ++ k) = (nbeyond r l + nbeyond r k)%nat.
Proof. unfold nbeyond. by rewrite List.filter_app, length_app. Qed.
Lemma nbeyond_cons r f l : nbeyond r (f :: l) = (b2n (beyond r f) + nbeyond r l)%nat.
Proof. unfold nbeyond. cbn. by destruct (beyond r f). Qed.
Lemma nbeyond_past r fs : (nbeyond r fs <= npast r fs)%nat.
Proof.
  induction fs as [| f fs IH]; [done |]. rewrite nbeyond_cons, npast_cons. destruct f as [r' [] | | | |]; cbn [beyond past b2n]; lia.
Qed.
Lemma closings_app l k : closings (l ++ k) = (closings l + closings k)%nat.
Proof. unfold closings. by rewrite List.filter_app, length_app. Qed.
Lemma count_unwound r fs : count r (unwound fs) = npast r fs.
Proof.
  induction fs as [| f fs IH]; [done |]. rewrite npast_cons, <- IH. destruct f as [r' [] | | | |]; cbn [unwound foldr past]; try done; by rewrite count_cons.
Qed.
Lemma npast_unwind r fs : npast r (unwind fs) = 0%nat.
Proof. induction fs as [| [] fs IH]; try done. Qed.

(** The records a count is about change alike. *)
Lemma moves_count f r c c' fs' new r1 :
  moves f r c c' fs' new ->
  (npast r1 fs' + count r1 new.*1 + (if decide (r1 = r) then b2n (messages_closed c') else 0) =
   npast r1 [f] + count r1 (passes f fs') + (if decide (r1 = r) then b2n (messages_closed c) else 0))%nat.
Proof.
  intros [].
  all: unfold npast, count; cbn [List.filter past passes fmap list_fmap fst]; destruct (decide (r1 = _)) as [-> | Hne];
    rewrite ?bool_decide_true, ?bool_decide_false by done; cbn; try lia.
  by rewrite H0.
Qed.

(** Whoever has assigned [mgr] is still there, or its flush, or the client is closed. *)
Lemma moves_beyond f r c c' fs' new r1 :
  moves f r c c' fs' new ->
  (nbeyond r1 [f] + (if decide (r1 = r) then b2n (messages_closed c) else 0) <=
   nbeyond r1 fs' + count r1 new.*1 + (if decide (r1 = r) then b2n (messages_closed c') else 0))%nat /\
  (r1 = r -> has_mgr c' = false -> has_mgr c = false \/ nbeyond r1 fs' = 1%nat).
Proof.
  intros []; unfold nbeyond, count; cbn [List.filter beyond fmap list_fmap fst]; destruct (decide (r1 = _)) as [-> | Hne];
    rewrite ?bool_decide_true, ?bool_decide_false by done; cbn; split; try lia; try (intros -> || intros _); try done; auto.
  all: rewrite H0; cbn; lia.
Qed.

Lemma closed_at_moved w w' r c c' r1 :
  moved w w' r c c' ->
  closed_at r1 w = (if decide (r1 = r) then b2n (messages_closed c) else closed_at r1 w) /\
  closed_at r1 w' = (if decide (r1 = r) then b2n (messages_closed c') else closed_at r1 w).
Proof.
  intros [Hr Hh _]. unfold closed_at. rewrite Hh. destruct (decide (r1 = r)) as [-> | Hne].
  - by rewrite lookup_insert_eq, Hr.
  - by rewrite lookup_insert_ne.
Qed.

(** What an action leaves of the record. *)
Lemma moves_record f r c c' fs' new :
  moves f r c c' fs' new ->
  closings (conn c') = (closings (conn c) + (b2n (messages_closed c') - b2n (messages_closed c)))%nat /\
  (messages_closed c = true -> messages_closed c' = true) /\
  (messages_closed c' = true -> messages_closed c = true \/ f = FExit r Stopped) /\
  (state c = stateClosed -> state c' = stateClosed) /\
  (state c' = stateClosed -> state c = stateClosed \/ past r f = true) /\
  (info_ID (info c) = "" -> info_ID (info c') = "").
Proof.
  intros []; cbn [renamed with_info with_mgr with_closing with_conn with_flushing with_state conn messages_closed state info set_info_ID info_ID];
    try (split_and!; [lia | tauto.. ]).
  - split_and!; try tauto; [lia |]. right. cbn. by rewrite bool_decide_true.
  - rewrite closings_app. rewrite H0. cbn. split_and!; try tauto. 
Qed.

(** ** What the rest of the gateway does *)

(** As far as [Exit] is concerned, the record is as it was. *)
Record same_client (c c' : UserClient) : Prop := {
  sc_closed : messages_closed c' = messages_closed c;
  sc_state : state c' = stateClosed <-> state c = stateClosed;
  sc_mgr : has_mgr c' = has_mgr c;
  sc_closings : closings (conn c') = closings (conn c) }.

Lemma same_refl c : same_client c c.
Proof. by split. Qed.
Lemma same_trans c1 c2 c3 : same_client c1 c2 -> same_client c2 c3 -> same_client c1 c3.
Proof. intros [? ? ? ?] [? ? ? ?]. split; [congruence | tauto | congruence | congruence]. Qed.

Lemma same_open_written m ok c : same_client c (written m ok c).
Proof.
  unfold written. destruct (encode_ptr m) as [t |]; [destruct ok |]; split; try done.
  cbn [with_conn conn with_messages]. rewrite closings_app. cbn. lia.
Qed.

Lemma same_written m ok l c : same_client c (written m ok (dequeued l c)).
Proof. apply (same_trans _ (dequeued l c)); [by split | apply same_open_written]. Qed.

(** Properties of a record that queueing and renaming keep. *)
Section queueing.
Context (d : gset nat) (r : nat) (A : UserClient -> Prop).
Context (HAm : forall q l c, A c -> A (with_messages q l c)).
Abbreviation kept := (preserves (at_client d r A)).

#[local] Hint Extern 1 (preserves _ (modify _)) => apply kept_modify; intros ?; reflexivity : preserves.
#[local] Hint Extern 1 (preserves _ (call_handler _ _)) => apply kept_modify; intros ?; reflexivity : preserves.
#[local] Hint Extern 1 (preserves _ (upd_client _ _)) => apply kept_upd_client; intros _ ? ?; by apply HAm : preserves.
#[local] Hint Extern 1 (preserves _ (gateway_id _)) => apply preserves_gets : preserves.
#[local] Hint Extern 1 (preserves _ (lookup_client _)) => apply preserves_gets : preserves.
#[local] Hint Resolve kept_get_client : preserves.

Lemma queue_client_EnqueueMessage r0 m : kept (client_EnqueueMessage r0 m).
Proof. unfold client_EnqueueMessage. apply preserves_bind; [apply kept_get_client | intros c0]. repeat preserves_step. Qed.
#[local] Hint Resolve queue_client_EnqueueMessage : preserves.

Lemma queue_run_pool n : kept (run_pool n).
Proof.
  unfold run_pool. apply preserves_bind; [apply preserves_gets | intros l]. destruct (l !! n) as [[r0 m] |]; repeat preserves_step.
Qed.

Lemma queue_EnqueueMessage id m : kept (EnqueueMessage id m).
Proof. unfold EnqueueMessage, gate_enqueue, IsRunning. repeat preserves_step. Qed.

Lemma queue_SetClientID old new : (forall i c, A c -> A (with_info i c)) -> kept (SetClientID old new).
Proof.
  intros HAi. assert (Hid : forall r0 id, kept (SetID r0 id)) by (intros; apply kept_upd_client; auto).
  unfold SetClientID. repeat preserves_step.
Qed.

Lemma queue_SetClientID_refused first old new : (forall i c, A c -> A (with_info i c)) -> kept (SetClientID_refused first old new).
Proof.
  intros HAi. assert (Hid : forall r0 id, kept (SetID r0 id)) by (intros; apply kept_upd_client; auto).
  unfold SetClientID_refused. repeat preserves_step.
Qed.
End queueing.

(** [Exit] sees the same record, and under the mutex the same ID. *)
Definition same_for (m : option nat) (c c' : UserClient) : Prop := same_client c c' /\ (m <> None -> info c' = info c).

Lemma same_for_refl m c : same_for m c c.
Proof. split; [apply same_refl | done]. Qed.
Lemma same_for_messages m c q l c' : same_for m c c' -> same_for m c (with_messages q l c').
Proof. intros [[] ?]. by split. Qed.

(** From [w] to [w'] [Exit] sees the same records; while the mutex is free there may be a new client, running and open. *)
Record apart_effect (m : option nat) (w w' : World) : Prop := {
  ae_old : forall r c, heap w !! r = Some c -> exists c', heap w' !! r = Some c' /\ same_for m c c';
  ae_new : forall r c', heap w !! r = None -> heap w' !! r = Some c' ->
    m = None /\ messages_closed c' = false /\ state c' <> stateClosed /\ closings (conn c') = 0%nat /\ has_mgr c' = true;
  ae_clients : clients_known w' }.

(** An operation that keeps the set of clients. *)
Lemma kept_effect {X} (m : GoM World X) w o :
  clients_known w ->
  (forall r c, preserves (at_client (dom (heap w)) r (fun c' => same_for o c c')) m) ->
  (forall id r, clients (m w).2 !! id = Some r -> exists id', clients w !! id' = Some r) ->
  apart_effect o w (m w).2.
Proof.
  intros Hcl Hm Hids.
  assert (Hdom : dom (heap (m w).2) = dom (heap w)).
  { destruct (decide (heap w = ∅)) as [Hemp | Hne].
    - destruct (Hm 0%nat (new_client "" 0 None) w) as [? _]; [| done]. split; [done |]. intros c. by rewrite Hemp, lookup_empty.
    - apply map_choose in Hne as (r & c & Hr). destruct (Hm r c w) as [? _]; [| done]. split; [done |]. intros c' Hc'.
      assert (c' = c) as -> by congruence. apply same_for_refl. }
  assert (Hin : forall r, is_Some (heap (m w).2 !! r) <-> is_Some (heap w !! r)) by (intros r; by rewrite <- !elem_of_dom, Hdom).
  split.
  - intros r c Hr. destruct (proj2 (Hin r) ltac:(eauto)) as [c' Hc']. exists c'. split; [done |].
    destruct (Hm r c w) as [_ HA]; [| by apply HA]. split; [done |]. intros c0 Hc0. assert (c0 = c) as -> by congruence. apply same_for_refl.
  - intros r c' Hr Hc'. destruct (proj1 (Hin r) ltac:(eauto)) as [c Hc]. congruence.
  - intros id r Hid. destruct (Hids id r Hid) as [id' Hid']. apply Hin. by apply (Hcl id').
Qed.

Section other_ops.
Context `{BlockCipher}.

Lemma connect_effect r addr bytes w :
  clients_known w -> op_ok (OpConnect r addr bytes) w -> apart_effect None w (run_gate_op (OpConnect r addr bytes) w).2.
Proof.
  intros Hcl [Hr Hid]. cbn [run_gate_op]. rewrite bind_state, HandleConnection_run. cbn [snd].
  set (id := GenTempID _ _). set (c := queued_one _ _). set (w' := set_heap _ _).
  assert (Hh : heap w' = <[r := c]> (heap w)) by done. assert (Hc : clients w' = <[id := r]> (clients w)) by done. clearbody w'.
  split; unfold clients_known; rewrite Hh, ?Hc.
  - intros r0 c0 Hr0. exists c0. rewrite lookup_insert_ne by congruence. split; [done | apply same_for_refl].
  - intros r0 c0 Hr0 [[<- <-] | [_ ?]]%lookup_insert_Some; [by split_and! | congruence].
  - intros id0 r0 [[<- <-] | [_ Hc0]]%lookup_insert_Some; [rewrite lookup_insert_eq; eauto |].
    destruct (Hcl _ _ Hc0) as [c0 Hr0]. exists c0. rewrite lookup_insert_ne; [done | congruence].
Qed.

Lemma write_effect m r ok c msg l w :
  clients_known w -> heap w !! r = Some c -> messages c = Some msg :: l ->
  apart_effect m w (run_gate_op (OpWrite r (WriteMessage ok)) w).2.
Proof.
  intros Hcl Hr Hm. cbn [run_gate_op]. rewrite bind_state, (runWrite_message r ok c w msg l Hr Hm). cbn [snd].
  set (c' := written _ _ _). set (w' := set_heap _ _).
  assert (Hh : heap w' = <[r := c']> (heap w)) by done. assert (Hc : clients w' = clients w) by done. clearbody w'.
  split; unfold clients_known; rewrite Hh, ?Hc.
  - intros r0 c0 Hr0. destruct (decide (r0 = r)) as [-> | Hne].
    + rewrite lookup_insert_eq. eexists. split; [done |]. assert (c0 = c) as -> by congruence.
      split; [apply same_written |]. intros _. unfold c', written, dequeued. destruct (encode_ptr _); [destruct ok |]; done.
    + rewrite lookup_insert_ne by done. exists c0. split; [done | apply same_for_refl].
  - intros r0 c0 Hr0 [[<- _] | [_ ?]]%lookup_insert_Some; congruence.
  - intros id r0 Hid. destruct (Hcl id r0 Hid) as [c0 Hc0]. destruct (decide (r = r0)) as [-> | Hne].
    + rewrite lookup_insert_eq. eauto.
    + rewrite lookup_insert_ne by done. eauto.
Qed.

Definition clients_from (w w' : World) : Prop := forall id r, clients w' !! id = Some r -> exists id', clients w !! id' = Some r.

Lemma same_clients_from w w' : clients w' = clients w -> clients_from w w'.
Proof. intros E id r. rewrite E. eauto. Qed.

Lemma SetClientID_from old new w : clients_known w -> clients_from w (SetClientID old new w).2.
Proof.
  intros Hcl. destruct (clients w !! route (gate_id w) old) as [r |] eqn:Ho.
  2: { apply same_clients_from. unfold SetClientID, gateway_id, lookup_client. do 3 run_step. by rewrite Ho. }
  destruct (clients w !! route (gate_id w) new) as [r' |] eqn:Hn.
  { apply same_clients_from. unfold SetClientID, gateway_id, lookup_client. do 3 run_step. rewrite Ho. run_step. by rewrite Hn. }
  destruct (Hcl _ _ Ho) as [c Hr]. rewrite (SetClientID_run old new r c w Ho Hn Hr). cbn [snd]. unfold clients_from. cbn [clients set_clients add_handled set_heap]. intros id r0 [[_ <-] | [_ [_ Hc]%lookup_delete_Some]]%lookup_insert_Some; eauto.
Qed.

Lemma SetClientID_refused_from first old new w : clients_known w -> clients_from w (SetClientID_refused first old new w).2.
Proof.
  intros Hcl. unfold SetClientID_refused, gateway_id, lookup_client. do 3 run_step.
  destruct (clients w !! route (gate_id w) old) as [r |] eqn:Ho; [| by apply same_clients_from].
  run_step. destruct (clients w !! route (gate_id w) new); [by apply same_clients_from |].
  destruct (Hcl _ _ Ho) as [c Hr]. do 3 run_step.
  assert (Hsub : forall w1, clients w1 = delete (route (gate_id w) old) (clients w) -> clients_from w w1).
  { intros w1 E id r0. rewrite E. intros [_ Hc]%lookup_delete_Some. eauto. }
  destruct first; [by apply Hsub | unfold call_handler; run_step; by apply Hsub].
Qed.

Lemma AddClient_refused_run r addr bytes w :
  let id := GenTempID (gate_id w) bytes in
  AddClient_refused r addr bytes w =
    (Val true, set_clients (<[id := r]> (clients w)) (set_heap (<[r := with_state stateInit (connected addr (now w) id)]> (heap w)) w)).
Proof. intros id. unfold AddClient_refused. do 2 run_step. fold id. do 4 run_step. reflexivity. Qed.

Lemma client_EnqueueMessage_clients r m w : clients (client_EnqueueMessage r m w).2 = clients w.
Proof.
  unfold client_EnqueueMessage, bind, get_client. destruct (heap w !! r) as [c |]; [| done].
  destruct (state c); try done; destruct (messages_closed c); try done; by destruct (_ <? _)%nat.
Qed.

Lemma refused_effect first op w w' :
  clients_known w -> apart op w None -> run_refused first op w = (Val true, w') -> apart_effect None w w'.
Proof.
  intros Hcl Hap Hrun. destruct op; try done; cbn [run_refused apart] in *.
  - destruct Hap as [_ [Hr Hid]]. rewrite AddClient_refused_run in Hrun. injection Hrun as <-.
    set (id := GenTempID _ _). set (c := with_state _ _).
    split; unfold clients_known; cbn [heap clients set_heap set_clients].
    + intros r0 c0 Hr0. exists c0. rewrite lookup_insert_ne by congruence. split; [done | apply same_for_refl].
    + intros r0 c0 Hr0 [[<- <-] | [_ ?]]%lookup_insert_Some; [by split_and! | congruence].
    + intros id0 r0 [[<- <-] | [_ Hc0]]%lookup_insert_Some; [rewrite lookup_insert_eq; eauto |].
      destruct (Hcl _ _ Hc0) as [c0 Hr0]. exists c0. rewrite lookup_insert_ne; [done | congruence].
  - assert (E : w' = (SetClientID_refused first old new w).2) by (by rewrite Hrun). rewrite E.
    apply kept_effect; [done | | by apply SetClientID_refused_from].
    intros r c. apply queue_SetClientID_refused. intros i c' [[] _]. by split.
Qed.

Lemma apart_op op w m : clients_known w -> apart op w m -> apart_effect m w (run_gate_op op w).2.
Proof.
  intros Hcl Hap. destruct op; cbn [apart] in Hap; try done.
  - destruct Hap as [-> Hok]. by apply connect_effect.
  - destruct Hap as [-> _]. cbn [run_gate_op]. rewrite bind_state.
    apply kept_effect; [done | | by apply SetClientID_from].
    intros r c. apply queue_SetClientID. intros i c' [[] _]. by split.
  - subst m. cbn [run_gate_op]. rewrite bind_state. apply kept_effect; [done | |].
    + intros r c. apply queue_EnqueueMessage.
    + apply same_clients_from. unfold EnqueueMessage, gateway_id, lookup_client. do 2 (unfold bind at 1, gets).
      destruct (clients w !! _) as [r |]; [| done]. unfold gate_enqueue, IsRunning, bind, get_client.
      destruct (heap w !! r) as [c |]; [| done]. destruct (state c); try done. cbn. by destruct (_ <? _).
  - destruct Hap as (ok & c & msg & l & -> & Hr & Hm). by apply (write_effect m r ok c msg l).
  - cbn [run_gate_op]. apply kept_effect; [done | |].
    + intros r c. apply queue_run_pool. intros; by apply same_for_messages.
    + apply same_clients_from. unfold run_pool, bind at 1, gets. destruct (pool w !! n) as [[r msg] |]; [| done].
      change (clients ((let! _ := client_EnqueueMessage r msg in ret tt) (set_pool (delete n (pool w)) w)).2 = clients w).
      rewrite bind_state. exact (client_EnqueueMessage_clients r msg (set_pool (delete n (pool w)) w)).
Qed.
End other_ops.

(** What a flushing goroutine does next: it stays on the record as [Exit] sees it, or closes it, or finds it closed. *)
Lemma flush_cases f ok c w :
  heap w !! f.1 = Some c ->
  exists c' w', moved w w' f.1 c c' /\ clients w' = clients w /\ info c' = info c /\ has_mgr c' = has_mgr c /\
    (state c' = stateClosed <-> state c = stateClosed) /\
    ((exists b, flush_round f ok w = (Val [(f.1, b)], w') /\ same_client c c') \/
     (flush_round f ok w = (Val [], w') /\ messages_closed c = false /\ messages_closed c' = true /\
      closings (conn c') = S (closings (conn c))) \/
     (exists why, flush_round f ok w = (Panics why, w') /\ messages_closed c = true /\ same_client c c')).
Proof.
  destruct f as [r []]; cbn [fst]; intros Hr; unfold flush_round.
  - set (c1 := with_flushing false c). set (w1 := set_heap (<[r := c1]> (heap w)) w).
    assert (Hr1 : heap w1 !! r = Some c1) by apply lookup_insert_eq.
    rewrite (bind_Val (upd_client r (with_flushing false)) _ w tt w1) by (by apply upd_client_run).
    destruct (messages_closed c) eqn:Hmc.
    + exists c1, w1. split; [by apply moved_client |]. split_and!; [done | done | done | done |]. right; right.
      exists "close of closed channel". split_and!; [| done | by split].
      unfold close_client, bind at 1. rewrite (bind_Val _ _ _ _ _ (get_client_run r c1 w1 Hr1)). cbn [c1 with_flushing messages_closed]. by rewrite Hmc.
    + exists (with_conn true (conn c1 ++ [ConnClosed]) c1), (set_heap (<[r := with_conn true (conn c1 ++ [ConnClosed]) c1]> (heap w1)) w1).
      split; [split; [done | cbn [heap set_heap w1]; by rewrite insert_insert_eq | done] |].
      split_and!; [done | done | done | done |]. right; left. split_and!; [| done | done |].
      * by rewrite (bind_Val _ _ _ _ _ (close_client_run r c1 w1 Hr1 Hmc)).
      * cbn [with_conn conn]. rewrite closings_app. change (closings [ConnClosed]) with 1%nat. change (conn c1) with (conn c). lia.
  - rewrite (bind_Val _ _ _ _ _ (get_client_run r c w Hr)). destruct (messages c) as [| m l] eqn:Hm.
    + destruct (messages_closed c) eqn:Hmc.
      * eexists (written None ok c), _. split; [by apply moved_client |]. split; [done |]. split; [unfold written; by destruct ok |].
        split; [unfold written; by destruct ok |]. split; [apply same_open_written |]. left. exists false. split; [| apply same_open_written].
        by rewrite (bind_Val _ _ _ _ _ (write2Conn_run r None ok c w Hr)).
      * exists c, w. split; [by apply moved_same |]. split_and!; [done | done | done | done |]. left. exists true. split; [done | apply same_refl].
    + set (w1 := set_heap (<[r := dequeued l c]> (heap w)) w).
      assert (Hr1 : heap w1 !! r = Some (dequeued l c)) by apply lookup_insert_eq.
      exists (written m ok (dequeued l c)), (set_heap (<[r := written m ok (dequeued l c)]> (heap w1)) w1).
      split; [split; [done | cbn [heap set_heap w1]; by rewrite insert_insert_eq | done] |].
      split; [done |]. split; [unfold written, dequeued; destruct (encode_ptr m); [destruct ok |]; done |].
      split; [apply same_written |]. split; [apply same_written |]. left. exists false. split; [| apply same_written].
      rewrite (bind_Val (upd_client r _) _ w tt w1) by (by apply (upd_client_run r (fun c0 => with_messages (queuedMessage c) l c0) c)).
      by rewrite (bind_Val _ _ _ _ _ (write2Conn_run r m ok (dequeued l c) w1 Hr1)).
Qed.

(** On a queue that is closed and empty the [select] always takes a nil: the goroutine writes [null] and goes round, and
    neither ends nor crashes. *)
Lemma late_flush_spins r ok c w :
  heap w !! r = Some c -> messages_closed c = true -> messages c = [] ->
  exists c' w', flush_round (r, false) ok w = (Val [(r, false)], w') /\ heap w' !! r = Some c' /\
    messages_closed c' = true /\ messages c' = [] /\ (ok = true -> conn c' = conn c ++ [Wrote "null"]).
Proof.
  intros Hr Hmc Hm. exists (written None ok c). eexists. unfold flush_round.
  rewrite (bind_Val _ _ _ _ _ (get_client_run r c w Hr)), Hm, Hmc, (bind_Val _ _ _ _ _ (write2Conn_run r None ok c w Hr)).
  split; [reflexivity |]. cbn [heap set_heap]. rewrite lookup_insert_eq. split; [done |]. by destruct ok.
Qed.

(** ** The invariant of closing *)

Record race_inv (x : Race) : Prop := {
  rc_frames : Forall (frame_known (world x)) (concat (calls x));
  rc_flushers : Forall (fun f => is_Some (heap (world x) !! f.1)) (flushers x);
  rc_clients : clients_known (world x);
  (* whoever passed the check is on its way, or has its flush running, or has closed the client, or failed *)
  rc_count : forall r, (npast r (concat (calls x)) + count r (flushers x).*1 + closed_at r (world x) + count r (failed x) =
    count r (passed x))%nat;
  rc_failed : crashed x = true \/ failed x <> [] -> exists r, (2 <= count r (passed x))%nat;
  rc_client : forall r c, heap (world x) !! r = Some c ->
    closings (conn c) = b2n (messages_closed c) /\ (state c = stateClosed -> (1 <= count r (passed x))%nat);
  (* the manager is gone because of one that is past its assignment *)
  rc_mgr : forall r c, heap (world x) !! r = Some c -> has_mgr c = false ->
    (1 <= nbeyond r (concat (calls x)) + count r (flushers x).*1 + closed_at r (world x) + count r (failed x))%nat }.

Lemma moved_known w w' r c c' r0 : moved w w' r c c' -> is_Some (heap w !! r0) -> is_Some (heap w' !! r0).
Proof.
  intros [_ Hh _] Hr0. rewrite Hh. destruct (decide (r0 = r)) as [-> | Hne]; [rewrite lookup_insert_eq; eauto | by rewrite lookup_insert_ne].
Qed.

Lemma moved_frames w w' r c c' fs : moved w w' r c c' -> Forall (frame_known w) fs -> Forall (frame_known w') fs.
Proof. intros Hm Hf. eapply Forall_impl; [exact Hf |]. intros [r0 pc | | | |]; cbn [frame_known]; [by eapply moved_known | done..]. Qed.

Lemma moved_flushers w w' r c c' l :
  moved w w' r c c' -> Forall (fun f : nat * bool => is_Some (heap w !! f.1)) l -> Forall (fun f => is_Some (heap w' !! f.1)) l.
Proof. intros Hm Hf. eapply Forall_impl; [exact Hf |]. intros f. by eapply moved_known. Qed.

Lemma moved_clients w w' r c c' : moved w w' r c c' -> clients_known w -> clients_known w'.
Proof. intros Hm Hcl id r0 Hid. eapply moved_known; [done |]. apply (Hcl id). by apply (lookup_weaken _ _ _ _ Hid), Hm. Qed.

Lemma moves_frames f r c c' fs' new w : moves f r c c' fs' new -> is_Some (heap w !! r) ->
  Forall (frame_known w) fs' /\ Forall (fun f0 => is_Some (heap w !! f0.1)) new.
Proof. intros [] Hr; split; repeat constructor; done. Qed.

Lemma concat_at {X} (l1 : list (list X)) x l2 : concat (l1 ++ x :: l2) = concat l1 ++ x ++ concat l2.
Proof. by rewrite concat_app. Qed.

(** The count after one client's record and the frames or goroutines about it changed. *)
Lemma inv_moves_count f r c c' fs' new w w' rest fl fd ps r1 :
  moves f r c c' fs' new -> moved w w' r c c' ->
  (npast r1 ([f] ++ rest) + count r1 fl.*1 + closed_at r1 w + count r1 fd = count r1 ps)%nat ->
  (npast r1 (fs' ++ rest) + count r1 (new ++ fl).*1 + closed_at r1 w' + count r1 fd = count r1 (passes f fs' ++ ps))%nat.
Proof.
  intros Hmv Hm. destruct (closed_at_moved w w' r c c' r1 Hm) as [E1 E2]. rewrite E1, E2, !npast_app, fmap_app, !count_app.
  pose proof (moves_count f r c c' fs' new r1 Hmv). destruct (decide (r1 = r)); lia.
Qed.

Lemma frame_at_inv l1 f fs l2 w m fl b ps fd :
  race_inv (MkRace w (l1 ++ (f :: fs) :: l2) m fl b ps fd) -> frame_known w f /\ clients_known w.
Proof.
  intros [Hfr _ Hcl _ _ _ _]. cbn [world calls] in *. rewrite concat_at in Hfr.
  by apply Forall_app in Hfr as [_ [[Hf _]%Forall_cons _]%Forall_app].
Qed.

Lemma npast_swap r l1 x l2 : npast r (l1 ++ x ++ l2) = npast r (x ++ l1 ++ l2).
Proof. rewrite !npast_app. lia. Qed.

Lemma nbeyond_swap r l1 x l2 : nbeyond r (l1 ++ x ++ l2) = nbeyond r (x ++ l1 ++ l2).
Proof. rewrite !nbeyond_app. lia. Qed.

(** Taking a move, the manager stays accounted for. *)
Lemma inv_moves_mgr f r c c' fs' new w w' rest fl fd r1 c1 :
  moves f r c c' fs' new -> moved w w' r c c' ->
  (forall c0, heap w !! r1 = Some c0 -> has_mgr c0 = false ->
     (1 <= nbeyond r1 ([f] ++ rest) + count r1 fl.*1 + closed_at r1 w + count r1 fd)%nat) ->
  heap w' !! r1 = Some c1 -> has_mgr c1 = false ->
  (1 <= nbeyond r1 (fs' ++ rest) + count r1 (new ++ fl).*1 + closed_at r1 w' + count r1 fd)%nat.
Proof.
  intros Hmv Hm Hold Hc1 Hmgr. destruct (closed_at_moved w w' r c c' r1 Hm) as [E1 E2].
  rewrite E2, !nbeyond_app, fmap_app, !count_app in *. destruct (moves_beyond f r c c' fs' new r1 Hmv) as [Hle Hgone].
  rewrite (mo_heap _ _ _ _ _ Hm) in Hc1. setoid_rewrite E1 in Hold. destruct (decide (r1 = r)) as [-> | Hne].
  - rewrite lookup_insert_eq in Hc1. injection Hc1 as <-. destruct (Hgone eq_refl Hmgr) as [Hg | Hg]; [| lia].
    specialize (Hold c (mo_was _ _ _ _ _ Hm) Hg). lia.
  - rewrite lookup_insert_ne in Hc1 by done. specialize (Hold c1 Hc1 Hmgr). lia.
Qed.

Lemma call_moves_inv taken l1 f fs l2 fs' new w w' m fl ps fd :
  frame_round taken f w = (Val (fs', new), w') ->
  race_inv (MkRace w (l1 ++ (f :: fs) :: l2) m fl false ps fd) ->
  race_inv (MkRace w' (l1 ++ (fs' ++ fs) :: l2) m (new ++ fl) false (passes f fs' ++ ps) fd).
Proof.
  intros Hrun [Hfr Hfl Hcl Hcnt Hfd Hc Hmg]. cbn [world calls flushers crashed passed failed] in *. rewrite concat_at in Hfr.
  apply Forall_app in Hfr as [Hfr1 [[Hf Hfs]%Forall_cons Hfr2]%Forall_app].
  assert (Hmx : is_mutex f = false) by (by destruct f).
  destruct (frame_round_cases taken f w Hmx Hf Hcl) as [(r & c & c' & fs0 & new0 & w0 & E & Hmv & Hm) | [(id & -> & E) | (r & pc & c & why & _ & E & _)]];
    rewrite E in Hrun; [injection Hrun as <- <- <- | injection Hrun as <- <- <- | done].
  - pose proof (moves_record _ _ _ _ _ _ Hmv) as (Hclosings & Hkeep & Hopen & Hst & Hnew & _).
    destruct (moves_frames _ _ _ _ _ _ w0 Hmv) as [Hfs0 Hnew0]; [eapply moved_known; [done |]; exists c; by apply Hm |].
    pose proof (moved_frames _ _ _ _ _ (concat l1) Hm Hfr1). pose proof (moved_frames _ _ _ _ _ fs Hm Hfs).
    pose proof (moved_frames _ _ _ _ _ (concat l2) Hm Hfr2).
    split; cbn [world calls flushers crashed passed failed].
    + rewrite concat_at, !Forall_app. done.
    + rewrite Forall_app. split; [done |]. by eapply moved_flushers.
    + by eapply moved_clients.
    + intros r1. rewrite concat_at, npast_swap, <- app_assoc. eapply inv_moves_count; [done | done |].
      rewrite <- (Hcnt r1), concat_at, (npast_swap r1 (concat l1)). done.
    + intros Hor. destruct (Hfd Hor) as [r1 Hr1]. exists r1. rewrite count_app. lia.
    + intros r1 c1 Hr1. rewrite (mo_heap _ _ _ _ _ Hm) in Hr1. rewrite count_app.
      apply lookup_insert_Some in Hr1 as [[<- <-] | [_ Hr1]].
      * destruct (Hc r c (mo_was _ _ _ _ _ Hm)) as [Hcc Hs1]. split.
        -- rewrite Hclosings, Hcc. destruct (messages_closed c) eqn:E1; [rewrite Hkeep by done |]; destruct (messages_closed c'); cbn; lia.
        -- intros Hs'. destruct (Hnew Hs') as [Hs0 | Hp]; [specialize (Hs1 Hs0); lia |].
           specialize (Hcnt r). rewrite concat_at, npast_swap in Hcnt. cbn [app] in Hcnt. rewrite npast_cons, Hp in Hcnt. cbn [b2n] in Hcnt. lia.
      * destruct (Hc r1 c1 Hr1) as [Hcc Hs1]. split; [done |]. intros Hs0. specialize (Hs1 Hs0). lia.
    + intros r1 c1 Hr1 Hg1. rewrite concat_at, nbeyond_swap, <- app_assoc. eapply inv_moves_mgr; [done | done | | done | done].
      intros c0 Hc0 Hg0. pose proof (Hmg r1 c0 Hc0 Hg0) as Hle. rewrite concat_at, (nbeyond_swap r1 (concat l1)) in Hle. exact Hle.
  - split; cbn [world calls flushers crashed passed failed]; try done.
    + rewrite concat_at, !Forall_app. split; [done |]. split; [| done]. by repeat constructor.
    + intros r1. cbn [passes app]. rewrite <- (Hcnt r1), !concat_at, !npast_app, !npast_cons. done.
    + intros r1 c1 Hr1 Hg1. pose proof (Hmg r1 c1 Hr1 Hg1) as Hle. rewrite !concat_at, !nbeyond_app, !nbeyond_cons in *. exact Hle.
Qed.

Lemma unwind_known w fs : Forall (frame_known w) (unwind fs).
Proof. induction fs as [| [] fs IH]; cbn; try done. by constructor. Qed.

(** Two calls had passed the check of a client whose queue is closed twice, or whose manager is gone. *)
Lemma call_panics_inv taken l1 f fs l2 why w w' m fl ps fd :
  is_mutex f = false -> frame_round taken f w = (Panics why, w') ->
  race_inv (MkRace w (l1 ++ (f :: fs) :: l2) m fl false ps fd) ->
  race_inv (MkRace w' (l1 ++ unwind fs :: l2) m fl false ps (unwound (f :: fs) ++ fd)).
Proof.
  intros Hmx Hrun [Hfr Hfl Hcl Hcnt Hfd Hc Hmg]. cbn [world calls flushers crashed passed failed] in *. rewrite concat_at in Hfr.
  apply Forall_app in Hfr as [Hfr1 [[Hf Hfs]%Forall_cons Hfr2]%Forall_app].
  destruct (frame_round_cases taken f w Hmx Hf Hcl) as [(r & c & c' & fs0 & new0 & w0 & E & _) | [(id & -> & E) | (r & pc & c & why' & -> & E & Hr & Hpanic)]];
    rewrite E in Hrun; [done | done |]. injection Hrun as -> <-.
  split; cbn [world calls flushers crashed passed failed]; try done.
  - rewrite concat_at, !Forall_app. split_and!; [done | apply unwind_known | done].
  - intros r1. rewrite <- (Hcnt r1), count_app, count_unwound, !concat_at, !npast_app, npast_unwind. lia.
  - intros _. exists r. specialize (Hcnt r). rewrite concat_at, npast_swap in Hcnt. cbn [app] in Hcnt.
    rewrite npast_cons in Hcnt. destruct Hpanic as [(id & -> & Hgone) | [-> Hclosed]];
      cbn [past] in Hcnt; rewrite bool_decide_true in Hcnt by done; cbn [b2n] in Hcnt.
    + specialize (Hmg r c Hr Hgone). rewrite concat_at, nbeyond_swap in Hmg. cbn [app] in Hmg. rewrite nbeyond_cons in Hmg.
      cbn [beyond b2n] in Hmg. pose proof (nbeyond_past r (fs ++ concat l1 ++ concat l2)). lia.
    + unfold closed_at in Hcnt. rewrite Hr, Hclosed in Hcnt. cbn [b2n] in Hcnt. lia.
  - intros r1 c1 Hr1 Hg1. specialize (Hmg r1 c1 Hr1 Hg1). rewrite count_app, count_unwound, !concat_at, !nbeyond_app in *.
    pose proof (nbeyond_past r1 (FExit r pc :: fs)). lia.
Qed.

Lemma flush_inv_count r0 l1 (f : nat * bool) l2 :
  count r0 (l1 ++ f :: l2).*1 = (b2n (bool_decide (r0 = f.1)) + count r0 (l1 ++ l2).*1)%nat.
Proof. rewrite !fmap_app, fmap_cons, !count_app, count_cons. lia. Qed.

(** A flushing goroutine changes one record. *)
Lemma flushes_inv w w' r c c' cs m fl' fl ps fd k :
  moved w w' r c c' -> clients w' = clients w -> has_mgr c' = has_mgr c -> (state c' = stateClosed <-> state c = stateClosed) ->
  closings (conn c') = (closings (conn c) + (b2n (messages_closed c') - b2n (messages_closed c)))%nat ->
  (messages_closed c = true -> messages_closed c' = true) ->
  (forall r0, (count r0 fl'.*1 + (if decide (r0 = r) then b2n (messages_closed c') else 0) + count r0 k =
     count r0 fl.*1 + (if decide (r0 = r) then b2n (messages_closed c) else 0))%nat) ->
  (forall f, In f fl' -> exists f0, In f0 fl /\ f0.1 = f.1) ->
  (k <> [] -> exists r0, (2 <= count r0 ps)%nat) ->
  race_inv (MkRace w cs m fl false ps fd) ->
  race_inv (MkRace w' cs m fl' (match k with [] => false | _ => true end) ps (k ++ fd)).
Proof.
  intros Hm Hcs Hmg' Hst Hclosings Hkeep Hcount Hsub Hk [Hfr Hfl Hcl Hcnt Hfd Hc Hmg]. cbn [world calls flushers crashed passed failed] in *.
  split; cbn [world calls flushers crashed passed failed].
  - by eapply moved_frames.
  - rewrite List.Forall_forall in *. intros f Hf. destruct (Hsub f Hf) as (f0 & Hf0 & <-). eapply moved_known; [done |]. by apply Hfl.
  - by eapply moved_clients.
  - intros r0. specialize (Hcount r0). specialize (Hcnt r0). destruct (closed_at_moved w w' r c c' r0 Hm) as [E1 E2].
    rewrite count_app, E2. rewrite E1 in Hcnt. destruct (decide (r0 = r)); lia.
  - intros Hor. destruct k as [| x k]; [by apply Hfd | by apply Hk].
  - intros r1 c1 Hr1. rewrite (mo_heap _ _ _ _ _ Hm) in Hr1. apply lookup_insert_Some in Hr1 as [[<- <-] | [_ Hr1]]; [| by apply Hc].
    destruct (Hc r c (mo_was _ _ _ _ _ Hm)) as [Hcc Hs1]. split; [| by rewrite Hst].
    rewrite Hclosings, Hcc. destruct (messages_closed c) eqn:E1; [rewrite Hkeep by done |]; destruct (messages_closed c'); cbn; lia.
  - intros r1 c1 Hr1 Hg1. specialize (Hcount r1). destruct (closed_at_moved w w' r c c' r1 Hm) as [E1 E2].
    rewrite count_app, E2. rewrite (mo_heap _ _ _ _ _ Hm) in Hr1. apply lookup_insert_Some in Hr1 as [[<- <-] | [Hne Hr1]].
    + pose proof (Hmg r c (mo_was _ _ _ _ _ Hm) ltac:(congruence)) as Hle. rewrite E1 in Hle. destruct (decide (r = r)); [lia | done].
    + pose proof (Hmg r1 c1 Hr1 Hg1) as Hle. rewrite E1 in Hle. destruct (decide (r1 = r)) as [-> |]; [done | lia].
Qed.

Section closing.
Context `{BlockCipher}.

Lemma flusher_known l1 f l2 w cs m b ps fd : race_inv (MkRace w cs m (l1 ++ f :: l2) b ps fd) -> is_Some (heap w !! f.1).
Proof. intros Hi. apply rc_flushers in Hi. rewrite List.Forall_forall in Hi. apply Hi, in_elt. Qed.

Lemma flush_goes_inv l1 f l2 ok w w' cs m ps fd go :
  flush_round f ok w = (Val go, w') -> race_inv (MkRace w cs m (l1 ++ f :: l2) false ps fd) ->
  race_inv (MkRace w' cs m (l1 ++ go ++ l2) false ps fd).
Proof.
  intros Hrun Hi. destruct (flusher_known _ _ _ _ _ _ _ _ _ Hi) as [c Hr].
  destruct (flush_cases f ok c w Hr) as (c' & w0 & Hm & Hcs & _ & Hmg & Hst & [(b & E & Hsame) | [(E & H1 & H2 & H3) | (why & E & _)]]);
    rewrite E in Hrun; [injection Hrun as <- <- | injection Hrun as <- <- | done].
  - apply (flushes_inv w w0 f.1 c c' cs m _ (l1 ++ f :: l2) ps fd []); try done; destruct Hsame as [Hmc _ _ Hcl].
    + rewrite Hmc. lia.
    + by rewrite Hmc.
    + intros r0. cbn [app]. rewrite Hmc, !flush_inv_count. cbn [fst]. change (count r0 []) with 0%nat. lia.
    + intros f0. cbn [app]. rewrite !in_app_iff. cbn [In]. intros [Hin | [<- | Hin]].
      * exists f0. rewrite in_app_iff. tauto.
      * exists f. split; [apply in_elt | done].
      * exists f0. rewrite in_app_iff. cbn [In]. tauto.
  - apply (flushes_inv w w0 f.1 c c' cs m _ (l1 ++ f :: l2) ps fd []); try done.
    + rewrite H1, H2, H3. cbn. lia.
    + intros r0. rewrite flush_inv_count, H1, H2. change (count r0 []) with 0%nat. cbn [app].
      destruct (decide (r0 = f.1)); [rewrite bool_decide_true by done | rewrite bool_decide_false by done]; cbn [b2n]; lia.
    + intros f0. cbn [app]. rewrite !in_app_iff. intros Hin. exists f0. rewrite in_app_iff. cbn [In]. tauto.
Qed.

Lemma flush_panics_inv l1 f l2 ok w w' cs m ps fd why :
  flush_round f ok w = (Panics why, w') -> race_inv (MkRace w cs m (l1 ++ f :: l2) false ps fd) ->
  race_inv (MkRace w' cs m (l1 ++ l2) true ps (f.1 :: fd)).
Proof.
  intros Hrun Hi. destruct (flusher_known _ _ _ _ _ _ _ _ _ Hi) as [c Hr].
  destruct (flush_cases f ok c w Hr) as (c' & w0 & Hm & Hcs & _ & Hmg & Hst & [(b & E & _) | [(E & _) | (why' & E & Hmc & Hsame)]]);
    rewrite E in Hrun; [done | done | injection Hrun as _ <-].
  apply (flushes_inv w w0 f.1 c c' cs m _ (l1 ++ f :: l2) ps fd [f.1]); try done; try destruct Hsame as [Hmc' _ _ Hcl].
  - rewrite Hmc'. lia.
  - by rewrite Hmc'.
  - intros r0. rewrite Hmc', flush_inv_count. rewrite count_cons. change (count r0 []) with 0%nat. lia.
  - intros f0. rewrite in_app_iff. intros Hin. exists f0. rewrite in_app_iff. cbn [In]. tauto.
  - intros _. exists f.1. pose proof (rc_count _ Hi f.1) as Hcnt. cbn [world calls flushers passed failed] in Hcnt.
    rewrite flush_inv_count, bool_decide_true in Hcnt by done. unfold closed_at in Hcnt. rewrite Hr, Hmc in Hcnt. cbn [b2n] in Hcnt. lia.
Qed.

Lemma apart_inv w w' cs m fl ps fd :
  apart_effect m w w' -> race_inv (MkRace w cs m fl false ps fd) -> race_inv (MkRace w' cs m fl false ps fd).
Proof.
  intros [Hold Hnew Hcl'] [Hfr Hfl Hcl Hcnt Hfd Hc Hmg]. cbn [world calls flushers crashed passed failed] in *.
  assert (Hsome : forall r, is_Some (heap w !! r) -> is_Some (heap w' !! r)).
  { intros r [c Hr]. destruct (Hold r c Hr) as (c' & Hr' & _). eauto. }
  assert (Hclosed : forall r, closed_at r w' = closed_at r w).
  { intros r. unfold closed_at. destruct (heap w !! r) as [c |] eqn:Hr.
    + destruct (Hold r c Hr) as (c' & -> & [[-> _ _ _] _]). done.
    + destruct (heap w' !! r) as [c' |] eqn:Hr'; [| done]. by destruct (Hnew r c' Hr Hr') as (_ & -> & _). }
  split; cbn [world calls flushers crashed passed failed]; try done.
  - eapply Forall_impl; [exact Hfr |]. intros [r pc | | | |]; cbn [frame_known]; auto.
  - eapply Forall_impl; [exact Hfl |]. auto.
  - intros r. by rewrite Hclosed.
  - intros r c' Hr'. destruct (heap w !! r) as [c |] eqn:Hr.
    + destruct (Hold r c Hr) as (c0 & Hc0 & [[Hmc Hst _ Hcc] _]). assert (c0 = c') as -> by congruence.
      rewrite Hmc, Hst, Hcc. by apply Hc.
    + destruct (Hnew r c' Hr Hr') as (_ & -> & Hst & -> & _). done.
  - intros r c' Hr' Hg. rewrite Hclosed. destruct (heap w !! r) as [c |] eqn:Hr.
    + destruct (Hold r c Hr) as (c0 & Hc0 & [[_ _ Hmgr _] _]). assert (c0 = c') as -> by congruence.
      apply (Hmg r c Hr). congruence.
    + destruct (Hnew r c' Hr Hr') as (_ & _ & _ & _ & Hm). congruence.
Qed.

Lemma gateway_op_inv op w cs m fl ps fd :
  apart op w m -> race_inv (MkRace w cs m fl false ps fd) -> race_inv (MkRace (run_gate_op op w).2 cs m fl false ps fd).
Proof. intros Hap Hi. eapply apart_inv; [| done]. apply apart_op; [apply (rc_clients _ Hi) | done]. Qed.

Lemma starts_inv fs w cs m fl ps fd :
  race_inv (MkRace w cs m fl false ps fd) -> Forall (frame_known w) fs -> (forall r, npast r fs = 0%nat) ->
  race_inv (MkRace w (cs ++ [fs]) m fl false ps fd).
Proof.
  intros [Hfr Hfl Hcl Hcnt Hfd Hc Hmg] Hfs Hpast. split; cbn [world calls flushers crashed passed failed] in *; try done.
  - rewrite concat_app, Forall_app. split; [done |]. cbn. by rewrite app_nil_r.
  - intros r0. rewrite <- (Hcnt r0), concat_app, npast_app. cbn [concat]. rewrite app_nil_r, Hpast. lia.
  - intros r0 c Hr Hg. specialize (Hmg r0 c Hr Hg). rewrite concat_app, nbeyond_app. lia.
Qed.

Lemma free_mutex w cs m m' fl b ps fd : race_inv (MkRace w cs m fl b ps fd) -> race_inv (MkRace w cs m' fl b ps fd).
Proof. intros [Hfr Hfl Hcl Hcnt Hfd Hc Hmg]. by split. Qed.

Lemma other_step_inv x x' : race_inv x -> other_step x x' -> race_inv x'.
Proof.
  intros Hi Hs. revert Hi. destruct Hs as [r c w cs m fl ps fd Hr | id w cs m fl ps fd | l1 f l2 ok w w' cs m ps fd go Hrun |
    l1 f l2 ok w w' cs m ps fd why Hrun | op w cs m fl ps fd Hap | first op w w' cs fl ps fd Hap Hrun]; intros Hi.
  - apply starts_inv; [done | | done]. repeat constructor. by exists c.
  - apply starts_inv; [done | by repeat constructor | done].
  - by apply (flush_goes_inv l1 f l2 ok w).
  - by apply (flush_panics_inv l1 f l2 ok w w' cs m ps fd why).
  - by apply gateway_op_inv.
  - apply (free_mutex _ _ None). apply starts_inv; [| by repeat constructor | done].
    eapply apart_inv; [| done]. by apply (refused_effect first op); [apply (rc_clients _ Hi) | |].
Qed.

(** The moves of the mutex: the frame on top is not one of [Exit]. *)
Lemma relock_inv l1 f fs fs' l2 w m m' fl ps fd :
  (f, fs') = (f, fs) \/ (exists id, f = FLock id /\ fs' = FInside id :: fs) ->
  is_mutex f = true -> race_inv (MkRace w (l1 ++ (f :: fs) :: l2) m fl false ps fd) ->
  race_inv (MkRace w (l1 ++ fs' :: l2) m' fl false ps fd).
Proof.
  intros Hfs Hf [Hfr Hfl Hcl Hcnt Hfd Hc Hmg].
  assert (E : forall r, npast r fs' = npast r (f :: fs) /\ nbeyond r fs' = nbeyond r (f :: fs)).
  { intros r. rewrite npast_cons, nbeyond_cons. destruct Hfs as [[= ->] | (id & -> & ->)]; [by destruct f | done]. }
  split; cbn [world calls flushers crashed passed failed] in *; try done.
  - rewrite concat_at, !Forall_app, Forall_cons in *. destruct Hfs as [[= ->] | (id & -> & ->)]; [tauto |].
    rewrite Forall_cons. tauto.
  - intros r. destruct (E r) as [E1 _]. rewrite <- (Hcnt r), !concat_at, !npast_app, E1. done.
  - intros r c Hr Hg. destruct (E r) as [_ E2]. specialize (Hmg r c Hr Hg). rewrite !concat_at, !nbeyond_app, E2 in *. done.
Qed.

Lemma race_step_inv x x' : race_inv x -> race_step x x' -> race_inv x'.
Proof.
  intros Hi [i Hs | Hs]; [| by apply (other_step_inv x)]. revert Hi.
  destruct Hs as [taken l1 f fs l2 fs' new w w' m fl ps fd Hrun | taken l1 f fs l2 why w w' m fl ps fd Hmx Hrun | l1 id fs l2 w fl ps fd | l1 fs l2 w fl ps fd | l1 fs l2 w fl ps fd]; intros Hi.
  - by eapply call_moves_inv.
  - by eapply call_panics_inv.
  - apply (relock_inv l1 (FLock id) fs _ l2 w None); eauto.
  - apply (relock_inv l1 FUnlock fs _ l2 w (Some (length l1))); eauto.
  - apply (relock_inv l1 FRLock fs _ l2 w None); eauto.
Qed.
End closing.

(** ** The mutex *)

(** What is left of the call of [Exit] that told the gateway. *)
Inductive outer : list frame -> Prop :=
  | outer_none : outer []
  | outer_exit r : outer [FExit r Told].

(** The [Exit] that [ExitClient] calls finds no ID. *)
Definition nested_pc (pc : exit_pc) : Prop := match pc with Named id => id = "" | Telling _ => False | _ => True end.

(** The stacks of the calls; true for the one that holds the mutex. *)
Inductive shape : bool -> list frame -> Prop :=
  | sh_done : shape false []
  | sh_exit r pc : shape false [FExit r pc]
  | sh_lock id fs : outer fs -> shape false (FLock id :: fs)
  | sh_inside id fs : outer fs -> shape true (FInside id :: fs)
  | sh_unlock fs : outer fs -> shape true (FUnlock :: fs)
  | sh_nested r pc fs : nested_pc pc -> outer fs -> shape true (FExit r pc :: FUnlock :: fs)
  | sh_waits r fs : outer fs -> shape true (FRLock :: FExit r Entered :: FUnlock :: fs)
  | sh_blocked : shape true [FRLock].

Lemma outer_shape fs : outer fs -> shape false fs.
Proof. intros []; constructor. Qed.

(** The client whose [Exit] runs inside [ExitClient] has no ID: it does not call [ExitClient] again. *)
Definition nested_ok (w : World) (fs : list frame) : Prop :=
  forall r pc rest, fs = FExit r pc :: FUnlock :: rest -> forall c, heap w !! r = Some c -> info_ID (info c) = "".

Definition holds (m : option nat) (i : nat) : bool := bool_decide (m = Some i).

Record lock_inv (x : Race) : Prop := {
  li_shape : forall i fs, calls x !! i = Some fs -> shape (holds (mu x) i) fs;
  li_mu : forall i, mu x = Some i -> (i < length (calls x))%nat;
  li_nested : Forall (nested_ok (world x)) (calls x) }.

Lemma lookup_at {X} (l1 : list X) x l2 : (l1 ++ x :: l2) !! length l1 = Some x.
Proof. by rewrite list_lookup_middle. Qed.

Lemma lookup_other {X} (l1 : list X) x y l2 i : i <> length l1 -> (l1 ++ x :: l2) !! i = (l1 ++ y :: l2) !! i.
Proof.
  intros Hne. destruct (decide (i < length l1)%nat) as [Hlt | Hge]; [by rewrite !lookup_app_l |].
  rewrite !lookup_app_r by lia. destruct (i - length l1)%nat eqn:E; [lia | done].
Qed.

(** One stack changes. *)
Lemma lock_inv_at l1 fs fs' l2 m m' w w' fl fl' b b' ps ps' fd fd' :
  lock_inv (MkRace w (l1 ++ fs :: l2) m fl b ps fd) ->
  (forall i, i <> length l1 -> holds m' i = holds m i) ->
  shape (holds m' (length l1)) fs' ->
  (forall i, m' = Some i -> i = length l1 \/ m = Some i) ->
  nested_ok w' fs' -> (Forall (nested_ok w) (l1 ++ l2) -> Forall (nested_ok w') (l1 ++ l2)) ->
  lock_inv (MkRace w' (l1 ++ fs' :: l2) m' fl' b' ps' fd').
Proof.
  intros [Hsh Hmu Hne] Hoth Hfs Hm' Hn Hall. cbn [world calls mu] in *. split; cbn [world calls mu].
  - intros i fs0 Hi. destruct (decide (i = length l1)) as [-> | Hi1].
    + rewrite lookup_at in Hi. by injection Hi as <-.
    + rewrite Hoth by done. apply Hsh. by rewrite (lookup_other l1 fs fs').
  - intros i Hi. destruct (Hm' i Hi) as [-> | Hi']; rewrite length_app; cbn [length]; [lia |].
    specialize (Hmu i Hi'). rewrite length_app in Hmu. cbn [length] in Hmu. lia.
  - apply Forall_app in Hne as [H1 [_ H2]%Forall_cons]. destruct (proj1 (Forall_app _ _ _) (Hall (proj2 (Forall_app _ _ _) (conj H1 H2)))).
    apply Forall_app. split; [done |]. by constructor.
Qed.

(** While the mutex is held, the IDs of the clients only vanish. *)
Lemma nested_world w w' cs :
  (forall r c', heap w' !! r = Some c' -> is_Some (heap w !! r) /\
     (forall c, heap w !! r = Some c -> info_ID (info c) = "" -> info_ID (info c') = "")) ->
  Forall (nested_ok w) cs -> Forall (nested_ok w') cs.
Proof.
  intros Hw Hall. eapply Forall_impl; [exact Hall |]. intros fs Hn r pc rest E c' Hc'.
  destruct (Hw r c' Hc') as [[c Hc] Hid]. apply (Hid c Hc). by apply (Hn r pc rest).
Qed.

Lemma nested_moved w w' r c c' cs :
  moved w w' r c c' -> (info_ID (info c) = "" -> info_ID (info c') = "") -> Forall (nested_ok w) cs -> Forall (nested_ok w') cs.
Proof.
  intros [Hr Hh _] Hid. apply nested_world. intros r0 c0. rewrite Hh.
  intros [[<- <-] | [_ Hc0]]%lookup_insert_Some.
  - split; [by eexists |]. intros c1 Hc1. assert (c1 = c) as -> by congruence. done.
  - split; [by eexists |]. intros c1 Hc1. assert (c1 = c0) as -> by congruence. done.
Qed.

(** A stack that no other holder matters to: nothing nested. *)
Lemma nested_single w r pc : nested_ok w [FExit r pc].
Proof. by intros ? ? ?. Qed.

Lemma moves_shape b f fs r c c' fs' new w w' :
  shape b (f :: fs) -> nested_ok w (f :: fs) -> moves f r c c' fs' new -> moved w w' r c c' ->
  shape b (fs' ++ fs) /\ nested_ok w' (fs' ++ fs).
Proof.
  intros Hsh Hn Hmv Hm.
  assert (Hid : forall rest, fs = FUnlock :: rest -> info_ID (info c') = "" /\ info_ID (info c) = "" \/ exists id, f = FInside id).
  { intros rest ->. destruct f as [r0 pc | | id | |]; [left | inversion Hmv | right; by exists id | inversion Hmv..].
    assert (r0 = r) as -> by (by inversion Hmv). assert (E : info_ID (info c) = "") by (by apply (Hn r pc rest eq_refl), Hm).
    split; [| done]. by apply (moves_record _ _ _ _ _ _ Hmv). }
  assert (Hc' : forall r0 pc rest, fs' ++ fs = FExit r0 pc :: FUnlock :: rest -> info_ID (info c') = "" -> r0 = r ->
    forall c0, heap w' !! r0 = Some c0 -> info_ID (info c0) = "").
  { intros r0 pc rest _ E -> c0. rewrite (mo_heap _ _ _ _ _ Hm), lookup_insert_eq. by intros [= <-]. }
  inversion Hsh as [| r0 pc | | id fs0 Hout | | r0 pc fs0 Hpc Hout | |]; subst; try by inversion Hmv.
  - inversion Hmv; subst; (split; [try constructor; try constructor | by intros ? ? ?]).
  - inversion Hmv; subst; (split; [by constructor |]); [| by intros ? ? ?].
    intros r0 pc rest [= -> <- <-]. eapply Hc'; [reflexivity | done | done].
  - destruct (Hid fs0 eq_refl) as [[E' E] | [id Hid']]; [| done].
    inversion Hmv; subst; try done; try (split; [by constructor |]); try (intros r0 pc rest [= -> <- <-]; eapply Hc'; [reflexivity | done | done]).
    all: intros ? ? ? [=]; subst; inversion Hout.
Qed.

Lemma shape_unwind b r pc fs : shape b (FExit r pc :: fs) -> shape b (unwind fs).
Proof.
  intros Hsh. inversion Hsh as [| | | | | r0 pc0 fs0 _ Hout | |]; subst; [constructor |].
  cbn [unwind List.filter is_unlock]. destruct Hout; cbn; constructor; constructor.
Qed.

Lemma holds_at i : holds (Some i) i = true.
Proof. unfold holds. by rewrite bool_decide_true. Qed.
Lemma holds_other i j : i <> j -> holds (Some j) i = false.
Proof. intros Hne. unfold holds. rewrite bool_decide_false; [done | congruence]. Qed.

Lemma top_shape l1 fs l2 w m fl b ps fd : lock_inv (MkRace w (l1 ++ fs :: l2) m fl b ps fd) -> shape (holds m (length l1)) fs.
Proof. intros Hi. apply (li_shape _ Hi). apply lookup_at. Qed.

Lemma top_nested l1 fs l2 w m fl b ps fd : lock_inv (MkRace w (l1 ++ fs :: l2) m fl b ps fd) -> nested_ok w fs.
Proof. intros Hi. by apply li_nested, Forall_app in Hi as [_ [? _]%Forall_cons]. Qed.

Lemma call_lock_inv i x x' : race_inv x -> lock_inv x -> call_step i x x' -> lock_inv x'.
Proof.
  intros Hi Hl Hs. revert Hi Hl.
  destruct Hs as [taken l1 f fs l2 fs' new w w' m fl ps fd Hrun | taken l1 f fs l2 why w w' m fl ps fd Hmx Hrun | l1 id fs l2 w fl ps fd | l1 fs l2 w fl ps fd | l1 fs l2 w fl ps fd]; intros Hi Hl;
    pose proof (top_shape _ _ _ _ _ _ _ _ _ Hl) as Hsh; pose proof (top_nested _ _ _ _ _ _ _ _ _ Hl) as Hn.
  - assert (Hmx : is_mutex f = false) by (by destruct f).
    destruct (frame_at_inv _ _ _ _ _ _ _ _ _ _ Hi) as [Hf Hcl].
    destruct (frame_round_cases taken f w Hmx Hf Hcl) as [(r & c & c' & fs0 & new0 & w0 & E & Hmv & Hm) | [(id & -> & E) | (r & pc & c & why & _ & E & _)]];
      rewrite E in Hrun; [injection Hrun as <- <- <- | injection Hrun as <- <- <- | done].
    + destruct (moves_shape _ _ _ _ _ _ _ _ _ _ Hsh Hn Hmv Hm) as [Hsh' Hn'].
      apply (lock_inv_at l1 (f :: fs) _ l2 m m w w0 fl _ false _ ps _ fd); auto.
      eapply nested_moved; [done |]. by apply (moves_record _ _ _ _ _ _ Hmv).
    + apply (lock_inv_at l1 (FInside id :: fs) _ l2 m m w w fl _ false _ ps _ fd); auto; [| by intros ? ? ?].
      inversion Hsh; subst. by constructor.
  - destruct (frame_at_inv _ _ _ _ _ _ _ _ _ _ Hi) as [Hf Hcl].
    destruct (frame_round_cases taken f w Hmx Hf Hcl) as [(r & c & c' & fs0 & new0 & w0 & E & _) | [(id & -> & E) | (r & pc & c & why' & -> & E & _)]];
      rewrite E in Hrun; [done | done |]. injection Hrun as -> <-.
    apply (lock_inv_at l1 (FExit r pc :: fs) _ l2 m m w w fl _ false _ ps _ fd); auto.
    + by eapply shape_unwind.
    + clear. intros r0 pc0 rest E. exfalso. revert E. induction fs as [| [] fs IH]; done.
  - apply (lock_inv_at l1 (FLock id :: fs) _ l2 None (Some (length l1)) w w fl _ false _ ps _ fd); auto; try by intros ? ? ?.
    + intros i Hne. by rewrite holds_other.
    + rewrite holds_at. inversion Hsh; subst. by constructor.
    + intros i [= <-]. by left.
  - apply (lock_inv_at l1 (FUnlock :: fs) _ l2 (Some (length l1)) None w w fl _ false _ ps _ fd); auto; try done.
    + intros i Hne. by rewrite holds_other.
    + inversion Hsh; subst. by apply outer_shape.
    + intros r pc rest ->. inversion Hsh as [| | | | fs0 Hout | | |]; subst. inversion Hout.
  - by inversion Hsh.
Qed.

Section locking.
Context `{BlockCipher}.

Lemma lock_inv_more fs w cs m fl fl' b b' ps ps' fd fd' :
  lock_inv (MkRace w cs m fl b ps fd) -> shape false fs -> nested_ok w fs -> lock_inv (MkRace w (cs ++ [fs]) m fl' b' ps' fd').
Proof.
  intros [Hsh Hmu Hne] Hfs Hn. cbn [world calls mu] in *. split; cbn [world calls mu].
  - intros i fs0 [Hi | [Hlen Hi]]%lookup_app_Some; [by apply Hsh |].
    destruct (i - length cs)%nat; [injection Hi as <- | done].
    destruct (decide (m = Some i)) as [-> | Hm]; [specialize (Hmu i eq_refl); lia |]. unfold holds. by rewrite bool_decide_false.
  - intros i Hi. rewrite length_app. specialize (Hmu i Hi). lia.
  - apply Forall_app. split; [done | by constructor].
Qed.

Lemma lock_inv_blocks w cs fl fl' b b' ps ps' fd fd' :
  lock_inv (MkRace w cs None fl b ps fd) -> lock_inv (MkRace w (cs ++ [[FRLock]]) (Some (length cs)) fl' b' ps' fd').
Proof.
  intros [Hsh Hmu Hne]. cbn [world calls mu] in *. split; cbn [world calls mu].
  - intros i fs0 [Hi | [Hlen Hi]]%lookup_app_Some.
    + rewrite holds_other; [exact (Hsh i fs0 Hi) |]. apply lookup_lt_Some in Hi. lia.
    + destruct (i - length cs)%nat eqn:E; [injection Hi as <- | done]. replace i with (length cs) by lia. rewrite holds_at. constructor.
  - intros i [= <-]. rewrite length_app. cbn. lia.
  - apply Forall_app. split; [done |]. constructor; [by intros ? ? ? | done].
Qed.

Lemma lock_inv_world w w' cs m fl fl' b b' ps ps' fd fd' :
  lock_inv (MkRace w cs m fl b ps fd) -> Forall (nested_ok w') cs -> lock_inv (MkRace w' cs m fl' b' ps' fd').
Proof. intros [Hsh Hmu _] Hn. by split. Qed.

(** Nobody is inside [ExitClient] while the mutex is free. *)
Lemma free_nested w w' cs fl b ps fd : lock_inv (MkRace w cs None fl b ps fd) -> Forall (nested_ok w') cs.
Proof.
  intros [Hsh _ _]. cbn [calls mu] in Hsh. apply Forall_lookup. intros i fs Hi r pc rest ->.
  specialize (Hsh i _ Hi). inversion Hsh.
Qed.

Lemma other_lock_inv x x' : race_inv x -> lock_inv x -> other_step x x' -> lock_inv x'.
Proof.
  intros Hi Hl Hs. revert Hi Hl. destruct Hs as [r c w cs m fl ps fd Hr | id w cs m fl ps fd | l1 f l2 ok w w' cs m ps fd go Hrun |
    l1 f l2 ok w w' cs m ps fd why Hrun | op w cs m fl ps fd Hap | first op w w' cs fl ps fd Hap Hrun]; intros Hi Hl.
  - eapply lock_inv_more; [done | constructor | by intros ? ? ?].
  - eapply lock_inv_more; [done | constructor; constructor | by intros ? ? ?].
  - destruct (flusher_known _ _ _ _ _ _ _ _ _ Hi) as [c Hr].
    destruct (flush_cases f ok c w Hr) as (c' & w0 & Hm & _ & Hinfo & _ & _ & [(b & E & _) | [(E & _) | (why & E & _)]]);
      rewrite E in Hrun; [injection Hrun as _ <- | injection Hrun as _ <- | done].
    all: eapply lock_inv_world; [done |]; eapply nested_moved; [done | by rewrite Hinfo | by apply (li_nested _ Hl)].
  - destruct (flusher_known _ _ _ _ _ _ _ _ _ Hi) as [c Hr].
    destruct (flush_cases f ok c w Hr) as (c' & w0 & Hm & _ & Hinfo & _ & _ & [(b & E & _) | [(E & _) | (why' & E & _)]]);
      rewrite E in Hrun; [done | done | injection Hrun as _ <-].
    eapply lock_inv_world; [done |]; eapply nested_moved; [done | by rewrite Hinfo | by apply (li_nested _ Hl)].
  - eapply lock_inv_world; [done |]. destruct m as [i |]; [| by eapply free_nested].
    destruct (apart_op op w (Some i) (rc_clients _ Hi) Hap) as [Hold Hnew _].
    eapply nested_world; [| by apply (li_nested _ Hl)]. intros r c' Hc'. cbn [world] in *.
    destruct (heap w !! r) as [c |] eqn:Hr.
    + split; [by eexists |]. intros c0 [= <-]. destruct (Hold r c Hr) as (c1 & Hc1 & [_ Hinfo]).
      assert (c1 = c') as -> by congruence. by rewrite Hinfo.
    + by destruct (Hnew r c' Hr Hc') as [? _].
  - apply (lock_inv_blocks w' cs fl fl false false ps ps fd fd). eapply lock_inv_world; [exact Hl | by eapply free_nested].
Qed.
End locking.

Section reachable.
Context `{BlockCipher}.

Lemma race_reachable_inv x : race_reachable x -> race_inv x /\ lock_inv x.
Proof.
  induction 1 as [id key cap t rnd | x x' _ [Hi Hl] Hs].
  - split; split; cbn; try done; by intros [].
  - split; [by apply (race_step_inv x) |]. destruct Hs as [i Hs | Hs]; [by apply (call_lock_inv i x) | by apply (other_lock_inv x)].
Qed.

(** All calls have returned, and no queue is being flushed. *)
Definition settled (x : Race) : Prop := Forall (fun fs => fs = []) (calls x) /\ flushers x = [].

Lemma settled_npast r x : settled x -> npast r (concat (calls x)) = 0%nat.
Proof.
  intros [Hall _]. induction (calls x) as [| fs cs IH]; [done |]. apply Forall_cons in Hall as [-> Hall]. by apply IH.
Qed.

(** C6: calls of [Exit] close a client once: in every state the gateway reaches by any interleaving of any number
    of calls of [Exit] and [ExitClient], of the goroutines that flush the queues and of the gateway's other
    operations, no connection was closed twice; and as long as no two calls pass the check of one client, none
    of them panics, nor does a flush, no flush goes round on a closed queue, and once the calls have returned and the
    flushes have ended every client that exited has its queue closed and its connection closed exactly once. *)
Theorem exit_closes_once x :
  race_reachable x ->
  (forall r c, heap (world x) !! r = Some c -> (closings (conn c) <= 1)%nat) /\
  ((forall r, (count r (passed x) <= 1)%nat) ->
   crashed x = false /\ failed x = [] /\
   (forall f c, f ∈ flushers x -> heap (world x) !! f.1 = Some c -> messages_closed c = false) /\
   (settled x -> forall r c, heap (world x) !! r = Some c -> state c = stateClosed ->
      messages_closed c = true /\ closings (conn c) = 1%nat)).
Proof.
  intros Hx. destruct (race_reachable_inv x Hx) as [Hi _]. split.
  - intros r c Hr. destruct (rc_client _ Hi r c Hr) as [-> _]. destruct (messages_closed c); cbn; lia.
  - intros Hone. assert (Hok : ~ (crashed x = true \/ failed x <> [])).
    { intros Hbad. destruct (rc_failed _ Hi Hbad) as [r Hr]. specialize (Hone r). lia. }
    assert (Hf : failed x = []) by (destruct (failed x); [done | exfalso; apply Hok; by right]).
    split; [destruct (crashed x); [exfalso; apply Hok; by left | done] |]. split; [done |]. split.
    { intros f c Hin Hr. pose proof (rc_count _ Hi f.1) as Hcnt. specialize (Hone f.1). unfold closed_at in Hcnt. rewrite Hr in Hcnt.
      apply list_elem_of_split in Hin as (l1 & l2 & E). rewrite E, flush_inv_count, bool_decide_true in Hcnt by done.
      destruct (messages_closed c); [cbn [b2n] in Hcnt; lia | done]. }
    intros Hset r c Hr Hs. destruct (rc_client _ Hi r c Hr) as [-> Hpass]. specialize (Hpass Hs).
    pose proof (rc_count _ Hi r) as Hcnt. rewrite (settled_npast r x Hset), (proj2 Hset), Hf in Hcnt.
    unfold closed_at in Hcnt. rewrite Hr in Hcnt. change (count r []) with 0%nat in Hcnt.
    destruct (messages_closed c); [done |]. cbn in Hcnt. lia.
Qed.

(** ** Every call returns *)

(** How many steps are left: of a call that may tell the gateway, and of one inside [ExitClient]. *)
Definition pc_left (pc : exit_pc) : nat :=
  match pc with
  | Entered => 8 | Checked => 7 | Stored => 6 | Named _ => 5
  | Telling _ | Told => 4 | IDCleared => 3 | MgrCleared => 2 | Stopped => 1
  end.
Definition tells (pc : exit_pc) : nat :=
  match pc with Entered | Checked | Stored | Named _ => 12 | Telling _ => 12 | _ => 0 end.
Definition frame_left (f : frame) : nat :=
  match f with FExit _ pc => pc_left pc | FLock _ => 11 | FInside _ => 10 | FUnlock => 1 | FRLock => 0 end.
Definition frames_left (fs : list frame) : nat := foldr (fun f n => frame_left f + n)%nat 0%nat fs.
Definition steps_left (fs : list frame) : nat :=
  match fs with
  | [FExit _ pc] => pc_left pc + tells pc
  | _ => frames_left fs
  end.

Lemma outer_left fs : outer fs -> steps_left fs = frames_left fs.
Proof. intros [| r]; done. Qed.

Lemma steps_left_bound b fs : shape b fs -> (steps_left fs <= 20)%nat.
Proof.
  intros [| r pc | id fs' Ho | id fs' Ho | fs' Ho | r pc fs' _ Ho | r fs' Ho |]; try (cbn; lia); [destruct pc; cbn; lia | ..]; destruct Ho; try (cbn; lia).
  all: destruct pc; cbn; lia.
Qed.

Lemma moves_left b f fs r c c' fs' new w w' :
  shape b (f :: fs) -> nested_ok w (f :: fs) -> moves f r c c' fs' new -> moved w w' r c c' ->
  (steps_left (fs' ++ fs) < steps_left (f :: fs))%nat.
Proof.
  intros Hsh Hn Hmv Hm. inversion Hsh as [| r0 pc | | id fs0 Hout | | r0 pc fs0 Hpc Hout | |]; subst; try by inversion Hmv.
  - inversion Hmv; subst; cbn; lia.
  - inversion Hmv; subst; destruct Hout; cbn; lia.
  - inversion Hmv; subst; try done; destruct Hout; cbn; lia.
Qed.

Lemma unwind_left b fs r pc : shape b (FExit r pc :: fs) -> (steps_left (unwind fs) < steps_left (FExit r pc :: fs))%nat.
Proof.
  intros Hsh. inversion Hsh as [| | | | | r0 pc0 fs0 _ Hout | |]; subst; [destruct pc; cbn; lia | destruct Hout, pc; cbn; lia].
Qed.

(** A step of a call changes its stack, which has fewer steps left. *)
Lemma call_step_left i x x' :
  race_inv x -> lock_inv x -> call_step i x x' ->
  exists fs fs', calls x !! i = Some fs /\ calls x' = <[i := fs']> (calls x) /\ (steps_left fs' < steps_left fs)%nat.
Proof.
  intros Hi Hl Hs. revert Hi Hl.
  destruct Hs as [taken l1 f fs l2 fs' new w w' m fl ps fd Hrun | taken l1 f fs l2 why w w' m fl ps fd Hmx Hrun | l1 id fs l2 w fl ps fd | l1 fs l2 w fl ps fd | l1 fs l2 w fl ps fd]; intros Hi Hl;
    pose proof (top_shape _ _ _ _ _ _ _ _ _ Hl) as Hsh; pose proof (top_nested _ _ _ _ _ _ _ _ _ Hl) as Hn; cbn [calls];
    eexists _, _; (split; [apply lookup_at |]); (split; [by rewrite insert_app_r_alt, Nat.sub_diag by lia |]).
  - assert (Hmx : is_mutex f = false) by (by destruct f).
    destruct (frame_at_inv _ _ _ _ _ _ _ _ _ _ Hi) as [Hf Hcl].
    destruct (frame_round_cases taken f w Hmx Hf Hcl) as [(r & c & c' & fs0 & new0 & w0 & E & Hmv & Hm) | [(id & -> & E) | (r & pc & c & why & _ & E & _)]];
      rewrite E in Hrun; [injection Hrun as <- <- <- | injection Hrun as <- <- <- | done].
    + by eapply moves_left.
    + inversion Hsh as [| | | id' fs0 Hout | | | |]; subst. destruct Hout; cbn; lia.
  - destruct (frame_at_inv _ _ _ _ _ _ _ _ _ _ Hi) as [Hf Hcl].
    destruct (frame_round_cases taken f w Hmx Hf Hcl) as [(r & c & c' & fs0 & new0 & w0 & E & _) | [(id & -> & E) | (r & pc & c & why' & -> & E & _)]];
      rewrite E in Hrun; [done | done |]. by eapply unwind_left.
  - inversion Hsh as [| | id' fs0 Hout | | | | |]; subst. destruct Hout; cbn; lia.
  - inversion Hsh as [| | | | fs0 Hout | | |]; subst. destruct Hout; cbn; lia.
  - by inversion Hsh.
Qed.

(** The step of a call, computed; [taken] is what the handler answers if it is called. *)
Definition call_next (taken : bool) (i : nat) (x : Race) : option Race :=
  if crashed x then None else
  match calls x !! i with
  | Some (FLock id :: fs) =>
      if mu x then None
      else Some (MkRace (world x) (<[i := FInside id :: fs]> (calls x)) (Some i) (flushers x) false (passed x) (failed x))
  | Some (FUnlock :: fs) =>
      if holds (mu x) i then Some (MkRace (world x) (<[i := fs]> (calls x)) None (flushers x) false (passed x) (failed x)) else None
  | Some (FRLock :: fs) =>
      if mu x then None
      else Some (MkRace (world x) (<[i := fs]> (calls x)) None (flushers x) false (passed x) (failed x))
  | Some (f :: fs) =>
      match frame_round taken f (world x) with
      | (Val (fs', new), w') =>
          Some (MkRace w' (<[i := fs' ++ fs]> (calls x)) (mu x) (new ++ flushers x) false (passes f fs' ++ passed x) (failed x))
      | (Panics _, w') =>
          Some (MkRace w' (<[i := unwind fs]> (calls x)) (mu x) (flushers x) false (passed x) (unwound (f :: fs) ++ failed x))
      end
  | _ => None
  end.

Lemma call_next_sound taken i x x' : call_next taken i x = Some x' -> call_step i x x'.
Proof.
  destruct x as [w cs m fl b ps fd]. unfold call_next. cbn [crashed calls world mu flushers passed failed].
  destruct b; [done |]. destruct (cs !! i) as [[| f fs] |] eqn:Hi; [done | | done].
  assert (Hcs : exists l1 l2, cs = l1 ++ (f :: fs) :: l2 /\ length l1 = i).
  { exists (take i cs), (drop (S i) cs). split; [by rewrite take_drop_middle |]. apply length_take_le. apply lookup_lt_Some in Hi. lia. }
  destruct Hcs as (l1 & l2 & -> & <-).
  assert (Hins : forall y, <[length l1 := y]> (l1 ++ (f :: fs) :: l2) = l1 ++ y :: l2) by (intros y; by rewrite insert_app_r_alt, Nat.sub_diag by lia).
  assert (Hmoves : is_mutex f = false ->
    match frame_round taken f w with
    | (Val (fs', new), w') => Some (MkRace w' (<[length l1 := fs' ++ fs]> (l1 ++ (f :: fs) :: l2)) m (new ++ fl) false (passes f fs' ++ ps) fd)
    | (Panics _, w') => Some (MkRace w' (<[length l1 := unwind fs]> (l1 ++ (f :: fs) :: l2)) m fl false ps (unwound (f :: fs) ++ fd))
    end = Some x' -> call_step (length l1) (MkRace w (l1 ++ (f :: fs) :: l2) m fl false ps fd) x').
  { intros Hmx E. destruct (frame_round taken f w) as [[[fs' new] | why] w'] eqn:Hrun; injection E as <-; rewrite Hins;
      [by eapply call_moves | by eapply call_panics]. }
  destruct f as [r pc | id | id | |]; try by apply Hmoves.
  - destruct m; [done |]. intros [= <-]. rewrite Hins. apply call_locks.
  - unfold holds. case_bool_decide as Hm; [subst m | done]. intros [= <-]. rewrite Hins. apply call_unlocks.
  - destruct m; [done |]. intros [= <-]. rewrite Hins. apply call_reads.
Qed.

(** A call that holds the mutex and waits to read under it: an event was refused. *)
Definition waits_for_itself (i : nat) (x : Race) : Prop :=
  mu x = Some i /\ exists fs, calls x !! i = Some (FRLock :: fs).

(** Some call can go on: the one that holds the mutex, or any. *)
Lemma call_goes_on x :
  lock_inv x -> crashed x = false -> ~ Forall (fun fs => fs = []) (calls x) ->
  (exists i x', call_step i x x') \/ exists i, waits_for_itself i x.
Proof.
  intros [Hsh Hmu _] Hc Hnot. destruct (mu x) as [i |] eqn:Hm.
  - destruct (lookup_lt_is_Some_2 (calls x) i) as [fs Hi]; [by apply Hmu |]. specialize (Hsh i fs Hi). rewrite holds_at in Hsh.
    assert (E : is_Some (call_next true i x) \/ exists fs', fs = FRLock :: fs').
    { unfold call_next. rewrite Hc, Hi, Hm. inversion Hsh; subst; try (left; by rewrite holds_at); try (right; by eexists);
        left; match goal with |- context [frame_round true ?f ?w] => by destruct (frame_round true f w) as [[[? ?] | ?] ?] end. }
    destruct E as [[x' E] | [fs' ->]]; [left | right; exists i; split; [done | by exists fs']].
    exists i, x'. by eapply call_next_sound.
  - assert (Hex : exists i fs, calls x !! i = Some fs /\ fs <> []).
    { apply not_Forall_Exists in Hnot; [| intros fs; destruct fs; [by left | by right]].
      apply Exists_exists in Hnot as (fs & Hin & Hne). apply list_elem_of_lookup in Hin as [i Hi]. by exists i, fs. }
    destruct Hex as (i & fs & Hi & Hne). specialize (Hsh i fs Hi). unfold holds in Hsh. rewrite bool_decide_false in Hsh by done.
    assert (E : is_Some (call_next true i x)).
    { unfold call_next. rewrite Hc, Hi, Hm. inversion Hsh; subst; try done;
        match goal with |- context [frame_round true ?f ?w] => by destruct (frame_round true f w) as [[[? ?] | ?] ?] end. }
    destruct E as [x' E]. left. exists i, x'. by eapply call_next_sound.
Qed.

(** It waits for ever: nothing takes the mutex from it, and no step is its own. *)
Lemma refused_event_blocks_for_ever i x x' : waits_for_itself i x -> race_step x x' -> waits_for_itself i x'.
Proof.
  intros [Hm [fs Hi]] [j Hs | Hs].
  - destruct Hs as [taken l1 f fs0 l2 fs' new w w' m fl ps fd Hrun | taken l1 f fs0 l2 why w w' m fl ps fd Hmx Hrun |
      l1 id fs0 l2 w fl ps fd | l1 fs0 l2 w fl ps fd | l1 fs0 l2 w fl ps fd]; cbn [calls mu] in *; try done.
    + split; [done |]. exists fs. cbn [calls]. rewrite <- Hi. apply lookup_other. intros ->. rewrite lookup_at in Hi. by injection Hi as -> _.
    + split; [done |]. exists fs. cbn [calls]. rewrite <- Hi. apply lookup_other. intros ->. rewrite lookup_at in Hi. by injection Hi as -> _.
    + injection Hm as <-. by rewrite lookup_at in Hi.
  - destruct Hs; cbn [calls mu] in *; try done; (split; [done |]; exists fs; cbn [calls]; try done; by apply lookup_app_l_Some).
Qed.

(** A run of everything, with [n] steps of the call [i]. *)
Inductive race_run (i : nat) : nat -> Race -> Race -> Prop :=
  | run_end x : race_run i 0 x x
  | run_call n x x1 x2 : call_step i x x1 -> race_run i n x1 x2 -> race_run i (S n) x x2
  | run_others n j x x1 x2 : j <> i -> call_step j x x1 -> race_run i n x1 x2 -> race_run i n x x2
  | run_rest n x x1 x2 : other_step x x1 -> race_run i n x1 x2 -> race_run i n x x2.

Lemma other_step_calls x x' : other_step x x' -> exists cs, calls x' = calls x ++ cs.
Proof. intros []; cbn [calls]; try (by eexists); exists []; by rewrite app_nil_r. Qed.

Lemma race_run_left i n x x' : race_run i n x x' -> race_reachable x -> forall fs, calls x !! i = Some fs ->
  race_reachable x' /\ exists fs', calls x' !! i = Some fs' /\ (steps_left fs' + n <= steps_left fs)%nat.
Proof.
  induction 1 as [x | n x x1 x2 Hs _ IH | n j x x1 x2 Hne Hs _ IH | n x x1 x2 Hs _ IH]; intros Hx fs Hi.
  - split; [done |]. exists fs. split; [done | lia].
  - destruct (race_reachable_inv x Hx) as [Hinv Hl]. destruct (call_step_left i x x1 Hinv Hl Hs) as (fs0 & fs1 & H0 & H1 & Hlt).
    assert (fs0 = fs) as -> by congruence. destruct (IH (race_next x x1 Hx (race_call _ _ i Hs)) fs1) as (Hx2 & fs2 & H2 & Hle).
    { rewrite H1. apply list_lookup_insert_eq. by apply lookup_lt_Some in Hi. }
    split; [done |]. exists fs2. split; [done | lia].
  - destruct (race_reachable_inv x Hx) as [Hinv Hl]. destruct (call_step_left j x x1 Hinv Hl Hs) as (fs0 & fs1 & H0 & H1 & _).
    apply (IH (race_next x x1 Hx (race_call _ _ j Hs)) fs). by rewrite H1, list_lookup_insert_ne.
  - destruct (other_step_calls x x1 Hs) as [cs E]. apply (IH (race_next x x1 Hx (race_other _ _ Hs)) fs).
    rewrite E. by apply lookup_app_l_Some.
Qed.

End reachable.

(** ** A call alone *)

#[global] Instance client_state_eq : EqDecision client_state.
Proof. solve_decision. Defined.

Lemma call_alone f fs fs' new w w' m fl ps fd :
  frame_round true f w = (Val (fs', new), w') ->
  call_step 0 (MkRace w [f :: fs] m fl false ps fd) (MkRace w' [fs' ++ fs] m (new ++ fl) false (passes f fs' ++ ps) fd).
Proof. apply (call_moves true [] f fs []). Qed.

(** The end of [Exit]. *)
Definition ended (c : UserClient) : UserClient :=
  let c := with_closing true true (with_mgr false (intercepted c) (renamed "" c)) in
  if CloseImmediately (config c) then with_conn true (conn c ++ [ConnClosed]) c else with_flushing true c.

Lemma ended_exited c : ended (with_state stateClosed c) = exited c.
Proof. done. Qed.

Definition to_flush (r : nat) (c : UserClient) : list (nat * bool) :=
  if CloseImmediately (config c) then [] else [(r, false)].

Lemma stop_alone r c w rest m fl ps fd :
  heap w !! r = Some c -> messages_closed c = false ->
  rtc (call_step 0) (MkRace w [FExit r Told :: rest] m fl false ps fd)
    (MkRace (set_heap (<[r := ended c]> (heap w)) w) [rest] m (to_flush r c ++ fl) false ps fd).
Proof.
  intros Hr Hmc.
  set (w1 := set_heap (<[r := renamed "" c]> (heap w)) w).
  set (w2 := set_heap (<[r := with_mgr false (intercepted c) (renamed "" c)]> (heap w)) w).
  set (w3 := set_heap (<[r := with_closing true true (with_mgr false (intercepted c) (renamed "" c))]> (heap w)) w).
  set (w4 := set_heap (<[r := ended c]> (heap w)) w).
  assert (Hset : forall r0 c0 c1 w0, w0 = set_heap (<[r0 := c0]> (heap w)) w -> set_heap (<[r0 := c1]> (heap w0)) w0 = set_heap (<[r0 := c1]> (heap w)) w).
  { intros r0 c0 c1 w0 ->. cbn [heap set_heap]. unfold set_heap. cbn. by rewrite insert_insert_eq. }
  assert (Hup : forall f c0 w0, w0 = set_heap (<[r := c0]> (heap w)) w -> upd_client r f w0 = (Val tt, set_heap (<[r := f c0]> (heap w)) w)).
  { intros f c0 w0 E. rewrite (upd_client_run r f c0 w0); [by rewrite (Hset r c0) | rewrite E; apply lookup_insert_eq]. }
  apply (rtc_l _ _ (MkRace w1 [FExit r IDCleared :: rest] m fl false ps fd)).
  { apply (call_alone (FExit r Told) rest [FExit r IDCleared] []). unfold frame_round, SetID. by rewrite (bind_Val _ _ _ _ _ (upd_client_run r _ c w Hr)). }
  apply (rtc_l _ _ (MkRace w2 [FExit r MgrCleared :: rest] m fl false ps fd)).
  { apply (call_alone (FExit r IDCleared) rest [FExit r MgrCleared] []). unfold frame_round. by rewrite (bind_Val _ _ _ _ _ (Hup _ _ w1 eq_refl)). }
  apply (rtc_l _ _ (MkRace w3 [FExit r Stopped :: rest] m fl false ps fd)).
  { apply (call_alone (FExit r MgrCleared) rest [FExit r Stopped] []). unfold frame_round, stopReadWrite. by rewrite (bind_Val _ _ _ _ _ (Hup _ _ w2 eq_refl)). }
  apply rtc_once. apply (call_alone (FExit r Stopped) rest [] (to_flush r c)). unfold frame_round.
  set (c3 := with_closing true true (with_mgr false (intercepted c) (renamed "" c))).
  assert (Hr3 : heap w3 !! r = Some c3) by apply lookup_insert_eq.
  rewrite (bind_Val _ _ _ _ _ (get_client_run r c3 w3 Hr3)). unfold to_flush, w4, ended. fold c3.
  change (config c) with (config c3). destruct (CloseImmediately (config c3)).
  - rewrite (bind_Val _ _ _ _ _ (close_client_run r c3 w3 Hr3 Hmc)). rewrite (Hset r c3 _ w3 eq_refl). reflexivity.
  - by rewrite (bind_Val _ _ _ _ _ (Hup _ _ w3 eq_refl)).
Qed.

(** The check and the store. *)
Lemma enter_alone r c w rest m fl ps fd :
  heap w !! r = Some c -> state c <> stateClosed ->
  rtc (call_step 0) (MkRace w [FExit r Entered :: rest] m fl false ps fd)
    (MkRace (set_heap (<[r := with_state stateClosed c]> (heap w)) w) [FExit r Stored :: rest] m fl false (r :: ps) fd).
Proof.
  intros Hr Hs. apply (rtc_l _ _ (MkRace w [FExit r Checked :: rest] m fl false (r :: ps) fd)).
  - apply (call_alone (FExit r Entered) rest [FExit r Checked] []). unfold frame_round.
    rewrite (bind_Val _ _ _ _ _ (get_client_run r c w Hr)). by destruct (state c).
  - apply rtc_once. apply (call_alone (FExit r Checked) rest [FExit r Stored] []). unfold frame_round.
    by rewrite (bind_Val _ _ _ _ _ (upd_client_run r _ c w Hr)).
Qed.

Lemma insert_twice r c c' w : set_heap (<[r := c']> (heap (set_heap (<[r := c]> (heap w)) w))) (set_heap (<[r := c]> (heap w)) w) =
  set_heap (<[r := c']> (heap w)) w.
Proof. unfold set_heap. cbn. by rewrite insert_insert_eq. Qed.

(** [ExitClient], run by itself, of a client that is registered: [rest] is what called it. *)
Lemma ExitClient_alone id r c w rest fl ps fd :
  clients w !! route (gate_id w) id = Some r -> heap w !! r = Some c -> state c = stateClosed ->
  rtc (call_step 0) (MkRace w [FLock id :: rest] None fl false ps fd)
    (MkRace (add_handled (InfoCopy (info c), internal ActionInternalOffline (route (gate_id w) id))
      (set_clients (delete (route (gate_id w) id) (clients w)) (set_heap (<[r := renamed "" c]> (heap w)) w))) [rest] None fl false ps fd).
Proof.
  intros Hid Hr Hs. set (w1 := add_handled _ _).
  apply (rtc_l _ _ (MkRace w [FInside id :: rest] (Some 0%nat) fl false ps fd)); [apply (call_locks [] id rest []) |].
  apply (rtc_l _ _ (MkRace w1 [FExit r Entered :: FUnlock :: rest] (Some 0%nat) fl false ps fd)).
  { apply (call_alone (FInside id) rest [FExit r Entered; FUnlock] []). unfold frame_round, inside_round, gateway_id, lookup_client, SetID.
    do 2 run_step. rewrite Hid. do 2 run_step. reflexivity. }
  apply (rtc_l _ _ (MkRace w1 [FUnlock :: rest] (Some 0%nat) fl false ps fd)); [| apply rtc_once, (call_unlocks [] rest [])].
  apply (call_alone (FExit r Entered) (FUnlock :: rest) [] []). unfold frame_round.
  assert (Hr1 : heap w1 !! r = Some (renamed "" c)) by apply lookup_insert_eq.
  rewrite (bind_Val _ _ _ _ _ (get_client_run r _ w1 Hr1)). change (state (renamed "" c)) with (state c). by rewrite Hs.
Qed.

Lemma Exit_alone r c w :
  gate_inv w -> heap w !! r = Some c ->
  rtc (call_step 0) (MkRace w [[FExit r Entered]] None [] false [] [])
    (MkRace (Exit r w).2 [[]] None
      (if decide (state c = stateClosed) then [] else to_flush r c) false
      (if decide (state c = stateClosed) then [] else [r]) []).
Proof.
  intros Hi Hr. destruct (decide (state c = stateClosed)) as [Hs | Hs].
  - assert (E : Exit r w = (Val tt, w)) by (by apply (Exit_closed_run r c)). rewrite E. apply rtc_once.
    apply (call_alone (FExit r Entered) [] [] []). unfold frame_round. rewrite (bind_Val _ _ _ _ _ (get_client_run r c w Hr)). by rewrite Hs.
  - destruct (live_client _ (gi_clients _ Hi _ _ Hr) Hs) as [Hne Hm]. pose proof (gi_live _ Hi _ _ Hr Hs) as Hid.
    pose proof (not_closed_open _ (gi_clients _ Hi _ _ Hr) Hs) as Hopen. rewrite (Exit_run r c w Hr Hs Hopen Hm Hne Hid). cbn [snd]. set (id := info_ID (info c)) in *.
    set (c1 := with_state stateClosed c). set (w1 := set_heap (<[r := c1]> (heap w)) w).
    assert (Hr1 : heap w1 !! r = Some c1) by apply lookup_insert_eq.
    etrans; [by apply (enter_alone r c) |]. fold c1 w1.
    pose proof (get_client_run r c1 w1 Hr1) as Hget.
    eapply rtc_l.
    { apply (call_alone (FExit r Stored) [] [FExit r (Named id)] []). unfold frame_round. by rewrite (bind_Val _ _ _ _ _ Hget). }
    cbn [app passes]. eapply rtc_l.
    { apply (call_alone (FExit r (Named id)) [] [FExit r (Telling id)] []). unfold frame_round.
      rewrite (bind_Val _ _ _ _ _ Hget). change (has_mgr c1) with (has_mgr c). by rewrite Hm, bool_decide_false by done. }
    cbn [app passes]. eapply rtc_l.
    { apply (call_alone (FExit r (Telling id)) [] [FLock id; FExit r Told] []). unfold frame_round.
      rewrite (bind_Val _ _ _ _ _ Hget). change (has_mgr c1) with (has_mgr c). by rewrite Hm. }
    cbn [app passes]. etrans; [by apply (ExitClient_alone id r c1 w1) |].
    set (w2 := add_handled _ _). assert (Hr2 : heap w2 !! r = Some (renamed "" c1)) by apply lookup_insert_eq.
    assert (Hmc : messages_closed (renamed "" c1) = false).
    { destruct (messages_closed c) eqn:E; [| done]. by apply (closed_state _ (gi_clients _ Hi _ _ Hr)) in E. }
    pose proof (stop_alone r (renamed "" c1) w2 [] None [] [r] [] Hr2 Hmc) as Hstop. rewrite app_nil_r in Hstop.
    enough (E : leave (route (gate_id w) id) r c w = set_heap (<[r := ended (renamed "" c1)]> (heap w2)) w2) by (rewrite E; exact Hstop).
    unfold leave, w2, w1. unfold add_handled, set_clients, set_heap. cbn. rewrite !insert_insert_eq.
    by destruct c as [? ? ? ? ? ? ? [] ? ? ? ? ? ?].
Qed.

Lemma ExitClient_call_alone id r c w :
  gate_inv w -> clients w !! route (gate_id w) id = Some r -> heap w !! r = Some c ->
  rtc (call_step 0) (MkRace w [[FLock id]] None [] false [] []) (MkRace (ExitClient id w).2 [[]] None (to_flush r c) false [r] []).
Proof.
  intros Hi Hid Hr. destruct (gi_registered _ Hi _ _ Hid) as (c0 & Hr0 & Hs & _). assert (c0 = c) as -> by congruence. clear Hr0.
  rewrite (ExitClient_run id r c w Hid Hr Hs (not_closed_open _ (gi_clients _ Hi _ _ Hr) Hs)). cbn [snd].
  set (w1 := add_handled (InfoCopy (info c), internal ActionInternalOffline (route (gate_id w) id))
    (set_clients (delete (route (gate_id w) id) (clients w)) (set_heap (<[r := renamed "" c]> (heap w)) w))).
  apply (rtc_l _ _ (MkRace w [[FInside id]] (Some 0%nat) [] false [] [])); [apply (call_locks [] id [] []) |].
  apply (rtc_l _ _ (MkRace w1 [[FExit r Entered; FUnlock]] (Some 0%nat) [] false [] [])).
  { apply (call_alone (FInside id) [] [FExit r Entered; FUnlock] []). unfold frame_round, inside_round, gateway_id, lookup_client, SetID.
    do 2 run_step. rewrite Hid. do 2 run_step. reflexivity. }
  assert (Hr1 : heap w1 !! r = Some (renamed "" c)) by apply lookup_insert_eq.
  etrans; [by apply (enter_alone r (renamed "" c)) |].
  set (c2 := with_state stateClosed (renamed "" c)). set (w2 := set_heap (<[r := c2]> (heap w1)) w1).
  assert (Hr2 : heap w2 !! r = Some c2) by apply lookup_insert_eq.
  eapply rtc_l.
  { apply (call_alone (FExit r Stored) [FUnlock] [FExit r (Named "")] []). unfold frame_round.
    by rewrite (bind_Val _ _ _ _ _ (get_client_run r c2 w2 Hr2)). }
  cbn [app passes]. eapply rtc_l.
  { apply (call_alone (FExit r (Named "")) [FUnlock] [FExit r Told] []). unfold frame_round.
    rewrite (bind_Val _ _ _ _ _ (get_client_run r c2 w2 Hr2)). by rewrite andb_false_r. }
  assert (Hmc : messages_closed c2 = false).
  { destruct (messages_closed c) eqn:E; [| done]. by apply (closed_state _ (gi_clients _ Hi _ _ Hr)) in E. }
  cbn [app passes]. etrans; [by apply (stop_alone r c2 w2 [FUnlock]) |].
  rewrite app_nil_r. change (to_flush r c2) with (to_flush r c).
  enough (E : leave (route (gate_id w) id) r c w = set_heap (<[r := ended c2]> (heap w2)) w2) by (rewrite E; apply rtc_once, (call_unlocks [] [] [])).
  unfold leave, w2, w1. unfold add_handled, set_clients, set_heap. cbn. rewrite !insert_insert_eq.
  by destruct c as [? ? ? ? ? ? ? [] ? ? ? ? ? ?].
Qed.

(** C8: a call that nothing interleaves with is the step the rest of the library takes it for: from a state
    where the gateway's invariant holds, [Exit] and [ExitClient] reach by their own actions the state that
    [Gate] computes for them, with the mutex free; the call has passed the check once if the client was not
    closed, and has then started the goroutine that flushes the queue, unless the connection was closed at once. *)
Theorem exit_alone_is_Exit r c w :
  gate_inv w -> heap w !! r = Some c ->
  rtc (call_step 0) (MkRace w [[FExit r Entered]] None [] false [] [])
    (MkRace (Exit r w).2 [[]] None
      (if decide (state c = stateClosed) then [] else to_flush r c) false
      (if decide (state c = stateClosed) then [] else [r]) []) /\
  forall id, clients w !! route (gate_id w) id = Some r ->
    rtc (call_step 0) (MkRace w [[FLock id]] None [] false [] []) (MkRace (ExitClient id w).2 [[]] None (to_flush r c) false [r] []).
Proof. intros Hi Hr. split; [by apply Exit_alone |]. intros id Hid. by apply ExitClient_call_alone. Qed.

(** ** Schedules *)

(** What moves: a call, whose event the handler takes or refuses, or a flush, of which the connection takes what is
    written. *)
Inductive turn := TExit (r : nat) | TExitClient (id : ID) | TCall (i : nat) | TRefused (i : nat) | TFlush (i : nat).

Definition flush_next (i : nat) (x : Race) : option Race :=
  match flushers x !! i with
  | Some f =>
      let l1 := take i (flushers x) in
      let l2 := drop (S i) (flushers x) in
      match flush_round f true (world x) with
      | (Val go, w') => Some (MkRace w' (calls x) (mu x) (l1 ++ go ++ l2) false (passed x) (failed x))
      | (Panics _, w') => Some (MkRace w' (calls x) (mu x) (l1 ++ l2) true (passed x) (f.1 :: failed x))
      end
  | None => None
  end.

Definition turn_next (t : turn) (x : Race) : option Race :=
  if crashed x then None else
  match t with
  | TExit r =>
      if heap (world x) !! r
      then Some (MkRace (world x) (calls x ++ [[FExit r Entered]]) (mu x) (flushers x) false (passed x) (failed x))
      else None
  | TExitClient id => Some (MkRace (world x) (calls x ++ [[FLock id]]) (mu x) (flushers x) false (passed x) (failed x))
  | TCall i => call_next true i x
  | TRefused i => call_next false i x
  | TFlush i => flush_next i x
  end.

Definition schedule (ts : list turn) (x : Race) : option Race :=
  foldl (fun o t => o ≫= turn_next t) (Some x) ts.

Section schedules.
Context `{BlockCipher}.

Lemma turn_next_sound t x x' : turn_next t x = Some x' -> race_step x x'.
Proof.
  unfold turn_next. destruct (crashed x) eqn:Hc; [done |]. destruct x as [w cs m fl b ps fd]. cbn in Hc. subst b.
  cbn [world calls mu flushers passed failed]. destruct t as [r | id | i | i | i].
  - destruct (heap w !! r) as [c |] eqn:Hr; [| done]. intros [= <-]. apply race_other. by apply (starts_Exit r c).
  - intros [= <-]. apply race_other, starts_ExitClient.
  - intros E. by eapply (race_call _ _ i), call_next_sound.
  - intros E. by eapply (race_call _ _ i), call_next_sound.
  - unfold flush_next. cbn [world calls mu flushers passed failed]. destruct (fl !! i) as [f |] eqn:Hi; [| done].
    rewrite <- (take_drop_middle fl i f Hi) at 1.
    destruct (flush_round f true w) as [[go | why] w'] eqn:E; intros [= <-]; apply race_other.
    + by apply (flushes _ f _ true).
    + by apply (flush_panics _ f _ true w w' cs m ps fd why).
Qed.

Lemma schedule_reachable ts x x' : race_reachable x -> schedule ts x = Some x' -> race_reachable x'.
Proof.
  unfold schedule. revert x. induction ts as [| t ts IH]; intros x Hx; cbn [foldl mbind option_bind]; [by intros [= <-] |].
  destruct (turn_next t x) as [x1 |] eqn:E.
  - apply IH. eapply race_next; [done |]. by apply (turn_next_sound t).
  - intros E'. exfalso. revert E'. clear. induction ts as [| t ts IH]; [done | exact IH].
Qed.
End schedules.

(** ** One client *)

#[local] Existing Instance flip_cipher.

Definition one_client : Race := MkRace (run_gate_op (OpConnect 0 "10.0.0.1" (demo_bytes 1)) demo_w0).2 [] None [] false [] [].

Lemma one_client_reachable : race_reachable one_client.
Proof.
  eapply race_next; [apply (race_start "g1" "secret" 100 5000 [demo_bytes 9; demo_bytes 10]) |].
  apply race_other, gateway_op. split; [done |]. split; vm_compute; reflexivity.
Qed.

(** Two goroutines load the state before either stores it; both flush the queue. *)
Definition overlapping : list turn :=
  [TExit 0; TExit 0; TCall 0; TCall 1] ++ repeat (TCall 0) 12 ++ repeat (TCall 1) 7 ++ [TFlush 0; TFlush 0; TFlush 1; TFlush 0; TFlush 0].

(** Overlapping calls of [Exit] kill the process: both close the queue, and nothing recovers the panic. *)
Lemma overlapping_exits_crash : exists x, race_reachable x /\ crashed x = true /\ passed x = [0%nat; 0%nat].
Proof.
  destruct (schedule overlapping one_client) as [x |] eqn:E; [| by vm_compute in E].
  exists x. split; [exact (schedule_reachable _ one_client x one_client_reachable E) |].
  vm_compute in E. by injection E as <-.
Qed.

(** The same two calls, the first of which has closed the client before the other starts its flush. *)
Definition overlapping_late : list turn :=
  [TExit 0; TExit 0; TCall 0; TCall 1] ++ repeat (TCall 0) 12 ++ repeat (TFlush 0) 3 ++ repeat (TCall 1) 7.

(** Nothing crashes then, but the second flush goes round for ever ([late_flush_spins]). *)
Lemma overlapping_exits_spin : exists x c, race_reachable x /\ crashed x = false /\ concat (calls x) = [] /\
  flushers x = [(0%nat, false)] /\ heap (world x) !! 0%nat = Some c /\ messages_closed c = true /\ messages c = [].
Proof.
  destruct (schedule overlapping_late one_client) as [x |] eqn:E; [| by vm_compute in E].
  assert (Hx : race_reachable x) by (exact (schedule_reachable _ one_client x one_client_reachable E)).
  vm_compute in E. injection E as <-. eexists _, _. split; [done |]. split_and!; vm_compute; reflexivity.
Qed.

(** One call and its flush, to the end. *)
Definition one_exit : list turn := TExit 0 :: repeat (TCall 0) 13 ++ repeat (TFlush 0) 3.

Lemma exit_closes_once_witness :
  exists x c, race_reachable x /\ settled x /\ heap (world x) !! 0%nat = Some c /\ state c = stateClosed /\
    messages_closed c = true /\ closings (conn c) = 1%nat.
Proof.
  destruct (schedule one_exit one_client) as [x |] eqn:E; [| by vm_compute in E].
  assert (Hx : race_reachable x) by (exact (schedule_reachable _ one_client x one_client_reachable E)).
  assert (Hset : settled x) by (vm_compute in E; injection E as <-; by repeat constructor).
  assert (Hone : forall r, (count r (passed x) <= 1)%nat).
  { intros r. assert (Hp : passed x = [0%nat]) by (vm_compute in E; by injection E as <-).
    rewrite Hp, count_cons. destruct (bool_decide _); cbn; lia. }
  assert (Hc : exists c, heap (world x) !! 0%nat = Some c /\ state c = stateClosed).
  { vm_compute in E. injection E as <-. eexists. split; vm_compute; reflexivity. }
  destruct Hc as (c & Hr & Hs). exists x, c.
  destruct (exit_closes_once x Hx) as [_ H1]. destruct (H1 Hone) as (_ & _ & _ & H2).
  exact (conj Hx (conj Hset (conj Hr (conj Hs (H2 Hset 0%nat c Hr Hs))))).
Defined.

Fixpoint call_many (n i : nat) (x : Race) : option Race :=
  match n with O => Some x | S n' => call_next true i x ≫= call_many n' i end.

Lemma call_many_run n i : forall x x', call_many n i x = Some x' -> race_run i n x x'.
Proof.
  induction n as [| n IH]; intros x x'; cbn [call_many]; [intros [= <-]; constructor |].
  destruct (call_next true i x) as [x1 |] eqn:E; [| done]. cbn. intros E'. eapply run_call; [by eapply call_next_sound | by apply IH].
Qed.


Lemma exit_alone_is_Exit_witness :
  exists c, heap demo_w1 !! 0%nat = Some c /\
    rtc (call_step 0) (MkRace demo_w1 [[FExit 0 Entered]] None [] false [] []) (MkRace (Exit 0 demo_w1).2 [[]] None [(0%nat, false)] false [0%nat] []).
Proof.
  destruct (heap demo_w1 !! 0%nat) as [c |] eqn:E; [| by vm_compute in E].
  exists c. split; [done |].
  pose proof (proj1 (exit_alone_is_Exit 0 c demo_w1 demo_w1_inv E)) as Hrun.
  assert (Hs : (if decide (state c = stateClosed) then [] else to_flush 0 c) = [(0%nat, false)] /\ (if decide (state c = stateClosed) then [] else [0%nat]) = [0%nat]).
  { vm_compute in E. injection E as <-. by split. }
  destruct Hs as [-> ->] in Hrun. exact Hrun.
Defined.

(** [Exit] reads the ID without the mutex. When the client is renamed before it tells the gateway, the
    gateway does not know the ID, and the client stays registered under its new one after it has exited. *)
Definition alice : ID := NewID "g1" "alice" "1".
Lemma exited_client_stays_registered :
  exists x c, race_reachable x /\ settled x /\ crashed x = false /\
    heap (world x) !! 0%nat = Some c /\ state c = stateClosed /\ clients (world x) !! alice = Some 0%nat.
Proof.
  destruct (schedule (TExit 0 :: repeat (TCall 0) 4) one_client) as [x1 |] eqn:E1; [| by vm_compute in E1].
  assert (Hx1 : race_reachable x1) by (exact (schedule_reachable _ one_client x1 one_client_reachable E1)).
  set (x2 := MkRace (run_gate_op (OpSetClientID (demo_temp 1) alice) (world x1)).2 (calls x1) None (flushers x1) false (passed x1) (failed x1)).
  assert (Hx2 : race_reachable x2).
  { apply (race_next x1); [done |]. apply race_other.
    assert (Ex : x1 = MkRace (world x1) (calls x1) None (flushers x1) false (passed x1) (failed x1)) by (vm_compute in E1; by injection E1 as <-).
    rewrite Ex at 1. by apply gateway_op. }
  destruct (schedule (repeat (TCall 0) 8 ++ repeat (TFlush 0) 3) x2) as [x3 |] eqn:E3.
  2: { exfalso. vm_compute in E1. injection E1 as <-. by vm_compute in E3. }
  exists x3. assert (Hx3 : race_reachable x3) by (exact (schedule_reachable _ x2 x3 Hx2 E3)).
  vm_compute in E1. injection E1 as <-. vm_compute in E3. injection E3 as <-.
  eexists. split; [done |]. split; [by repeat constructor |]. split_and!; vm_compute; reflexivity.
Qed.

(** The event of a client that exits is refused: its call waits for the mutex it holds. *)
Lemma refused_event_reachable : exists x, race_reachable x /\ waits_for_itself 0 x.
Proof.
  destruct (schedule (TExit 0 :: repeat (TCall 0) 6 ++ [TRefused 0]) one_client) as [x |] eqn:E; [| by vm_compute in E].
  exists x. split; [exact (schedule_reachable _ one_client x one_client_reachable E) |].
  vm_compute in E. injection E as <-. split; [done |]. by eexists.
Qed.
