(* ===== verification/GateProps.v ===== *)
(** * What the gateway's operations do, branch by branch

    [Exit] and the flush it starts, the heartbeat, [SetClientID], the tickets and the authentication:
    each on a client the store holds, in a gateway that satisfies [gate_inv] where that is needed. The
    witnesses run the operations on the small gateways [demo_w1] and [demo_w2]. *)

From S2P Require Import Prelude GoStrings Json Messages GateId Digest Credentials Gate GateSpec.

Local Open Scope Z_scope.
Local Open Scope go_scope.

(** ** Renaming *)

(** [SetClientID] on each branch: an unknown old ID and a taken new ID are errors that change
    nothing; otherwise the client moves from the old ID to the new one, carries it, and the
    handler is told, in this order, that the old ID went offline and the new one came online. *)
Theorem SetClientID_branches old new w :
  gate_inv w ->
  let o := route (gate_id w) old in let n := route (gate_id w) new in
  match clients w !! o, clients w !! n with
  | None, _ => SetClientID old new w = (Val (errors_New errClientNotExist), w)
  | Some _, Some _ => SetClientID old new w = (Val (errors_New errClientAlreadyExist), w)
  | Some r, None => exists c w',
      SetClientID old new w = (Val nil_error, w') /\
      heap w !! r = Some c /\ heap w' = <[r := renamed n c]> (heap w) /\
      clients w' = <[n := r]> (delete o (clients w)) /\ pool w' = pool w /\
      handled w' = handled w ++ [(InfoCopy (info c), internal ActionInternalOffline o);
                                 (InfoCopy (info (renamed n c)), internal ActionInternalOnline n)]
  end.
Proof.
  intros Hi o n. destruct (clients w !! o) as [r |] eqn:Ho; [| by rewrite SetClientID_unknown].
  destruct (clients w !! n) as [r' |] eqn:Hn; [by erewrite SetClientID_taken |].
  destruct (gi_registered _ Hi _ _ Ho) as (c & Hr & _).
  eexists c, _. split; [by apply SetClientID_run |].
  split_and!; try done. cbn. by rewrite <- app_assoc.
Qed.

Lemma SetClientID_branches_witness :
  exists c w', SetClientID (NewID2 "alice") (NewID2 "bob") demo_w1 = (Val nil_error, w') /\
    heap demo_w1 !! 0%nat = Some c /\ heap w' = <[0%nat := renamed (NewID "g1" "bob" "") c]> (heap demo_w1) /\
    clients w' = <[NewID "g1" "bob" "" := 0%nat]> (delete (NewID "g1" "alice" "") (clients demo_w1)) /\
    pool w' = pool demo_w1 /\
    handled w' = handled demo_w1 ++
      [(InfoCopy (info c), internal ActionInternalOffline (NewID "g1" "alice" ""));
       (InfoCopy (info (renamed (NewID "g1" "bob" "") c)), internal ActionInternalOnline (NewID "g1" "bob" ""))].
Proof.
  exact (SetClientID_branches (NewID2 "alice") (NewID2 "bob") demo_w1 demo_w1_inv).
Defined.

(** ** Exit *)

(** [Exit] of a client that has not exited takes its ID, and only its ID, out of the gateway and
    announces it once; after it the ID is unknown to [EnqueueMessage] and [ExitClient], the client
    refuses messages, and another [Exit] does nothing. *)
Theorem Exit_unregisters r c w :
  gate_inv w -> heap w !! r = Some c -> state c <> stateClosed ->
  let id := route (gate_id w) (info_ID (info c)) in
  exists w', Exit r w = (Val tt, w') /\
    clients w' = delete id (clients w) /\
    handled w' = handled w ++ [(InfoCopy (info c), internal ActionInternalOffline id)] /\
    Exit r w' = (Val tt, w') /\
    ExitClient id w' = (Val (errors_New errClientNotExist), w') /\
    (forall m, EnqueueMessage id m w' = (Val (errors_New errClientNotExist), w')) /\
    (forall m, client_EnqueueMessage r m w' = (Val (errors_New "client has closed"), w')).
Proof.
  intros Hi Hr Hs id. exists (leave id r c w).
  assert (Hr' : heap (leave id r c w) !! r = Some (exited c)) by apply lookup_insert_eq.
  assert (Hs' : state (exited c) = stateClosed) by (unfold exited; by destruct (CloseImmediately _)).
  assert (Hid : clients (leave id r c w) !! route (gate_id (leave id r c w)) id = None).
  { cbn. unfold id. rewrite route_idem. by rewrite lookup_delete_eq. }
  split_and!; try done.
  - rewrite Exit_cases, Hr by done. by destruct (state c).
  - by eapply Exit_closed_run.
  - by apply ExitClient_unknown.
  - intros m. unfold EnqueueMessage, gateway_id, lookup_client.
    rewrite (bind_Val (gets _) _ _ _ _ eq_refl), (bind_Val (gets _) _ _ _ _ eq_refl). by rewrite Hid.
  - intros m. by eapply client_EnqueueMessage_closed.
Qed.

Lemma Exit_unregisters_witness :
  exists c w', heap demo_w1 !! 0%nat = Some c /\ Exit 0 demo_w1 = (Val tt, w') /\
    clients w' = delete (route (gate_id demo_w1) (info_ID (info c))) (clients demo_w1).
Proof.
  destruct (heap demo_w1 !! 0%nat) as [c |] eqn:Hr; [| vm_compute in Hr; discriminate].
  destruct (Exit_unregisters 0 c demo_w1 demo_w1_inv Hr) as (w' & H1 & H2 & _).
  - assert (E : state <$> heap demo_w1 !! 0%nat = Some stateRunning) by (vm_compute; reflexivity).
    rewrite Hr in E. injection E as E. by rewrite E.
  - by exists c, w'.
Defined.

(** ** Flushing after [Exit] *)

Definition texts (l : list (option GlideMessage)) : list conn_event := Wrote <$> omap encode_ptr l.

Lemma texts_cons m l : texts (m :: l) = texts [m] ++ texts l.
Proof. unfold texts. cbn. by destruct (encode_ptr m). Qed.

Lemma flush_message r ok m l c w :
  heap w !! r = Some c -> messages c = m :: l ->
  flush r ok w = (Val true, set_heap (<[r := written m ok (dequeued l c)]> (heap w)) w).
Proof.
  intros Hr Hm. unfold flush. run_step. rewrite Hm. run_step.
  erewrite (bind_Val (write2Conn _ _ _)) by (apply write2Conn_run; client_lookup).
  cbn [heap set_heap]. by rewrite insert_insert_eq.
Qed.

Lemma flush_empty r ok c w :
  heap w !! r = Some c -> messages c = [] -> messages_closed c = false ->
  flush r ok w = (Val false, set_heap (<[r := with_conn true (conn c ++ [ConnClosed]) (with_flushing false c)]> (heap w)) w).
Proof.
  intros Hr Hm Ho. unfold flush. run_step. rewrite Hm, Ho. run_step.
  erewrite (bind_Val (close_client r)) by (apply close_client_run; [client_lookup | done]).
  cbn [heap set_heap]. rewrite insert_insert_eq. reflexivity.
Qed.

(** On a closed queue the goroutine goes round for ever, writing [null]. *)
Lemma flush_spins r ok n : forall c w,
  heap w !! r = Some c -> messages c = [] -> messages_closed c = true ->
  exists w', flush_loop n r ok w = (Val true, w').
Proof.
  induction n as [| n IH]; intros c w Hr Hm Hc; [by exists w |]. cbn [flush_loop].
  erewrite bind_Val.
  2: { unfold flush. run_step. rewrite Hm, Hc. by erewrite (bind_Val (write2Conn _ _ _)) by (by apply write2Conn_run). }
  cbv iota. apply (IH (written None ok c)); [apply lookup_insert_eq | ..]; unfold written; by destruct ok.
Qed.

Lemma conn_written m c : conn (written m true c) = conn c ++ texts [m].
Proof. unfold written, texts. cbn. destruct (encode_ptr m); cbn; by rewrite ?app_nil_r. Qed.
Lemma messages_written m ok c : messages (written m ok c) = messages c.
Proof. unfold written. by destruct (encode_ptr m), ok. Qed.

(** C15: the goroutine [Exit] starts stops, when nobody else has closed the queue: on a connection that takes what is
    written, one round per queued message writes them in the order they were queued, and the next round closes the
    queue and the connection, once, and ends. (On a closed queue it goes round for ever: [flush_spins].) *)
Theorem flush_writes_the_queue r : forall l c w,
  heap w !! r = Some c -> messages c = l -> messages_closed c = false ->
  exists c' w', flush_loop (length l + 1) r true w = (Val false, w') /\
    heap w' !! r = Some c' /\ messages c' = [] /\ messages_closed c' = true /\ flushing c' = false /\
    conn c' = conn c ++ texts l ++ [ConnClosed] /\
    clients w' = clients w /\ handled w' = handled w.
Proof.
  induction l as [| m l IH]; intros c w Hr Hm Ho.
  - eexists _, _. cbn [length Nat.add flush_loop]. erewrite bind_Val by (by apply flush_empty).
    split; [reflexivity |]. split; [apply lookup_insert_eq |]. done.
  - change (length (m :: l) + 1)%nat with (S (length l + 1)). cbn [flush_loop].
    erewrite bind_Val by (by apply flush_message). cbv iota.
    edestruct (IH (written m true (dequeued l c)) (set_heap (<[r := written m true (dequeued l c)]> (heap w)) w))
      as (c' & w' & Hrun & Hc' & H1 & H2 & H3 & H4 & H5 & H6).
    + apply lookup_insert_eq.
    + by rewrite messages_written.
    + unfold written. by destruct (encode_ptr m).
    + exists c', w'. split_and!; try done.
      rewrite H4, conn_written, (texts_cons m l). cbn [conn dequeued with_messages]. by rewrite <- !app_assoc.
Qed.

(** A client that exits with two messages queued. *)
Definition demo_w2 : World :=
  run_ops demo_w1 [OpWrite 0 (WriteMessage true); OpEnqueue (NewID2 "alice") (Some (NewMessage 1 "a" PNil));
                   OpEnqueue (NewID2 "alice") (Some (NewMessage 2 "b" PNil)); OpPool 0; OpPool 0; OpExit 0].

Lemma flush_writes_the_queue_witness :
  exists c c' w', heap demo_w2 !! 0%nat = Some c /\ length (messages c) = 2%nat /\
    flush_loop (length (messages c) + 1) 0 true demo_w2 = (Val false, w') /\
    heap w' !! 0%nat = Some c' /\ conn c' = conn c ++ texts (messages c) ++ [ConnClosed].
Proof.
  destruct (heap demo_w2 !! 0%nat) as [c |] eqn:Hr; [| vm_compute in Hr; discriminate].
  assert (Ho : messages_closed <$> heap demo_w2 !! 0%nat = Some false) by (vm_compute; reflexivity).
  rewrite Hr in Ho. injection Ho as Ho.
  destruct (flush_writes_the_queue 0 (messages c) c demo_w2 Hr eq_refl Ho) as (c' & w' & H1 & H2 & _ & _ & _ & H3 & _).
  assert (E : (fun c => length (messages c)) <$> heap demo_w2 !! 0%nat = Some 2%nat) by (vm_compute; reflexivity).
  rewrite Hr in E. injection E as E.
  exists c, c', w'. exact (conj eq_refl (conj E (conj H1 (conj H2 H3)))).
Defined.

(** ** Tickets *)

Lemma length_strings_ToUpper s : String.length (strings_ToUpper s) = String.length s.
Proof. induction s as [| c s IH]; [done |]. simpl. by rewrite IH. Qed.

Lemma EnqueueMessage_run id m r c w :
  clients w !! route (gate_id w) id = Some r -> heap w !! r = Some c -> state c = stateRunning ->
  Z.of_nat (length (pool w)) < pool_cap w ->
  EnqueueMessage id m w = (Val nil_error, set_pool (pool w ++ [(r, m)]) w).
Proof.
  intros Hid Hr Hs Hroom. unfold EnqueueMessage, gateway_id, lookup_client. do 2 run_step. rewrite Hid.
  rewrite (gate_enqueue_run _ _ c) by done. rewrite Hs. by apply Z.ltb_lt in Hroom as ->.
Qed.

(** Only these actions need a ticket. *)
Definition needs_ticket (m : GlideMessage) : Prop :=
  Action m ∈ [ActionGroupMessage; ActionChatMessage; ActionChatMessageResend].

(** The ticket made for this sender and receiver with the sender's secret. *)
Definition has_ticket (cr : ClientAuthCredentials) (id : ID) (m : GlideMessage) : Prop :=
  exists secrets, cr_Secrets cr = Some secrets /\ MessageDeliverSecret secrets <> "" /\
    strings_ToUpper (Ticket m) = strings_ToUpper (message_ticket (MessageDeliverSecret secrets) (UID id) (To m)).

Definition refused (r : nat) (m : GlideMessage) (why : string) (w : World) : World :=
  set_pool (pool w ++ [(r, Some (NewMessage (Seq m) ActionNotifyForbidden (PString why)))]) w.

(** C13: a message of an authenticated client passes the gateway exactly when its action needs no
    ticket or it carries, in any letter case, the ticket of its sender, its receiver and the
    sender's current secret; passing changes nothing, and a refused message is answered with one
    message to its sender that names its sequence number. *)
Theorem MessageInterceptor_checks_the_ticket r m c cr w :
  gate_inv w -> heap w !! r = Some c -> state c = stateRunning -> credentials c = Some cr ->
  Z.of_nat (length (pool w)) < pool_cap w ->
  exists b w', MessageInterceptor r m w = (Val b, w') /\
    (b = false <-> (needs_ticket m -> has_ticket cr (info_ID (info c)) m)) /\
    (b = false -> w' = w) /\
    (b = true -> exists why, w' = refused r m why w).
Proof.
  intros Hi Hr Hs Hcr Hroom. unfold MessageInterceptor. run_step. rewrite Hcr.
  assert (Hid : clients w !! route (gate_id w) (info_ID (info c)) = Some r) by (apply Hi; congruence).
  assert (Hforbid : forall why, forbid r m why w = (Val true, refused r m why w)).
  { intros why. unfold forbid. run_step.
    erewrite (bind_Val (EnqueueMessage _ _)) by (by eapply EnqueueMessage_run). done. }
  assert (Hno : ~ has_ticket cr (info_ID (info c)) m -> needs_ticket m -> forall why,
    exists b w', forbid r m why w = (Val b, w') /\
      (b = false <-> (needs_ticket m -> has_ticket cr (info_ID (info c)) m)) /\
      (b = false -> w' = w) /\ (b = true -> exists why, w' = refused r m why w)).
  { intros Hn Hneeds why. exists true, (refused r m why w). rewrite Hforbid.
    split; [done | split; [split; [done | intros Ht; by destruct Hn; auto] | split; [done | eauto]]]. }
  assert (Hyes : (needs_ticket m -> has_ticket cr (info_ID (info c)) m) ->
    exists b w', @ret World bool false w = (Val b, w') /\
      (b = false <-> (needs_ticket m -> has_ticket cr (info_ID (info c)) m)) /\
      (b = false -> w' = w) /\ (b = true -> exists why, w' = refused r m why w)).
  { intros Ht. by exists false, w. }
  fold (needs_ticket m). case_bool_decide as Hneeds; [| by apply Hyes].
  destruct (cr_Secrets cr) as [secrets |] eqn:Hsec; [| apply Hno; [| done]; intros (? & ? & _); congruence].
  case_bool_decide as Hempty; [apply Hno; [| done]; intros (? & ? & Hne & _); congruence |].
  destruct (Nat.eqb_spec (String.length (Ticket m)) 40) as [Hlen | Hlen]; cbn [negb].
  - case_bool_decide as Ht; [apply Hyes; intros _; by exists secrets |].
    apply Hno; [| done]. intros (s' & Es & _ & Ht'). congruence.
  - apply Hno; [| done]. intros (s' & Es & _ & Ht'). apply Hlen.
    apply (f_equal String.length) in Ht'. rewrite !length_strings_ToUpper in Ht'.
    rewrite Ht'. apply length_SHA1.
Qed.

Definition demo_cr : ClientAuthCredentials :=
  MkCredentials 1 "alice" "d1" "phone" (Some (MkClientSecrets "s3cret" "")) None None "conn-1" 4000.
Definition demo_w3 : World := (SetCredentials 0 demo_cr demo_w1).2.
Definition demo_chat : GlideMessage :=
  MkGlideMessage 1 7 ActionChatMessage "" "bob" None "" (message_ticket "s3cret" "alice" "bob") "" ∅.

Lemma demo_w3_inv : gate_inv demo_w3.
Proof. apply preserves_SetCredentials, demo_w1_inv. Qed.

Lemma MessageInterceptor_checks_the_ticket_witness :
  exists c b w', heap demo_w3 !! 0%nat = Some c /\ MessageInterceptor 0 demo_chat demo_w3 = (Val b, w') /\
    (b = false <-> (needs_ticket demo_chat -> has_ticket demo_cr (info_ID (info c)) demo_chat)).
Proof.
  destruct (heap demo_w3 !! 0%nat) as [c |] eqn:Hr; [| vm_compute in Hr; discriminate].
  assert (E : (fun c => (state c, credentials c)) <$> heap demo_w3 !! 0%nat = Some (stateRunning, Some demo_cr))
    by (vm_compute; reflexivity).
  rewrite Hr in E. injection E as E1 E2.
  destruct (MessageInterceptor_checks_the_ticket 0 demo_chat c demo_cr demo_w3 demo_w3_inv Hr E1 E2)
    as (b & w' & H1 & H2 & _); [vm_compute; reflexivity |].
  exists c, b, w'. exact (conj eq_refl (conj H1 H2)).
Defined.

(** ** Authentication *)

Section authentication.
Context `{BlockCipher}.

(** The client once it holds the credentials. *)
Definition authenticated (cr : ClientAuthCredentials) (c : UserClient) : UserClient :=
  let cfg := match cr_ConnectionConfig cr with
             | Some k => MkClientConfig (int64 (HeartbeatDuration k * second)) (ServerHeartbeatDuration (config c))
                           (AllowMaxHeartbeatLost k) (cc_CloseImmediately k)
             | None => config c
             end in
  with_credentials (Some cr) cfg (with_info (set_ConnectionId (cr_ConnectionID cr) (info c)) c).

Lemma SetCredentials_run r cr c w :
  heap w !! r = Some c ->
  SetCredentials r cr w = (Val tt, set_heap (<[r := authenticated cr c]> (heap w)) w).
Proof. intros Hr. unfold SetCredentials. by erewrite upd_client_run. Qed.

(** A message whose data carries credentials the business service encrypted, not yet expired. *)
Definition valid_authentication (key : list Z) (m : GlideMessage) (cr : ClientAuthCredentials) (w : World) : Prop :=
  Action m = ActionAuthenticate /\
  exists v s, Deserialize (Data m) zero_EncryptedCredential = (nil_error, MkEncryptedCredential v s) /\
    (5 <= String.length s)%nat /\ DecryptCredentials key s = Some (inl cr) /\
    int64 (now w - cr_Timestamp cr) <= credential_lifetime.

Lemma read_credentials_run key m cr w :
  valid_authentication key m cr w -> read_credentials key m w = (Val (inl cr), w).
Proof.
  intros (_ & v & s & Hd & Hlen & Hdec & Ht). unfold read_credentials. rewrite Hd. cbn [ec_Credential].
  destruct (Nat.ltb_spec (String.length s) 5) as [? | _]; [lia |]. rewrite Hdec. run_step.
  by rewrite (proj2 (Z.ltb_ge _ _) Ht).
Qed.

(** What [ClientAuthMessageInterceptor] does once [updateClient] answered an ID. *)
Lemma authenticate_run key r m cr newId w w' :
  valid_authentication key m cr w -> updateClient r cr w = (Val (newId, nil_error), w') ->
  ClientAuthMessageInterceptor key r m w =
    (let! _ := EnqueueMessage newId (Some (NewMessage (Seq m) ActionNotifySuccess PNil)) in ret true) w'.
Proof.
  intros Hv Hu. unfold ClientAuthMessageInterceptor. rewrite bool_decide_true by apply Hv. cbn [negb].
  erewrite (bind_Val (read_credentials key m)) by (by apply read_credentials_run).
  cbv beta iota. erewrite (bind_Val (bind (updateClient r cr) _)) by (by erewrite (bind_Val (updateClient r cr)) by done).
  done.
Qed.

Definition success (r : nat) (m : GlideMessage) : nat * option GlideMessage :=
  (r, Some (NewMessage (Seq m) ActionNotifySuccess PNil)).

(** C11: a client that presents valid credentials of a user nobody is logged in as takes that user's ID:
    it holds the credentials, its old ID is gone, the handler is told of both, nobody else is touched, and the
    only message sent is the success reply to it. *)
Theorem authentication_takes_a_free_id key r m c cr w :
  gate_inv w -> heap w !! r = Some c -> state c = stateRunning ->
  gate_id w <> "" -> part_ok (gate_id w) -> part_ok (cr_UserID cr) ->
  valid_authentication key m cr w ->
  let old := route (gate_id w) (info_ID (info c)) in
  let id := NewID (gate_id w) (cr_UserID cr) "" in
  clients w !! id = None -> Z.of_nat (length (pool w)) < pool_cap w ->
  exists w', ClientAuthMessageInterceptor key r m w = (Val true, w') /\
    clients w' = <[id := r]> (delete old (clients w)) /\
    heap w' = <[r := renamed id (authenticated cr c)]> (heap w) /\
    pool w' = pool w ++ [success r m] /\
    online (handled w') = {[id]} ∪ online (handled w) ∖ {[old]}.
Proof.
  intros Hi Hr Hs Hg Hgp Hup Hv old id Hfree Hroom.
  assert (Hid : route (gate_id w) (NewID2 (cr_UserID cr)) = id) by (by apply route_user).
  set (w1 := set_heap (<[r := authenticated cr c]> (heap w)) w).
  assert (Hr1 : heap w1 !! r = Some (authenticated cr c)) by apply lookup_insert_eq.
  assert (Hold : clients w1 !! route (gate_id w1) (info_ID (info (authenticated cr c))) = Some r)
    by (apply (gi_live _ Hi r c); [done | congruence]).
  pose proof (SetClientID_run _ (NewID2 (cr_UserID cr)) r (authenticated cr c) w1 Hold) as Hset.
  change (gate_id w1) with (gate_id w) in Hset. rewrite Hid in Hset. specialize (Hset Hfree Hr1).
  match type of Hset with _ = (_, ?w2) => set (w2' := w2) in * end.
  assert (Hup1 : updateClient r cr w = (Val (NewID2 (cr_UserID cr), nil_error), w2')).
  { unfold updateClient. erewrite (bind_Val (SetCredentials r cr)) by (by apply SetCredentials_run). fold w1.
    erewrite (bind_Val (get_client r)) by (by apply get_client_run).
    erewrite (bind_Val (SetClientID _ _)) by exact Hset. done. }
  eexists. split.
  - erewrite authenticate_run by done.
    erewrite (bind_Val (EnqueueMessage _ _)); [reflexivity |].
    apply (EnqueueMessage_run _ _ r (renamed id (authenticated cr c))); [| | done | done].
    + change (gate_id w2') with (gate_id w). rewrite Hid. apply lookup_insert_eq.
    + apply lookup_insert_eq.
  - cbn. rewrite insert_insert_eq. split_and!; try done.
    rewrite online_snoc, online_snoc, apply_offline, apply_online. done.
Qed.

Definition kick_out (r : nat) (cr : ClientAuthCredentials) : nat * option GlideMessage :=
  (r, Some (NewMessage 0 ActionNotifyKickOut (PKickOutNotify (MkKickOutNotify (cr_DeviceID cr) (cr_DeviceName cr))))).

(** The ID [id] is held by [r'], which moves to [temp] and is told; then [r] moves from [old] to [id]. *)
Section kick_out.
Context (w : World) (r r' : nat) (c c' : UserClient) (cr : ClientAuthCredentials)
  (bytes : list Z) (rest : list (list Z)).
Let old := route (gate_id w) (info_ID (info c)).
Let id := NewID (gate_id w) (cr_UserID cr) "".
Let temp := route (gate_id w) (GenTempID "" bytes).

Context (Hid : route (gate_id w) (NewID2 (cr_UserID cr)) = id)
  (Hr : heap w !! r = Some c) (Hr' : heap w !! r' = Some c') (Hne : r' <> r)
  (Hold : clients w !! old = Some r) (Hhold : clients w !! id = Some r') (Htmp : clients w !! temp = None)
  (Hs' : state c' = stateRunning) (Heq : Equals (NewID2 (cr_UserID cr)) (info_ID (info c)) = false)
  (Hrnd : random w = bytes :: rest) (Hroom : Z.of_nat (length (pool w)) < pool_cap w).

Definition holder_moved : World :=
  set_clients (<[temp := r']> (delete id (clients w)))
    (add_handled (InfoCopy (info (renamed temp c')), internal ActionInternalOnline temp)
      (add_handled (InfoCopy (info c'), internal ActionInternalOffline id)
        (set_heap (<[r' := renamed temp c']> (<[r := authenticated cr c]> (heap w))) (set_random rest w)))).
Definition kicked : World := set_pool (pool w ++ [kick_out r' cr]) holder_moved.

Definition taken_over : World :=
  set_clients (<[id := r]> (delete old (clients kicked)))
    (add_handled (InfoCopy (info (renamed id (authenticated cr c))), internal ActionInternalOnline id)
      (add_handled (InfoCopy (info (authenticated cr c)), internal ActionInternalOffline old)
        (set_heap (<[r := renamed id (authenticated cr c)]> (heap kicked)) kicked))).

Lemma taken_over_ids :
  old <> id /\ old <> temp /\ id <> temp.
Proof. split_and!; congruence. Qed.

Lemma rename_holder :
  SetClientID (NewID2 (cr_UserID cr)) (GenTempID "" bytes)
    (set_random rest (set_heap (<[r := authenticated cr c]> (heap w)) w)) =
  (Val nil_error, holder_moved).
Proof.
  erewrite (SetClientID_run _ _ r' c').
  - cbn [gate_id set_random set_heap]. rewrite Hid. reflexivity.
  - cbn [gate_id clients set_random set_heap]. by rewrite Hid.
  - exact Htmp.
  - cbn. by rewrite lookup_insert_ne.
Qed.

Lemma tell_holder :
  EnqueueMessage (GenTempID "" bytes) (kick_out r' cr).2 holder_moved = (Val nil_error, kicked).
Proof.
  change kicked with (set_pool (pool holder_moved ++ [(r', (kick_out r' cr).2)]) holder_moved).
  apply (EnqueueMessage_run _ _ r' (renamed temp c')); [apply lookup_insert_eq | apply lookup_insert_eq | done | done].
Qed.

Lemma rename_newcomer :
  SetClientID (info_ID (info c)) (NewID2 (cr_UserID cr)) kicked = (Val nil_error, taken_over).
Proof.
  destruct taken_over_ids as (H1 & H2 & H3).
  erewrite (SetClientID_run _ _ r (authenticated cr c)).
  - change (gate_id kicked) with (gate_id w). rewrite Hid. reflexivity.
  - change (clients kicked !! old = Some r). cbn. by rewrite lookup_insert_ne, lookup_delete_ne.
  - change (gate_id kicked) with (gate_id w). rewrite Hid. cbn. rewrite lookup_insert_ne by done. apply lookup_delete_eq.
  - cbn. rewrite lookup_insert_ne by done. apply lookup_insert_eq.
Qed.

Lemma updateClient_kicks_out :
  updateClient r cr w = (Val (NewID2 (cr_UserID cr), nil_error), taken_over).
Proof.
  unfold updateClient. erewrite (bind_Val (SetCredentials r cr)) by (by apply SetCredentials_run).
  erewrite (bind_Val (get_client r)) by (apply get_client_run, lookup_insert_eq).
  erewrite (bind_Val (SetClientID _ _)).
  2: { apply (SetClientID_taken _ _ r r'); [exact Hold |]. cbn [gate_id set_heap clients]. by rewrite Hid. }
  change (IsIDAlreadyExist (errors_New errClientAlreadyExist)) with true. cbv beta iota.
  cbn [info authenticated with_credentials with_info set_ConnectionId info_ID]. rewrite Heq.
  unfold take_random. erewrite (bind_Val (bind (gets random) _)).
  2: { rewrite (bind_Val (gets random) _ _ _ _ eq_refl). cbn [random set_heap]. rewrite Hrnd. reflexivity. }
  erewrite (bind_Val (SetClientID _ _)) by exact rename_holder. cbv iota.
  erewrite (bind_Val (EnqueueMessage _ _)) by exact tell_holder.
  erewrite (bind_Val (SetClientID _ _)) by exact rename_newcomer. done.
Qed.
End kick_out.

End authentication.

#[local] Existing Instance flip_cipher.

Definition demo_auth (user : string) : ClientAuthCredentials :=
  MkCredentials 1 user "d2" "tablet" (Some (MkClientSecrets "s" "")) None None "conn-2" 4000.
Definition demo_key : list Z := authenticator_key "secret".
Definition demo_auth_message (user : string) : GlideMessage :=
  match EncryptCredentials demo_key (demo_bytes 3) (demo_auth user) with
  | inl s => set_Data (Some (PBytes (json_object [("version", json_int 1); ("credential", json_string s)])))
               (NewMessage 5 ActionAuthenticate PNil)
  | inr _ => NewEmptyMessage
  end.

Lemma demo_auth_valid user :
  (match EncryptCredentials demo_key (demo_bytes 3) (demo_auth user) with
   | inl s => Deserialize (Data (demo_auth_message user)) zero_EncryptedCredential =
                (nil_error, MkEncryptedCredential 1 s) /\
              (5 <= String.length s)%nat /\ DecryptCredentials demo_key s = Some (inl (demo_auth user))
   | inr _ => False
   end) -> valid_authentication demo_key (demo_auth_message user) (demo_auth user) demo_w1.
Proof.
  unfold demo_auth_message. destruct (EncryptCredentials _ _ _) as [s |]; [| done].
  intros (Hd & Hlen & Hdec). split; [done |]. exists 1, s.
  split; [exact Hd |]. split; [exact Hlen |]. split; [exact Hdec |]. by vm_compute.
Qed.

Lemma demo_w1_running r : (r < 2)%nat ->
  exists c, heap demo_w1 !! r = Some c /\ state c = stateRunning /\
    Equals (NewID2 "alice") (info_ID (info c)) = (r =? 0)%nat.
Proof.
  intros Hr. destruct (heap demo_w1 !! r) as [c |] eqn:E.
  - exists c. assert (E1 : (fun c => (state c, Equals (NewID2 "alice") (info_ID (info c)))) <$> heap demo_w1 !! r
      = Some (stateRunning, (r =? 0)%nat))
      by (destruct r as [| [| ?]]; [vm_compute; reflexivity | vm_compute; reflexivity | lia]).
    rewrite E in E1. by injection E1.
  - destruct r as [| [| ?]]; [vm_compute in E; done | vm_compute in E; done | lia].
Qed.

Lemma authentication_takes_a_free_id_witness :
  exists w', ClientAuthMessageInterceptor demo_key 1 (demo_auth_message "carol") demo_w1 = (Val true, w') /\
    clients w' !! NewID "g1" "carol" "" = Some 1%nat.
Proof.
  destruct (demo_w1_running 1) as (c & Hr & Hs & _); [lia |].
  destruct (authentication_takes_a_free_id demo_key 1 (demo_auth_message "carol") c (demo_auth "carol") demo_w1)
    as (w' & H1 & H2 & _).
  - exact demo_w1_inv.
  - exact Hr.
  - exact Hs.
  - discriminate.
  - reflexivity.
  - reflexivity.
  - apply demo_auth_valid. vm_compute. split; [reflexivity |]. split; [lia | reflexivity].
  - vm_compute. reflexivity.
  - reflexivity.
  - exists w'. split; [exact H1 |]. rewrite H2. apply lookup_insert_eq.
Defined.


(** ** Heartbeats *)

Section heartbeats.
Context `{BlockCipher}.

Lemma IsRunning_run r c w :
  heap w !! r = Some c -> IsRunning r w = (Val (if state c is stateRunning then true else false), w).
Proof. intros Hr. unfold IsRunning. by erewrite bind_Val by (by apply get_client_run). Qed.

Definition beat (c : UserClient) : UserClient := queued_one (Some heartbeat) (with_hbLost (int64 (hbLost c + 1)) c).

Lemma runRead_heartbeat r c w :
  gate_inv w -> heap w !! r = Some c -> state c = stateRunning -> int64 (hbLost c + 1) <= HeartbeatLostLimit (config c) ->
  runRead r ReadHeartbeat w = (Val true, set_heap (<[r := beat c]> (heap w)) w).
Proof.
  intros Hi Hr Hs Hl. unfold runRead. erewrite (bind_Val (IsRunning r)) by (by apply IsRunning_run).
  rewrite Hs. cbn [negb]. do 2 run_step. rewrite (proj2 (Z.ltb_ge _ _) Hl). run_step.
  assert (Hm : messages_closed c = false) by (apply not_closed_open; [by eapply gi_clients | congruence]).
  erewrite (bind_Val (client_EnqueueMessage _ _)).
  2: { apply (client_EnqueueMessage_run _ _ (with_hbLost (int64 (hbLost c + 1)) c)); [client_lookup | cbn; congruence | done]. }
  cbn [heap set_heap]. by rewrite insert_insert_eq.
Qed.

Lemma runRead_last_heartbeat r c w :
  gate_inv w -> heap w !! r = Some c -> state c = stateRunning -> HeartbeatLostLimit (config c) < int64 (hbLost c + 1) ->
  exists c' w', runRead r ReadHeartbeat w = (Val true, w') /\ gate_inv w' /\
    heap w' !! r = Some c' /\ state c' = stateClosed /\
    clients w' = delete (route (gate_id w) (info_ID (info c))) (clients w).
Proof.
  intros Hi Hr Hs Hl. set (c1 := with_hbLost (int64 (hbLost c + 1)) c).
  set (w1 := set_heap (<[r := c1]> (heap w)) w).
  assert (Hi1 : gate_inv w1).
  { apply (gate_inv_client r c); [done | done | done |]. by destruct (gi_clients _ Hi _ _ Hr). }
  assert (Hr1 : heap w1 !! r = Some c1) by apply lookup_insert_eq.
  assert (Hex : Exit r w1 = (Val tt, leave (route (gate_id w) (info_ID (info c))) r c1 w1)).
  { rewrite Exit_cases, Hr1 by done. cbn [state with_hbLost c1]. by rewrite Hs. }
  assert (Hcl : state (exited c1) = stateClosed) by (unfold exited; by destruct (CloseImmediately _)).
  exists (exited c1), (leave (route (gate_id w) (info_ID (info c))) r c1 w1). split_and!.
  - unfold runRead. erewrite (bind_Val (IsRunning r)) by (by apply IsRunning_run).
    rewrite Hs. cbn [negb]. do 2 run_step. rewrite (proj2 (Z.ltb_lt _ _) Hl). fold c1 w1.
    erewrite (bind_Val (Exit r)) by done.
    erewrite (bind_Val (client_EnqueueMessage _ _)); [reflexivity |].
    apply (client_EnqueueMessage_closed _ _ (exited c1)); [apply lookup_insert_eq | done].
  - change (gate_inv (leave (route (gate_id w1) (info_ID (info c1))) r c1 w1)).
    apply gate_inv_leave; [done | done | cbn; congruence].
  - apply lookup_insert_eq.
  - done.
  - done.
Qed.

Lemma runRead_heartbeat_closed r c w :
  heap w !! r = Some c -> state c = stateClosed -> runRead r ReadHeartbeat w = (Val false, w).
Proof. intros Hr Hs. unfold runRead. erewrite (bind_Val (IsRunning r)) by (by apply IsRunning_run). by rewrite Hs. Qed.

Lemma recovered_Val r m b w w' : m w = (Val b, w') -> recovered r m w = (Val b, w').
Proof. intros E. unfold recovered. by rewrite E. Qed.

Lemma beat_fields c :
  state (beat c) = state c /\ hbLost (beat c) = int64 (hbLost c + 1) /\ config (beat c) = config c /\ info (beat c) = info c.
Proof. unfold beat, queued_one. cbn [messages with_hbLost]. by destruct (length (messages c) <? msgs_cap)%nat. Qed.

Lemma client_ok_beat c : client_ok c -> client_ok (beat c).
Proof.
  intros []. unfold beat, queued_one. cbn [messages with_hbLost].
  destruct (Nat.ltb_spec (length (messages c)) msgs_cap); split; cbn; try done. rewrite length_app. cbn. lia.
Qed.

(** a silent client is given up after exactly its limit of lost heartbeats: while no more than
    the limit (which is an [int] below the largest) have passed since its last message it runs and stays registered; the next one makes it
    exit and takes its ID out of the gateway. *)
Theorem silent_client_exits r n : forall c w,
  gate_inv w -> heap w !! r = Some c -> state c = stateRunning ->
  0 <= hbLost c <= HeartbeatLostLimit (config c) -> HeartbeatLostLimit (config c) < MaxInt64 ->
  exists b c' w', read_loop r (replicate n ReadHeartbeat) w = (Val b, w') /\ heap w' !! r = Some c' /\
    if decide (hbLost c + Z.of_nat n <= HeartbeatLostLimit (config c))
    then b = true /\ state c' = stateRunning /\ hbLost c' = hbLost c + Z.of_nat n /\ clients w' = clients w
    else state c' = stateClosed /\ clients w' = delete (route (gate_id w) (info_ID (info c))) (clients w).
Proof.
  induction n as [| n IH]; intros c w Hi Hr Hs Hl Hmax; cbn [replicate read_loop].
  - exists true, c, w. split; [done |]. split; [done |]. rewrite decide_True by lia. split_and!; try done. lia.
  - assert (Hw : int64 (hbLost c + 1) = hbLost c + 1) by (apply int64_small; unfold in_int64, MaxInt64 in *; lia).
    destruct (Z.le_gt_cases (int64 (hbLost c + 1)) (HeartbeatLostLimit (config c))) as [Hle | Hgt].
    + erewrite bind_Val by (by apply recovered_Val, runRead_heartbeat). cbv iota.
      destruct (beat_fields c) as (E1 & E2 & E3 & E4).
      edestruct (IH (beat c) (set_heap (<[r := beat c]> (heap w)) w)) as (b & c' & w' & Hrun & Hr' & Hres).
      * apply (gate_inv_client r c); [done | done | by split; rewrite ?E4 |].
        apply client_ok_beat. by eapply gi_clients.
      * apply lookup_insert_eq.
      * congruence.
      * rewrite E2, E3, Hw. lia.
      * by rewrite E3.
      * exists b, c', w'. split; [done |]. split; [done |]. rewrite E2, E3, E4, Hw in Hres.
        do 2 case_decide; try lia; cbn [clients set_heap gate_id] in Hres; [| done].
        destruct Hres as (? & ? & ? & ?). split_and!; try done. lia.
    + destruct (runRead_last_heartbeat r c w Hi Hr Hs Hgt) as (c' & w' & Hrun & Hi' & Hr' & Hs' & Hcl).
      erewrite bind_Val by (by apply recovered_Val). cbv iota.
      assert (Hrest : exists b, read_loop r (replicate n ReadHeartbeat) w' = (Val b, w')).
      { destruct n; cbn [replicate read_loop]; [by eexists |].
        erewrite bind_Val by (by apply recovered_Val; eapply runRead_heartbeat_closed). by eexists. }
      destruct Hrest as [b Hrest]. exists b, c', w'. split; [done |]. split; [done |].
      rewrite decide_False by lia. done.
Qed.
End heartbeats.

Lemma silent_client_exits_witness :
  exists b c' w', read_loop 0 (replicate 4 ReadHeartbeat) demo_w1 = (Val b, w') /\ heap w' !! 0%nat = Some c' /\
    state c' = stateClosed.
Proof.
  destruct (demo_w1_running 0) as (c & Hr & Hs & _); [lia |].
  assert (E : (fun c => (hbLost c, HeartbeatLostLimit (config c))) <$> heap demo_w1 !! 0%nat = Some (0, 3))
    by (vm_compute; reflexivity).
  rewrite Hr in E. injection E as E1 E2.
  destruct (silent_client_exits 0 4 c demo_w1 demo_w1_inv Hr Hs)
    as (b & c' & w' & H1 & H2 & H3); [rewrite E1, E2; lia | by rewrite E2 |].
  rewrite E1, E2, decide_False in H3 by lia. exists b, c', w'. exact (conj H1 (conj H2 (proj1 H3))).
Defined.
