(* ===== verification/Heartbeat.v ===== *)
(** * The heartbeats of the clients on the timing wheel

    The gateway's clients share one timing wheel ([tw] of [pkg/gate/client_impl.go]). A client has two
    timers on it: [hbC] counts what it has not heard of its peer, [hbS] makes it speak. Here are the
    two goroutines of a client with their timers, on the wheel and the gateway together; [Gate] has them
    with the timers as events from outside, and [timed_round_is_runRead] says that the gateway sees no
    difference.

    A task signals its goroutine on a channel without a buffer, and the signal is lost when the goroutine is
    not waiting: it may be reading a frame, calling a handler or writing. A tick is given the goroutines that are
    not waiting; the others react to their signals before the next tick. A lost signal is not repeated: the read
    timer of the client is then not pending until a message of it is read ([lost_signal_loses_the_timer]). *)

From S2P Require Import Prelude TimingWheel TimingWheelInv TimingWheelSpec GoStrings Json Messages GateId Credentials Gate GateSpec GateFrame GateProps.

Local Open Scope Z_scope.
Local Open Scope go_scope.

(** ** Data *)

Definition wheels_count : nat := 3.
Definition slots_count : nat := 20.
Definition tick_length : Z := 500 * 1000000.

(** [tw] of the gateway. *)
Definition gate_tw : tw_state := NewTimingWheel tick_length wheels_count slots_count.

(** The timers of the clients are references to tasks; [fresh] is the next task the allocation returns. *)
Record Timed := MkTimed { gw : World; tw : tw_state; hbC : gmap nat nat; hbS : gmap nat nat; fresh : nat }.

Definition set_hbC (r v : nat) (x : Timed) : Timed := MkTimed (gw x) (tw x) (<[r := v]> (hbC x)) (hbS x) (fresh x).
Definition set_hbS (r v : nat) (x : Timed) : Timed := MkTimed (gw x) (tw x) (hbC x) (<[r := v]> (hbS x)) (fresh x).
Definition set_fresh (v : nat) (x : Timed) : Timed := MkTimed (gw x) (tw x) (hbC x) (hbS x) v.

Definition on_gate {A} (m : GoM World A) : GoM Timed A :=
  zoom gw (fun w x => MkTimed w (tw x) (hbC x) (hbS x) (fresh x)) m.
Definition on_tw {A} (m : GoM tw_state A) : GoM Timed A :=
  zoom tw (fun s x => MkTimed (gw x) s (hbC x) (hbS x) (fresh x)) m.

(** [tw.After(d)]. *)
Definition tw_After (d : Z) : GoM Timed nat :=
  let! v := gets fresh in
  modify (set_fresh (S v)) ;;;
  let! t := gets (fun x => now (gw x)) in
  on_tw (After v (t * 1000000) d).

(** [c.hbC.Cancel()] and [c.hbS.Cancel()]. *)
Definition cancel_timer (timers : Timed -> gmap nat nat) (r : nat) : GoM Timed unit :=
  let! m := gets timers in
  match m !! r with Some v => on_tw (TimingWheel.Cancel v) | None => panic "nil task" end.

Definition restart_C (r : nat) : GoM Timed unit :=
  cancel_timer hbC r ;;;
  let! c := on_gate (get_client r) in
  let! v := tw_After (ClientHeartbeatDuration (config c)) in
  modify (set_hbC r v).
Definition restart_S (r : nat) : GoM Timed unit :=
  cancel_timer hbS r ;;;
  let! c := on_gate (get_client r) in
  let! v := tw_After (ServerHeartbeatDuration (config c)) in
  modify (set_hbS r v).

(** ** The goroutines *)

Section goroutines.
Context `{BlockCipher}.

(** One round of [runRead]; false at [STOP], which cancels the timer. *)
Definition timed_round (r : nat) (ev : read_event) : GoM Timed bool :=
  match ev with
  | ReadHeartbeat =>
      let! running := on_gate (IsRunning r) in
      if negb running then ret false
      else
        let! c := on_gate (get_client r) in
        let lost := int64 (hbLost c + 1) in
        on_gate (upd_client r (with_hbLost lost)) ;;;
        (if HeartbeatLostLimit (config c) <? lost then on_gate (Exit r) else ret tt) ;;;
        restart_C r ;;;
        let! _ := on_gate (client_EnqueueMessage r (Some heartbeat)) in
        ret true
  | ReadMessage m =>
      let! c := on_gate (get_client r) in
      if bool_decide (info_ID (info c) = "") then on_gate (Exit r) ;;; ret true
      else
        on_gate (upd_client r (with_hbLost 0)) ;;;
        restart_C r ;;;
        on_gate (if bool_decide (Action m = ActionHello) then handleHello r m else client_handler r m) ;;;
        ret true
  | _ => on_gate (runRead r ev)
  end.

(** The deferred [recover]: it exits the client and leaves the timer. *)
Definition timed_read (r : nat) (ev : read_event) : GoM Timed bool := fun x =>
  match timed_round r ev x with
  | (Panics _, x') => (on_gate (Exit r) ;;; ret false) x'
  | (Val true, x') => (Val true, x')
  | (Val false, x') => (cancel_timer hbC r ;;; ret false) x'
  end.

(** One round of [runWrite]. *)
Definition timed_write_round (r : nat) (ev : write_event) : GoM Timed bool :=
  match ev with
  | WriteClose => ret false
  | WriteHeartbeat =>
      let! running := on_gate (IsRunning r) in
      if negb running then ret false
      else
        let! _ := on_gate (client_EnqueueMessage r (Some heartbeat)) in
        restart_S r ;;;
        ret true
  | WriteMessage ok =>
      let! c := on_gate (get_client r) in
      match messages c with
      | Some _ :: _ => let! go := on_gate (runWrite r ev) in restart_S r ;;; ret go
      | _ => on_gate (runWrite r ev)
      end
  end.

Definition timed_write (r : nat) (ev : write_event) : GoM Timed bool := fun x =>
  match timed_write_round r ev x with
  | (Panics _, x') => (on_gate (Exit r) ;;; ret false) x'
  | (Val true, x') => (Val true, x')
  | (Val false, x') => (cancel_timer hbS r ;;; ret false) x'
  end.

(** ** Ticks *)

(** The clients whose goroutine waits on the task. *)
Definition waiting (timers : gmap nat nat) (v : nat) : list nat :=
  (filter (fun p : nat * nat => p.2 = v) (map_to_list timers)).*1.

(** The goroutines that the signal of a task wakes: the read loops of [busyC] and the write loops of [busyS] are busy and do not take it. *)
Definition wake (busyC busyS : list nat) (e : event) : GoM Timed unit :=
  match e with
  | Signalled v =>
      let! readers := gets (fun x => filter (fun r => r ∉ busyC) (waiting (hbC x) v)) in
      let! writers := gets (fun x => filter (fun r => r ∉ busyS) (waiting (hbS x) v)) in
      foreach readers (fun r => let! _ := timed_read r ReadHeartbeat in ret tt) ;;;
      foreach writers (fun r => let! _ := timed_write r WriteHeartbeat in ret tt)
  | Callback_called _ => ret tt
  end.

Definition timed_tick (busyC busyS : list nat) : GoM Timed unit :=
  let! before := gets (fun x => length (trace (tw x))) in
  on_tw tick_round ;;;
  let! after := gets (fun x => trace (tw x)) in
  foreach (drop before after) (wake busyC busyS).

(** The busy clients whose read timer a tick fires: the signal is lost. *)
Definition signals (x : Timed) : list event := drop (length (trace (tw x))) (trace (tick_round (tw x)).2).
Definition loses_signal (x : Timed) (r : nat) : bool :=
  match hbC x !! r with Some v => bool_decide (Signalled v ∈ signals x) | None => false end.
Definition lost_signals (busyC : list nat) (x : Timed) : gset nat := list_to_set (List.filter (loses_signal x) busyC).

(** [HandleConnection], with the timers [NewClientWithConfig] makes. *)
Definition timed_connect (r : nat) (addr : string) (bytes : list Z) : GoM Timed ID :=
  let! vC := tw_After (30 * second) in
  modify (set_hbC r vC) ;;;
  let! vS := tw_After (30 * second) in
  modify (set_hbS r vS) ;;;
  on_gate (HandleConnection r addr bytes).
End goroutines.

(** ** Durations the wheel can hold *)

Definition B : Z := Z.of_nat slots_count.

Lemma B_ok : 2 <= B.
Proof. by vm_compute. Qed.
Lemma wheels_ok : (1 <= wheels_count)%nat.
Proof. unfold wheels_count. lia. Qed.

Definition longest : Z := Eval vm_compute in maxTimeout gate_tw.

(** Half a second at least, and not past the last wheel: 19 times 400 ticks. *)
Definition duration_ok (d : Z) : Prop := 1 <= tick_offset d tick_length <= 7600 /\ d < longest.
Definition offset_of (d : Z) : Z := tick_offset d tick_length.

Lemma fits_offset u o : o <= 7600 -> fits B wheels_count u o.
Proof.
  intros Ho. unfold fits, B, wheels_count, slots_count. change (Z.of_nat 20 ^ Z.of_nat (3 - 1)) with 400.
  change (Z.of_nat 20 - 1) with 19.
  assert (H1 : (u + o) / 400 <= (u + 19 * 400) / 400) by (apply Z.div_le_mono; lia).
  rewrite Z.div_add in H1 by lia. lia.
Qed.

Lemma half_minute_ok : duration_ok (30 * second).
Proof. by vm_compute. Qed.

(** ** The wheel behind the timers *)

(** The wheel of [x] is the table of deadlines [a], which has the timers of [x] and no task to come. *)
Record on_wheel (x : Timed) (a : timers) : Prop := {
  ow_rep : wheel_rep B wheels_count a (tw x);
  ow_period : period a = tick_length;
  ow_limit : limit a = longest;
  ow_clock : 0 <= clock a;
  ow_fresh : forall v, is_Some (callbacks a !! v) -> (v < fresh x)%nat;
  ow_plain : forall v, callbacks a !! v <> Some true;
  ow_tasks : forall r v, hbC x !! r = Some v \/ hbS x !! r = Some v -> is_Some (callbacks a !! v) }.

Lemma on_wheel_gate x a w :
  on_wheel x a -> on_wheel (MkTimed w (tw x) (hbC x) (hbS x) (fresh x)) a.
Proof. intros []. by split. Qed.

Lemma on_wheel_hbC r v x a : on_wheel x a -> is_Some (callbacks a !! v) -> on_wheel (set_hbC r v x) a.
Proof.
  intros [? ? ? ? ? ? Htk] Hv. split; try done. cbn [set_hbC hbC hbS].
  intros r' v' [[[<- <-] | [_ Hv']]%lookup_insert_Some | Hv']; [done | by eapply Htk; left | by eapply Htk; right].
Qed.
Lemma on_wheel_hbS r v x a : on_wheel x a -> is_Some (callbacks a !! v) -> on_wheel (set_hbS r v x) a.
Proof.
  intros [? ? ? ? ? ? Htk] Hv. split; try done. cbn [set_hbS hbC hbS].
  intros r' v' [Hv' | [[<- <-] | [_ Hv']]%lookup_insert_Some]; [by eapply Htk; left | done | by eapply Htk; right].
Qed.

(** A timer is not the next task. *)
Lemma timer_not_fresh x a r v : on_wheel x a -> hbC x !! r = Some v \/ hbS x !! r = Some v -> v <> fresh x.
Proof. intros Hw Hv. pose proof (ow_fresh _ _ Hw v (ow_tasks _ _ Hw _ _ Hv)). lia. Qed.

Lemma After_returns v t d st r st' : After v t d st = (Val r, st') -> r = v.
Proof.
  unfold After, bind, get. destruct (decide _); [done |]. cbn.
  match goal with |- context [wheel_put2 ?k v ?s0] => destruct (wheel_put2 k v s0) as [[u | why] s1] end; [| done].
  by intros [= <- _].
Qed.

Lemma tw_After_run d x a :
  on_wheel x a -> duration_ok d ->
  exists s', tw_After d x = (Val (fresh x), MkTimed (gw x) s' (hbC x) (hbS x) (S (fresh x))) /\
    on_wheel (MkTimed (gw x) s' (hbC x) (hbS x) (S (fresh x))) (timer_next a (OpAfter (fresh x) 0 d)).
Proof.
  intros [Hrep Hper Hlim Hclk Hfresh Hplain Htasks] [Hoff Hmax].
  set (t := now (gw x) * 1000000).
  assert (Hnew : callbacks a !! fresh x = None).
  { destruct (callbacks a !! fresh x) eqn:E; [| done]. specialize (Hfresh (fresh x) ltac:(eauto)). lia. }
  destruct (step_refines B wheels_count a (tw x) (OpAfter (fresh x) t d)) as (s' & evs & Hrun & _ & _ & Hrep').
  { apply B_ok. }
  { apply wheels_ok. }
  { done. }
  { unfold TimingWheelSpec.op_ok. rewrite Hper, Hlim. destruct Hoff. repeat split; [exact Hnew | exact Hclk | exact Hmax | assumption | by apply fits_offset]. }
  assert (Haft : After (fresh x) t d (tw x) = (Val (fresh x), s')).
  { cbn [run_op] in Hrun. apply bind_Val_inv in Hrun as (r & s1 & Hr & [= <-]). by rewrite (After_returns _ _ _ _ _ _ Hr) in Hr. }
  exists s'. split.
  - unfold tw_After. unfold bind at 1, gets. unfold bind at 1, modify. unfold bind at 1. cbn [set_fresh gw].
    unfold on_tw, zoom. cbn [tw set_fresh gw hbC hbS fresh]. fold t. by rewrite Haft.
  - split; cbn [tw timer_next period limit clock callbacks hbC hbS fresh]; try done.
    + intros v. destruct (decide (v = fresh x)) as [-> | Hne]; [lia |]. rewrite lookup_insert_ne by done.
      intros Hv. specialize (Hfresh v Hv). lia.
    + intros v. destruct (decide (v = fresh x)) as [-> | Hne]; [by rewrite lookup_insert_eq | by rewrite lookup_insert_ne].
    + intros r v Hv. destruct (decide (v = fresh x)) as [-> | Hne]; [rewrite lookup_insert_eq; eauto |].
      rewrite lookup_insert_ne by done. by eapply Htasks.
Qed.

Lemma cancel_timer_run timers_of r v x a :
  on_wheel x a -> timers_of x !! r = Some v -> is_Some (callbacks a !! v) ->
  exists s', cancel_timer timers_of r x = (Val tt, MkTimed (gw x) s' (hbC x) (hbS x) (fresh x)) /\
    on_wheel (MkTimed (gw x) s' (hbC x) (hbS x) (fresh x)) (timer_next a (OpCancel v)).
Proof.
  intros [Hrep Hper Hlim Hclk Hfresh Hplain Htasks] Hr Hv.
  destruct (step_refines B wheels_count a (tw x) (OpCancel v)) as (s' & evs & Hrun & _ & _ & Hrep').
  { apply B_ok. }
  { apply wheels_ok. }
  { done. }
  { done. }
  exists s'. split; [| by split].
  unfold cancel_timer. unfold bind at 1, gets. rewrite Hr. unfold on_tw, zoom. cbn [run_op] in Hrun. by rewrite Hrun.
Qed.

(** ** The clients and their timers *)

(** An operation of the gateway that neither brings a client back nor touches its count of lost
    heartbeats; [s] are clients about which nothing is said. *)
Definition quiet_but (s : gset nat) (w w' : World) : Prop :=
  dom (heap w') = dom (heap w) /\
  forall r c', r ∉ s -> heap w' !! r = Some c' -> state c' = stateRunning ->
    exists c, heap w !! r = Some c /\ state c = stateRunning /\ hbLost c' = hbLost c.

Lemma quiet_kept {X} s (m : GoM World X) w :
  (forall r P, r ∉ s -> preserves (at_client (dom (heap w)) r (fun c => state c = stateRunning -> P (hbLost c))) m) ->
  quiet_but s w (m w).2.
Proof.
  intros Hm. split.
  - destruct (exist_fresh s) as [r0 Hr0]. by destruct (Hm r0 (fun _ => True) Hr0 w).
  - intros r c' Hr Hc' Hs. set (P := fun l => exists c, heap w !! r = Some c /\ state c = stateRunning /\ l = hbLost c).
    destruct (Hm r P Hr w) as [_ H]; [| exact (H c' Hc' Hs)]. split; [done |]. intros c Hc Hrun. by exists c.
Qed.

(** Every operation that exits, queues, renames or writes is one. *)
Lemma running_framed d r P : framed (at_client d r (fun c => state c = stateRunning -> P (hbLost c))).
Proof. apply at_client_framed, stable_running. Qed.
Lemma config_framed d r (B : ClientConfig -> Prop) : framed (at_client d r (fun c => B (config c))).
Proof. apply at_client_framed, stable_config. Qed.
#[local] Hint Resolve running_framed config_framed : core.

Section links.
(** What is known of the deadline of a client, from its count of lost heartbeats. *)
Context (bound : nat -> Z -> Z -> Prop).

(** Every running client but those of [s] waits for a pending task, or for one of the tasks [F] that fire at this tick. *)
Record armed (s : gset nat) (F : list nat) (x : Timed) (a : timers) : Prop := {
  ar_gate : gate_inv (gw x);
  ar_wheel : on_wheel x a;
  ar_domC : dom (hbC x) = dom (heap (gw x));
  ar_domS : dom (hbS x) = dom (heap (gw x));
  ar_one : forall r r' v, hbC x !! r = Some v -> hbC x !! r' = Some v -> r = r';
  ar_apart : forall r r' v, hbC x !! r = Some v -> hbS x !! r' = Some v -> False;
  ar_live : forall r c, r ∉ s -> heap (gw x) !! r = Some c -> state c = stateRunning ->
    exists v D, hbC x !! r = Some v /\ (due a !! v = Some D \/ (v ∈ F /\ D = clock a)) /\ bound r (hbLost c) D }.

Definition with_gw (w : World) (x : Timed) : Timed := MkTimed w (tw x) (hbC x) (hbS x) (fresh x).

Lemma armed_gate s F x a w :
  armed s F x a -> gate_inv w -> quiet_but s (gw x) w -> armed s F (with_gw w x) a.
Proof.
  intros [Hg Hw Hdc Hds Hone Hap Hlive] Hi [Hd Hq]. split; cbn [with_gw gw hbC hbS]; try done.
  - by apply on_wheel_gate.
  - congruence.
  - congruence.
  - intros r c' Hr Hc' Hs. destruct (Hq r c' Hr Hc' Hs) as (c & Hc & Hrun & ->). by apply (Hlive r c).
Qed.

Lemma armed_skip s s' F x a : s ⊆ s' -> armed s F x a -> armed s' F x a.
Proof. intros Hsub [Hg Hw Hdc Hds Hone Hap Hlive]. split; try done. intros r c Hr. apply Hlive. set_solver. Qed.

Lemma timer_of s F x a r c :
  armed s F x a -> heap (gw x) !! r = Some c ->
  (exists v, hbC x !! r = Some v /\ is_Some (callbacks a !! v)) /\ (exists v, hbS x !! r = Some v /\ is_Some (callbacks a !! v)).
Proof.
  intros Ha Hr. assert (Hin : r ∈ dom (heap (gw x))) by (apply elem_of_dom; eauto).
  rewrite <- (ar_domC _ _ _ _ Ha) in Hin at 1. apply elem_of_dom in Hin as [v Hv].
  assert (Hin : r ∈ dom (heap (gw x))) by (apply elem_of_dom; eauto).
  rewrite <- (ar_domS _ _ _ _ Ha) in Hin. apply elem_of_dom in Hin as [v' Hv'].
  pose proof (ow_tasks _ _ (ar_wheel _ _ _ _ Ha)) as Ht. split; [exists v | exists v']; eauto.
Qed.

(** The rest of a state whose wheel changed, where only the tasks in [gone] are no longer pending. *)
Lemma armed_tw s F x a s' a' :
  armed s F x a -> on_wheel (MkTimed (gw x) s' (hbC x) (hbS x) (fresh x)) a' -> clock a' = clock a ->
  (forall r c v, r ∉ s -> heap (gw x) !! r = Some c -> state c = stateRunning -> hbC x !! r = Some v ->
    due a' !! v = due a !! v) ->
  armed s F (MkTimed (gw x) s' (hbC x) (hbS x) (fresh x)) a'.
Proof.
  intros [Hg Hw Hdc Hds Hone Hap Hlive] Hw' Hclk Hdue. split; try done. cbn [gw hbC].
  intros r c Hr Hc Hs. destruct (Hlive r c Hr Hc Hs) as (v & D & Hv & HD & Hb). exists v, D.
  rewrite (Hdue r c v Hr Hc Hs Hv), Hclk. done.
Qed.

(** Cancelling the read timer of a client that does not run, or of the one left out. *)
Lemma cancel_C_run s F x a r c :
  armed s F x a -> heap (gw x) !! r = Some c -> state c <> stateRunning \/ r ∈ s ->
  exists s' v a', hbC x !! r = Some v /\ cancel_timer hbC r x = (Val tt, MkTimed (gw x) s' (hbC x) (hbS x) (fresh x)) /\
    armed s F (MkTimed (gw x) s' (hbC x) (hbS x) (fresh x)) a' /\ clock a' = clock a.
Proof.
  intros Ha Hr Hs. destruct (timer_of _ _ _ _ _ _ Ha Hr) as ((v & Hv & Hcb) & _).
  destruct (cancel_timer_run hbC r v x a (ar_wheel _ _ _ _ Ha) Hv Hcb) as (s' & Hrun & Hw).
  exists s', v, (timer_next a (OpCancel v)). split; [done |]. split; [done |]. split; [| done].
  apply (armed_tw s F x a); [done | done | done |]. intros r' c' v' Hne Hc' Hs' Hv'. cbn [due timer_next].
  rewrite lookup_delete_ne; [done |]. intros ->. assert (r = r') as -> by by eapply (ar_one _ _ _ _ Ha).
  destruct Hs as [Hs | Hs]; [congruence | done].
Qed.

Lemma cancel_S_run s F x a r c :
  armed s F x a -> heap (gw x) !! r = Some c ->
  exists s' v a', hbS x !! r = Some v /\ cancel_timer hbS r x = (Val tt, MkTimed (gw x) s' (hbC x) (hbS x) (fresh x)) /\
    armed s F (MkTimed (gw x) s' (hbC x) (hbS x) (fresh x)) a' /\ clock a' = clock a.
Proof.
  intros Ha Hr. destruct (timer_of _ _ _ _ _ _ Ha Hr) as (_ & v & Hv & Hcb).
  destruct (cancel_timer_run hbS r v x a (ar_wheel _ _ _ _ Ha) Hv Hcb) as (s' & Hrun & Hw).
  exists s', v, (timer_next a (OpCancel v)). split; [done |]. split; [done |]. split; [| done].
  apply (armed_tw s F x a); [done | done | done |]. intros r' c' v' Hne Hc' Hs' Hv'. cbn [due timer_next].
  rewrite lookup_delete_ne; [done |]. intros ->. by eapply (ar_apart _ _ _ _ Ha).
Qed.

Lemma on_gate_get_client r c x : heap (gw x) !! r = Some c -> on_gate (get_client r) x = (Val c, x).
Proof. intros Hr. unfold on_gate, zoom, get_client. rewrite Hr. by destruct x. Qed.

(** Restarting the read timer of a client left out: it need not be left out any longer. *)
Lemma restart_C_run s s0 F F' x a r c :
  armed s F x a -> r ∈ s -> s ⊆ {[r]} ∪ s0 ->
  heap (gw x) !! r = Some c -> duration_ok (ClientHeartbeatDuration (config c)) ->
  (state c = stateRunning -> r ∉ s0 -> bound r (hbLost c) (clock a + offset_of (ClientHeartbeatDuration (config c)))) ->
  (forall v, v ∈ F -> hbC x !! r = Some v \/ v ∈ F') ->
  exists x' a', restart_C r x = (Val tt, x') /\ gw x' = gw x /\ armed s0 F' x' a' /\ clock a' = clock a /\
    forall r', r' <> r -> hbC x' !! r' = hbC x !! r'.
Proof.
  intros Ha Hrs Hsub Hr Hd Hb HF. set (d := ClientHeartbeatDuration (config c)) in *.
  destruct (cancel_C_run s F x a r c Ha Hr (or_intror Hrs)) as (s1 & v & a1 & Hv & Hc1 & Ha1 & Hclk1).
  set (x1 := MkTimed (gw x) s1 (hbC x) (hbS x) (fresh x)) in *.
  destruct (tw_After_run d x1 a1 (ar_wheel _ _ _ _ Ha1) Hd) as (s2 & Hc2 & Hw2).
  set (x2 := MkTimed (gw x1) s2 (hbC x1) (hbS x1) (S (fresh x1))) in *.
  set (a2 := timer_next a1 (OpAfter (fresh x1) 0 d)) in *.
  assert (Hnew : forall r' v', hbC x !! r' = Some v' \/ hbS x !! r' = Some v' -> v' <> fresh x).
  { intros r' v'. apply (timer_not_fresh x a), (ar_wheel _ _ _ _ Ha). }
  assert (Hdue : forall v', v' <> fresh x -> due a2 !! v' = due a1 !! v') by (intros; by apply lookup_insert_ne).
  exists (set_hbC r (fresh x) x2), a2. split; [| split; [done |]].
  { unfold restart_C. rewrite (bind_Val _ _ _ _ _ Hc1), (bind_Val _ _ _ _ _ (on_gate_get_client r c x1 Hr)).
    fold d. by rewrite (bind_Val _ _ _ _ _ Hc2). }
  split; [| split; [exact Hclk1 | intros r' Hne; by apply lookup_insert_ne]]. destruct Ha as [Hg Hw Hdc Hds Hone Hap Hlive].
  split; cbn [set_hbC gw hbC hbS x2 x1]; try done.
  - apply on_wheel_hbC; [exact Hw2 |]. unfold a2. cbn [callbacks timer_next x1 fresh]. rewrite lookup_insert_eq. eauto.
  - rewrite dom_insert_L, Hdc. apply subseteq_union_1_L, singleton_subseteq_l, elem_of_dom. eauto.
  - intros r1 r2 v' [[<- <-] | [Hn1 H1]]%lookup_insert_Some [[<- E] | [Hn2 H2]]%lookup_insert_Some; try done.
    + by destruct (Hnew _ _ (or_introl H2)).
    + subst v'. by destruct (Hnew _ _ (or_introl H1)).
    + by eapply Hone.
  - intros r1 r2 v' [[<- <-] | [Hn1 H1]]%lookup_insert_Some H2; [by destruct (Hnew _ _ (or_intror H2)) | by eapply Hap].
  - intros r' c' Hr0 Hc' Hs'. destruct (decide (r' = r)) as [-> | Hne].
    + rewrite Hr in Hc'. injection Hc' as <-. exists (fresh x), (clock a + offset_of d).
      rewrite lookup_insert_eq. split; [done |]. split; [left | by apply Hb].
      unfold a2. cbn [due timer_next]. rewrite lookup_insert_eq, Hclk1.
      by rewrite (ow_period _ _ (ar_wheel _ _ _ _ Ha1)).
    + destruct (ar_live _ _ _ _ Ha1 r' c') as (v' & D & Hv' & HD & Hbd); [set_solver | done | done |].
      cbn [x1 hbC] in Hv'. exists v', D. rewrite lookup_insert_ne by done. split; [done |]. split; [| done].
      rewrite Hdue by (by eapply Hnew; left).
      destruct HD as [HD | [Hin HD]]; [by left | right]. split; [| by rewrite HD].
      destruct (HF v' Hin) as [E |]; [| done]. destruct Hne. by apply (Hone r' r v').
Qed.

Lemma restart_S_run s F x a r c :
  armed s F x a -> heap (gw x) !! r = Some c -> duration_ok (ServerHeartbeatDuration (config c)) ->
  exists x' a', restart_S r x = (Val tt, x') /\ gw x' = gw x /\ hbC x' = hbC x /\ armed s F x' a' /\ clock a' = clock a.
Proof.
  intros Ha Hr Hd. set (d := ServerHeartbeatDuration (config c)) in *.
  destruct (cancel_S_run s F x a r c Ha Hr) as (s1 & v & a1 & Hv & Hc1 & Ha1 & Hclk1).
  set (x1 := MkTimed (gw x) s1 (hbC x) (hbS x) (fresh x)) in *.
  destruct (tw_After_run d x1 a1 (ar_wheel _ _ _ _ Ha1) Hd) as (s2 & Hc2 & Hw2).
  set (x2 := MkTimed (gw x1) s2 (hbC x1) (hbS x1) (S (fresh x1))) in *.
  set (a2 := timer_next a1 (OpAfter (fresh x1) 0 d)) in *.
  assert (Hnew : forall r' v', hbC x !! r' = Some v' \/ hbS x !! r' = Some v' -> v' <> fresh x).
  { intros r' v'. apply (timer_not_fresh x a), (ar_wheel _ _ _ _ Ha). }
  exists (set_hbS r (fresh x) x2), a2. split; [| split; [done | split; [done |]]].
  { unfold restart_S. rewrite (bind_Val _ _ _ _ _ Hc1), (bind_Val _ _ _ _ _ (on_gate_get_client r c x1 Hr)).
    fold d. by rewrite (bind_Val _ _ _ _ _ Hc2). }
  split; [| exact Hclk1]. destruct Ha as [Hg Hw Hdc Hds Hone Hap Hlive].
  split; cbn [set_hbS gw hbC hbS x2 x1]; try done.
  - apply on_wheel_hbS; [exact Hw2 |]. unfold a2. cbn [callbacks timer_next x1 fresh]. rewrite lookup_insert_eq. eauto.
  - rewrite dom_insert_L, Hds. apply subseteq_union_1_L, singleton_subseteq_l, elem_of_dom. eauto.
  - intros r1 r2 v' H1 [[<- <-] | [_ H2]]%lookup_insert_Some; [by destruct (Hnew _ _ (or_introl H1)) | by eapply Hap].
  - intros r' c' Hne Hc' Hs'. destruct (ar_live _ _ _ _ Ha1 r' c' Hne Hc' Hs') as (v' & D & Hv' & HD & Hbd).
    exists v', D. split; [done |]. split; [| done]. unfold a2. cbn [due timer_next].
    rewrite lookup_insert_ne; [done |]. intros E. by apply (Hnew r' v'); [left |].
Qed.

(** ** The goroutines keep the timers armed *)

Lemma on_gate_run {X} (m : GoM World X) x y w : m (gw x) = (y, w) -> on_gate m x = (y, with_gw w x).
Proof. intros E. unfold on_gate, zoom. by rewrite E. Qed.

Lemma enqueue_returns r c m w :
  gate_inv w -> heap w !! r = Some c -> exists e w', client_EnqueueMessage r m w = (Val e, w').
Proof.
  intros Hi Hr. destruct (state c) eqn:Hs.
  3: { do 2 eexists. by apply (client_EnqueueMessage_closed r m c). }
  all: do 2 eexists; apply (client_EnqueueMessage_run r m c);
    [done | congruence | apply not_closed_open; [exact (gi_clients _ Hi _ _ Hr) | congruence]].
Qed.

Context `{BlockCipher}.

(** What each client's configuration is known to be. *)
Context (conf : nat -> ClientConfig -> Prop).
Context (Hconf : forall r k, conf r k -> duration_ok (ClientHeartbeatDuration k) /\ duration_ok (ServerHeartbeatDuration k)).
(** A heartbeat at the time [D] or before leaves the client with a deadline in its bound. *)
Context (Hbeat : forall r k l t D, conf r k -> bound r l D -> t <= D -> int64 (l + 1) <= HeartbeatLostLimit k ->
  bound r (int64 (l + 1)) (t + offset_of (ClientHeartbeatDuration k))).

Definition confs (w : World) : Prop := forall r c, heap w !! r = Some c -> conf r (config c).

Lemma confs_kept {X} (m : GoM World X) w :
  (forall r, preserves (at_client (dom (heap w)) r (fun c => conf r (config c))) m) -> confs w -> confs (m w).2.
Proof. intros Hm Hw r c Hc. destruct (Hm r w) as [_ Hk]; [split; [done | apply Hw] | exact (Hk c Hc)]. Qed.

Lemma deadline_ahead s F x a v D : armed s F x a -> due a !! v = Some D -> clock a < D.
Proof. intros Ha HD. destruct (ow_rep _ _ (ar_wheel _ _ _ _ Ha)) as (Hst & _). by eapply (steady_after B wheels_count B_ok wheels_ok). Qed.

(** An operation of the gateway, on the whole state. *)
Lemma armed_run {X} s F x a (m : GoM World X) :
  armed s F x a -> preserves gate_inv m ->
  (forall d r P, r ∉ s -> preserves (at_client d r (fun c => state c = stateRunning -> P (hbLost c))) m) ->
  armed s F (with_gw (m (gw x)).2 x) a.
Proof.
  intros Ha Hi Hk. apply armed_gate; [done | by apply Hi, (ar_gate _ _ _ _ Ha) |].
  apply quiet_kept. intros r P Hr. by apply Hk.
Qed.

(** A fired task whose goroutine's client has gone is nobody's. *)
Lemma armed_gone s F F' x a r c :
  armed s F x a -> heap (gw x) !! r = Some c -> state c <> stateRunning ->
  (forall v, v ∈ F -> hbC x !! r = Some v \/ v ∈ F') -> armed s F' x a.
Proof.
  intros [Hg Hw Hdc Hds Hone Hap Hlive] Hr Hs HF. split; try done. intros r' c' Hn Hc' Hs'.
  destruct (Hlive r' c' Hn Hc' Hs') as (v & D & Hv & HD & Hb). exists v, D. split; [done |]. split; [| done].
  destruct HD as [HD | [Hin HD]]; [by left | right]. split; [| done]. destruct (HF v Hin) as [Hv' |]; [| done].
  assert (r = r') as -> by by eapply Hone. congruence.
Qed.

Lemma Exit_result r c w :
  gate_inv w -> heap w !! r = Some c ->
  exists c' w', Exit r w = (Val tt, w') /\ heap w' !! r = Some c' /\ state c' = stateClosed /\ config c' = config c.
Proof.
  intros Hi Hr. destruct (state c) eqn:Hs.
  3: { exists c, w. split; [| done]. by apply (Exit_closed_run r c). }
  all: exists (exited c), (leave (route (gate_id w) (info_ID (info c))) r c w);
    (split; [rewrite Exit_cases, Hr by done; by rewrite Hs |]);
    (split; [apply lookup_insert_eq | unfold exited; by destruct (CloseImmediately _)]).
Qed.

(** The count of lost heartbeats, and the exit when there are too many. *)
Definition count_beat (r : nat) (c : UserClient) : GoM Timed unit :=
  on_gate (upd_client r (with_hbLost (int64 (hbLost c + 1)))) ;;;
  (if HeartbeatLostLimit (config c) <? int64 (hbLost c + 1) then on_gate (Exit r) else ret tt).

Lemma count_beat_run s F x a r c :
  armed s F x a -> confs (gw x) -> heap (gw x) !! r = Some c -> state c = stateRunning ->
  exists x1 c1, count_beat r c x = (Val tt, x1) /\ armed ({[r]} ∪ s) F x1 a /\ confs (gw x1) /\
    heap (gw x1) !! r = Some c1 /\ config c1 = config c /\ hbC x1 = hbC x /\
    (state c1 = stateRunning -> hbLost c1 = int64 (hbLost c + 1) /\ int64 (hbLost c + 1) <= HeartbeatLostLimit (config c)).
Proof.
  intros Ha Hc Hr Hs. set (lost := int64 (hbLost c + 1)).
  assert (Hother : forall d r' P, r' ∉ {[r]} ∪ s ->
    preserves (at_client d r' (fun c => state c = stateRunning -> P (hbLost c))) (upd_client r (with_hbLost lost))).
  { intros d r' P Hne. apply kept_upd_client. set_solver. }
  pose proof (armed_run ({[r]} ∪ s) F x a _ (armed_skip s ({[r]} ∪ s) F x a ltac:(set_solver) Ha) (preserves_hbLost r lost) Hother) as Ha1.
  assert (Hc1 : confs (upd_client r (with_hbLost lost) (gw x)).2).
  { apply confs_kept; [| done]. intros r'. by apply kept_upd_client. }
  set (c1 := with_hbLost lost c). set (w1 := set_heap (<[r := c1]> (heap (gw x))) (gw x)).
  assert (E1 : upd_client r (with_hbLost lost) (gw x) = (Val tt, w1)) by (by apply upd_client_run).
  rewrite E1 in Ha1, Hc1. cbn [snd] in Ha1, Hc1.
  assert (Hr1 : heap w1 !! r = Some c1) by apply lookup_insert_eq.
  unfold count_beat. fold lost. rewrite (bind_Val _ _ _ _ _ (on_gate_run _ _ _ _ E1)).
  destruct (Z.ltb_spec (HeartbeatLostLimit (config c)) lost) as [Hlt | Hge].
  2: { exists (with_gw w1 x), c1. by split_and!. }
  pose proof (armed_run ({[r]} ∪ s) F (with_gw w1 x) a (Exit r) Ha1 (preserves_Exit r)
    (fun d r' P _ => frame_Exit _ (running_framed d r' P) r)) as Ha2.
  assert (Hc2 : confs (Exit r w1).2).
  { apply confs_kept; [| done]. intros r'. by apply frame_Exit. }
  destruct (Exit_result r c1 w1 (ar_gate _ _ _ _ Ha1) Hr1) as (c2 & w2 & E2 & Hr2 & Hs2 & Hk2).
  cbn [with_gw gw] in Ha2. rewrite E2 in Ha2, Hc2. cbn [snd] in Ha2, Hc2. exists (with_gw w2 x), c2.
  split; [exact (on_gate_run _ (with_gw w1 x) _ _ E2) |]. split_and!; try done. congruence.
Qed.

Lemma IsRunning_on_gate r c x :
  heap (gw x) !! r = Some c -> on_gate (IsRunning r) x = (Val (if state c is stateRunning then true else false), x).
Proof. intros Hr. rewrite (on_gate_run _ _ _ _ (IsRunning_run r c (gw x) Hr)). by destruct x. Qed.

Lemma armed_enqueue s F x a r m :
  armed s F x a -> armed s F (with_gw (client_EnqueueMessage r m (gw x)).2 x) a.
Proof.
  intros Ha. apply armed_run; [done | apply preserves_client_EnqueueMessage |].
  intros d r' P _. by apply frame_client_EnqueueMessage.
Qed.
Lemma confs_enqueue w r m : confs w -> confs (client_EnqueueMessage r m w).2.
Proof. apply confs_kept. intros r'. by apply frame_client_EnqueueMessage. Qed.

(** A heartbeat counts, and starts the next one; nothing else waits for its task then. *)
Lemma heartbeat_run s F F' x a r c :
  armed s F x a -> confs (gw x) -> heap (gw x) !! r = Some c ->
  (forall v, v ∈ F -> hbC x !! r = Some v \/ v ∈ F') ->
  exists b x' a', timed_read r ReadHeartbeat x = (Val b, x') /\ armed s F' x' a' /\ confs (gw x') /\ clock a' = clock a /\
    dom (heap (gw x')) = dom (heap (gw x)) /\ forall r', r' <> r -> hbC x' !! r' = hbC x !! r'.
Proof.
  intros Ha Hc Hr HF. unfold timed_read, timed_round. rewrite (bind_Val _ _ _ _ _ (IsRunning_on_gate r c x Hr)).
  assert (Hs : state c = stateRunning \/ state c <> stateRunning) by (destruct (state c); auto). destruct Hs as [Hs | Hs].
  2: { assert (Hb : (if state c is stateRunning then true else false) = false) by (by destruct (state c)). rewrite Hb.
       destruct (cancel_C_run s F x a r c Ha Hr (or_introl Hs)) as (s' & v & a' & Hv & Hrun & Ha' & Hclk).
       cbn [negb ret]. rewrite (bind_Val _ _ _ _ _ Hrun). eexists _, _, a'. split; [done |].
       split; [by apply (armed_gone s F F' _ a' r c) | done]. }
  rewrite Hs. cbn [negb]. rewrite (bind_Val _ _ _ _ _ (on_gate_get_client r c x Hr)).
  destruct (count_beat_run s F x a r c Ha Hc Hr Hs) as (x1 & c1 & E1 & Ha1 & Hc1 & Hr1 & Hk1 & Hh1 & Hl1).
  unfold count_beat in E1. apply bind_Val_inv in E1 as (u & x0 & E0 & E1).
  rewrite (bind_Val _ _ _ _ _ E0), (bind_Val _ _ _ _ _ E1).
  assert (Hck : conf r (config c)) by by apply Hc.
  destruct (restart_C_run ({[r]} ∪ s) s F F' x1 a r c1 Ha1 ltac:(set_solver) ltac:(set_solver) Hr1) as (x2 & a2 & E2 & Hg2 & Ha2 & Hclk2 & Hoth2).
  { rewrite Hk1. by apply (Hconf r). }
  { intros Hs1 Hin. destruct (Hl1 Hs1) as [-> Hle]. rewrite Hk1.
    destruct (ar_live _ _ _ _ Ha r c Hin Hr Hs) as (v & D & _ & HD & Hb).
    apply (Hbeat r (config c) (hbLost c) (clock a) D); try done.
    destruct HD as [HD | [_ ->]]; [| done]. pose proof (deadline_ahead _ _ _ _ _ _ Ha HD). lia. }
  { intros v Hv. rewrite Hh1. by apply HF. }
  rewrite (bind_Val _ _ _ _ _ E2).
  destruct (enqueue_returns r c1 (Some heartbeat) (gw x2)) as (e & w3 & E3); [apply (ar_gate _ _ _ _ Ha2) | by rewrite Hg2 |].
  pose proof (armed_enqueue s F' x2 a2 r (Some heartbeat) Ha2) as Ha3. rewrite E3 in Ha3.
  rewrite (bind_Val _ _ _ _ _ (on_gate_run _ _ _ _ E3)).
  assert (Hd : dom (heap w3) = dom (heap (gw x))).
  { transitivity (dom (hbC x2)); [symmetry; exact (ar_domC _ _ _ _ Ha3) |].
    by rewrite (ar_domC _ _ _ _ Ha2), Hg2, <- (ar_domC _ _ _ _ Ha1), Hh1, (ar_domC _ _ _ _ Ha). }
  exists true, (with_gw w3 x2), a2. split; [done |]. split; [done |].
  split; [| split; [done | split; [done |]]; intros r' Hne; change (hbC x2 !! r' = hbC x !! r'); by rewrite Hoth2, Hh1].
  change (confs w3). replace w3 with (client_EnqueueMessage r (Some heartbeat) (gw x2)).2 by by rewrite E3.
  apply confs_enqueue. by rewrite Hg2.
Qed.

(** The write timer. *)
Lemma write_heartbeat_run s F x a r c :
  armed s F x a -> confs (gw x) -> heap (gw x) !! r = Some c ->
  exists b x' a', timed_write r WriteHeartbeat x = (Val b, x') /\ armed s F x' a' /\ confs (gw x') /\
    clock a' = clock a /\ hbC x' = hbC x /\ dom (heap (gw x')) = dom (heap (gw x)).
Proof.
  intros Ha Hc Hr. unfold timed_write, timed_write_round. rewrite (bind_Val _ _ _ _ _ (IsRunning_on_gate r c x Hr)).
  destruct (if state c is stateRunning then true else false); cbn [negb].
  2: { destruct (cancel_S_run s F x a r c Ha Hr) as (s' & v & a' & Hv & Hrun & Ha' & Hclk).
       cbn [ret]. rewrite (bind_Val _ _ _ _ _ Hrun). by eexists _, _, a'. }
  destruct (enqueue_returns r c (Some heartbeat) (gw x) (ar_gate _ _ _ _ Ha) Hr) as (e & w1 & E1).
  rewrite (bind_Val _ _ _ _ _ (on_gate_run _ _ _ _ E1)).
  pose proof (armed_enqueue s F x a r (Some heartbeat) Ha) as Ha1. pose proof (confs_enqueue (gw x) r (Some heartbeat) Hc) as Hc1.
  rewrite E1 in Ha1, Hc1. cbn [snd] in Ha1, Hc1.
  assert (Hd : dom (heap w1) = dom (heap (gw x))).
  { transitivity (dom (hbC x)); [symmetry; exact (ar_domC _ _ _ _ Ha1) | exact (ar_domC _ _ _ _ Ha)]. }
  assert (Hin : r ∈ dom (heap w1)) by (rewrite Hd; apply elem_of_dom; eauto). apply elem_of_dom in Hin as [c1 Hr1].
  destruct (restart_S_run s F (with_gw w1 x) a r c1 Ha1 Hr1) as (x2 & a2 & E2 & Hg2 & Hh2 & Ha2 & Hclk2).
  { by apply (Hconf r), Hc1. }
  rewrite (bind_Val _ _ _ _ _ E2). exists true, x2, a2. split; [done |]. split; [done |].
  rewrite Hg2, Hh2. by split_and!.
Qed.

(** *** The tick *)

Lemma elem_of_waiting timers v r : r ∈ waiting timers v <-> timers !! r = Some v.
Proof.
  unfold waiting. rewrite list_elem_of_fmap. split.
  - intros ([r' v'] & -> & [Hv Hin]%list_elem_of_filter). cbn in *. subst. by apply elem_of_map_to_list.
  - intros Hr. exists (r, v). split; [done |]. apply list_elem_of_filter. split; [done | by apply elem_of_map_to_list].
Qed.

Lemma waiting_NoDup timers v : NoDup (waiting timers v).
Proof.
  unfold waiting. eapply (sublist_NoDup _ ((map_to_list timers).*1)); [apply NoDup_fst_map_to_list |].
  apply fmap_sublist, sublist_filter.
Qed.

Lemma waiting_one s F x a v r : armed s F x a -> hbC x !! r = Some v -> waiting (hbC x) v = [r].
Proof.
  intros Ha Hr. pose proof (waiting_NoDup (hbC x) v) as Hnd.
  assert (Hall : forall r', r' ∈ waiting (hbC x) v -> r' = r).
  { intros r' Hr'%elem_of_waiting. by eapply (ar_one _ _ _ _ Ha). }
  assert (Hin : r ∈ waiting (hbC x) v) by by apply elem_of_waiting.
  destruct (waiting (hbC x) v) as [| r1 [| r2 l]]; [by apply not_elem_of_nil in Hin | f_equal; apply Hall; constructor |].
  apply NoDup_cons in Hnd as [Hn _]. destruct Hn. rewrite (Hall r1), (Hall r2) by (repeat constructor). constructor.
Qed.

Lemma writers_run s F ws : forall x a,
  armed s F x a -> confs (gw x) -> (forall r, r ∈ ws -> r ∈ dom (heap (gw x))) ->
  exists x' a', foreach ws (fun r => let! _ := timed_write r WriteHeartbeat in ret tt) x = (Val tt, x') /\
    armed s F x' a' /\ confs (gw x') /\ clock a' = clock a /\ hbC x' = hbC x.
Proof.
  induction ws as [| r ws IH]; intros x a Ha Hc Hin; [by exists x, a |].
  pose proof (Hin r (list_elem_of_here _ _)) as Hd. apply elem_of_dom in Hd as [c Hr].
  destruct (write_heartbeat_run s F x a r c Ha Hc Hr) as (b & x1 & a1 & E1 & Ha1 & Hc1 & Hclk1 & Hh1 & Hd1).
  destruct (IH x1 a1 Ha1 Hc1) as (x2 & a2 & E2 & Ha2 & Hc2 & Hclk2 & Hh2).
  { intros r' Hr'. rewrite Hd1. apply Hin. by constructor. }
  exists x2, a2. split; [| split_and!; [done | done | congruence | congruence]]. cbn [foreach].
  rewrite (bind_Val (let! _ := timed_write r WriteHeartbeat in ret tt) _ x tt x1); [done |]. by rewrite (bind_Val _ _ _ _ _ E1).
Qed.

(** The clients left out are those whose signal is lost. *)
Section busy.
Context (busyC busyS : list nat) (s : gset nat).
Definition left_out (F : list nat) (x : Timed) : Prop := forall r v, r ∈ busyC -> hbC x !! r = Some v -> v ∈ F -> r ∈ s.

Lemma reader_run v F x a :
  armed s (v :: F) x a -> confs (gw x) -> left_out (v :: F) x ->
  exists x1 a1, foreach (filter (fun r => r ∉ busyC) (waiting (hbC x) v)) (fun r => let! _ := timed_read r ReadHeartbeat in ret tt) x = (Val tt, x1) /\
    armed s F x1 a1 /\ confs (gw x1) /\ clock a1 = clock a /\ dom (heap (gw x1)) = dom (heap (gw x)) /\ left_out F x1.
Proof.
  intros Ha Hc Hleft.
  assert (Hskip : filter (fun r => r ∉ busyC) (waiting (hbC x) v) = [] ->
    (forall r, hbC x !! r = Some v -> r ∈ s) -> exists x1 a1,
    foreach (filter (fun r => r ∉ busyC) (waiting (hbC x) v)) (fun r => let! _ := timed_read r ReadHeartbeat in ret tt) x = (Val tt, x1) /\
    armed s F x1 a1 /\ confs (gw x1) /\ clock a1 = clock a /\ dom (heap (gw x1)) = dom (heap (gw x)) /\ left_out F x1).
  { intros -> Hno. exists x, a. split; [done |]. split_and!; try done.
    - destruct Ha as [Hg Hw Hdc Hds Hone Hap Hlive]. split; try done.
      intros r c Hne Hr Hs. destruct (Hlive r c Hne Hr Hs) as (v' & D & Hv' & HD & Hb). exists v', D. split; [done |]. split; [| done].
      destruct HD as [HD | [[-> | Hin]%elem_of_cons HD]]; [by left | by destruct Hne; apply Hno | by right].
    - intros r v' Hr Hv' Hin. apply (Hleft r v'); [done | done | by constructor]. }
  destruct (decide (exists r, r ∈ dom (hbC x) /\ hbC x !! r = Some v)) as [(r & Hin & Hr) | Hno].
  2: { apply Hskip.
       - assert (Hn : waiting (hbC x) v = []); [| by rewrite Hn].
         apply elem_of_nil_inv. intros r Hr%elem_of_waiting. apply Hno. exists r. split; [apply elem_of_dom; eauto | done].
       - intros r Hr. destruct Hno. exists r. split; [apply elem_of_dom; eauto | done]. }
  rewrite (waiting_one _ _ _ _ _ _ Ha Hr) in *. destruct (decide (r ∈ busyC)) as [Hbusy | Hfree].
  { apply Hskip; [by rewrite filter_cons_False by (intros Hn; by apply Hn) |].
    intros r' Hr'. assert (r = r') as <- by by eapply (ar_one _ _ _ _ Ha). apply (Hleft r v); [done | done | constructor]. }
  rewrite (filter_cons_True (fun r => r ∉ busyC) r [] Hfree). rewrite (ar_domC _ _ _ _ Ha) in Hin. apply elem_of_dom in Hin as [c Hrc].
  destruct (heartbeat_run s (v :: F) F x a r c Ha Hc Hrc) as (b & x1 & a1 & E1 & Ha1 & Hc1 & Hclk1 & Hd1 & Hoth).
  { intros v' [-> | Hv']%elem_of_cons; auto. }
  exists x1, a1. split; [cbn [foreach filter list_filter]; unfold bind at 1; by rewrite (bind_Val _ _ _ _ _ E1) |].
  split_and!; try done. intros r' v' Hr' Hv' Hin'. assert (r' <> r) by (intros ->; done).
  apply (Hleft r' v'); [done | by rewrite <- Hoth | by constructor].
Qed.

Lemma wake_run v F x a :
  armed s (v :: F) x a -> confs (gw x) -> left_out (v :: F) x ->
  exists x' a', wake busyC busyS (Signalled v) x = (Val tt, x') /\ armed s F x' a' /\ confs (gw x') /\ clock a' = clock a /\ left_out F x'.
Proof.
  intros Ha Hc Hleft. destruct (reader_run v F x a Ha Hc Hleft) as (x1 & a1 & E1 & Ha1 & Hc1 & Hclk1 & Hd1 & Hl1).
  destruct (writers_run s F (filter (fun r => r ∉ busyS) (waiting (hbS x) v)) x1 a1 Ha1 Hc1) as (x2 & a2 & E2 & Ha2 & Hc2 & Hclk2 & Hh2).
  { intros r [_ Hr%elem_of_waiting]%list_elem_of_filter. rewrite Hd1, <- (ar_domS _ _ _ _ Ha). apply elem_of_dom. eauto. }
  exists x2, a2. split; [| split_and!; [done | done | congruence | unfold left_out; by rewrite Hh2]].
  unfold wake. unfold bind at 1, gets. unfold bind at 1. by rewrite (bind_Val _ _ _ _ _ E1).
Qed.

Lemma wakes_run F : forall x a,
  armed s F x a -> confs (gw x) -> left_out F x ->
  exists x' a', foreach (Signalled <$> F) (wake busyC busyS) x = (Val tt, x') /\ armed s [] x' a' /\ confs (gw x') /\ clock a' = clock a.
Proof.
  induction F as [| v F IH]; intros x a Ha Hc Hl; [by exists x, a |].
  destruct (wake_run v F x a Ha Hc Hl) as (x1 & a1 & E1 & Ha1 & Hc1 & Hclk1 & Hl1).
  destruct (IH x1 a1 Ha1 Hc1 Hl1) as (x2 & a2 & E2 & Ha2 & Hc2 & Hclk2).
  exists x2, a2. split; [| split_and!; [done | done | congruence]]. rewrite fmap_cons. cbn [foreach]. by rewrite (bind_Val _ _ _ _ _ E1).
Qed.
End busy.

(** A tick: the tasks due fire, the clients they belong to react, and all the running clients wait again, but those
    that lost a signal. *)
Lemma timed_tick_run s busyC busyS x a :
  armed s [] x a -> confs (gw x) ->
  exists x' a', timed_tick busyC busyS x = (Val tt, x') /\ armed (s ∪ lost_signals busyC x) [] x' a' /\ confs (gw x') /\ clock a' = clock a + 1.
Proof.
  intros Ha Hc. pose proof (ar_wheel _ _ _ _ Ha) as [Hrep Hper Hlim Hclk Hfresh Hplain Htasks].
  destruct (step_refines B wheels_count a (tw x) OpTick B_ok wheels_ok Hrep I) as (s' & evs & Hrun & Htr & (F & HN & HF & ->) & Hrep').
  assert (Hev : concat (fired_events (callbacks a) <$> F) = Signalled <$> F).
  { clear -Hplain. induction F as [| v F IH]; [done |]. rewrite !fmap_cons. cbn [concat]. rewrite IH. unfold fired_events at 1.
    destruct (callbacks a !! v) as [[] |] eqn:E; [by destruct (Hplain v) | done | done]. }
  rewrite Hev in Htr. set (x1 := MkTimed (gw x) s' (hbC x) (hbS x) (fresh x)). set (a1 := timer_next a OpTick).
  cbn [run_op] in Hrun.
  assert (Ha1 : armed (s ∪ lost_signals busyC x) F x1 a1).
  { apply (armed_skip s); [set_solver |]. destruct Ha as [Hg _ Hdc Hds Hone Hap Hlive]. split; try done.
    - split; cbn [tw x1 timer_next period limit clock callbacks hbC hbS fresh a1]; try done. lia.
    - intros r c Hne Hr Hs. destruct (Hlive r c Hne Hr Hs) as (v & D & Hv & HD & Hb). exists v, D. split; [done |]. split; [| done].
      destruct HD as [HD | [Hin _]]; [| by apply not_elem_of_nil in Hin]. cbn [a1 due clock timer_next].
      destruct (decide (D = clock a + 1)) as [-> | HneD]; [right; split; [by apply HF | done] | left].
      by apply map_lookup_filter_Some. }
  assert (Hl : left_out busyC (s ∪ lost_signals busyC x) F x1).
  { intros r v Hr Hv Hin. apply elem_of_union_r, elem_of_list_to_set, list_elem_of_In, filter_In. split; [by apply list_elem_of_In |].
    unfold loses_signal. change (hbC x) with (hbC x1). rewrite Hv. apply bool_decide_eq_true. unfold signals. rewrite Hrun. cbn [snd].
    rewrite Htr, drop_app_length. by apply list_elem_of_fmap_2. }
  destruct (wakes_run busyC busyS _ F x1 a1 Ha1 Hc Hl) as (x2 & a2 & E2 & Ha2 & Hc2 & Hclk2). exists x2, a2. split; [| done].
  unfold timed_tick. unfold bind at 1, gets at 1. rewrite (bind_Val (on_tw tick_round) _ x tt x1).
  2: { unfold on_tw, zoom. by rewrite Hrun. }
  unfold bind at 1, gets at 1. cbn [tw x1]. by rewrite Htr, drop_app_length.
Qed.

(** *** The other steps *)

Lemma armed_Exit s F x a r : armed s F x a -> armed s F (with_gw (Exit r (gw x)).2 x) a.
Proof.
  intros Ha. apply armed_run; [done | apply preserves_Exit |]. intros d r' P _. by apply frame_Exit.
Qed.

(** What the recovery of a panic does. *)
Lemma recover_run s F x a r c :
  armed s F x a -> heap (gw x) !! r = Some c ->
  exists x', (on_gate (Exit r) ;;; ret false) x = (Val false, x') /\ armed s F x' a.
Proof.
  intros Ha Hr. destruct (Exit_result r c (gw x) (ar_gate _ _ _ _ Ha) Hr) as (c' & w' & E & _).
  pose proof (armed_Exit _ _ _ _ r Ha) as Ha'. rewrite E in Ha'.
  rewrite (bind_Val _ _ _ _ _ (on_gate_run _ _ _ _ E)). by eexists.
Qed.

Lemma credentials_kept d r' P r cr :
  preserves (at_client d r' (fun c => state c = stateRunning -> P (hbLost c))) (SetCredentials r cr).
Proof. apply kept_credentials; [apply stable_running | done]. Qed.

Lemma handler_kept d r r' m P :
  preserves (at_client d r' (fun c => state c = stateRunning -> P (hbLost c)))
    (if bool_decide (Action m = ActionHello) then handleHello r m else client_handler r m).
Proof.
  destruct (bool_decide _); [apply frame_handleHello | apply frame_client_handler]; try done; apply credentials_kept.
Qed.

Lemma armed_unskip r s F x a :
  armed s F x a -> (forall c, heap (gw x) !! r = Some c -> state c <> stateRunning) -> armed (s ∖ {[r]}) F x a.
Proof.
  intros [Hg Hw Hdc Hds Hone Hap Hlive] Hs. split; try done. intros r' c' Hr' Hc' Hs'.
  apply Hlive; [| done | done]. intros Hin. apply Hr', elem_of_difference. split; [done |].
  intros ->%elem_of_singleton. by apply (Hs c').
Qed.

(** A message starts the read timer anew, whatever became of the last one: its client is not left out any longer. *)
Lemma read_message_run s x a r c m :
  armed s [] x a -> confs (gw x) -> heap (gw x) !! r = Some c ->
  bound r 0 (clock a + offset_of (ClientHeartbeatDuration (config c))) ->
  exists b x' a', timed_read r (ReadMessage m) x = (Val b, x') /\ armed (s ∖ {[r]}) [] x' a' /\ clock a' = clock a.
Proof.
  intros Ha Hc Hr Hb. unfold timed_read, timed_round. rewrite (bind_Val _ _ _ _ _ (on_gate_get_client r c x Hr)).
  destruct (bool_decide (info_ID (info c) = "")).
  { destruct (Exit_result r c (gw x) (ar_gate _ _ _ _ Ha) Hr) as (c' & w' & E & Hr' & Hs' & _).
    pose proof (armed_Exit _ _ _ _ r Ha) as Ha'. rewrite E in Ha'.
    rewrite (bind_Val _ _ _ _ _ (on_gate_run _ _ _ _ E)). eexists _, _, a. split; [done |]. split; [| done].
    apply armed_unskip; [done |]. intros c1 Hc1. cbn in Hc1. congruence. }
  set (w1 := set_heap (<[r := with_hbLost 0 c]> (heap (gw x))) (gw x)).
  assert (E1 : upd_client r (with_hbLost 0) (gw x) = (Val tt, w1)) by (by apply upd_client_run).
  assert (Ha1 : armed ({[r]} ∪ s) [] (with_gw w1 x) a).
  { pose proof (armed_run _ [] x a (upd_client r (with_hbLost 0)) (armed_skip s ({[r]} ∪ s) [] x a (union_subseteq_r _ _) Ha) (preserves_hbLost r 0)) as Ha1.
    rewrite E1 in Ha1. apply Ha1. intros d r' P Hne. apply kept_upd_client. clear -Hne. set_solver. }
  assert (Hsub : {[r]} ∪ s ⊆ {[r]} ∪ s ∖ {[r]}).
  { intros r'. rewrite !elem_of_union, elem_of_difference, elem_of_singleton. destruct (decide (r' = r)); tauto. }
  rewrite (bind_Val _ _ _ _ _ (on_gate_run _ _ _ _ E1)).
  destruct (restart_C_run ({[r]} ∪ s) (s ∖ {[r]}) [] [] (with_gw w1 x) a r (with_hbLost 0 c) Ha1 ltac:(clear; set_solver) Hsub) as (x2 & a2 & E2 & Hg2 & Ha2 & Hclk2 & _).
  { apply lookup_insert_eq. }
  { exact (proj1 (Hconf r _ (Hc r c Hr))). }
  { done. }
  { intros v Hv. by apply not_elem_of_nil in Hv. }
  rewrite (bind_Val _ _ _ _ _ E2). set (h := if bool_decide (Action m = ActionHello) then _ else _).
  assert (Ha3 : armed (s ∖ {[r]}) [] (with_gw (h (gw x2)).2 x2) a2).
  { apply armed_run; [done | | intros d r' P _; apply handler_kept].
    unfold h. destruct (bool_decide _); [apply preserves_handleHello | apply preserves_client_handler]. }
  destruct (h (gw x2)) as [[u | why] w3] eqn:E3; cbn [snd] in Ha3.
  { rewrite (bind_Val _ _ _ _ _ (on_gate_run _ _ _ _ E3)). by eexists _, _, a2. }
  assert (Ep : (on_gate h ;;; ret true) x2 = (Panics why, with_gw w3 x2)) by (unfold bind; by rewrite (on_gate_run _ _ _ _ E3)).
  rewrite Ep. assert (Hd : r ∈ dom (heap w3)).
  { replace (dom (heap w3)) with (dom (hbC x2)) by exact (ar_domC _ _ _ _ Ha3).
    rewrite (ar_domC _ _ _ _ Ha2), Hg2. apply elem_of_dom. exists (with_hbLost 0 c). apply lookup_insert_eq. }
  apply elem_of_dom in Hd as [c3 Hr3]. destruct (recover_run _ [] (with_gw w3 x2) a2 r c3 Ha3 Hr3) as (x4 & E4 & Ha4).
  by exists false, x4, a2.
Qed.

(** The other events of the reader: only an exited client's loop is told to end. *)
Lemma read_other_run s x a r c ev :
  armed s [] x a -> heap (gw x) !! r = Some c -> ev <> ReadHeartbeat -> (forall m, ev <> ReadMessage m) ->
  (ev = ReadClose -> state c = stateClosed) ->
  exists b x' a', timed_read r ev x = (Val b, x') /\ armed s [] x' a' /\ clock a' = clock a.
Proof.
  intros Ha Hr Hb Hm Hcl.
  destruct (Exit_result r c (gw x) (ar_gate _ _ _ _ Ha) Hr) as (c' & w' & E & _).
  pose proof (armed_Exit _ _ _ _ r Ha) as Ha'. rewrite E in Ha'. cbn [snd] in Ha'.
  assert (Hexit : forall ev', runRead r ev' = (Exit r ;;; ret true) -> timed_round r ev' = on_gate (runRead r ev') ->
    timed_read r ev' x = (Val true, with_gw w' x)).
  { intros ev' H1 H2. unfold timed_read. rewrite H2, H1. by rewrite (on_gate_run _ x (Val true) w') by (by rewrite (bind_Val _ _ _ _ _ E)). }
  destruct ev as [| | | err | m]; [| done | | | by destruct (Hm m)].
  - destruct (cancel_C_run s [] x a r c Ha Hr) as (s' & v & a' & Hv & Hrun & Ha1 & Hclk); [left; by rewrite Hcl |].
    unfold timed_read. cbn [timed_round runRead]. rewrite (on_gate_run _ x (Val false) (gw x)) by done.
    replace (with_gw (gw x) x) with x by by destruct x. rewrite (bind_Val _ _ _ _ _ Hrun). by eexists _, _, a'.
  - exists true, (with_gw w' x), a. by rewrite Hexit.
  - destruct (IsDecodeError (Some err)) eqn:Hd.
    + set (n := NewMessage 0 ActionNotifyError (PString err)).
      destruct (enqueue_returns r c (Some n) (gw x) (ar_gate _ _ _ _ Ha) Hr) as (e & w1 & E1).
      pose proof (armed_enqueue _ _ _ _ r (Some n) Ha) as Ha1. rewrite E1 in Ha1.
      exists true, (with_gw w1 x), a. split; [| done]. unfold timed_read. cbn [timed_round runRead]. rewrite Hd. fold n.
      by rewrite (on_gate_run _ x (Val true) w1) by (by rewrite (bind_Val _ _ _ _ _ E1)).
    + exists true, (with_gw w' x), a. split; [| done]. apply Hexit; [cbn [runRead]; by rewrite Hd | done].
Qed.

(** A write; the read timers are as they were. *)
Lemma write_other_run s x a r c ev :
  armed s [] x a -> confs (gw x) -> heap (gw x) !! r = Some c -> ev <> WriteHeartbeat ->
  (ev = WriteMessage true -> messages_closed c = false) ->
  exists b x' a', timed_write r ev x = (Val b, x') /\ armed s [] x' a' /\ clock a' = clock a.
Proof.
  intros Ha Hc Hr Hb Hok.
  assert (Hw : forall w', (runWrite r ev (gw x)).2 = w' -> armed s [] (with_gw w' x) a /\ confs w').
  { intros w' <-. split.
    - apply armed_gate; [done | | apply quiet_kept; intros r' P _; by apply frame_runWrite].
      apply runWrite_inv; [apply (ar_gate _ _ _ _ Ha) |]. intros E c0 Hc0. rewrite Hr in Hc0. injection Hc0 as <-. auto.
    - apply confs_kept; [| done]. intros r'. by apply frame_runWrite. }
  unfold timed_write. destruct ev as [| | ok]; [| done |].
  { destruct (cancel_S_run s [] x a r c Ha Hr) as (s' & v & a' & Hv & Hrun & Ha1 & Hclk).
    cbn [timed_write_round ret]. rewrite (bind_Val _ _ _ _ _ Hrun). by eexists _, _, a'. }
  assert (Hval : exists w', runWrite r (WriteMessage ok) (gw x) = (Val true, w')).
  { destruct (messages c) as [| [m |] l] eqn:Hm.
    - unfold runWrite. rewrite (bind_Val _ _ _ _ _ (get_client_run r c _ Hr)), Hm. destruct (messages_closed c); [| by eexists].
      destruct (Exit_result r c (gw x) (ar_gate _ _ _ _ Ha) Hr) as (c' & w' & E & _). rewrite (bind_Val _ _ _ _ _ E). by eexists.
    - by rewrite (runWrite_message r ok c (gw x) m l) by done; eexists.
    - unfold runWrite. rewrite (bind_Val _ _ _ _ _ (get_client_run r c _ Hr)), Hm. unfold bind at 1.
      rewrite (upd_client_run r _ c) by done.
      destruct (Exit_result r (with_messages (queuedMessage c) l c) (set_heap (<[r := with_messages (queuedMessage c) l c]> (heap (gw x))) (gw x)))
        as (c' & w' & E & _).
      + apply (gate_inv_client r c); [apply (ar_gate _ _ _ _ Ha) | done | done |].
        eapply client_ok_dequeue; [exact (gi_clients _ (ar_gate _ _ _ _ Ha) _ _ Hr) | exact Hm].
      + apply lookup_insert_eq.
      + rewrite (bind_Val _ _ _ _ _ E). by eexists. }
  destruct Hval as [w' E]. destruct (Hw w') as [Ha1 Hc1]; [by rewrite E |].
  unfold timed_write_round. rewrite (bind_Val _ _ _ _ _ (on_gate_get_client r c x Hr)).
  assert (Eg : on_gate (runWrite r (WriteMessage ok)) x = (Val true, with_gw w' x)) by by apply on_gate_run.
  assert (Hd : r ∈ dom (heap w')).
  { replace (dom (heap w')) with (dom (hbC x)) by exact (ar_domC _ _ _ _ Ha1). rewrite (ar_domC _ _ _ _ Ha). apply elem_of_dom. eauto. }
  apply elem_of_dom in Hd as [c1 Hr1].
  destruct (restart_S_run s [] (with_gw w' x) a r c1 Ha1 Hr1) as (x2 & a2 & E2 & _ & _ & Ha2 & Hclk2).
  { exact (proj2 (Hconf r _ (Hc1 r c1 Hr1))). }
  destruct (messages c) as [| [m |] l]; [rewrite Eg; by eexists _, _, a | | rewrite Eg; by eexists _, _, a].
  rewrite (bind_Val _ _ _ _ _ Eg), (bind_Val _ _ _ _ _ E2). by eexists _, _, a2.
Qed.

(** The operations of the gateway that are neither a connection nor a goroutine of a client. *)
Definition on_its_own (op : gate_op) : Prop :=
  match op with OpConnect _ _ _ | OpRead _ _ | OpWrite _ _ => False | _ => True end.

Lemma gate_op_run s x a op :
  armed s [] x a -> on_its_own op -> op_ok op (gw x) -> anonymous (run_gate_op op (gw x)).2 = false ->
  armed s [] (with_gw (run_gate_op op (gw x)).2 x) a.
Proof.
  intros Ha Hown Hok Han. apply armed_gate; [done | |].
  { destruct (gate_op_inv op (gw x) Hok (ar_gate _ _ _ _ Ha)) as [E |]; [congruence | done]. }
  apply quiet_kept. intros r P _. pose proof (running_framed (dom (heap (gw x))) r P) as HK. destruct op; try done; cbn [run_gate_op].
  - apply preserves_bind; [by apply frame_SetClientID | intros; apply preserves_ret].
  - apply preserves_bind; [apply frame_UpdateClient, credentials_kept | intros; apply preserves_ret].
  - apply preserves_bind; [by apply frame_ExitClient | intros; apply preserves_ret].
  - by apply frame_Exit.
  - apply preserves_bind; [by apply frame_EnqueueMessage | intros; apply preserves_ret].
  - apply preserves_bind; [by apply frame_flush | intros; apply preserves_ret].
  - by apply frame_run_pool.
  - by apply kept_modify.
Qed.

(** A new connection starts both of its timers. *)
Lemma connect_run s x a r addr bytes :
  armed s [] x a -> op_ok (OpConnect r addr bytes) (gw x) -> bound r 0 (clock a + offset_of (30 * second)) ->
  exists id x' a', timed_connect r addr bytes x = (Val id, x') /\ armed (s ∖ {[r]}) [] x' a' /\ clock a' = clock a.
Proof.
  intros Ha [Hnone Hid] Hb.
  pose proof (timer_not_fresh x a) as Hnew. destruct Ha as [Hg Hw Hdc Hds Hone Hap Hlive].
  destruct (tw_After_run (30 * second) x a Hw half_minute_ok) as (s1 & E1 & Hw1).
  set (v1 := fresh x) in *. set (x1 := MkTimed _ s1 _ _ _) in *. set (a1 := timer_next a _) in *.
  assert (Hw1' : on_wheel (set_hbC r v1 x1) a1).
  { apply on_wheel_hbC; [done |]. unfold a1. cbn [callbacks timer_next]. rewrite lookup_insert_eq. eauto. }
  destruct (tw_After_run (30 * second) (set_hbC r v1 x1) a1 Hw1' half_minute_ok) as (s2 & E2 & Hw2).
  set (v2 := fresh (set_hbC r v1 x1)) in *. set (x2 := MkTimed _ s2 _ _ _) in *. set (a2 := timer_next a1 _) in *.
  assert (Hw3 : on_wheel (set_hbS r v2 x2) a2).
  { apply on_wheel_hbS; [done |]. unfold a2. cbn [callbacks timer_next]. rewrite lookup_insert_eq. eauto. }
  assert (Hv2 : v2 = S v1) by done.
  set (id := GenTempID (gate_id (gw x)) bytes). pose proof (HandleConnection_run r addr bytes (gw x)) as Eh. cbv zeta in Eh.
  fold id in Eh. set (c := queued_one _ _) in Eh. set (w' := set_heap _ _) in Eh.
  exists id, (with_gw w' (set_hbS r v2 x2)), a2. split; [| split; [| done]].
  { unfold timed_connect. rewrite (bind_Val _ _ _ _ _ E1). unfold bind at 1, modify at 1. rewrite (bind_Val _ _ _ _ _ E2).
    unfold bind at 1, modify at 1. by rewrite (on_gate_run _ (set_hbS r v2 x2) _ _ Eh). }
  split; cbn [with_gw gw hbC hbS set_hbS x2 set_hbC x1].
  - pose proof (gate_inv_HandleConnection r addr bytes (gw x) Hg Hnone Hid) as Hi. by rewrite Eh in Hi.
  - apply (on_wheel_gate (set_hbS r v2 x2)), Hw3.
  - cbn [w' heap set_heap]. by rewrite !dom_insert_L, Hdc.
  - cbn [w' heap set_heap]. by rewrite !dom_insert_L, Hds.
  - intros r1 r2 v' [[<- <-] | [Hn1 H1]]%lookup_insert_Some [[<- E] | [Hn2 H2]]%lookup_insert_Some; try done.
    + by destruct (Hnew _ _ Hw (or_introl H2)).
    + subst v'. by destruct (Hnew _ _ Hw (or_introl H1)).
    + by eapply Hone.
  - intros r1 r2 v' [[<- <-] | [Hn1 H1]]%lookup_insert_Some [[<- E] | [Hn2 H2]]%lookup_insert_Some.
    + lia.
    + by destruct (Hnew _ _ Hw (or_intror H2)).
    + pose proof (ow_fresh _ _ Hw v' (ow_tasks _ _ Hw _ _ (or_introl H1))). lia.
    + by eapply Hap.
  - intros r' c' Hin Hc' Hs'. destruct (decide (r' = r)) as [-> | Hne].
    + exists v1, (clock a + offset_of (30 * second)). rewrite lookup_insert_eq. split; [done |]. split.
      * left. unfold a2, a1. cbn [due timer_next clock period]. rewrite lookup_insert_ne, lookup_insert_eq by lia.
        by rewrite (ow_period _ _ Hw).
      * replace (hbLost c') with 0; [done |]. cbn [w' heap set_heap] in Hc'. rewrite lookup_insert_eq in Hc'. by injection Hc' as <-.
    + cbn [w' heap set_heap set_clients add_handled] in Hc'. rewrite lookup_insert_ne in Hc' by done.
      destruct (Hlive r' c' ltac:(clear -Hin Hne; set_solver) Hc' Hs') as (v & D & Hv & HD & Hbd). exists v, D. rewrite lookup_insert_ne by done.
      split; [done |]. split; [| done]. pose proof (ow_fresh _ _ Hw v (ow_tasks _ _ Hw _ _ (or_introl Hv))).
      unfold a2, a1. cbn [due timer_next clock]. by rewrite !lookup_insert_ne by lia.
Qed.
End links.

(** ** The gateway and its timers as one transition system *)

(** A tick has the clients whose read timer's signal it loses. *)
Inductive timed_label := LTick (lost : gset nat) | LHeard (r : nat) | LOther.

Section timed.
Context `{BlockCipher}.

(** The wheel starts with the program: it has ticked before the first connection. *)
Definition timed_start (id key : string) (cap t : Z) (rnd : list (list Z)) : Timed :=
  MkTimed (NewServer id key cap t rnd) (tick_round gate_tw).2 ∅ ∅ 0.

(** A client is heard when it connects and when a message of it is read. Only the loops of a client that has
    exited are told to end, and a closed connection takes nothing. *)
Inductive timed_step : timed_label -> Timed -> Timed -> Prop :=
  | ts_tick busyC busyS x : timed_step (LTick (lost_signals busyC x)) x (timed_tick busyC busyS x).2
  | ts_connect r addr bytes x :
      op_ok (OpConnect r addr bytes) (gw x) -> timed_step (LHeard r) x (timed_connect r addr bytes x).2
  | ts_message r c m x : heap (gw x) !! r = Some c -> timed_step (LHeard r) x (timed_read r (ReadMessage m) x).2
  | ts_read r c ev x :
      heap (gw x) !! r = Some c -> ev <> ReadHeartbeat -> (forall m, ev <> ReadMessage m) ->
      (ev = ReadClose -> state c = stateClosed) -> timed_step LOther x (timed_read r ev x).2
  | ts_write r c ev x :
      heap (gw x) !! r = Some c -> ev <> WriteHeartbeat -> (ev = WriteMessage true -> messages_closed c = false) ->
      timed_step LOther x (timed_write r ev x).2
  | ts_gate op x : on_its_own op -> op_ok op (gw x) -> timed_step LOther x (on_gate (run_gate_op op) x).2.

Definition durations_ok (w : World) : Prop := forall r c, heap w !! r = Some c ->
  duration_ok (ClientHeartbeatDuration (config c)) /\ duration_ok (ServerHeartbeatDuration (config c)).

Definition tick_of (l : timed_label) : Z := match l with LTick _ => 1 | _ => 0 end.
Definition lost_of (l : timed_label) : gset nat := match l with LTick lost => lost | _ => ∅ end.

(** The clients that lost a signal and were not heard since, after a step. *)
Definition lost_after (l : timed_label) (L : gset nat) : gset nat :=
  match l with LTick lost => L ∪ lost | LHeard r => L ∖ {[r]} | LOther => L end.

(** The runs in which no credentials ask for a heartbeat the wheel cannot time, and no client is renamed to the empty
    ID, with the clients that lost a signal since they were last heard. *)
Inductive timed_reachable : gset nat -> Timed -> Prop :=
  | tr_start id key cap t rnd : timed_reachable ∅ (timed_start id key cap t rnd)
  | tr_step l L x x' :
      timed_reachable L x -> timed_step l x x' -> durations_ok (gw x') -> anonymous (gw x') = false ->
      timed_reachable (lost_after l L) x'.

(** The duration a client that is heard has its read timer started with. *)
Definition timer_started (r : nat) (w : World) : Z :=
  match heap w !! r with Some c => ClientHeartbeatDuration (config c) | None => 30 * second end.

Lemma step_armed (bound : nat -> Z -> Z -> Prop) (conf : nat -> ClientConfig -> Prop) l L x x' a :
  (forall r k, conf r k -> duration_ok (ClientHeartbeatDuration k) /\ duration_ok (ServerHeartbeatDuration k)) ->
  (forall r k l t D, conf r k -> bound r l D -> t <= D -> int64 (l + 1) <= HeartbeatLostLimit k ->
    bound r (int64 (l + 1)) (t + offset_of (ClientHeartbeatDuration k))) ->
  (forall r, l = LHeard r -> bound r 0 (clock a + offset_of (timer_started r (gw x)))) ->
  armed bound L [] x a -> confs conf (gw x) -> timed_step l x x' -> anonymous (gw x') = false ->
  exists a', armed bound (lost_after l L) [] x' a' /\ clock a' = clock a + tick_of l.
Proof.
  intros Hconf Hbeat Hheard Ha Hc Hstep Han. destruct Hstep as [busyC busyS x | r addr bytes x Hok | r c m x Hr | r c ev x Hr Hb Hm Hcl | r c ev x Hr Hb Hok | op x Hown Hok];
    cbn [lost_after tick_of] in *.
  - destruct (timed_tick_run bound conf Hconf Hbeat L busyC busyS x a Ha Hc) as (x' & a' & E & Ha' & _ & Hclk). rewrite E. by exists a'.
  - destruct (connect_run bound L x a r addr bytes Ha Hok) as (id & x' & a' & E & Ha' & Hclk).
    { specialize (Hheard r eq_refl). unfold timer_started in Hheard. destruct Hok as [Hn _]. by rewrite Hn in Hheard. }
    rewrite E. exists a'. split; [done | lia].
  - destruct (read_message_run bound conf Hconf L x a r c m Ha Hc Hr) as (b & x' & a' & E & Ha' & Hclk).
    { specialize (Hheard r eq_refl). unfold timer_started in Hheard. by rewrite Hr in Hheard. }
    rewrite E. exists a'. split; [done | lia].
  - destruct (read_other_run bound L x a r c ev Ha Hr Hb Hm Hcl) as (b & x' & a' & E & Ha' & Hclk). rewrite E. exists a'. split; [done | lia].
  - destruct (write_other_run bound conf Hconf L x a r c ev Ha Hc Hr Hb Hok) as (b & x' & a' & E & Ha' & Hclk). rewrite E. exists a'. split; [done | lia].
  - exists a. split; [| lia]. pose proof (gate_op_run bound L x a op Ha Hown Hok) as Ha'.
    unfold on_gate, zoom in *. destruct (run_gate_op op (gw x)). by apply Ha'.
Qed.

Definition anything (r : nat) (l D : Z) : Prop := True.

Lemma gate_tw_ticked : exists a, wheel_rep B wheels_count a (tick_round gate_tw).2 /\ clock a = 0 /\ callbacks a = ∅ /\
  period a = tick_length /\ limit a = longest.
Proof.
  destruct (step_refines B wheels_count _ gate_tw OpTick B_ok wheels_ok (new_rep B wheels_count tick_length B_ok wheels_ok) I)
    as (st' & evs & Hr & _ & _ & Hrep).
  exists (timer_next (new_timers tick_length wheels_count slots_count) OpTick). split_and!; try reflexivity.
  cbn [run_op] in Hr. rewrite Hr. exact Hrep.
Qed.

Lemma start_armed id key cap t rnd : exists a, armed anything ∅ [] (timed_start id key cap t rnd) a.
Proof.
  destruct gate_tw_ticked as (a & Hrep & Hclk & Hcb & Hper & Hlim). exists a. split; try done.
  - apply gate_inv_NewServer.
  - split; cbn [timed_start tw hbC hbS fresh]; try done; rewrite ?Hclk, ?Hcb; try lia.
    + intros v. rewrite lookup_empty. by intros [? [=]].
    + intros v. by rewrite lookup_empty.
    + intros r v. rewrite !lookup_empty. by intros [|].
Qed.

Lemma durations_confs w : durations_ok w -> confs (fun _ k => duration_ok (ClientHeartbeatDuration k) /\ duration_ok (ServerHeartbeatDuration k)) w.
Proof. done. Qed.

Lemma reachable_armed L x : timed_reachable L x -> durations_ok (gw x) /\ exists a, armed anything L [] x a.
Proof.
  induction 1 as [id key cap t rnd | l L x x' _ [Hd (a & Ha)] Hstep Hd' Han].
  - split; [| apply start_armed]. intros r c Hr. cbn in Hr. by rewrite lookup_empty in Hr.
  - split; [done |]. destruct (step_armed anything (fun _ k => duration_ok (ClientHeartbeatDuration k) /\ duration_ok (ServerHeartbeatDuration k)) l L x x' a)
      as (a' & Ha' & _); [done | done | done | done | by apply durations_confs | done | done | by exists a'].
Qed.

(** C17: every running client's peer is watched, as long as the signals of its timer are taken: in every state the
    gateway and its timing wheel reach together, while no credentials ask for heartbeats the wheel cannot time and no
    client is renamed to the empty ID, the wheel holds a table of deadlines in which the read timer of each running
    client is pending, at a tick to come, but for the clients that lost a signal of the timer since they
    were last heard (their goroutine was busy when it was sent); and the gateway's own invariant holds. *)
Theorem heartbeat_timers_armed L x :
  timed_reachable L x ->
  gate_inv (gw x) /\ exists a, wheel_rep B wheels_count a (tw x) /\
    forall r c, r ∉ L -> heap (gw x) !! r = Some c -> state c = stateRunning ->
      exists v D, hbC x !! r = Some v /\ due a !! v = Some D /\ clock a < D.
Proof.
  intros Hx. destruct (reachable_armed L x Hx) as (_ & a & Ha). split; [apply (ar_gate _ _ _ _ _ Ha) |].
  exists a. split; [apply (ow_rep _ _ (ar_wheel _ _ _ _ _ Ha)) |]. intros r c Hin Hr Hs.
  destruct (ar_live _ _ _ _ _ Ha r c Hin Hr Hs) as (v & D & Hv & HD & _). exists v, D.
  destruct HD as [HD | [HF _]]; [| by apply not_elem_of_nil in HF].
  split; [done |]. split; [done |]. exact (deadline_ahead _ _ _ _ _ _ _ Ha HD).
Qed.

(** ** A client that is silent *)

(** Steps in which [r] is not heard, loses no signal of its timer and keeps its configuration [k], with so many ticks;
    no client asks for heartbeats the wheel cannot time or is renamed to the empty ID. *)
Inductive silent (r : nat) (k : ClientConfig) : Z -> Timed -> Timed -> Prop :=
  | silent_end x : silent r k 0 x x
  | silent_step l n x x' x'' :
      timed_step l x x' -> l <> LHeard r -> r ∉ lost_of l -> durations_ok (gw x') -> anonymous (gw x') = false ->
      (forall c, heap (gw x') !! r = Some c -> config c = k) ->
      silent r k n x' x'' -> silent r k (tick_of l + n) x x''.

(** The ticks a client may stay silent. *)
Definition patience (k : ClientConfig) : Z := (HeartbeatLostLimit k + 1) * offset_of (ClientHeartbeatDuration k).

(** The deadline of [r] and the heartbeats it has left do not go past [E]. *)
Definition within (r0 : nat) (k : ClientConfig) (E : Z) (r : nat) (l D : Z) : Prop :=
  r = r0 -> 0 <= l <= HeartbeatLostLimit k /\ D + (HeartbeatLostLimit k - l) * offset_of (ClientHeartbeatDuration k) <= E.

Definition known (r0 : nat) (k0 : ClientConfig) (r : nat) (k : ClientConfig) : Prop :=
  (duration_ok (ClientHeartbeatDuration k) /\ duration_ok (ServerHeartbeatDuration k)) /\ (r = r0 -> k = k0).

Lemma within_beat r0 k0 E r k l t D :
  HeartbeatLostLimit k0 < MaxInt64 -> known r0 k0 r k -> within r0 k0 E r l D -> t <= D -> int64 (l + 1) <= HeartbeatLostLimit k ->
  within r0 k0 E r (int64 (l + 1)) (t + offset_of (ClientHeartbeatDuration k)).
Proof.
  intros Hmax [_ Hk] Hw Ht Hl Er. specialize (Hw Er). specialize (Hk Er). subst k.
  rewrite int64_small in * by (unfold in_int64, MaxInt64 in *; lia). split; [lia |]. nia.
Qed.

Lemma lost_after_other r l L : l <> LHeard r -> r ∉ lost_of l -> r ∉ L -> r ∉ lost_after l L.
Proof. destruct l; cbn; set_solver. Qed.

Lemma silent_armed r k E n x x' L a :
  HeartbeatLostLimit k < MaxInt64 ->
  silent r k n x x' -> r ∉ L -> armed (within r k E) L [] x a -> confs (known r k) (gw x) ->
  exists L' a', r ∉ L' /\ armed (within r k E) L' [] x' a' /\ confs (known r k) (gw x') /\ clock a' = clock a + n.
Proof.
  intros Hmax Hs. revert L a.
  induction Hs as [x | l n x x' x'' Hstep Hl Hlost Hd Han Hk _ IH]; intros L a Hr Ha Hc; [exists L, a; split_and!; [done | done | done | lia] |].
  destruct (step_armed (within r k E) (known r k) l L x x' a) as (a1 & Ha1 & Hclk1).
  - by intros ? ? [].
  - intros. by eapply within_beat.
  - by intros r0 -> ->.
  - done.
  - done.
  - done.
  - done.
  - destruct (IH _ a1 (lost_after_other r l L Hl Hlost Hr) Ha1) as (L2 & a2 & Hr2 & Ha2 & Hc2 & Hclk2);
      [| exists L2, a2; split_and!; [done | done | done | lia]].
    intros r0 c0 Hr0. split; [by apply (Hd r0) |]. intros ->. by apply Hk.
Qed.

End timed.

(** ** The gateway does not see the timers

    A round of a goroutine does to the gateway what the round of [Gate] does, which has no timers. *)
Section hidden.
Context `{BlockCipher}.

(** [m] does to the gateway what [m'] does. *)
Definition sees {X} (m : GoM Timed X) (m' : GoM World X) : Prop :=
  forall x v x', m x = (Val v, x') -> m' (gw x) = (Val v, gw x').

Lemma sees_ret {X} (v : X) : sees (ret v) (ret v).
Proof. by intros x v' x' [= <- <-]. Qed.
Lemma sees_on_gate {X} (m : GoM World X) : sees (on_gate m) m.
Proof. intros x v x'. unfold on_gate, zoom. destruct (m (gw x)) as [r w]. by intros [= -> <-]. Qed.
Lemma sees_bind {X Y} (m : GoM Timed X) m' (k : X -> GoM Timed Y) k' :
  sees m m' -> (forall v, sees (k v) (k' v)) -> sees (bind m k) (bind m' k').
Proof. intros Hm Hk x v x' (u & x1 & E1 & E2)%bind_Val_inv. rewrite (bind_Val _ _ _ _ _ (Hm _ _ _ E1)). by apply Hk. Qed.

(** Something that leaves the gateway alone. *)
Lemma sees_hidden {X Y} (m : GoM Timed X) (k : X -> GoM Timed Y) k' :
  (forall x v x', m x = (Val v, x') -> gw x' = gw x) -> (forall v, sees (k v) k') -> sees (bind m k) k'.
Proof. intros Hm Hk x v x' (u & x1 & E1 & E2)%bind_Val_inv. rewrite <- (Hm _ _ _ E1). by apply (Hk u). Qed.

Lemma on_tw_hidden {X} (m : GoM tw_state X) x v x' : on_tw m x = (Val v, x') -> gw x' = gw x.
Proof. unfold on_tw, zoom. destruct (m (tw x)) as [r s']. by intros [= _ <-]. Qed.

Lemma cancel_hidden timers_of r x v x' : cancel_timer timers_of r x = (Val v, x') -> gw x' = gw x.
Proof.
  unfold cancel_timer. intros (m & x1 & [= <- <-] & E)%bind_Val_inv. destruct (timers_of x !! r); [by eapply on_tw_hidden | done].
Qed.

Lemma tw_After_hidden d x v x' : tw_After d x = (Val v, x') -> gw x' = gw x.
Proof.
  unfold tw_After. intros (v0 & x1 & [= <- <-] & E)%bind_Val_inv. apply bind_Val_inv in E as (u & x2 & [= <- <-] & E).
  apply bind_Val_inv in E as (t & x3 & [= <- <-] & E). by apply on_tw_hidden in E.
Qed.

Lemma restart_hidden r x v x' : restart_C r x = (Val v, x') \/ restart_S r x = (Val v, x') -> gw x' = gw x.
Proof.
  intros [E | E]; apply bind_Val_inv in E as (u & x1 & E1 & E); apply cancel_hidden in E1;
    apply bind_Val_inv in E as (c & x2 & E2 & E); apply sees_on_gate in E2; unfold get_client in E2;
    (destruct (heap (gw x1) !! r); [injection E2 as <- E2 | done]);
    apply bind_Val_inv in E as (v0 & x3 & E3 & [= _ <-]); apply tw_After_hidden in E3; cbn [set_hbC set_hbS gw]; congruence.
Qed.

Lemma timed_round_is_runRead r ev : sees (timed_round r ev) (runRead r ev).
Proof.
  pose proof (fun x v x' E => restart_hidden r x v x' (or_introl E)) as Hrestart.
  destruct ev as [| | | err | m]; cbn [timed_round runRead]; try apply sees_on_gate.
  - apply sees_bind; [apply sees_on_gate | intros [|]; cbn [negb]; [| apply sees_ret]].
    apply sees_bind; [apply sees_on_gate | intros c]. apply sees_bind; [apply sees_on_gate | intros _].
    apply sees_bind; [destruct (_ <? _); [apply sees_on_gate | apply sees_ret] | intros _].
    apply sees_hidden; [done | intros _]. apply sees_bind; [apply sees_on_gate | intros _; apply sees_ret].
  - apply sees_bind; [apply sees_on_gate | intros c]. destruct (bool_decide (info_ID (info c) = "")).
    { apply sees_bind; [apply sees_on_gate | intros _; apply sees_ret]. }
    apply sees_bind; [apply sees_on_gate | intros _]. apply sees_hidden; [done | intros _].
    apply sees_bind; [apply sees_on_gate | intros _; apply sees_ret].
Qed.
End hidden.

(** ** A connection nobody speaks on *)

#[local] Existing Instance flip_cipher.

Section ticks.
Context `{BlockCipher}.

(** Ticks whose signals all find their goroutines waiting. *)
Fixpoint ticked (n : nat) (x : Timed) : Timed := match n with O => x | S n' => ticked n' (timed_tick [] [] x).2 end.
Fixpoint named_ticks (n : nat) (x : Timed) : bool :=
  negb (anonymous (gw x)) && match n with O => true | S n' => named_ticks n' (timed_tick [] [] x).2 end.

Lemma named_ticks_now n x : named_ticks n x = true -> anonymous (gw x) = false.
Proof. destruct n; cbn [named_ticks]; intros [Hn _]%andb_prop; by apply negb_true_iff. Qed.

Lemma silent_ticks r k n : forall x a,
  armed anything ∅ [] x a -> confs (known r k) (gw x) -> named_ticks n x = true -> silent r k (Z.of_nat n) x (ticked n x).
Proof.
  induction n as [| n IH]; intros x a Ha Hc Hn; [constructor |].
  cbn [named_ticks] in Hn. apply andb_prop in Hn as [_ Hn].
  destruct (timed_tick_run anything (known r k) (fun _ _ Hk => proj1 Hk) (fun _ _ _ _ _ _ _ _ _ => I) ∅ [] [] x a Ha Hc)
    as (x' & a' & E & Ha' & Hc' & _).
  replace (Z.of_nat (S n)) with (tick_of (LTick (lost_signals [] x)) + Z.of_nat n) by (cbn [tick_of]; lia).
  cbn [ticked]. apply (silent_step r k (LTick (lost_signals [] x)) (Z.of_nat n) x (timed_tick [] [] x).2); [constructor | done | | | | |].
  - apply not_elem_of_empty.
  - rewrite E. intros r0 c0 Hr0. by apply (Hc' r0).
  - by eapply named_ticks_now.
  - rewrite E. intros c0 Hr0. by apply (Hc' r c0 Hr0).
  - rewrite E in *. by apply (IH x' a').
Qed.
End ticks.

Definition duration_okb (d : Z) : bool :=
  (1 <=? tick_offset d tick_length) && (tick_offset d tick_length <=? 7600) && (d <? longest).

Lemma durations_ok_check w :
  forallb (fun p => duration_okb (ClientHeartbeatDuration (config p.2)) && duration_okb (ServerHeartbeatDuration (config p.2)))
    (map_to_list (heap w)) = true -> durations_ok w.
Proof.
  intros Hall r c Hr. rewrite forallb_forall in Hall. specialize (Hall (r, c)).
  apply andb_prop in Hall as [H1 H2]; [| apply list_elem_of_In; by apply elem_of_map_to_list].
  unfold duration_okb in *. cbn [snd] in *. split; (split; [split |]); lia.
Qed.

Definition connected_alone : Timed := (timed_connect 0 "10.0.0.1" (demo_bytes 1) (timed_start "g1" "" 100 5000 [])).2.
Definition half_minutes : ClientConfig := MkClientConfig (30 * second) (30 * second) 3 false.

Lemma connects_alone : timed_step (LHeard 0) (timed_start "g1" "" 100 5000 []) connected_alone.
Proof. apply ts_connect. split; vm_compute; reflexivity. Qed.
Lemma connected_alone_durations : durations_ok (gw connected_alone).
Proof. apply durations_ok_check. vm_compute. reflexivity. Qed.
Lemma connected_alone_named : anonymous (gw connected_alone) = false.
Proof. vm_compute. reflexivity. Qed.
Lemma connected_alone_reachable : timed_reachable ∅ connected_alone.
Proof.
  assert (E : lost_after (LHeard 0) ∅ = ∅) by (cbn [lost_after]; set_solver). rewrite <- E.
  apply (tr_step (LHeard 0) ∅ (timed_start "g1" "" 100 5000 []) connected_alone);
    [apply tr_start | apply connects_alone | apply connected_alone_durations | apply connected_alone_named].
Qed.
Lemma connected_alone_config c : heap (gw connected_alone) !! 0%nat = Some c -> config c = half_minutes.
Proof.
  intros Hc. assert (E : config <$> heap (gw connected_alone) !! 0%nat = Some half_minutes) by (vm_compute; reflexivity).
  rewrite Hc in E. by injection E.
Qed.

Lemma heartbeat_timers_armed_witness :
  gate_inv (gw connected_alone) /\ exists a, wheel_rep B wheels_count a (tw connected_alone) /\
    forall r c, r ∉ (∅ : gset nat) -> heap (gw connected_alone) !! r = Some c -> state c = stateRunning ->
      exists v D, hbC connected_alone !! r = Some v /\ due a !! v = Some D /\ clock a < D.
Proof. exact (heartbeat_timers_armed ∅ connected_alone connected_alone_reachable). Defined.


(** The credentials' heartbeat duration is used as it is: one of two hours reaches past the last wheel, the read
    timer is then in no slot, and the silent client is never found out. *)
Definition two_hours : ClientAuthCredentials :=
  MkCredentials 1 "alice" "1" "" None None (Some (MkConnectionConfig 3 7200 false)) "" 0.

Definition read_timer_slot (r : nat) (x : Timed) : option (option (nat * nat)) :=
  v ← hbC x !! r; s <$> tasks (tw x) !! v.

Example long_heartbeats_lose_the_timer :
  let m := on_gate (SetCredentials 0 two_hours) ;;; restart_C 0 in
  m connected_alone = (Val tt, (m connected_alone).2) /\
  is_Some (read_timer_slot 0 connected_alone ≫= id) /\ read_timer_slot 0 (m connected_alone).2 = Some None.
Proof. split_and!; vm_compute; [reflexivity | by eexists | reflexivity]. Qed.

(** A signal that is lost is not sent again: the client is busy when its timer fires, at the sixtieth tick; the timer is
    in no slot then, and two minutes of silence later the client still runs. *)
Example lost_signal_loses_the_timer :
  let x := ticked 59 connected_alone in
  let x' := ticked 240 (timed_tick [0%nat] [] x).2 in
  lost_signals [0%nat] x = {[0%nat]} /\ is_Some (read_timer_slot 0 x ≫= id) /\ read_timer_slot 0 x' = Some None /\
  state <$> heap (gw x') !! 0%nat = Some stateRunning.
Proof. split_and!; vm_compute; [reflexivity | by eexists | reflexivity | reflexivity]. Qed.
