(* ===== verification/Conn.v ===== *)
(** * Connections: [pkg/conn]

    WebSocket and TCP connections, and the translation of their errors. The
    sockets are libraries: [Websocket_] has the calls of [gorilla/websocket] the code makes, with its error values
    and what it tells of them; [TcpSocket_] those of [net.TCPConn]. [Listeners] has the servers.

    The file ends with what a read of a connection does to its client ([frame_outcome]). *)

From S2P Require Import Prelude GoStrings Json Messages GateId Credentials Gate GateSpec GateProps.

Local Open Scope Z_scope.
Local Open Scope go_scope.

(** ** Data *)

Definition ErrForciblyClosed : string := "connection was forcibly closed".
Definition ErrClosed : string := "closed".
Definition ErrConnectionClosed : string := "connection closed".
Definition ErrBadPackage : string := "bad package data".
Definition ErrReadTimeout : string := "i/o timeout".

Record ConnectionInfo := MkConnectionInfo { Ip : string; Port : Z; Addr : string }.

(** [conn.Connection], on the state [S] of the network. *)
Record Connection (S : Type) := MkConnection {
  c_Write : string -> GoM S error;
  c_Read : GoM S (string * error);
  c_Close : GoM S error;
  c_GetConnInfo : ConnectionInfo }.
Arguments MkConnection {S}.
Arguments c_Write {S}.
Arguments c_Read {S}.
Arguments c_Close {S}.
Arguments c_GetConnInfo {S}.

(** [ConnectionProxy] forwards. *)
Definition ConnectionProxy {S} (c : Connection S) : Connection S := {|
  c_Write data := c_Write c data; c_Read := c_Read c; c_Close := c_Close c; c_GetConnInfo := c_GetConnInfo c |}.

(** A [net.TCPAddr]: its address, its port, and the text of both. *)
Record TCPAddr := MkTCPAddr { addr_IP : string; addr_Port : Z; addr_String : string }.

Definition conn_info (a : TCPAddr) : ConnectionInfo := MkConnectionInfo (addr_IP a) (addr_Port a) (addr_String a).

(** ** WebSocket connections *)

(** What the code calls of [gorilla/websocket]: [E] are its non-nil errors. *)
Class Websocket_ (S E : Type) := {
  ws_Error : E -> string;
  IsUnexpectedCloseError : E -> bool;         (* with no expected code *)
  IsCloseError : E -> bool;                   (* with no code *)
  TextMessage : Z;
  PingMessage : Z;
  BinaryMessage : Z;
  SetWriteDeadline : Z -> GoM S unit;
  SetReadDeadline : Z -> GoM S unit;
  ws_WriteMessage : Z -> string -> GoM S (option E);
  ws_ReadMessage : GoM S (Z * string * option E);
  ws_Close : GoM S (option E);
  ws_RemoteAddr : TCPAddr }.

Record WsServerOptions := MkWsServerOptions { ReadTimeout : Z; WriteTimeout : Z }.

Section websocket.
Context {S E : Type} `{Websocket_ S E}.

Definition wrapError (err : option E) : GoM S error :=
  match err with
  | None => ret nil_error
  | Some err =>
      if IsUnexpectedCloseError err then ret (errors_New ErrClosed)
      else if IsCloseError err then ret (errors_New ErrClosed)
      else if strings_Contains (ws_Error err) "An existing connection was forcibly closed by the remote host"
      then let! _ := ws_Close in ret (errors_New ErrClosed)
      else if strings_Contains (ws_Error err) "use of closed network conn"
      then let! _ := ws_Close in ret (errors_New ErrClosed)
      else if strings_Contains (ws_Error err) "i/o timeout" then ret (errors_New ErrReadTimeout)
      else ret (Some (ws_Error err))
  end.

Definition WsConnection_Write (o : WsServerOptions) (now : Z) (data : string) : GoM S error :=
  SetWriteDeadline (now + WriteTimeout o) ;;;
  let! err := ws_WriteMessage TextMessage data in
  wrapError err.

Definition WsConnection_Read (o : WsServerOptions) (now : Z) : GoM S (string * error) :=
  SetReadDeadline (now + ReadTimeout o) ;;;
  let! r := ws_ReadMessage in
  let '(msgType, bytes, err) := r in
  match err with
  | Some _ => let! e := wrapError err in ret ("", e)
  | None =>
      if bool_decide (msgType ∈ [TextMessage; PingMessage; BinaryMessage]) then ret (bytes, nil_error)
      else ret ("", errors_New ErrBadPackage)
  end.

Definition WsConnection_Close : GoM S error := let! err := ws_Close in wrapError err.

(** [NewWsConnection], as a [Connection] read and written at the time [now]. *)
Definition NewWsConnection (o : WsServerOptions) (now : Z) : Connection S := {|
  c_Write := WsConnection_Write o now; c_Read := WsConnection_Read o now; c_Close := WsConnection_Close;
  c_GetConnInfo := conn_info (ws_RemoteAddr (S := S) (E := E)) |}.
End websocket.

(** [NewWsServer]: the options it keeps. *)
Definition minute : Z := 60 * second.
Definition NewWsServer (options : option WsServerOptions) : WsServerOptions :=
  default (MkWsServerOptions (8 * minute) (8 * minute)) options.

(** The options [NewWebsocketServer] of the gateway passes. *)
Definition websocket_options : WsServerOptions := NewWsServer (Some (MkWsServerOptions (3 * minute) (3 * minute))).

(** ** TCP connections *)

(** [net.TCPConn]: [Read] fills the buffer it is given, which keeps its length. *)
Class TcpSocket_ (S : Type) := {
  tcp_Write : string -> GoM S error;
  tcp_Read : string -> GoM S (string * error);
  tcp_Close : GoM S error;
  tcp_RemoteAddr : TCPAddr;
  tcp_Read_length b s b' e s' : tcp_Read b s = (Val (b', e), s') -> String.length b' = String.length b }.

Definition NewTcpConn {S} `{TcpSocket_ S} : Connection S := {|
  c_Write data := tcp_Write data;
  c_Read := let! r := tcp_Read "" in ret (r.1, r.2);       (* [var b []byte] *)
  c_Close := tcp_Close;
  c_GetConnInfo := conn_info (tcp_RemoteAddr (S := S)) |}.

(** ** What a read does to the client *)

(** The frame the reader of the gateway makes of what [Read] returned. *)
Definition frame_of (r : string * error) : string + string :=
  match r.2 with Some err => inr err | None => inl r.1 end.

(** The events of an error that is not a decoding error: the client exits. *)
Lemma broken_connection_exits `{BlockCipher} err r c w :
  IsDecodeError (Some err) = false -> gate_inv w -> heap w !! r = Some c -> state c <> stateClosed ->
  read_loop r (ReadCh [inr err]) w = (Val true, leave (route (gate_id w) (info_ID (info c))) r c w).
Proof.
  intros Hd Hi Hr Hs.
  assert (E : ReadCh [inr err] = [ReadError err; ReadNil]) by (cbn [ReadCh Read]; unfold errors_New; by rewrite Hd).
  rewrite E. cbn [read_loop].
  pose proof (Exit_cases r w Hi) as Hex. rewrite Hr in Hex. set (w1 := leave _ r c w) in *.
  assert (Hex1 : Exit r w = (Val tt, w1)) by (rewrite Hex; by destruct (state c)).
  rewrite (bind_Val (recovered r (runRead r (ReadError err))) _ w true w1).
  2: { apply recovered_Val. unfold runRead. by rewrite Hd, (bind_Val _ _ _ _ _ Hex1). }
  cbv iota. rewrite (bind_Val (recovered r (runRead r ReadNil)) _ w1 true w1); [done |].
  apply recovered_Val. unfold runRead. rewrite (bind_Val (Exit r) _ w1 tt w1); [done |].
  apply (Exit_closed_run r (exited c)); [apply lookup_insert_eq | unfold exited; by destruct (CloseImmediately _)].
Qed.

Lemma left_client id r c w :
  clients (leave id r c w) = delete id (clients w) /\ exists c', heap (leave id r c w) !! r = Some c' /\ state c' = stateClosed.
Proof.
  split; [done |]. exists (exited c). split; [apply lookup_insert_eq |]. unfold exited. by destruct (CloseImmediately _).
Qed.

Lemma wrapError_returns {S E} `{Websocket_ S E} (err : E) (s : S) :
  (forall s0, exists e s2, (ws_Close (S := S) (E := E) s0) = (Val e, s2)) ->
  exists e s', wrapError (Some err) s = (Val (Some e), s') /\ (e = ErrClosed \/ e = ErrReadTimeout \/ e = ws_Error err).
Proof.
  intros Hclose. destruct (Hclose s) as (e0 & s0 & Hc). unfold wrapError.
  repeat case_match; rewrite ?(bind_Val _ _ _ _ _ Hc); eexists _, _; (split; [reflexivity | tauto]).
Qed.

Lemma decode_message_flagged bytes :
  match (decode_message bytes).1 with Some e => IsDecodeError (Some e) = true | None => True end.
Proof.
  unfold decode_message, Decode. destruct (Unmarshal message_fields bytes NewEmptyMessage) as [[e |] m]; [| done].
  exact (HasPrefix_app errDecode e).
Qed.

(** The notice of a text that does not decode. *)
Lemma told_of_error `{BlockCipher} e r c w :
  IsDecodeError (Some e) = true -> gate_inv w -> heap w !! r = Some c -> state c <> stateClosed ->
  exists w', read_loop r [ReadError e] w = (Val true, w') /\ clients w' = clients w /\
    heap w' !! r = Some (queued_one (Some (NewMessage 0 ActionNotifyError (PString e))) c).
Proof.
  intros Hd Hi Hr Hs. set (m := Some (NewMessage 0 ActionNotifyError (PString e))).
  exists (set_heap (<[r := queued_one m c]> (heap w)) w).
  split; [| by split; [| apply lookup_insert_eq]]. cbn [read_loop].
  rewrite (bind_Val (recovered r (runRead r (ReadError e))) _ w true (set_heap (<[r := queued_one m c]> (heap w)) w)); [done |].
  apply recovered_Val. unfold runRead. rewrite Hd. erewrite (bind_Val (client_EnqueueMessage r m)); [done |].
  apply client_EnqueueMessage_run; [done | done |]. eauto using not_closed_open, gi_clients.
Qed.

(** C21: what a read of a WebSocket connection does to its client. An error of the connection (unless its text
    looks like a decoding error) or a frame that is neither text, nor binary, nor a ping makes the
    client exit and takes its ID out of the gateway; a text that does not decode leaves it registered and
    queues a notice of the error for it; a text that decodes reaches it as that message. *)
Theorem frame_outcome {S E} `{Websocket_ S E} `{BlockCipher} o now s r c w ty bytes err s1 :
  gate_inv w -> heap w !! r = Some c -> state c <> stateClosed ->
  ws_ReadMessage (SetReadDeadline (now + ReadTimeout o) s).2 = (Val (ty, bytes, err), s1) ->
  (SetReadDeadline (now + ReadTimeout o) s).1 = Val tt ->
  (forall e, err = Some e -> IsDecodeError (Some (ws_Error e)) = false) ->
  (forall s0, exists e s2, (ws_Close (S := S) (E := E) s0) = (Val e, s2)) ->
  exists res s2, WsConnection_Read o now s = (Val res, s2) /\
    if bool_decide (err = None /\ ty ∈ [TextMessage; PingMessage; BinaryMessage]) then
      match decode_message bytes with
      | (None, m) => ReadCh [frame_of res] = [ReadMessage m]
      | (Some e, _) => exists w', read_loop r (ReadCh [frame_of res]) w = (Val true, w') /\ clients w' = clients w /\
          heap w' !! r = Some (queued_one (Some (NewMessage 0 ActionNotifyError (PString e))) c)
      end
    else exists w', read_loop r (ReadCh [frame_of res]) w = (Val true, w') /\
      clients w' = delete (route (gate_id w) (info_ID (info c))) (clients w) /\
      exists c', heap w' !! r = Some c' /\ state c' = stateClosed.
Proof.
  intros Hi Hr Hs Hread Hset Hplain Hclose.
  assert (Hrun : forall k : Z * string * option E -> GoM S (string * error),
    (SetReadDeadline (now + ReadTimeout o) ;;; let! res := ws_ReadMessage in k res) s = k (ty, bytes, err) s1).
  { intros k. unfold bind. destruct (SetReadDeadline _ s) as [u s0]. cbn in Hset, Hread. subst u. by rewrite Hread. }
  unfold WsConnection_Read. rewrite Hrun. clear Hrun. destruct err as [err |].
  - destruct (wrapError_returns err s1 Hclose) as (e & s2 & Hw & He).
    exists ("", Some e), s2. erewrite bind_Val by done. split; [done |].
    rewrite bool_decide_false by (by intros [? _]).
    eexists. split; [apply broken_connection_exits; try done | apply left_client].
    destruct He as [-> | [-> | ->]]; [done | done | by apply Hplain].
  - destruct (bool_decide_reflect (ty ∈ [TextMessage; PingMessage; BinaryMessage])) as [Hty | Hty].
    + exists (bytes, nil_error), s1. split; [done |]. rewrite bool_decide_true by done.
      cbn [frame_of fst snd ReadCh Read]. pose proof (decode_message_flagged bytes) as Hf.
      destruct (decode_message bytes) as [[e |] m]; [| done].
      change (IsDecodeError (Some e) = true) in Hf. rewrite Hf. by apply told_of_error.
    + exists ("", errors_New ErrBadPackage), s1. split; [done |]. rewrite bool_decide_false by (by intros [_ ?]).
      eexists. split; [by apply broken_connection_exits | apply left_client].
Qed.

(** A TCP connection reads into a buffer of no bytes: whatever the peer sends, [Read] returns none of it. *)
Theorem tcp_reads_nothing {S} `{TcpSocket_ S} (s : S) bytes e s' :
  c_Read NewTcpConn s = (Val (bytes, e), s') -> bytes = "".
Proof.
  cbn. intros ([b e0] & s1 & Hr & [= <- <- <-])%bind_Val_inv. apply tcp_Read_length in Hr. by destruct b.
Qed.

(** ** A concrete connection *)

#[local] Existing Instance flip_cipher.

(** The peer closes after one text that is not JSON: the state is what is left to read. *)
#[local] Instance demo_websocket : Websocket_ (list (Z * string)) string := {|
  ws_Error e := e;
  IsUnexpectedCloseError e := strings_HasPrefix e "websocket: close";
  IsCloseError _ := false;
  TextMessage := 1; PingMessage := 9; BinaryMessage := 2;
  SetWriteDeadline _ := ret tt;
  SetReadDeadline _ := ret tt;
  ws_WriteMessage _ _ := ret None;
  ws_ReadMessage l := match l with
                      | [] => (Val (-1, "", Some "websocket: close 1006"), [])
                      | (ty, text) :: l' => (Val (ty, text, None), l')
                      end;
  ws_Close := ret None;
  ws_RemoteAddr := MkTCPAddr "10.0.0.1" 50000 "10.0.0.1:50000" |}.

Definition demo_ws : WsServerOptions := websocket_options.

Lemma frame_outcome_witness :
  exists c res w', heap demo_w1 !! 0%nat = Some c /\ WsConnection_Read demo_ws 0 [] = (Val res, []) /\
    read_loop 0 (ReadCh [frame_of res]) demo_w1 = (Val true, w') /\
    clients w' = delete (route (gate_id demo_w1) (info_ID (info c))) (clients demo_w1).
Proof.
  destruct (demo_w1_running 0) as (c & Hr & Hs & _); [lia |].
  destruct (frame_outcome demo_ws 0 [] 0 c demo_w1 (-1) "" (Some "websocket: close 1006") [])
    as (res & s2 & H1 & H2).
  - exact demo_w1_inv.
  - exact Hr.
  - by rewrite Hs.
  - reflexivity.
  - reflexivity.
  - by intros e [= <-].
  - intros s0. by eexists _, _.
  - rewrite bool_decide_false in H2 by (by intros [? _]). destruct H2 as (w' & H2 & H3 & _).
    assert (Hs2 : s2 = []) by (injection H1; done). subst s2. exists c, res, w'. exact (conj Hr (conj H1 (conj H2 H3))).
Defined.

(** The two reads of the connection, and what the gateway makes of them. *)
Example demo_frames :
  let (r1, l1) := WsConnection_Read demo_ws 0 [(1, "not json")] in
  (r1, (WsConnection_Read demo_ws 0 l1).1) = (Val ("not json", nil_error), Val ("", errors_New ErrClosed)).
Proof. reflexivity. Qed.

#[local] Instance demo_socket : TcpSocket_ unit.
Proof. refine {| tcp_Write _ := ret nil_error; tcp_Read b := ret (b, nil_error); tcp_Close := ret nil_error;
    tcp_RemoteAddr := MkTCPAddr "10.0.0.1" 50000 "10.0.0.1:50000" |}. by intros ????? [= <- _ _]. Defined.

Lemma tcp_reads_nothing_witness : exists bytes, c_Read (S := unit) NewTcpConn tt = (Val (bytes, nil_error), tt) /\ bytes = "".
Proof. eexists. split; [reflexivity |]. exact (tcp_reads_nothing tt _ nil_error tt eq_refl). Defined.
