(* ===== verification/Listeners.v ===== *)
(** * The servers that accept connections

    [WsServer] and [TcpServer] of [pkg/conn], and [WebsocketGatewayServer.Run] of [pkg/gate/gateway.go], which makes a
    client of every connection. [net/http] and [net] are libraries: what they accept, and the error
    they end with, are parameters; [serves] is what the code relies on. Requests are served one after the
    other, each to its end; what the clients do meanwhile is [Gate]'s. *)

From S2P Require Import Prelude GoStrings Json Messages GateId Credentials Gate GateSpec GateProps Conn.

Local Open Scope Z_scope.
Local Open Scope go_scope.

(** ** WebSocket servers *)

Section websocket.
Context {S Req : Type}.

(** The default mux of [net/http]: its handlers by pattern. *)
Abbreviation mux := (gmap string (Req -> GoM S unit)).

(** [http.HandleFunc] panics when the pattern is taken. *)
Definition HandleFunc (pattern : string) (h : Req -> GoM S unit) : GoM mux unit :=
  let! m := get in
  match m !! pattern with
  | Some _ => panic ("http: multiple registrations for " ++ pattern)%string
  | None => put (<[pattern := h]> m)
  end.

Record WsServer := MkWsServer { ws_options : WsServerOptions; ws_handler : option (Connection S -> GoM S unit) }.

Definition new_WsServer (options : option WsServerOptions) : WsServer := MkWsServer (NewWsServer options) None.

Definition Ws_SetConnHandler (h : Connection S -> GoM S unit) (ws : WsServer) : WsServer := MkWsServer (ws_options ws) (Some h).

(** [Upgrade] is [upgrader.Upgrade] followed by [NewWsConnection] with the server's options. *)
Context (Upgrade : WsServerOptions -> Req -> GoM S (option (Connection S))).

Definition handleWebSocketRequest (ws : WsServer) (request : Req) : GoM S unit :=
  let! upgraded := Upgrade (ws_options ws) request in
  match upgraded with
  | None => ret tt
  | Some c =>
      match ws_handler ws with
      | Some h => h (ConnectionProxy c)
      | None => panic "nil func"
      end
  end.

Context (ListenAndServe : string -> mux -> GoM S error).

Definition WsServer_Run (ws : WsServer) (host : string) (port : Z) : GoM (mux * S) error :=
  zoom fst (fun m x => (m, x.2)) (HandleFunc "/ws" (handleWebSocketRequest ws)) ;;;
  let addr := (host ++ ":" ++ Itoa port)%string in
  let! m := gets fst in
  let! err := zoom snd (fun s x => (x.1, s)) (ListenAndServe addr m) in
  match err with Some err => ret (Some err) | None => ret nil_error end.

(** What [net/http] does with the requests for the path of a pattern. *)
Definition serves (requests : list Req) (err : error) : Prop :=
  forall addr m h s, m !! "/ws" = Some h ->
    ListenAndServe addr m s = (foreach requests h ;;; ret err) s.
End websocket.
Arguments WsServer : clear implicits.

(** ** TCP servers *)

Section tcp.
Context {S : Type}.

Record TcpServer := MkTcpServer { tcp_handler : option (Connection S -> GoM S unit) }.
Definition NewTcpServer : TcpServer := MkTcpServer None.
Definition Tcp_SetConnHandler (h : Connection S -> GoM S unit) (t : TcpServer) : TcpServer := MkTcpServer (Some h).

(** The loop, on what [AcceptTCP] returns: the error that ends it, or [None] while it
    waits for the next connection. *)
Fixpoint accept_loop (t : TcpServer) (accepted : list (Connection S + string)) : GoM S (option string) :=
  match accepted with
  | [] => ret None
  | inr err :: _ => ret (Some err)
  | inl c :: accepted' =>
      match tcp_handler t with
      | Some h => h (ConnectionProxy c) ;;; accept_loop t accepted'
      | None => panic "nil func"
      end
  end.

Context (ListenTCP : string -> Z -> GoM S (list (Connection S + string) + string)).

Definition TcpServer_Run (t : TcpServer) (host : string) (port : Z) : GoM S (option string) :=
  let! tcp := ListenTCP host port in
  match tcp with inr err => ret (Some err) | inl accepted => accept_loop t accepted end.
End tcp.
Arguments TcpServer : clear implicits.

(** A TCP server hands every connection it accepts to its handler, in order, until accepting fails. *)
Lemma accept_loop_foreach {S} (h : Connection S -> GoM S unit) l err rest s :
  accept_loop (Tcp_SetConnHandler h NewTcpServer) ((inl <$> l) ++ inr err :: rest) s =
  (foreach l (fun c => h (ConnectionProxy c)) ;;; ret (Some err)) s.
Proof.
  revert s. induction l as [| c l IH]; intros s; [done |]. cbn [fmap list_fmap app accept_loop foreach Tcp_SetConnHandler tcp_handler].
  unfold bind. destruct (h (ConnectionProxy c) s) as [[u | why] s']; [apply IH | done].
Qed.

(** ** The gateway's server *)

Record WebsocketGatewayServer := MkGatewayServer { gs_addr : string; gs_port : Z; gs_server : WsServer World }.

Definition new_gateway_server (addr : string) (port : Z) : WebsocketGatewayServer :=
  MkGatewayServer addr port (new_WsServer (Some (MkWsServerOptions (3 * minute) (3 * minute)))).

Section gateway.
Context {Req : Type}.
Context (Upgrade : WsServerOptions -> Req -> GoM World (option (Connection World))).
Context (ListenAndServe : string -> gmap string (Req -> GoM World unit) -> GoM World error).
(** The bytes [crypto/rand] returns for the temporary ID. *)
Context (random : World -> list Z).

(** The handler [Run] sets; the new client gets a fresh reference. *)
Definition accept_client (c : Connection World) : GoM World unit := fun w =>
  (let! _ := HandleConnection (fresh (dom (heap w))) (Addr (c_GetConnInfo c)) (random w) in ret tt) w.

Definition Gateway_Run (g : WebsocketGatewayServer) : GoM (gmap string (Req -> GoM World unit) * World) error :=
  WsServer_Run Upgrade ListenAndServe (Ws_SetConnHandler accept_client (gs_server g)) (gs_addr g) (gs_port g).
End gateway.

(** ** Every connection becomes a client *)

Section clients.
Context (random : World -> list Z).

(** Accepting [c] in [w]. *)
Definition after_accept (c : Connection World) (w : World) : World := (accept_client random c w).2.

(** The temporary IDs of the connections accepted from [w] on are not in use. *)
Fixpoint ids_free (l : list (Connection World)) (w : World) : Prop :=
  match l with
  | [] => True
  | c :: l' => clients w !! GenTempID (gate_id w) (random w) = None /\ ids_free l' (after_accept c w)
  end.

(** [r] is a running client of the connection [c], under an ID of its own. *)
Definition serves_client (w : World) (r : nat) (c : Connection World) : Prop :=
  exists cl, heap w !! r = Some cl /\ state cl = stateRunning /\ CliAddr (info cl) = Addr (c_GetConnInfo c) /\
    clients w !! info_ID (info cl) = Some r.

Lemma accept_client_run c w :
  gate_inv w -> clients w !! GenTempID (gate_id w) (random w) = None ->
  let r := fresh (dom (heap w)) in
  accept_client random c w = (Val tt, after_accept c w) /\ gate_inv (after_accept c w) /\
  serves_client (after_accept c w) r c /\
  (forall r', r' <> r -> heap (after_accept c w) !! r' = heap w !! r') /\
  (forall id r', clients w !! id = Some r' -> clients (after_accept c w) !! id = Some r').
Proof.
  intros Hi Hid r.
  assert (Hr : heap w !! r = None) by (apply not_elem_of_dom, is_fresh).
  pose proof (gate_inv_HandleConnection r (Addr (c_GetConnInfo c)) (random w) w Hi Hr Hid) as Hi'.
  unfold after_accept, accept_client. fold r. rewrite bind_state.
  pose proof (HandleConnection_run r (Addr (c_GetConnInfo c)) (random w) w) as E. cbv zeta in E.
  rewrite (bind_Val _ _ _ _ _ E). rewrite E in *. cbn [snd] in *. split; [done |]. split; [done |]. split_and!.
  - eexists. cbn [heap clients set_heap set_clients]. rewrite lookup_insert_eq. split; [done |]. split; [done |]. split; [done |].
    apply lookup_insert_eq.
  - intros r' Hne. cbn [heap set_heap]. by rewrite lookup_insert_ne.
  - intros id r' Hc. cbn [clients set_heap set_clients]. rewrite lookup_insert_ne; [done |]. intros <-. cbn in *. congruence.
Qed.
(** The connections handed to the server one after the other. *)
Lemma accept_all l : forall w,
  gate_inv w -> ids_free l w ->
  exists rs w', foreach l (accept_client random) w = (Val tt, w') /\ gate_inv w' /\ NoDup rs /\
    Forall2 (serves_client w') rs l /\ (forall r, r ∈ rs -> heap w !! r = None) /\
    (forall r, is_Some (heap w !! r) -> heap w' !! r = heap w !! r) /\
    (forall id r, clients w !! id = Some r -> clients w' !! id = Some r).
Proof.
  induction l as [| c l IH]; intros w Hi Hfree.
  - exists [], w. split_and!; try done; [by apply NoDup_nil | by intros r ?%elem_of_nil].
  - destruct Hfree as [Hid Hfree]. destruct (accept_client_run c w Hi Hid) as (Hrun & Hi1 & Hserve & Hheap & Hcl).
    set (r := fresh (dom (heap w))) in *. assert (Hr : heap w !! r = None) by (apply not_elem_of_dom, is_fresh).
    destruct (IH _ Hi1 Hfree) as (rs & w' & Hrun' & Hi' & Hnd & Hall & Hnew & Hold & Hids).
    assert (Hrr : r ∉ rs) by (intros Hin%Hnew; destruct Hserve as (cl & Hcl' & _); congruence).
    exists (r :: rs), w'. split_and!; [| done | by apply NoDup_cons | | | |].
    + cbn [foreach]. by rewrite (bind_Val _ _ _ _ _ Hrun).
    + constructor; [| done]. destruct Hserve as (cl & H1 & H2 & H3 & H4).
      exists cl. split_and!; [rewrite Hold; [done | by eexists] | done | done | by apply Hids].
    + intros r' [-> | Hin]%elem_of_cons; [done |]. rewrite <- Hheap; [by apply Hnew | by intros ->].
    + intros r' Hr'. assert (r' <> r) by (intros ->; rewrite Hr in Hr'; by destruct Hr').
      rewrite Hold; rewrite Hheap; done.
    + intros id r' Hc. by apply Hids, Hcl.
Qed.
End clients.

Section serving.
Context {Req : Type}.
Context (Upgrade : WsServerOptions -> Req -> GoM World (option (Connection World))).
Context (upgraded : Req -> option (Connection World)).
Context (Upgrade_gate : forall o req w, Upgrade o req w = (Val (upgraded req), w)).

(** The server's handler on requests: those that cannot be upgraded leave nothing. *)
Lemma handle_requests o random requests w :
  foreach requests (handleWebSocketRequest Upgrade (MkWsServer o (Some (accept_client random)))) w =
  foreach (omap upgraded requests) (fun c => accept_client random (ConnectionProxy c)) w.
Proof.
  revert w. induction requests as [| req l IH]; intros w; [done |]. cbn [foreach omap list_omap].
  unfold handleWebSocketRequest at 1. unfold bind at 1. rewrite (bind_Val _ _ _ _ _ (Upgrade_gate _ req w)).
  destruct (upgraded req) as [c |]; cbn [ws_handler]; [| apply IH].
  cbn [foreach]. unfold bind. destruct (accept_client random (ConnectionProxy c) w) as [[u | why] w1]; [apply IH | done].
Qed.

(** the gateway's server makes a client of each connection: when [net/http] serves some requests and ends
    with an error, where upgrading does not touch the gateway and no temporary ID is drawn twice, [Run]
    returns that error, and each connection a request was upgraded to has become one running client of the gateway,
    new and registered under its own ID, with the peer's address; the clients there were are as they were. *)
Theorem gateway_serves_connections LAS random g requests err w :
  gate_inv w -> serves LAS requests err -> ids_free random (ConnectionProxy <$> omap upgraded requests) w ->
  exists rs m w', Gateway_Run Upgrade LAS random g (∅, w) = (Val err, (m, w')) /\ gate_inv w' /\ NoDup rs /\
    Forall2 (serves_client w') rs (omap upgraded requests) /\
    (forall r, r ∈ rs -> heap w !! r = None) /\ (forall r, is_Some (heap w !! r) -> heap w' !! r = heap w !! r) /\
    (forall id r, clients w !! id = Some r -> clients w' !! id = Some r).
Proof.
  intros Hi Hserves Hfree.
  destruct (accept_all random (ConnectionProxy <$> omap upgraded requests) w Hi Hfree) as (rs & w' & Hrun & Hi' & Hnd & Hall & Hrest).
  set (h := handleWebSocketRequest Upgrade (Ws_SetConnHandler (accept_client random) (gs_server g))).
  exists rs, {["/ws" := h]}, w'. split; [| split_and!; [done | done | | apply Hrest | apply Hrest | apply Hrest]].
  - unfold Gateway_Run, WsServer_Run.
    rewrite (bind_Val (zoom fst _ _) _ (∅, w) tt ({["/ws" := h]}, w)) by done.
    unfold bind at 1, gets. cbn [fst]. unfold bind, zoom. cbn [snd fst].
    rewrite (Hserves _ _ h) by (apply lookup_insert_eq).
    rewrite (bind_Val _ _ w tt w'); [by destruct err |].
    unfold h, Ws_SetConnHandler. rewrite handle_requests. rewrite <- Hrun. clear.
    generalize (omap upgraded requests) as l. intros l. revert w. induction l as [| c l IH]; intros w; [done |].
    cbn [foreach fmap list_fmap]. unfold bind. destruct (accept_client _ _ w) as [[u | why] w1]; [apply IH | done].
  - revert Hall. generalize (omap upgraded requests) as l. intros l Hall.
    apply Forall2_same_length_lookup_2; [by rewrite (Forall2_length _ _ _ Hall), length_fmap |].
    intros i r c Hr Hc. apply (Forall2_lookup_lr _ _ _ i r (ConnectionProxy c) Hall Hr). by rewrite list_lookup_fmap, Hc.
Qed.
End serving.

(** ** Two requests *)

(** The connection of a peer at [addr]; nothing is read from it here. *)
Definition peer (addr : string) : Connection World :=
  MkConnection (fun _ => ret nil_error) (ret ("", nil_error)) (ret nil_error) (MkConnectionInfo "" 0 addr).

Definition demo_requests : list (option (Connection World)) := [Some (peer "10.0.0.1:5"); None; Some (peer "10.0.0.2:6")].
Definition demo_upgrade (_ : WsServerOptions) (req : option (Connection World)) : GoM World (option (Connection World)) := ret req.
Definition demo_random (w : World) : list Z := demo_bytes (Z.of_nat (size (heap w))).
Definition demo_serve (_ : string) (m : gmap string (option (Connection World) -> GoM World unit)) : GoM World error :=
  match m !! "/ws" with
  | Some h => foreach demo_requests h ;;; ret (errors_New "http: Server closed")
  | None => ret nil_error
  end.

Lemma gateway_serves_connections_witness :
  exists rs m w', Gateway_Run demo_upgrade demo_serve demo_random (new_gateway_server "0.0.0.0" 8080) (∅, demo_w0) =
    (Val (errors_New "http: Server closed"), (m, w')) /\
    Forall2 (serves_client w') rs [peer "10.0.0.1:5"; peer "10.0.0.2:6"].
Proof.
  destruct (gateway_serves_connections demo_upgrade id (fun _ _ _ => eq_refl) demo_serve demo_random
    (new_gateway_server "0.0.0.0" 8080) demo_requests (errors_New "http: Server closed") demo_w0)
    as (rs & m & w' & H1 & _ & _ & H2 & _).
  - apply gate_inv_NewServer.
  - intros addr m h s Hm. unfold demo_serve. by rewrite Hm.
  - by vm_compute.
  - exists rs, m, w'. exact (conj H1 H2).
Defined.
