(* ===== verification/Pipeline.v ===== *)
(** * From the pool of the gateway to the connection

    A message the gateway accepts is a task of its pool; the task puts it in the queue of a client, and the
    client's write loop writes what is queued. The pool's workers run in any order, so the
    messages of one client are written in some order, all of them and nothing else
    ([submitted_messages_are_written]). *)

From S2P Require Import Prelude GoStrings Json Messages GateId Credentials Gate GateSpec GateProps.

Local Open Scope Z_scope.
Local Open Scope go_scope.

(** ** Submitting *)

(** The task the gateway submits for an ID, when its client runs. *)
Definition task_at (w : World) (m : option GlideMessage) (i : ID) : option (nat * option GlideMessage) :=
  match clients w !! route (gate_id w) i with
  | Some r =>
      match heap w !! r with
      | Some c => if state c is stateRunning then Some (r, m) else None
      | None => None
      end
  | None => None
  end.

Lemma task_at_pool l w m i : task_at (set_pool l w) m i = task_at w m i.
Proof. done. Qed.

Lemma EnqueueMessage_at i m w :
  gate_inv w -> Z.of_nat (length (pool w)) < pool_cap w ->
  exists e, EnqueueMessage i m w = (Val e, set_pool (pool w ++ option_list (task_at w m i)) w) /\
    (e = nil_error <-> is_Some (task_at w m i)).
Proof.
  intros Hi Hroom.
  assert (Hno : forall err : string, Some err = nil_error <-> is_Some (@None (nat * option GlideMessage)))
    by (intros err; split; [done | by intros [? [=]]]).
  unfold task_at. destruct (clients w !! route (gate_id w) i) as [r |] eqn:Hid.
  - destruct (gi_registered _ Hi _ _ Hid) as (c & Hr & _). rewrite Hr. destruct (state c) eqn:Hs.
    2: { exists nil_error. split; [by erewrite EnqueueMessage_run | by split; [eauto |]]. }
    all: exists (errors_New errClientClosed); split; [| apply Hno]; unfold EnqueueMessage, gateway_id, lookup_client;
      do 2 run_step; rewrite Hid, (gate_enqueue_run _ _ c), Hs by done; cbn; rewrite app_nil_r; by destruct w.
  - exists (errors_New errClientNotExist). split; [| apply Hno].
    unfold EnqueueMessage, gateway_id, lookup_client. do 2 run_step. rewrite Hid. cbn. rewrite app_nil_r. by destruct w.
Qed.

Lemma gate_inv_submitted w m i : gate_inv w -> gate_inv (set_pool (pool w ++ option_list (task_at w m i)) w).
Proof.
  intros Hi. apply gate_inv_pool; [done |]. intros r m0 [Hin | Hin]%elem_of_app; [by eapply gi_pool |].
  unfold task_at in Hin. destruct (clients w !! route (gate_id w) i) as [r0 |]; [| by apply not_elem_of_nil in Hin].
  destruct (heap w !! r0) as [c |] eqn:Hr; [| by apply not_elem_of_nil in Hin].
  destruct (state c); try (by apply not_elem_of_nil in Hin).
  apply list_elem_of_singleton in Hin. injection Hin as -> ->. by exists c.
Qed.

(** ** Running the pool *)

(** The client after a task for it has run. *)
Definition offered (m : option GlideMessage) (c : UserClient) : UserClient :=
  if state c is stateClosed then c else queued_one m c.

Lemma run_pool_task n r m c w :
  gate_inv w -> pool w !! n = Some (r, m) -> heap w !! r = Some c ->
  run_pool n w = (Val tt, set_heap (<[r := offered m c]> (heap w)) (set_pool (delete n (pool w)) w)).
Proof.
  intros Hi Hp Hr. unfold run_pool. run_step. rewrite Hp. run_step. unfold offered.
  pose proof (gi_clients _ Hi _ _ Hr) as Hc. destruct (state c) eqn:Hs.
  3: { erewrite (bind_Val (client_EnqueueMessage r m)) by (by apply (client_EnqueueMessage_closed r m c)).
       rewrite insert_id by done. by destruct w. }
  all: assert (Hne : state c <> stateClosed) by congruence;
    by erewrite (bind_Val (client_EnqueueMessage r m)) by (apply (client_EnqueueMessage_run r m c); eauto using not_closed_open).
Qed.

(** The workers take the tasks in the order of [ns]. *)
Definition run_pools (ns : list nat) : GoM World unit := foreach ns run_pool.

(** The messages of a client among the tasks. *)
Definition tasks_of (r : nat) (l : list (nat * option GlideMessage)) : list (option GlideMessage) :=
  omap (fun p => if decide (p.1 = r) then Some p.2 else None) l.

Lemma tasks_of_delete r l n r' m :
  l !! n = Some (r', m) ->
  tasks_of r l ≡ₚ (if decide (r' = r) then [m] else []) ++ tasks_of r (delete n l).
Proof.
  intros Hn. unfold tasks_of. rewrite (delete_Permutation l n (r', m)) at 1 by done.
  cbn [omap list_omap fst snd]. by destruct (decide (r' = r)).
Qed.

(** Running tasks until none is left offers each client its messages, in some order. *)
Lemma run_pools_offer ns r : forall w w' c,
  gate_inv w -> heap w !! r = Some c -> run_pools ns w = (Val tt, w') ->
  gate_inv w' /\ exists ms, heap w' !! r = Some (foldl (fun c m => offered m c) c ms) /\
    ms ++ tasks_of r (pool w') ≡ₚ tasks_of r (pool w).
Proof.
  unfold run_pools. induction ns as [| n ns IH]; intros w w' c Hi Hr Hrun; cbn [foreach] in Hrun.
  - injection Hrun as <-. split; [done |]. by exists [].
  - destruct (pool w !! n) as [[r' m] |] eqn:Hn.
    + destruct (gi_pool _ Hi r' m) as [c' Hr']; [by eapply list_elem_of_lookup_2 |].
      pose proof (preserves_run_pool n w Hi) as Hi1. pose proof (run_pool_task n r' m c' w Hi Hn Hr') as H1.
      rewrite H1 in Hi1. rewrite (bind_Val _ _ _ _ _ H1) in Hrun. cbn [snd] in Hi1.
      set (w1 := set_heap _ _) in *.
      assert (Hr1 : heap w1 !! r = Some (if decide (r' = r) then offered m c else c)).
      { unfold w1. cbn [heap set_heap set_pool]. destruct (decide (r' = r)) as [-> | Hne].
        - rewrite lookup_insert_eq. congruence.
        - by rewrite lookup_insert_ne. }
      destruct (IH w1 w' _ Hi1 Hr1 Hrun) as (Hi' & ms & Hms & Hp). split; [done |].
      exists ((if decide (r' = r) then [m] else []) ++ ms). split; [by destruct (decide (r' = r)) |].
      rewrite (tasks_of_delete r (pool w) n r' m Hn), <- app_assoc. by rewrite Hp.
    + assert (H1 : run_pool n w = (Val tt, w)) by (unfold run_pool; run_step; by rewrite Hn).
      rewrite (bind_Val _ _ _ _ _ H1) in Hrun. by apply (IH w w' c).
Qed.

(** The workers get to the end: as many tasks as there are. *)
Lemma run_pools_drain n : forall w,
  gate_inv w -> length (pool w) = n -> exists w', run_pools (replicate n 0%nat) w = (Val tt, w') /\ pool w' = [].
Proof.
  induction n as [| n IH]; intros w Hi Hn.
  - exists w. split; [done | by apply nil_length_inv].
  - destruct (pool w) as [| [r m] l] eqn:Hp; [done |]. injection Hn as Hn.
    destruct (gi_pool _ Hi r m) as [c Hr]; [rewrite Hp; constructor |].
    assert (H0 : pool w !! 0%nat = Some (r, m)) by (by rewrite Hp).
    pose proof (preserves_run_pool 0 w Hi) as Hi1. pose proof (run_pool_task 0 r m c w Hi H0 Hr) as H1. rewrite H1 in Hi1.
    destruct (IH _ Hi1) as (w' & Hrun & Hp'); [by rewrite Hp |].
    exists w'. split; [| done]. unfold run_pools in *. cbn [replicate foreach]. by rewrite (bind_Val _ _ _ _ _ H1).
Qed.

(** With room in its queue, a running client takes them all. *)
Lemma offered_all ms : forall c,
  state c = stateRunning -> (length (messages c) + length ms <= msgs_cap)%nat ->
  exists q, foldl (fun c m => offered m c) c ms = with_messages q (messages c ++ ms) c.
Proof.
  induction ms as [| m ms IH]; intros c Hs Hroom.
  - exists (queuedMessage c). rewrite app_nil_r. by destruct c.
  - cbn [length] in Hroom. cbn [foldl]. unfold offered at 2, queued_one. rewrite Hs.
    rewrite (proj2 (Nat.ltb_lt _ _)) by lia. set (c1 := with_messages _ _ c).
    destruct (IH c1) as [q ->]; [done | unfold c1; cbn; rewrite length_app; cbn; lia |].
    exists q. unfold c1. cbn. by rewrite <- app_assoc.
Qed.

(** ** Writing *)

(** The write loop, woken by [n] messages. *)
Fixpoint run_writes (n : nat) (r : nat) : GoM World bool :=
  match n with
  | O => ret true
  | S n' => let! go := recovered r (runWrite r (WriteMessage true)) in if go : bool then run_writes n' r else ret false
  end.

Lemma run_writes_run r ms : forall c w,
  heap w !! r = Some c -> messages c = Some <$> ms ->
  exists c', run_writes (length ms) r w = (Val true, set_heap (<[r := c']> (heap w)) w) /\
    conn c' = conn c ++ texts (messages c) /\ messages c' = [] /\ state c' = state c.
Proof.
  induction ms as [| m ms IH]; intros c w Hr Hm.
  - exists c. cbn [length run_writes]. rewrite Hm. cbn. rewrite app_nil_r, insert_id by done. by destruct w.
  - cbn [length run_writes].
    pose proof (runWrite_message r true c w m _ Hr Hm) as H1.
    erewrite bind_Val by (by apply recovered_Val). cbv iota. set (c1 := written _ _ _). set (w1 := set_heap _ w).
    destruct (IH c1 w1) as (c' & Hrun & Hconn & Hmsg & Hst).
    + apply lookup_insert_eq.
    + unfold c1. by rewrite messages_written.
    + exists c'. split; [| split_and!; [| done |]].
      * rewrite Hrun. unfold w1. cbn [heap set_heap]. rewrite insert_insert_eq. by destruct w.
      * rewrite Hconn. unfold c1. rewrite conn_written, messages_written. cbn [conn messages dequeued with_messages].
        rewrite Hm, <- app_assoc. f_equal. symmetry. apply texts_cons.
      * rewrite Hst. exact (proj1 (keeps_identity_written (Some m) true (dequeued _ c))).
Qed.

(** One message is written alone. *)
Lemma written_at_the_end ns r m c w w1 :
  gate_inv w -> heap w !! r = Some c -> state c = stateRunning -> messages c = [] -> tasks_of r (pool w) = [Some m] ->
  run_pools ns w = (Val tt, w1) -> pool w1 = [] ->
  exists w2 c', run_writes 1 r w1 = (Val true, w2) /\ heap w2 !! r = Some c' /\ conn c' = conn c ++ texts [Some m].
Proof.
  intros Hi Hr Hs Hm0 Hms Hrun Hp1. destruct (run_pools_offer ns r w w1 c Hi Hr Hrun) as (Hi1 & ms & Hr1 & Hperm).
  rewrite Hp1, Hms in Hperm. cbn in Hperm. rewrite app_nil_r in Hperm. apply Permutation_singleton_r in Hperm as ->.
  destruct (offered_all [Some m] c) as [q E]; [done | rewrite Hm0; cbn; unfold msgs_cap; lia |].
  rewrite E, Hm0 in Hr1. destruct (run_writes_run r [m] _ w1 Hr1 eq_refl) as (c' & Hw & Hconn & _).
  eexists _, c'. split; [exact Hw |]. split; [apply lookup_insert_eq | exact Hconn].
Qed.

(** C9: every message submitted for a running client with room in its queue is written to its
    connection, once, and nothing else is: in whatever order the workers of the pool run the tasks that
    wait, the client's write loop then writes what was queued and the submitted messages. *)
Theorem submitted_messages_are_written ns r ms0 ms c w w1 :
  gate_inv w -> heap w !! r = Some c -> state c = stateRunning ->
  messages c = Some <$> ms0 -> tasks_of r (pool w) = Some <$> ms -> (length ms0 + length ms <= msgs_cap)%nat ->
  run_pools ns w = (Val tt, w1) -> pool w1 = [] ->
  exists ms' c' w2, ms' ≡ₚ ms /\ run_writes (length ms0 + length ms) r w1 = (Val true, w2) /\
    heap w2 !! r = Some c' /\ messages c' = [] /\ conn c' = conn c ++ texts (Some <$> ms0 ++ ms').
Proof.
  intros Hi Hr Hs Hm0 Hms Hroom Hrun Hp1.
  destruct (run_pools_offer ns r w w1 c Hi Hr Hrun) as (Hi1 & ms1 & Hr1 & Hperm).
  rewrite Hp1, Hms in Hperm. cbn in Hperm. rewrite app_nil_r in Hperm.
  destruct (Permutation_map_inv _ _ Hperm) as (ms' & -> & Hms').
  assert (Hlen : length ms' = length ms) by (by rewrite Hms').
  destruct (offered_all (Some <$> ms') c) as [q E]; [done | rewrite Hm0, !length_fmap; lia |].
  rewrite Hm0, <- fmap_app in E. change (map Some ms') with (Some <$> ms') in Hr1. rewrite E in Hr1.
  destruct (run_writes_run r (ms0 ++ ms') _ w1 Hr1 eq_refl) as (c' & Hw & Hconn & Hmsg & _).
  rewrite length_app, Hlen in Hw. exists ms', c', (set_heap (<[r := c']> (heap w1)) w1).
  split; [by symmetry |]. split; [exact Hw |].
  split; [apply lookup_insert_eq |]. split; [done |]. exact Hconn.
Qed.

#[local] Existing Instance flip_cipher.

(** Two messages for one client, run in the other order. *)
Definition demo_w4 : World :=
  run_ops demo_w1 [OpWrite 0 (WriteMessage true); OpEnqueue (NewID2 "alice") (Some (NewMessage 1 "a" PNil));
                   OpEnqueue (NewID2 "alice") (Some (NewMessage 2 "b" PNil))].

Lemma demo_w4_inv : gate_inv demo_w4.
Proof.
  apply gate_good_inv; [| vm_compute; reflexivity]. unfold demo_w4, run_ops, foldl. do 2 (apply gate_op_good; [exact I |]).
  apply gate_op_good; [| right; exact demo_w1_inv].
  intros _ c0 Hc0. assert (E : messages_closed <$> heap demo_w1 !! 0%nat = Some false) by (vm_compute; reflexivity).
  rewrite Hc0 in E. by injection E.
Qed.

Lemma submitted_messages_are_written_witness :
  exists ms' c c' w1 w2, heap demo_w4 !! 0%nat = Some c /\ run_pools [1; 0]%nat demo_w4 = (Val tt, w1) /\
    ms' ≡ₚ [NewMessage 1 "a" PNil; NewMessage 2 "b" PNil] /\ run_writes 2 0 w1 = (Val true, w2) /\
    heap w2 !! 0%nat = Some c' /\ conn c' = conn c ++ texts (Some <$> ms').
Proof.
  destruct (heap demo_w4 !! 0%nat) as [c |] eqn:Hr; [| vm_compute in Hr; discriminate].
  assert (E : (fun c => (state c, messages c)) <$> heap demo_w4 !! 0%nat = Some (stateRunning, []))
    by (vm_compute; reflexivity).
  rewrite Hr in E. injection E as E1 E2.
  destruct (run_pools [1; 0]%nat demo_w4) as [res w1] eqn:Hrun.
  assert (E : (run_pools [1; 0]%nat demo_w4).1 = Val tt /\ pool (run_pools [1; 0]%nat demo_w4).2 = [])
    by (split; vm_compute; reflexivity).
  rewrite Hrun in E. destruct E as [E3 E4]. cbn in E3, E4. subst res.
  destruct (submitted_messages_are_written [1; 0]%nat 0 [] [NewMessage 1 "a" PNil; NewMessage 2 "b" PNil] c demo_w4 w1)
    as (ms' & c' & w2 & H1 & H2 & H3 & _ & H4); [| done | done | done | | | done | done |].
  - exact demo_w4_inv.
  - vm_compute. reflexivity.
  - cbn. unfold msgs_cap. lia.
  - exists ms', c, c', w1, w2. exact (conj eq_refl (conj eq_refl (conj H1 (conj H2 (conj H3 H4))))).
Defined.
