(* ===== verification/System.v ===== *)
(** * The process: [cmd/im_service/main.go]

    The components put together the way [main] does: the gateway and the store are the environment of
    the channels, the channels, the gateway and the store are the environment of messaging,
    messaging handles what the gateway calls its handler with, and the RPC service calls the gateway
    and the channels. The store is any [Store_]; [main_store] of [Stores] is the one the
    configuration asks for. One state holds them all; what runs next is any step of any component. *)

From S2P Require Import Prelude GoStrings Json Messages GateId Channel ChannelSpec Subscription WorldChannel Credentials Gate GateSpec GateTyping Interfaces UserState Messaging Rpc Stores.

Local Open Scope Z_scope.
Local Open Scope go_scope.

(** ** The gateway and a store as the environment of the channels

    [gate_EnqueueMessage] of the environment promises not to panic: [gate_enqueue_keeps_promise]
    discharges it. *)

Section environment.
Context {T : Type} `{Store_ T}.

#[global] Instance World_ChanEnv : ChanEnv (World * T) := {|
  gate_EnqueueMessage i m x :=
    match EnqueueMessage i m x.1 with
    | (Val e, w) => (e, (w, x.2))
    | (Panics why, w) => (errors_New why, (w, x.2))
    end;
  StoreChannelMessage ch m x := let '(e, t) := st_StoreChannelMessage ch m x.2 in (e, (x.1, t));
  NextSegmentSequence ch i x := let '(r, t) := st_NextSegmentSequence ch i x.2 in (r, (x.1, t)) |}.

Lemma gate_enqueue_keeps_promise i m w (t : T) :
  gate_inv w -> exists e w', EnqueueMessage i m w = (Val e, w') /\ gate_EnqueueMessage i m (w, t) = (e, (w', t)).
Proof.
  intros Hi. destruct (EnqueueMessage_returns w i m Hi) as (e & w' & E). exists e, w'. split; [done |].
  unfold gate_EnqueueMessage, World_ChanEnv. cbn [fst snd]. by rewrite E.
Qed.
End environment.

(** Redis, on a state of its own. *)
Class Redis_ (R : Type) := {
  SAdd : string -> string -> R -> R;
  Expire : string -> Z -> R -> R;
  SMembers : string -> R -> (list string * error) * R;
  Del : string -> R -> R }.

Section process.
Context {T R : Type} `{Store_ T} `{Redis_ R} `{BlockCipher}.

(** The channels, the gateway and the store; and Redis. *)
Abbreviation Core := (SubState (E := World * T)).
Definition Env : Type := Core * R.

Definition on_world {A} (m : GoM World A) : GoM Env A :=
  zoom (fun x => x.1.2.1) (fun w x => ((x.1.1, (w, x.1.2.2)), x.2)) m.
Definition on_store {A} (m : GoM T A) : GoM Env A :=
  zoom (fun x => x.1.2.2) (fun t x => ((x.1.1, (x.1.2.1, t)), x.2)) m.
Definition on_core {A} (m : GoM Core A) : GoM Env A := zoom fst (fun c x => (c, x.2)) m.
Definition on_redis {A} (f : R -> A * R) : GoM Env A := zoom snd (fun r x => (x.1, r)) (fun r => let '(a, r') := f r in (Val a, r')).

#[global] Instance Env_Gateway : Gateway_ Env := {|
  gw_SetClientID old new := on_world (SetClientID old new);
  gw_UpdateClient i secrets := on_world (UpdateClient i secrets);
  gw_ExitClient i := on_world (ExitClient i);
  gw_EnqueueMessage i m := on_world (EnqueueMessage i m) |}.

(** [NewSubscribeWrap(subscription)] at the time [t]. *)
Definition Env_SubscribeWrap (t : Z) : SubscribeWrap_ Env :=
  let W : SubscribeWrap_ Core := NewSubscribeWrap t in {|
  sw_Subscribe ch i ex := on_core (sw_Subscribe ch i ex);
  sw_UnSubscribe ch i := on_core (sw_UnSubscribe ch i);
  sw_UpdateSubscriber ch i ex := on_core (sw_UpdateSubscriber ch i ex);
  sw_RemoveChannel ch := on_core (sw_RemoveChannel ch);
  sw_CreateChannel ch i := on_core (sw_CreateChannel ch i);
  sw_UpdateChannel ch i := on_core (sw_UpdateChannel ch i);
  sw_Publish ch m := on_core (sw_Publish ch m) |}.

(** [cInfo.ID]. *)
Definition read_ID (c : info_ref) : GoM World ID :=
  match c with
  | InfoCopy i => ret (info_ID i)
  | InfoOf r => let! cl := get_client r in ret (info_ID (Gate.info cl))
  end.

(** Messaging at the time [t], in milliseconds. *)
Definition Env_MsgEnv (t : Z) : MsgEnv Env := {|
  info_ID_of c := on_world (read_ID c);
  PublishMessage_ ch m := on_core (impl_PublishMessage t ch m);
  StoreMessage m := on_store (st_StoreMessage (t / 1000) m);
  StoreOffline m := on_store (st_StoreOffline m);
  redis_SAdd k v := on_redis (fun r => (tt, SAdd k v r));
  redis_Expire k d := on_redis (fun r => (tt, Expire k d r));
  redis_SMembers k := on_redis (SMembers k);
  redis_Del k := on_redis (fun r => (tt, Del k r)) |}.

(** ** The state and the steps *)

(** [dispatched]: how many of the calls of the gateway's handler were handed to messaging. [routines]: the
    goroutines of the world channel. *)
Record Process := MkProcess { body : MState Env; dispatched : nat; routines : list goroutine }.

Definition world (s : Process) : World := (m_env (body s)).1.2.1.
Definition stored (s : Process) : T := (m_env (body s)).1.2.2.
Definition channels (s : Process) : gmap ChanID Channel := (m_env (body s)).1.1.
Definition set_env (x : Env) (s : Process) : Process :=
  MkProcess (MkMState x (m_userState (body s)) (m_tasks (body s)) (m_spawned (body s))) (dispatched s) (routines s).
Definition set_body (b : MState Env) (s : Process) : Process := MkProcess b (dispatched s) (routines s).
Definition set_routines (l : list goroutine) (s : Process) : Process := MkProcess (body s) (dispatched s) l.

(** A step of the environment alone. *)
Definition env_step {A} (m : GoM Env A) (s : Process) : Process := set_env (m (m_env (body s))).2 s.

Definition drop_spawned (n : nat) (b : MState Env) : MState Env :=
  MkMState (m_env b) (m_userState b) (m_tasks b) (delete n (m_spawned b)).

(** [go world_channel.OnUserOnline(...)] and [OnUserOffline]: what the goroutine is called with. *)
Definition start_routine (g : spawned) : GoM World goroutine :=
  match g with
  | WorldOnline c => let! id := read_ID c in ret (Joining id)
  | WorldOffline id => ret (Leaving id)
  end.

(** The [n]th goroutine makes its next call; it is gone when it has ended or has panicked. *)
Definition run_routine (t nano : Z) (n : nat) (s : Process) : Process :=
  match routines s !! n with
  | None => s
  | Some g =>
      let '(r, c) := resume t nano g (m_env (body s)).1 in
      let rest := delete n (routines s) in
      set_routines (match r with Val (Some g') => rest ++ [g'] | _ => rest end)
        (set_env (c, (m_env (body s)).2) s)
  end.

(** The gateway calls its handler with its own events, which carry an ID, while it holds its mutex. When the pool of
    messaging refuses one and errors are reported, messaging asks the gateway to send the report, which
    waits for the mutex for ever ([refused_event_blocks_for_ever] of [ExitRace]): such a call does not return. *)
Definition own_event (m : GlideMessage) : bool := if Data m is Some (PID _) then true else false.
Definition blocks_itself (o : Options) (m : GlideMessage) (s : Process) : bool :=
  own_event m && NotifyServerError o && (MaxMessageConcurrency o <=? Z.of_nat (length (m_tasks (body s)))).

(** [order] is the order of the range over the default handlers. What an operation of the gateway brings
    in from outside is typed ([op_typed]): the readers' messages are decoded from frames. *)
Inductive step (o : Options) : Process -> Process -> Prop :=
  | step_gate op s : op_ok op (world s) -> op_typed op -> step o s (env_step (on_world (run_gate_op op)) s)
  | step_dispatch t c m s :
      handled (world s) !! dispatched s = Some (c, m) -> blocks_itself o m s = false ->
      step o s (MkProcess (Messaging.Handle (H0 := Env_MsgEnv t) o c m (body s)).2 (S (dispatched s)) (routines s))
  | step_task t order n s :
      order ≡ₚ default_map (H0 := Env_MsgEnv t) ->
      step o s (set_body (run_task (H0 := Env_MsgEnv t) o (default_chain order) n (body s)).2 s)
  | step_spawned n g gr s :
      m_spawned (body s) !! n = Some g -> (start_routine g (world s)).1 = Val gr ->
      step o s (set_routines (routines s ++ [gr]) (set_body (drop_spawned n (body s)) s))
  | step_routine t nano n s : step o s (run_routine t nano n s)
  | step_worker t ch g g' x s :
      channels s !! ch = Some g -> wstep t (g, (m_env (body s)).1.2) (g', x) ->
      step o s (set_env ((<[ch := g']> (channels s), x), (m_env (body s)).2) s)
  | step_rpc t fn q h s :
      serve (H0 := Env_SubscribeWrap t) fn q = Some h ->
      step o s (env_step (h zero_Response) s).

(** [main]: the gateway, no channels but the world channel, on the store in its state [st]. *)
Definition start (id key : string) (t : Z) (rnd : list (list Z)) (st : T) (r : R) : Process :=
  let core := (EnableWorldChannel t (∅ : gmap ChanID Channel, (NewWebsocketServer id key t rnd, st))).2 in
  MkProcess (MkMState (core, r) NewUserState [] []) 0 [].

Inductive reachable (o : Options) : Process -> Prop :=
  | reach_start id key t rnd st r : reachable o (start id key t rnd st r)
  | reach_step s s' : reachable o s -> step o s s' -> reachable o s'.
End process.
