(* ===== verification/SystemSpec.v ===== *)
(** * The invariants of the components hold in the whole process

    What a component's environment keeps is kept by the component's operations; so the gateway's
    invariant survives the channels, messaging and the RPC service, and the channels' invariant
    survives them too ([process_invariant]). With the invariants goes the typing of every message
    on its way through the process ([messages_are_typed]). *)

From S2P Require Import Prelude GoStrings Json Messages Typing GateId Channel ChannelSpec ChannelFrame Subscription WorldChannel Credentials Gate GateSpec GateTyping Interfaces UserState Messaging Rpc Stores System.

Local Open Scope Z_scope.
Local Open Scope go_scope.

(** ** Channels over an environment with an invariant *)

Section channels.
Context {E : Type} `{ChanEnv E} (J : E -> Prop).
Context (Jenqueue : forall i m e, sendable m -> J e -> J (gate_EnqueueMessage i m e).2).
Context (Jstore : forall ch m e, J e -> J (StoreChannelMessage ch m e).2).
Context (Jseq : forall ch i e, J e -> J (NextSegmentSequence ch i e).2).

(** A published message may be sent to the readers; so may every message of a queue. *)
Definition publishable (m : PublishMessage) : Prop := sendable (pm_Message m).
Definition queue_typed (g : Channel) : Prop := forall m, m ∈ Channel.messages g -> publishable m.

Let K (s : Channel * E) : Prop := J s.2 /\ queue_typed s.1.

Lemma env_quiet f g e : quiet_write f -> K (g, e) -> K (f g, e).
Proof. intros Hf [Hj Hq]. split; [done |]. destruct (Hf g) as (_ & _ & _ & E1). unfold queue_typed. cbn. by rewrite E1. Qed.
Lemma env_send m g e : publishable m -> K (g, e) -> K (Channel.set_messages (Channel.messages g ++ [m]) g, e).
Proof.
  intros Hm [Hj Hq]. split; [done |]. intros m' [Hin | Hin]%elem_of_app; [by apply Hq |].
  by apply list_elem_of_singleton in Hin as ->.
Qed.
Lemma env_take m ms g e : Channel.messages g = m :: ms -> K (g, e) -> publishable m /\ K (Channel.set_messages ms g, e).
Proof.
  intros Em [Hj Hq]. unfold queue_typed in Hq. cbn in Hq. rewrite Em in Hq. split; [apply Hq; by constructor |].
  split; [done |]. intros m' Hin. apply Hq. by constructor.
Qed.
Lemma publishable_data m seq cm : publishable m -> publishable (with_data m seq cm).
Proof. unfold publishable. by destruct m as [? ? ? ? [g |]]. Qed.
Lemma env_env {A} (f : E -> A * E) : (forall e, J e -> J (f e).2) -> preserves K (env_call f).
Proof. intros Hf [g e] [Hj Hq]. unfold env_call. specialize (Hf e Hj). cbn in *. by destruct (f e). Qed.
Lemma env_call_enqueue i m : publishable m -> preserves K (env_call (gate_EnqueueMessage i (pm_Message m))).
Proof. intros Hm. apply env_env. intros e. by apply Jenqueue. Qed.
Lemma env_call_store ch m : preserves K (env_call (StoreChannelMessage ch m)).
Proof. by apply env_env, Jstore. Qed.
Lemma env_call_seq ch i : preserves K (env_call (NextSegmentSequence ch i)).
Proof. by apply env_env, Jseq. Qed.

#[local] Hint Resolve env_quiet env_send env_take publishable_data env_call_enqueue env_call_store env_call_seq : core.

Lemma env_loadSeq : preserves K loadSeq.
Proof. apply queue_loadSeq; auto. Qed.
Lemma env_Publish t msg : arg_ok publishable msg -> preserves K (Publish t msg).
Proof. apply queue_Publish; auto. Qed.
Lemma env_wstep t s s' : wstep t s s' -> K s -> K s'.
Proof. apply (queue_wstep _ publishable); auto. Qed.
Lemma env_notify t m : publishable m -> preserves K (enqueueNotify t m).
Proof. apply queue_notify; auto. Qed.

Lemma env_wr f : (forall g, Channel.messages (f g) = Channel.messages g) -> preserves K (wr f).
Proof. intros Hf [g e] [Hj Hq]. split; [done |]. unfold queue_typed. cbn. by rewrite Hf. Qed.
Lemma env_rd {A} (f : Channel -> A) : preserves K (rd f).
Proof. apply preserves_gets. Qed.

#[local] Hint Resolve env_rd env_notify : preserves.
#[local] Hint Extern 1 (preserves K (wr _)) => apply env_wr; intros ?; reflexivity : preserves.
#[local] Hint Extern 1 (publishable (notify _ _ _)) => reflexivity : preserves.

Lemma env_Subscribe t id ex : preserves K (Subscribe t id ex).
Proof. unfold Subscribe, getSubscriberOptions, GetSubscribers. repeat preserves_step. Qed.
Lemma env_Unsubscribe t id : preserves K (Unsubscribe t id).
Proof. unfold Unsubscribe. repeat preserves_step. Qed.
Lemma env_Update ci : preserves K (Update ci).
Proof. unfold Update. repeat preserves_step. Qed.

(** ** The directory *)

Lemma queue_typed_empty ch t : queue_typed (empty_channel ch t).
Proof. intros m Hm. by apply not_elem_of_nil in Hm. Qed.

Definition dir_inv (s : SubState (E := E)) : Prop :=
  J s.2 /\ forall ch g, s.1 !! ch = Some g -> chan_inv g /\ queue_typed g.

Lemma dir_inv_insert ch g e s : dir_inv s -> chan_inv g -> queue_typed g -> J e -> dir_inv (<[ch := g]> s.1, e).
Proof.
  intros [_ Hs] Hg Hq He. split; [done |]. intros ch' g'. cbn. rewrite lookup_insert_Some.
  intros [[_ <-] | [_ Hg']]; eauto.
Qed.

Lemma dir_with_channel ch op :
  keeps op -> preserves K op -> preserves dir_inv (with_channel ch op).
Proof.
  intros Hk Hp s Hs. unfold with_channel. destruct (s.1 !! ch) as [g |] eqn:Hg; [| done].
  destruct Hs as [Hj Hc]. destruct (Hc ch g Hg) as [Hci Hcq]. specialize (Hp (g, s.2) (conj Hj Hcq)).
  destruct (op (g, s.2)) as [r [g' e']] eqn:Eop.
  apply dir_inv_insert; [done | eapply Hk; [exact Hci | exact Eop] | apply Hp | apply Hp].
Qed.

Lemma dir_Publish t ch msg : arg_ok publishable msg -> preserves dir_inv (real_Publish t ch msg).
Proof. intros Hm. apply dir_with_channel; [apply keeps_Publish | by apply env_Publish]. Qed.
Lemma dir_Subscribe t ch id ex : preserves dir_inv (real_Subscribe t ch id ex).
Proof. apply dir_with_channel; [apply keeps_Subscribe | apply env_Subscribe]. Qed.
Lemma dir_UnSubscribe t ch id : preserves dir_inv (real_UnSubscribe t ch id).
Proof. apply dir_with_channel; [apply keeps_Unsubscribe | apply env_Unsubscribe]. Qed.
Lemma dir_UpdateSubscriber t ch id ex : preserves dir_inv (real_UpdateSubscriber t ch id ex).
Proof. apply dir_with_channel; [apply keeps_Subscribe | apply env_Subscribe]. Qed.
Lemma dir_UpdateChannel ch ci : preserves dir_inv (real_UpdateChannel ch ci).
Proof. apply dir_with_channel; [apply keeps_Update | apply env_Update]. Qed.

Lemma dir_RemoveChannel ch : preserves dir_inv (real_RemoveChannel ch).
Proof.
  intros [m e] [Hj Hc]. unfold real_RemoveChannel, channels_of. unfold bind at 1. cbn [gets fst].
  destruct (m !! ch); [| done]. split; [done |]. cbn. intros ch' g' [_ Hg']%lookup_delete_Some. by eapply Hc.
Qed.

Lemma dir_CreateChannel t ch ci : preserves dir_inv (real_CreateChannel t ch ci).
Proof.
  intros [m e] [Hj Hc]. unfold real_CreateChannel, channels_of. unfold bind at 1. cbn [gets fst].
  destruct (m !! ch); [done |]. cbn [snd fst]. unfold NewChannel.
  pose proof (env_loadSeq (empty_channel ch t, e) (conj Hj (queue_typed_empty ch t))) as Hl.
  assert (Hinv : forall r g e', loadSeq (empty_channel ch t, e) = (r, (g, e')) -> chan_inv g)
    by (intros r g e' El; eapply keeps_loadSeq; [apply chan_inv_empty | exact El]).
  destruct (loadSeq (empty_channel ch t, e)) as [[err | why] [g e']]; specialize (Hinv _ _ _ eq_refl);
    [destruct err; [exact (conj (proj1 Hl) Hc) |] |];
    (pose proof (env_Update ci (g, e') Hl) as Hu; destruct (Update ci (g, e')) as [ru [g' e'']] eqn:Eu;
     pose proof (keeps_Update ci g e' ru g' e'' Hinv Eu) as Hg';
     destruct Hu as [Hj' Hq']; destruct ru as [[|] |]; [exact (conj Hj' Hc) | by apply (dir_inv_insert _ _ _ (m, e)) | exact (conj Hj' Hc)]).
Qed.

#[local] Hint Resolve dir_Publish dir_Subscribe dir_UnSubscribe dir_UpdateSubscriber dir_UpdateChannel dir_RemoveChannel
  dir_CreateChannel : preserves.

Lemma dir_apply_update t ch u op : apply_update t ch u = Some op -> preserves dir_inv op.
Proof. unfold apply_update. repeat case_match; intros [= <-]; auto with preserves. Qed.

Lemma dir_impl_UpdateSubscriber t ch us : preserves dir_inv (impl_UpdateSubscriber t ch us).
Proof.
  unfold impl_UpdateSubscriber. generalize (@nil string). induction us as [| u us IH]; intros errs; cbn [impl_UpdateSubscriber_loop].
  - case_match; apply preserves_ret.
  - destruct (apply_update t ch u) eqn:Eu; [| apply preserves_ret].
    apply preserves_bind; [by eapply dir_apply_update | intros; apply IH].
Qed.

Lemma dir_impl_UpdateChannel t ch u : preserves dir_inv (impl_UpdateChannel t ch u).
Proof. unfold impl_UpdateChannel. repeat preserves_step. Qed.

Lemma dir_worker t ch g g' e' s :
  dir_inv s -> s.1 !! ch = Some g -> wstep t (g, s.2) (g', e') -> dir_inv (<[ch := g']> s.1, e').
Proof.
  intros [Hj Hc] Hg Hw. destruct (Hc ch g Hg) as [Hci Hcq].
  destruct (env_wstep t (g, s.2) (g', e') Hw (conj Hj Hcq)) as [Hj' Hq'].
  apply dir_inv_insert; [done | by eapply keeps_wstep | done | done].
Qed.
End channels.

(** ** Messaging over an environment with an invariant *)

Section messaging.
Context {S : Type} `{Gateway_ S} `{MsgEnv S} (I : S -> Prop).
Context (Igate : forall i m, sendable m -> preserves I (gw_EnqueueMessage i m)).
Context (Iid : forall c, preserves I (info_ID_of c)).
Context (Ipublish : forall ch m, arg_ok publishable m -> preserves I (PublishMessage_ ch m)).
Context (Istore : forall m, preserves I (StoreMessage m)).
Context (Ioffline : forall m, preserves I (StoreOffline m)).
Context (Idel : forall k, preserves I (redis_Del k)).

(** The environment is in order and the messages that wait for a worker are typed. *)
Definition messaging_ok (s : MState S) : Prop :=
  I (m_env s) /\ forall c m, (c, m) ∈ m_tasks s -> typed m = true.

Let K : MState S -> Prop := messaging_ok.

Lemma m_env_op {A} (m : GoM S A) : preserves I m -> preserves K (env m).
Proof. intros Hm s [Hs Ht]. unfold env, zoom. specialize (Hm (m_env s) Hs). by destruct (m (m_env s)). Qed.

Lemma m_user_state {A} (m : GoM (UserState * S) A) : preserves (fun x => I x.2) m -> preserves K (user_state m).
Proof.
  intros Hm s [Hs Ht]. unfold user_state, zoom. specialize (Hm (m_userState s, m_env s) Hs).
  by destruct (m (m_userState s, m_env s)).
Qed.

Lemma m_c_ID c : preserves K (c_ID c).
Proof. by apply m_env_op. Qed.
Lemma m_enqueue i m : for_client m = true -> preserves K (m_EnqueueMessage i m).
Proof. intros Hm. by apply m_env_op, Igate. Qed.
Lemma m_spawn g : preserves K (spawn g).
Proof. by intros s Hs. Qed.
Lemma m_set_tasks l : (forall c m, (c, m) ∈ l -> typed m = true) -> preserves K (set_tasks l).
Proof. intros Hl s [Hs _]. by split. Qed.

#[local] Hint Resolve m_c_ID m_enqueue m_spawn : preserves.
#[local] Hint Extern 1 (for_client _ = true) => first [assumption | reflexivity] : preserves.
#[local] Hint Extern 1 (sendable _) => first [assumption | reflexivity | exact Logic.I] : preserves.
#[local] Hint Extern 1 (preserves _ (env _)) => apply m_env_op : preserves.
#[local] Hint Resolve Igate Iid Ipublish Istore Ioffline Idel : preserves.

Lemma m_OnHandleMessageError o c m err : preserves K (OnHandleMessageError o c m err).
Proof. unfold OnHandleMessageError. repeat preserves_step. Qed.
#[local] Hint Resolve m_OnHandleMessageError : preserves.

Lemma m_report o c m err : preserves K (report o c m err).
Proof. unfold report. repeat preserves_step. Qed.

Lemma m_dispatch2AllDevice uid m : for_client m = true -> preserves K (dispatch2AllDevice uid m).
Proof.
  intros Hm. unfold dispatch2AllDevice. apply preserves_bind; [| intros; apply preserves_ret].
  apply preserves_foreach. intros d. repeat preserves_step.
Qed.
Lemma m_dispatch_devices ds uid m : for_client m = true -> forall ok, preserves K (dispatch_devices ds uid m ok).
Proof. intros Hm. induction ds as [| d ds IH]; intros ok; cbn [dispatch_devices]; [apply preserves_ret |]. apply preserves_bind; [by apply m_enqueue | intros; apply IH]. Qed.
Lemma m_dispatchAllDevice uid m : for_client m = true -> preserves K (dispatchAllDevice uid m).
Proof. intros Hm. by apply m_dispatch_devices. Qed.
#[local] Hint Resolve m_report m_dispatch2AllDevice m_dispatchAllDevice : preserves.

(** *** The handlers *)

Lemma m_handleChatMessage c m : preserves K (handleChatMessage c m).
Proof.
  unfold handleChatMessage, ackChatMessage, ackNotifyMessage, dispatchOffline. repeat preserves_step.
Qed.
Lemma m_handleGroupMsg c m : for_client m = true -> preserves K (handleGroupMsg c m).
Proof.
  intros Hm. unfold handleGroupMsg, enqueueMessage, ackChatMessage.
  assert (Hp : preserves K (env (PublishMessage_ (To m) (AsPublish (MkPublishMessage (From m) [] 0 TypeMessage (Some m))))))
    by (by apply m_env_op, Ipublish).
  repeat preserves_step.
Qed.
Lemma m_handleAckRequest c m : preserves K (handleAckRequest c m).
Proof. unfold handleAckRequest. repeat preserves_step. Qed.
Lemma m_handleAckGroupMsgRequest c m : preserves K (handleAckGroupMsgRequest c m).
Proof. unfold handleAckGroupMsgRequest. repeat preserves_step. Qed.
Lemma m_handleAckOffline c m : preserves K (handleAckOffline c m).
Proof. unfold handleAckOffline, AckOfflineMessage. repeat preserves_step. Qed.

Lemma u_notify src online to : preserves (fun x : UserState * S => I x.2) (notify_state src online to).
Proof.
  unfold notify_state. apply preserves_foreach. intros uid. apply preserves_bind; [| intros; apply preserves_ret].
  intros [u s] Hs. unfold us_EnqueueMessage, zoom. cbn. specialize (Igate (NewID2 uid) (Some (state_message (UID src) online)) eq_refl s Hs).
  by destruct (gw_EnqueueMessage _ _ s).
Qed.
Lemma u_get {A} (f : UserState * S -> A) : preserves (fun x : UserState * S => I x.2) (gets f).
Proof. apply preserves_gets. Qed.
Lemma u_set_subscribers g : preserves (fun x : UserState * S => I x.2) (set_subscribers g).
Proof. by intros [u s]. Qed.
Lemma u_set_mySubs g : preserves (fun x : UserState * S => I x.2) (set_mySubs g).
Proof. by intros [u s]. Qed.
#[local] Hint Resolve u_notify u_get u_set_subscribers u_set_mySubs : preserves.

Lemma u_online i : preserves (fun x : UserState * S => I x.2) (onUserOnline i).
Proof. unfold onUserOnline, notifyOnline, get_subscribers. repeat preserves_step. Qed.
Lemma u_offline i : preserves (fun x : UserState * S => I x.2) (onUserOffline i).
Proof. unfold onUserOffline, notifyOffline, get_subscribers, get_mySubs. repeat preserves_step. Qed.
Lemma u_subscribe_uids myId uids : preserves (fun x : UserState * S => I x.2) (subscribe_uids myId uids).
Proof.
  induction uids as [| u us IH]; cbn [subscribe_uids]; [apply preserves_ret |].
  unfold get_subscribers, get_mySubs. repeat preserves_step.
Qed.
#[local] Hint Resolve u_subscribe_uids : preserves.
Lemma u_api i m : preserves (fun x : UserState * S => I x.2) (subUserStateApi i m).
Proof. unfold subUserStateApi, get_mySubs. repeat preserves_step. Qed.
#[local] Hint Resolve u_online u_offline u_api : preserves.
#[local] Hint Extern 1 (preserves _ (user_state _)) => apply m_user_state : preserves.

Lemma m_handleInternalOffline c m : preserves K (handleInternalOffline c m).
Proof. unfold handleInternalOffline. repeat preserves_step. Qed.
Lemma m_handleInternalOnline c m : preserves K (handleInternalOnline c m).
Proof. unfold handleInternalOnline. repeat preserves_step. Qed.
Lemma m_sub_user_state c m : preserves K (sub_user_state c m).
Proof. unfold sub_user_state. repeat preserves_step. Qed.

(** Every default handler keeps the invariant, on a typed message of its action. *)
Lemma default_handlers_keep p : p ∈ default_map ->
  forall c m, typed m = true -> Action m = p.1 -> preserves K (p.2 c m).
Proof.
  intros Hp c m Hm Ha.
  repeat (apply elem_of_cons in Hp as [-> | Hp]; [cbn [fst snd] in * |]); [.. | by apply not_elem_of_nil in Hp];
    auto using m_handleChatMessage, m_handleAckRequest, m_handleAckGroupMsgRequest, m_handleAckOffline,
      m_handleInternalOnline, m_handleInternalOffline, m_sub_user_state; try apply preserves_ret.
  apply m_handleGroupMsg, typed_relay; [done | by rewrite Ha].
Qed.
(** *** The chain *)

Fixpoint chain_all (P : MessageHandler (S := S) -> Prop) (hc : handlerChain) : Prop :=
  match hc with
  | Chain h next => (forall i, h = Some i -> P i) /\ match next with Some next => chain_all P next | None => True end
  end.

Lemma chain_all_add P hc i : P i -> chain_all P hc -> chain_all P (add hc i).
Proof.
  intros Hi. revert hc. fix IH 1. intros [h [next |]] [Hh Hn]; cbn in *.
  - split; [done |]. by apply IH.
  - split; [done |]. split; [| done]. by intros ? [= <-].
Qed.

Definition handler_keeps (h : MessageHandler) : Prop :=
  forall o c m, typed m = true -> preserves K (Handle_ o h c m).

Lemma action_keeps action fn :
  (forall c m, typed m = true -> Action m = action -> preserves K (fn c m)) -> handler_keeps (ActionHandler action fn).
Proof. intros Hf o c m Hm. cbn [Handle_]. unfold ActionHandler_Handle, ClientCustomMessageHandler_Handle. case_bool_decide; repeat preserves_step. Qed.
Lemma custom_keeps : handler_keeps ClientCustomMessageHandler.
Proof.
  intros o c m Hm. cbn [Handle_]. unfold ActionHandler_Handle, ClientCustomMessageHandler_Handle. case_bool_decide as Ha; [| apply preserves_ret].
  assert (for_client m = true) by (apply typed_relay; [done | by rewrite Ha]). repeat preserves_step.
Qed.

Lemma default_chain_keeps order : order ≡ₚ default_map -> chain_all handler_keeps (default_chain order).
Proof.
  intros Hp. unfold default_chain, InitDefaultHandler.
  apply chain_all_add; [apply action_keeps; intros; apply preserves_ret |].
  apply chain_all_add; [apply custom_keeps |].
  assert (Ho : forall p, p ∈ order -> forall c m, typed m = true -> Action m = p.1 -> preserves K (p.2 c m))
    by (intros p Hin; apply default_handlers_keep; by rewrite <- Hp).
  assert (He : chain_all handler_keeps (empty_chain (S := S))) by (split; [by intros ? [=] | done]).
  clear Hp. revert He. generalize (empty_chain (S := S)). induction order as [| p order IH]; intros hc Hc; [done |].
  cbn [foldl]. apply IH; [intros p0 Hp0 c m Hm Ha; apply Ho; [by constructor | done | done] |].
  apply chain_all_add; [| done]. apply action_keeps. intros c m Hm Ha.
  apply Ho; [constructor | done | done].
Qed.

Lemma handle_keeps o c m : typed m = true -> forall hc, chain_all handler_keeps hc -> preserves K (handle o hc c m).
Proof.
  intros Hm. fix IH 1. intros [h next] [Hh Hn]. cbn [handle]. apply preserves_bind.
  - destruct h as [h |]; [by apply Hh | apply preserves_ret].
  - intros [|]; [apply preserves_ret |]. destruct next as [next |]; [by apply IH | apply preserves_ret].
Qed.

Lemma m_task o hc c m : chain_all handler_keeps hc -> typed m = true -> preserves K (task o hc c m).
Proof. intros Hc Hm. unfold task. apply preserves_bind; [by apply handle_keeps | intros handled]. repeat preserves_step. Qed.

Lemma m_run_task o hc n : chain_all handler_keeps hc -> preserves K (run_task o hc n).
Proof.
  intros Hc s Hs. unfold run_task. destruct (m_tasks s !! n) as [[c m] |] eqn:En; [| done].
  assert (Hp : preserves K (set_tasks (delete n (m_tasks s)) ;;; task o hc c m)).
  { apply preserves_bind; [| intros _; apply m_task; [done | eapply Hs; by eapply list_elem_of_lookup_2]].
    apply m_set_tasks. intros c0 m0 Hin. eapply (proj2 Hs). by eapply elem_of_sublist, sublist_delete. }
  specialize (Hp s Hs). by destruct ((set_tasks (delete n (m_tasks s)) ;;; task o hc c m) s).
Qed.

Lemma m_Handle o c m : typed m = true -> preserves K (Messaging.Handle o c m).
Proof.
  intros Hm. unfold Messaging.Handle. apply preserves_bind; [apply m_c_ID | intros i].
  intros s Hs. unfold bind at 1, gets. destruct (_ <? _).
  - assert (Hp : forall m', typed m' = true -> preserves K (set_tasks (m_tasks s ++ [(c, m')]) ;;; ret nil_error)).
    { intros m' Hm'. apply preserves_bind; [| intros; apply preserves_ret]. apply m_set_tasks.
      intros c0 m0 [Hin | Hin]%elem_of_app; [by eapply (proj2 Hs) |]. apply list_elem_of_singleton in Hin. by injection Hin as -> ->. }
    apply Hp; [by destruct (IsInternal (Action m)) | done].
  - match goal with |- K (?m0 s).2 => assert (Hp : preserves K m0) by (repeat preserves_step) end. by apply Hp.
Qed.
End messaging.

(** ** The RPC service over an environment with an invariant *)

(** A published message that was decoded. *)
Definition pm_received (p : PublishMessage) : Prop :=
  match pm_Message p with Some m => received m | None => True end.

Lemma publish_fields_received name step raw p :
  (name, step) ∈ publish_fields -> json_text raw -> pm_received p -> pm_received (step raw p).2.
Proof.
  intros Hin Hraw Hp. unfold publish_fields in Hin.
  repeat (apply elem_of_cons in Hin as [Hin | Hin]; [injection Hin as -> -> |]); [.. | by apply not_elem_of_nil in Hin];
    first [by apply set_string_snd | by apply set_int_snd | idtac].
  - unfold set_slice. case_bool_decide; [done |]. destruct (json_elements raw) as [l |]; [| done].
    by destruct (decode_strings l).
  - unfold set_pointer. case_bool_decide; [done |].
    pose proof (decode_received raw (default zero_GlideMessage (pm_Message p))) as Hr.
    destruct (Unmarshal message_fields raw _) as [e m]. apply Hr. unfold pm_received in Hp. by destruct (pm_Message p).
Qed.

Lemma decoded_publishable text e p : Unmarshal publish_fields text zero_PublishMessage = (e, p) -> publishable p.
Proof.
  intros E. pose proof (Unmarshal_inv pm_received publish_fields text zero_PublishMessage publish_fields_received Logic.I) as Hp.
  rewrite E in Hp. cbn in Hp. unfold publishable, pm_received in *. destruct (pm_Message p); [by apply received_for_client | done].
Qed.

Section rpc.
Context {S : Type} `{Gateway_ S} `{SubscribeWrap_ S} (I : S -> Prop).
Context (Iset : forall old new, preserves I (gw_SetClientID old new)).
Context (Iupdate : forall i x, preserves I (gw_UpdateClient i x)).
Context (Iexit : forall i, preserves I (gw_ExitClient i)).
Context (Ienqueue : forall i m, sendable m -> preserves I (gw_EnqueueMessage i m)).
Context (Isub : forall ch i ex, preserves I (sw_Subscribe ch i ex)).
Context (Iunsub : forall ch i, preserves I (sw_UnSubscribe ch i)).
Context (Iupsub : forall ch i ex, preserves I (sw_UpdateSubscriber ch i ex)).
Context (Iremove : forall ch, preserves I (sw_RemoveChannel ch)).
Context (Icreate : forall ch i, preserves I (sw_CreateChannel ch i)).
Context (Iupchan : forall ch i, preserves I (sw_UpdateChannel ch i)).
Context (Ipub : forall ch m, arg_ok publishable m -> preserves I (sw_Publish ch m)).

#[local] Hint Resolve Iset Iupdate Iexit Isub Iunsub Iupsub Iremove Icreate Iupchan : preserves.

Lemma serve_keeps fn q h r : serve fn q = Some h -> preserves I (h r).
Proof.
  intros Hs. unfold serve in Hs.
  destruct q as [q | | | | | | | |]; case_bool_decide; try done; injection Hs as <-;
    unfold srv_EnqueueMessage, srv_Subscribe, srv_UnSubscribe, srv_UpdateSubscriber, srv_RemoveChannel,
      srv_CreateChannel, srv_UpdateChannel, srv_Publish.
  { unfold srv_UpdateClient. apply preserves_bind; [| intros err; repeat preserves_step].
    repeat preserves_step. }
  { destruct (Unmarshal message_fields Msg zero_GlideMessage) as [[e |] m] eqn:E; [apply preserves_ret |].
    assert (Hm : sendable (Some m)).
    { apply received_for_client. pose proof (decode_received Msg zero_GlideMessage Logic.I) as Hr. by rewrite E in Hr. }
    specialize (Ienqueue Id (Some m) Hm). repeat preserves_step. }
  7: { destruct (Unmarshal publish_fields Message zero_PublishMessage) as [[e |] m] eqn:E; [apply preserves_ret |].
    specialize (Ipub ChannelID (AsPublish m) (decoded_publishable _ _ _ E)). repeat preserves_step. }
  all: repeat preserves_step.
Qed.
End rpc.

(** ** The process *)

Section process.
Context {T R : Type} `{Store_ T} `{Redis_ R} `{BlockCipher}.

Definition gate_ok (x : World * T) : Prop := gate_good x.1 /\ world_typed x.1.
Definition core_inv : SubState (E := World * T) -> Prop := dir_inv gate_ok.
Definition env_inv (x : Env (T := T) (R := R)) : Prop := core_inv x.1.
Definition process_inv (s : Process (T := T) (R := R)) : Prop := messaging_ok env_inv (body s).

Lemma world_enqueue_gate (I : World -> Prop) i m (x : World * T) :
  preserves I (EnqueueMessage i m) -> I x.1 -> I (gate_EnqueueMessage i m x).2.1.
Proof.
  intros Hk Hw. pose proof (Hk x.1 Hw) as Hp. unfold gate_EnqueueMessage, World_ChanEnv.
  by destruct (EnqueueMessage i m x.1) as [[e | why] w'].
Qed.
Lemma world_enqueue i m x : sendable m -> gate_ok x -> gate_ok (gate_EnqueueMessage i m x).2.
Proof.
  intros Hm [Hw Ht]. split; [by apply (world_enqueue_gate gate_good); [apply good_EnqueueMessage |] |]. pose proof (typed_EnqueueMessage i m Hm x.1 Ht) as Hq.
  unfold gate_EnqueueMessage, World_ChanEnv. by destruct (EnqueueMessage i m x.1) as [[e | why] w'].
Qed.
Lemma world_store ch m x : gate_ok x -> gate_ok (StoreChannelMessage ch m x).2.
Proof. intros Hw. unfold StoreChannelMessage, World_ChanEnv. by destruct (st_StoreChannelMessage ch m x.2). Qed.
Lemma world_seq ch i x : gate_ok x -> gate_ok (NextSegmentSequence ch i x).2.
Proof. intros Hw. unfold NextSegmentSequence, World_ChanEnv. by destruct (st_NextSegmentSequence ch i x.2). Qed.

Lemma keeps_on_core {A} (m : GoM _ A) : preserves core_inv m -> preserves env_inv (on_core m).
Proof. intros Hm s Hs. unfold on_core, zoom. specialize (Hm s.1 Hs). by destruct (m s.1). Qed.
Lemma keeps_on_world {A} (m : GoM World A) :
  preserves gate_good m -> preserves world_typed m -> preserves env_inv (on_world m).
Proof.
  intros Hm Ht [[chs [w t]] r] [[Hj Hty] Hc]. unfold on_world, zoom. cbn. specialize (Hm w Hj). specialize (Ht w Hty).
  destruct (m w) as [a w']. by split.
Qed.
Lemma keeps_on_store {A} (m : GoM T A) : preserves env_inv (on_store m).
Proof. intros [[chs [w t]] r] Hs. unfold on_store, zoom. cbn. by destruct (m t). Qed.
Lemma keeps_on_redis {A} (f : R -> A * R) : preserves env_inv (on_redis f).
Proof. intros [c r] Hs. unfold on_redis, zoom. cbn. by destruct (f r). Qed.

Lemma read_ID_world c w : (read_ID c w).2 = w.
Proof.
  destruct c as [r | x]; [| done]. unfold read_ID, bind, get_client. by destruct (heap w !! r).
Qed.
Lemma keeps_read_ID (I : World -> Prop) c : preserves I (read_ID c).
Proof. intros w Hw. by rewrite read_ID_world. Qed.

Lemma core_update t ch us : preserves core_inv (impl_UpdateSubscriber t ch us).
Proof. apply dir_impl_UpdateSubscriber; auto using world_enqueue, world_store, world_seq. Qed.
Lemma core_channel t ch u : preserves core_inv (impl_UpdateChannel t ch u).
Proof. apply dir_impl_UpdateChannel; auto using world_enqueue, world_store, world_seq. Qed.
Lemma core_publish t ch m : arg_ok publishable m -> preserves core_inv (impl_PublishMessage t ch m).
Proof. intros Hm. apply dir_Publish; auto using world_enqueue, world_store, world_seq. Qed.

(** What the world channel announces is typed. *)
Lemma core_announce t to data :
  payload_ok ActionGroupMessage data = true -> (forall id, data <> PID id) -> preserves core_inv (announce t to data).
Proof. intros Hd Hid. by apply core_publish, for_client_new. Qed.

Lemma json_valid_ChatMessage m : json_valid (encode_ChatMessage m) = true.
Proof. apply json_valid_text. destruct (MarshalJSON_text (PChatMessage m)) as (d & [= <-] & Hd); [done | exact Hd]. Qed.

Lemma core_resume t nano g : preserves core_inv (resume t nano g).
Proof.
  destruct g; cbn [resume]; repeat case_match; try apply preserves_ret;
    (apply preserves_bind; [first [apply core_update | apply core_announce] | intros; apply preserves_ret]); try done.
  apply json_valid_ChatMessage.
Qed.
Lemma core_enable t : preserves core_inv (EnableWorldChannel t).
Proof.
  unfold EnableWorldChannel. apply preserves_bind; [apply core_channel | intros [err |]]; [apply preserves_ret | apply core_update].
Qed.

Lemma process_start id key t rnd st r : process_inv (start id key t rnd st r).
Proof.
  split; [| intros c m Hm; by apply not_elem_of_nil in Hm].
  unfold env_inv, start. cbn [body m_env fst]. apply core_enable.
  split; [split; [right; apply gate_inv_NewServer | apply world_typed_NewServer] | done].
Qed.

Lemma run_routine_keeps t nano n s : process_inv s -> process_inv (run_routine t nano n s).
Proof.
  intros [Hi Ht]. unfold run_routine. destruct (routines s !! n) as [g |]; [| done].
  pose proof (core_resume t nano g (m_env (body s)).1 Hi) as Hr. by destruct (resume t nano g (m_env (body s)).1) as [r c].
Qed.

(** What messaging and the RPC service ask of the environment keeps its invariant. *)
Lemma env_enqueue_keeps i m : sendable m -> preserves env_inv (gw_EnqueueMessage i m).
Proof. intros Hm. apply keeps_on_world; [apply good_EnqueueMessage | by apply typed_EnqueueMessage]. Qed.
Lemma env_id_keeps t c : preserves env_inv (info_ID_of (MsgEnv := Env_MsgEnv t) c).
Proof. apply keeps_on_world; apply keeps_read_ID. Qed.
Lemma env_publish_keeps t ch m : arg_ok publishable m -> preserves env_inv (PublishMessage_ (MsgEnv := Env_MsgEnv t) ch m).
Proof. intros Hm. by apply keeps_on_core, core_publish. Qed.

Lemma env_step_keeps {A} (m : GoM Env A) s : preserves env_inv m -> process_inv s -> process_inv (env_step m s).
Proof. intros Hm [Hi Ht]. split; [by apply Hm | exact Ht]. Qed.

Lemma gate_step_keeps op s :
  op_ok op (world s) -> op_typed op -> process_inv s -> process_inv (env_step (on_world (run_gate_op op)) s).
Proof.
  intros Hok Hty [Hi Ht]. split; [| exact Ht]. unfold env_step. cbn [body set_env m_env]. unfold world in Hok.
  destruct (m_env (body s)) as [[chs [w st]] r] eqn:E. destruct Hi as [[Hj Hjt] Hc].
  unfold on_world, zoom. cbn. pose proof (gate_op_good op w Hok Hj) as Hw. pose proof (gate_op_typed op w Hty Hjt) as Hwt.
  by destruct (run_gate_op op w).
Qed.

Lemma serve_step_keeps t fn q h s :
  serve (H0 := Env_SubscribeWrap t) fn q = Some h -> process_inv s -> process_inv (env_step (h zero_Response) s).
Proof.
  intros Hh. apply env_step_keeps. apply (serve_keeps (H0 := Env_SubscribeWrap t) env_inv) with fn q; try done; intros;
    cbn [Env_SubscribeWrap sw_Subscribe sw_UnSubscribe sw_UpdateSubscriber sw_RemoveChannel sw_CreateChannel
      sw_UpdateChannel sw_Publish Env_Gateway gw_SetClientID gw_UpdateClient gw_ExitClient gw_EnqueueMessage];
    first [apply keeps_on_core; first [apply core_update | apply core_channel | by apply core_publish]
          | apply keeps_on_world; auto using good_SetClientID, good_UpdateClient, good_ExitClient, good_EnqueueMessage,
              typed_SetClientID, typed_UpdateClient, typed_ExitClient, typed_EnqueueMessage].
Qed.

Lemma step_keeps o s s' : step o s s' -> process_inv s -> process_inv s'.
Proof.
  intros Hs Hi. destruct Hs as [op s Hok Hty | t c m s Hh Hnb | t order n s Hp | n g gr s Hg Hr | t nano n s | t ch g g' x s Hg Hw | t fn q h s Hh].
  - by apply gate_step_keeps.
  - apply (m_Handle (H0 := Env_MsgEnv t) env_inv); auto using env_enqueue_keeps, env_id_keeps.
    eapply wt_handled; [exact (proj2 (proj1 (proj1 Hi))) | by eapply list_elem_of_lookup_2].
  - apply (m_run_task (H0 := Env_MsgEnv t) env_inv); [.. | done]; auto using env_enqueue_keeps, env_id_keeps.
    apply default_chain_keeps; auto using env_enqueue_keeps, env_id_keeps, env_publish_keeps;
      intros; (apply keeps_on_store || apply keeps_on_redis).
  - exact Hi.
  - by apply run_routine_keeps.
  - split; [| exact (proj2 Hi)]. unfold env_inv. cbn [body set_env m_env fst].
    by apply (dir_worker gate_ok world_enqueue t ch g g' x (m_env (body s)).1 (proj1 Hi)).
  - by apply serve_step_keeps with t fn q.
Qed.

Lemma process_reachable_inv o s : reachable o s -> process_inv s.
Proof. induction 1 as [| s s' Hr IH Hs]; [apply process_start | by eapply step_keeps]. Qed.

(** C1: whatever the components do to each other, in any interleaving of connections, reads, writes, handlers, channel
    workers, world-channel goroutines and RPC requests, each operation of the gateway and of a channel taken whole: each
    channel's queue is bounded and waits only for a running worker, and a closed channel has no subscribers; and
    as long as no client was renamed to the empty ID, which the RPC service and the gateway accept: the gateway's map
    and its clients that have not exited correspond one to one, the presence events announce the registered IDs, and the
    gateway never panics when a channel or a handler gives it a message. The runs end where the gateway blocks itself: an event
    of its own is refused by messaging's pool, and the error is to be reported. *)
Theorem process_invariant o s :
  reachable o s ->
  (forall ch g, channels s !! ch = Some g ->
     (length (Channel.messages g) <= queue_cap)%nat /\ (worker g = None -> Channel.messages g = []) /\
     (Closed (Channel.info g) = true -> subscribers g = ∅)) /\
  (anonymous (world s) = false ->
   (forall id r, clients (world s) !! id = Some r <->
      exists c, heap (world s) !! r = Some c /\ state c <> stateClosed /\ route (gate_id (world s)) (info_ID (Gate.info c)) = id) /\
   online (handled (world s)) = dom (clients (world s)) /\
   (forall id m, exists e w', EnqueueMessage id m (world s) = (Val e, w'))).
Proof.
  intros Hr. destruct (process_reachable_inv _ _ Hr) as [[[Hw _] Hc] _]. split.
  - intros ch g Hg. destruct (Hc ch g Hg) as [[] _]. by split_and!.
  - intros Hn. apply gate_good_inv in Hw; [| done]. split_and!.
    + intros id r. split; [apply Hw |]. intros (c & Hc' & Hs & <-). by apply Hw.
    + apply Hw.
    + intros id m. by apply EnqueueMessage_returns.
Qed.

(** C33: every message on its way through the process is well typed: the payload of each message waiting in
    a client's queue, in the gateway's pool, in a channel's queue or for a worker of messaging has the Go type
    its action asks for, or is one valid JSON value under its sender's action, or the chat message a channel
    published; only the gateway's own events carry an identifier, and they never wait to be sent to a client.
    So whatever waits for a client can be encoded, and none is lost when it is written. *)
Theorem messages_are_typed o s :
  reachable o s ->
  (forall r c m, heap (world s) !! r = Some c -> m ∈ messages c -> sendable m /\ is_Some (encode_ptr m)) /\
  (forall r m, (r, m) ∈ pool (world s) -> sendable m) /\
  (forall ch g p, channels s !! ch = Some g -> p ∈ Channel.messages g -> sendable (pm_Message p)) /\
  (forall c m, (c, m) ∈ handled (world s) -> typed m = true) /\
  (forall c m, (c, m) ∈ m_tasks (body s) -> typed m = true).
Proof.
  intros Hr. destruct (process_reachable_inv _ _ Hr) as [[[_ Hw] Hc] Ht]. split_and!.
  - intros r c m Hc' Hm. pose proof (wt_queues _ Hw r c m Hc' Hm) as Hs. split; [done |].
    destruct m as [m |]; [by apply typed_Encode, for_client_typed | by eexists].
  - apply Hw.
  - intros ch g p Hg Hp. by apply (Hc ch g Hg).
  - apply Hw.
  - exact Ht.
Qed.
End process.

(** ** A process *)

#[local] Existing Instance flip_cipher.
#[local] Instance no_redis : Redis_ unit := {|
  SAdd _ _ r := r; Expire _ _ r := r; SMembers _ r := (([], nil_error), r); Del _ r := r |}.

(** The history goes to Kafka. *)
#[local] Instance demo_store : Store_ (Log * unit) :=
  main_store (fun _ => ret (inl 1)) (MkStoreConf true (Some ["kafka:9092"])).

Definition demo_options : Options := MkOptions true 100 "too many goroutines".
Definition demo_p0 : Process (T := Log * unit) (R := unit) := start "g1" "secret" 5000 [] ([], tt) tt.
(** A client connects; the gateway's handler is called for it; the task runs, starts the goroutine that
    joins the world channel, which ends because the client has not logged in. *)
Definition demo_p1 : Process := env_step (on_world (run_gate_op (OpConnect 0 "10.0.0.1" (demo_bytes 1)))) demo_p0.
Definition demo_p2 : Process :=
  MkProcess (Messaging.Handle (H0 := Env_MsgEnv 5001) demo_options (InfoCopy (default (MkInfo "" "" "" 0 0 "" "") (Gate.info <$> heap (world demo_p1) !! 0%nat)))
    (internal ActionInternalOnline (demo_temp 1)) (body demo_p1)).2 1 [].
Definition demo_p3 : Process := set_body (run_task (H0 := Env_MsgEnv 5002) demo_options
  (default_chain (default_map (H0 := Env_MsgEnv 5002))) 0 (body demo_p2)).2 demo_p2.
Definition demo_p4 : Process :=
  set_routines (routines demo_p3 ++ [Joining (demo_temp 1)]) (set_body (drop_spawned 0 (body demo_p3)) demo_p3).
Definition demo_p5 : Process := run_routine 6100 6100000000 0 demo_p4.

Lemma demo_p5_reachable : reachable demo_options demo_p5.
Proof.
  apply (reach_step _ demo_p4); [apply (reach_step _ demo_p3); [apply (reach_step _ demo_p2); [apply (reach_step _ demo_p1);
    [apply (reach_step _ demo_p0) |] |] |] |].
  - apply reach_start.
  - apply (step_gate demo_options (OpConnect 0 "10.0.0.1" (demo_bytes 1)) demo_p0); [split; reflexivity | exact Logic.I].
  - apply (step_dispatch demo_options 5001); vm_compute; reflexivity.
  - apply (step_task demo_options 5002 (default_map (H0 := Env_MsgEnv 5002)) 0 demo_p2). reflexivity.
  - eapply (step_spawned demo_options 0 (WorldOnline _)); vm_compute; reflexivity.
  - apply (step_routine demo_options 6100 6100000000 0 demo_p4).
Qed.

Lemma process_invariant_witness :
  routines demo_p4 <> [] /\ routines demo_p5 = [] /\
  exists c, heap (world demo_p5) !! 0%nat = Some c /\ state c <> stateClosed /\
            route (gate_id (world demo_p5)) (info_ID (Gate.info c)) = demo_temp 1.
Proof.
  split; [discriminate |]. split; [vm_compute; reflexivity |].
  destruct (process_invariant demo_options demo_p5 demo_p5_reachable) as [_ Hgate].
  destruct (Hgate ltac:(vm_compute; reflexivity)) as [Hreg _].
  apply (proj1 (Hreg (demo_temp 1) 0%nat)). vm_compute. reflexivity.
Defined.

(** The greeting of the client that connected waits for it, with the payload of its action. *)
Lemma messages_are_typed_witness :
  exists c m, heap (world demo_p5) !! 0%nat = Some c /\ Gate.messages c = [Some m] /\ Action m = ActionHello /\
    for_client m = true.
Proof.
  assert (E : exists c m, heap (world demo_p5) !! 0%nat = Some c /\ Gate.messages c = [Some m] /\ Action m = ActionHello).
  { vm_compute. do 2 eexists. split_and!; reflexivity. }
  destruct E as (c & m & Hc & Hm & Ha). exists c, m. split_and!; [exact Hc | exact Hm | exact Ha |].
  destruct (messages_are_typed demo_options demo_p5 demo_p5_reachable) as [Hq _].
  apply (Hq 0%nat c (Some m) Hc). rewrite Hm. constructor.
Defined.
