(* ===== verification/Startup.v ===== *)
(** * Starting the process: [config/viper.go], [internal/pkg/db] and [main] of [cmd/im_service]

    [main] reads its configuration, opens Redis and the store of the history, builds the components
    and serves. The libraries it opens are the class [Platform_]; a panic ends the program. What it has
    built when it starts to serve is the state [start] of [System]: [main_starts_the_process].

    The variables of [config] are what [MustLoad] returns: nothing reads them before. *)

From S2P Require Import Prelude GoStrings Json Messages GateId Channel ChannelSpec Subscription WorldChannel Credentials Gate GateSpec Interfaces UserState Messaging Rpc Transport Stores System SystemSpec.

Local Open Scope Z_scope.
Local Open Scope go_scope.

(** ** The configuration *)

Record CommonConf := MkCommonConf {
  cf_StoreOfflineMessage : bool; cf_StoreMessageHistory : bool; SecretKey : string }.
Record WsServerConf := MkWsServerConf { ws_ID : string; ws_Addr : string; ws_Port : Z; JwtSecret : string }.
Record IMRpcServerConf := MkIMRpcServerConf {
  im_Addr : string; im_Port : Z; im_Network : string; im_Etcd : list string; im_Name : string }.
Record KafkaConf := MkKafkaConf { kafka_Address : list string }.
Record MySqlConf := MkMySqlConf {
  my_Host : string; my_Port : Z; my_Username : string; my_Password : string; my_Db : string; my_Charset : string }.
Record RedisConf := MkRedisConf { rd_Host : string; rd_Port : Z; rd_Password : string; rd_Db : Z }.

(** The sections of the file; [None] is a missing one. *)
Record Config := MkConfig {
  MySql : option MySqlConf;
  Redis : option RedisConf;
  WsServer : option WsServerConf;
  IMService : option IMRpcServerConf;
  Common : option CommonConf;
  Kafka : option KafkaConf }.

(** ** The databases of [internal/pkg/db] *)

Record MySQLConfig := MkMySQLConfig {
  db_Host : string; db_Port : Z; db_User : string; db_Password : string; Database : string; Charset : string;
  MaxOpenConn : Z; MaxIdleConn : Z; MaxLifeTimeMin : Z }.
Record RedisConfig := MkRedisConfig {
  rc_Host : string; rc_Port : Z; rc_Password : string; rc_PoolSize : Z; rc_MinIdleConn : Z; rc_Db : Z }.

(** The fields of [redis.Options] the code sets. *)
Record RedisOptions := MkRedisOptions {
  ro_Addr : string; ro_Password : string; ro_DB : Z; MinIdleConns : Z; PoolSize : Z }.

(** What the program opens; durations are in minutes. *)
Class Platform_ (L : Type) := {
  viper_ReadInConfig : string -> string -> list string -> GoM L error;
  viper_Unmarshal : GoM L (error * Config);
  gorm_Open : string -> GoM L error;
  gorm_DB : GoM L error;
  SetMaxOpenConns : Z -> GoM L unit;
  SetConnMaxLifetime : Z -> GoM L unit;
  SetMaxIdleConns : Z -> GoM L unit;
  redis_NewClient : RedisOptions -> GoM L unit;
  sql_Open : string -> GoM L error;
  sql_Ping : GoM L error;
  sarama_NewAsyncProducer : list string -> GoM L error;
  ants_NewPool : Z -> GoM L error }.

Section platform.
Context {L : Type} `{Platform_ L}.

(** [if x == nil { panic(why) }]. *)
Definition check_nil {A} (o : option A) (why : string) : GoM L unit :=
  match o with Some _ => ret tt | None => panic why end.

Definition config_paths : list string := ["."; "./_config_local"; "./config"; "/etc/"; "$HOME/.config/"].

Definition MustLoad : GoM L Config :=
  must (viper_ReadInConfig "config.toml" "toml" config_paths) ;;;
  let! u := viper_Unmarshal in
  match u with
  | (Some e, _) => panic e
  | (None, c) =>
      check_nil (Common c) "CommonConf is nil" ;;;
      check_nil (MySql c) "mysql config is nil" ;;;
      check_nil (WsServer c) "ws server config is nil" ;;;
      check_nil (IMService c) "im rpc server config is nil" ;;;
      ret c
  end.

Definition initMySQL (c : MySQLConfig) : GoM L error :=
  let url := db_User c +:+ ":" +:+ db_Password c +:+ "@tcp(" +:+ db_Host c +:+ ":" +:+ Itoa (db_Port c) +:+ ")/" +:+
    Database c +:+ "?charset=" +:+ Charset c +:+ "&parseTime=true" in
  let! err := gorm_Open url in
  match err with
  | Some _ => ret err
  | None =>
      let! err := gorm_DB in
      match err with
      | Some _ => ret err
      | None =>
          (when 0 <? MaxOpenConn c then SetMaxOpenConns (MaxOpenConn c)) ;;;
          (when 0 <? MaxLifeTimeMin c then SetConnMaxLifetime (MaxLifeTimeMin c)) ;;;
          (when 0 <? MaxIdleConn c then SetMaxIdleConns (MaxIdleConn c)) ;;;
          ret nil_error
      end
  end.

Definition initRedis (c : RedisConfig) : GoM L unit :=
  redis_NewClient (MkRedisOptions (rc_Host c +:+ ":" +:+ Itoa (rc_Port c)) (rc_Password c) (rc_Db c)
    (if 0 <? rc_MinIdleConn c then rc_MinIdleConn c else 0) (if 0 <? rc_PoolSize c then rc_PoolSize c else 0)).

(** [db.Init]. *)
Definition db_Init (mysqlConf : option MySQLConfig) (redisConf : option RedisConfig) : GoM L error :=
  let! err := (match mysqlConf with Some c => initMySQL c | None => ret nil_error end) in
  match err with
  | Some _ => ret err
  | None => (match redisConf with Some c => initRedis c | None => ret tt end) ;;; ret nil_error
  end.

(** [message_store_db.New]. *)
Definition message_store_New (conf : MySqlConf) : GoM L error :=
  let! err := sql_Open (my_Username conf +:+ ":" +:+ my_Password conf +:+ "@tcp(" +:+ my_Host conf +:+ ":" +:+
    Itoa (my_Port conf) +:+ ")/" +:+ my_Db conf) in
  match err with Some _ => ret err | None => sql_Ping end.

(** [store.NewKafkaProducer]; the configuration of the producer is the library's, with its acknowledgements
    and its partitioner set. *)
Definition NewKafkaProducer (address : list string) : GoM L error := sarama_NewAsyncProducer address.

(** [messaging.NewDefaultImpl], as [NewHandlerWithOptions] calls it. *)
Definition NewDefaultImpl (MaxMessageConcurrency : Z) : GoM L error := ants_NewPool MaxMessageConcurrency.

(** ** [main] *)

Definition store_conf (common : CommonConf) (kafka : option KafkaConf) : StoreConf :=
  MkStoreConf (cf_StoreMessageHistory common) (kafka_Address <$> kafka).

(** Opens the store of the history. *)
Definition open_store (common : CommonConf) (c : Config) : GoM L unit :=
  if cf_StoreMessageHistory common then
    match Kafka c with
    | Some k =>
        if negb (length (kafka_Address k) =? 0)%nat then must (NewKafkaProducer (kafka_Address k))
        else let! my := deref (MySql c) in must (message_store_New my)
    | None => let! my := deref (MySql c) in must (message_store_New my)
    end
  else ret tt.
End platform.

Section main.
Context {L D R V : Type} `{Platform_ L} `{RpcxServer_ L V} `{Redis_ R} `{BlockCipher}.
Context (db_Exec : Row -> GoM D (Z + string)).
(** The clock, the random source, the stores and Redis as the program finds them, the text of a full
    pool, and the service of [server.IMRpcService]. *)
Context (t : Z) (rnd : list (list Z)) (st : Log * D) (r : R) (full : string) (service : V).

(** What [main] has built when it starts to serve; [StoreOfflineMessage] is messaging's variable. *)
Record Running := MkRunning {
  process : Process (T := Log * D) (R := R);
  conf : StoreConf;
  options : Options;
  StoreOfflineMessage : bool;
  rpcOpts : ServerOptions }.

Definition setup : GoM L Running :=
  let! c := MustLoad in
  let! redis := deref (Redis c) in
  must (db_Init None (Some (MkRedisConfig (rd_Host redis) (rd_Port redis) (rd_Password redis) 0 0 (rd_Db redis)))) ;;;
  let! ws := deref (WsServer c) in
  let! common := deref (Common c) in
  let gateway := NewWebsocketServer (ws_ID ws) (SecretKey common) t rnd in
  open_store common c ;;;
  let store := main_store db_Exec (store_conf common (Kafka c)) in
  must (NewDefaultImpl 100000) ;;;
  let o := (NewHandlerWithOptions full (default_map (H0 := Env_MsgEnv t)) false true).1 in
  let '(enabled, core) := EnableWorldChannel t (∅ : gmap ChanID Channel, (gateway, st)) in
  match enabled with
  | Panics why => panic why
  | Val (Some e) => panic e
  | Val None =>
      let! im := deref (IMService c) in
      ret (MkRunning (MkProcess (MkMState (core, r) NewUserState [] []) 0 []) (store_conf common (Kafka c)) o
        (cf_StoreOfflineMessage common)
        (MkServerOptions (im_Name im) (im_Network im) (im_Addr im) (im_Port im) 0 0 []))
  end.

(** It returns only when the server has stopped without an error. *)
Definition main : GoM L unit :=
  let! p := setup in must (RunRpcService (rpcOpts p) service).

(** ** What [main] needs *)

Definition succeeds (m : GoM L error) : Prop := forall l, exists l', m l = (Val nil_error, l').

(** The libraries do what they are asked to, and the file says [c]. *)
Record works (c : Config) : Prop := {
  works_read : succeeds (viper_ReadInConfig "config.toml" "toml" config_paths);
  works_unmarshal : forall l, exists l', viper_Unmarshal l = (Val (nil_error, c), l');
  works_redis : forall o l, exists l', redis_NewClient o l = (Val tt, l');
  works_sql : forall url, succeeds (sql_Open url);
  works_ping : succeeds sql_Ping;
  works_kafka : forall a, succeeds (sarama_NewAsyncProducer a);
  works_pool : forall n, succeeds (ants_NewPool n) }.

Definition returns_somewhere {A} (m : GoM L A) (a : A) : Prop := forall l, exists l', m l = (Val a, l').
Definition panics_somewhere {A} (m : GoM L A) : Prop := forall l, exists why l', m l = (Panics why, l').

Lemma somewhere_bind {A B} (m : GoM L A) (k : A -> GoM L B) a b :
  returns_somewhere m a -> returns_somewhere (k a) b -> returns_somewhere (bind m k) b.
Proof. intros Hm Hk l. destruct (Hm l) as [l1 E1]. destruct (Hk l1) as [l2 E2]. exists l2. by rewrite (bind_Val _ _ _ _ _ E1). Qed.
Lemma somewhere_bind_panics {A B} (m : GoM L A) (k : A -> GoM L B) a :
  returns_somewhere m a -> panics_somewhere (k a) -> panics_somewhere (bind m k).
Proof.
  intros Hm Hk l. destruct (Hm l) as [l1 E1]. destruct (Hk l1) as (why & l2 & E2). exists why, l2.
  by rewrite (bind_Val _ _ _ _ _ E1).
Qed.
Lemma panics_bind {A B} (m : GoM L A) (k : A -> GoM L B) : panics_somewhere m -> panics_somewhere (bind m k).
Proof. intros Hm l. destruct (Hm l) as (why & l1 & E1). exists why, l1. unfold bind. by rewrite E1. Qed.
Lemma somewhere_ret {A} (a : A) : returns_somewhere (ret a) a.
Proof. intros l. by exists l. Qed.
Lemma somewhere_panic {A} why : panics_somewhere (@panic L A why).
Proof. intros l. by exists why, l. Qed.
Lemma somewhere_must m : succeeds m -> returns_somewhere (must m) tt.
Proof. intros Hm. eapply somewhere_bind; [exact Hm | apply somewhere_ret]. Qed.

Lemma somewhere_MustLoad c common my ws im :
  works c -> Common c = Some common -> MySql c = Some my -> WsServer c = Some ws -> IMService c = Some im ->
  returns_somewhere MustLoad c.
Proof.
  intros Hw E1 E2 E3 E4. unfold MustLoad. eapply somewhere_bind; [apply somewhere_must, Hw |].
  eapply somewhere_bind; [exact (works_unmarshal _ Hw) |]. cbn beta iota. rewrite E1, E2, E3, E4. intros l. by exists l.
Qed.

Lemma MustLoad_panics c :
  works c -> Common c = None \/ MySql c = None \/ WsServer c = None \/ IMService c = None -> panics_somewhere MustLoad.
Proof.
  intros Hw Hn. unfold MustLoad. eapply somewhere_bind_panics; [apply somewhere_must, Hw |].
  eapply somewhere_bind_panics; [exact (works_unmarshal _ Hw) |]. cbn beta iota.
  destruct (Common c), (MySql c), (WsServer c), (IMService c); intros l; cbn; unfold bind, check_nil; cbn; eauto;
    destruct Hn as [? | [? | [? | ?]]]; done.
Qed.

Lemma somewhere_open_store common c my : works c -> MySql c = Some my -> returns_somewhere (open_store common c) tt.
Proof.
  intros Hw E. assert (Hs : returns_somewhere (let! my := deref (MySql c) in must (message_store_New my)) tt).
  { rewrite E. eapply somewhere_bind; [apply somewhere_ret |]. apply somewhere_must. unfold message_store_New.
    eapply somewhere_bind; [apply (works_sql _ Hw) | apply Hw]. }
  unfold open_store. destruct (cf_StoreMessageHistory common); [| apply somewhere_ret].
  destruct (Kafka c) as [k |]; [| done]. destruct (negb _); [| done]. apply somewhere_must, Hw.
Qed.

Lemma somewhere_db_Init c conf : works c -> returns_somewhere (db_Init None (Some conf)) nil_error.
Proof.
  intros Hw. unfold db_Init. eapply somewhere_bind; [apply somewhere_ret |]. cbn.
  eapply somewhere_bind; [exact (works_redis _ Hw _) | apply somewhere_ret].
Qed.

(** The world channel is created whichever store the configuration asks for. *)
Lemma world_channel_enabled sc w :
  (EnableWorldChannel (H := subscriptionImpl (H := World_ChanEnv (H := main_store db_Exec sc))) t (∅ : gmap ChanID Channel, (w, st))).1 = Val nil_error.
Proof.
  destruct sc as [h k]. unfold main_store. by destruct h; [destruct k as [[| a l] |] |].
Qed.

Definition start_with (sc : StoreConf) (id key : string) : Process (T := Log * D) (R := R) :=
  start (H := main_store db_Exec sc) id key t rnd st r.

Definition running (common : CommonConf) (ws : WsServerConf) (im : IMRpcServerConf) (kafka : option KafkaConf) : Running :=
  let sc := store_conf common kafka in
  MkRunning (start_with sc (ws_ID ws) (SecretKey common)) sc (MkOptions true 100000 full) (cf_StoreOfflineMessage common)
    (MkServerOptions (im_Name im) (im_Network im) (im_Addr im) (im_Port im) 0 0 []).

Lemma setup_returns c common my ws im redis :
  works c -> Common c = Some common -> MySql c = Some my -> WsServer c = Some ws -> IMService c = Some im ->
  Redis c = Some redis -> returns_somewhere setup (running common ws im (Kafka c)).
Proof.
  intros Hw E1 E2 E3 E4 E5. unfold setup.
  eapply somewhere_bind; [by eapply somewhere_MustLoad |]. rewrite E5.
  eapply somewhere_bind; [apply somewhere_ret |]. eapply somewhere_bind; [by eapply somewhere_must, somewhere_db_Init |].
  rewrite E3. eapply somewhere_bind; [apply somewhere_ret |]. rewrite E1.
  eapply somewhere_bind; [apply somewhere_ret |]. eapply somewhere_bind; [by eapply somewhere_open_store |].
  eapply somewhere_bind; [apply somewhere_must, Hw |].
  pose proof (world_channel_enabled (store_conf common (Kafka c)) (NewWebsocketServer (ws_ID ws) (SecretKey common) t rnd)) as Hen.
  unfold running, start_with, start.
  destruct (EnableWorldChannel t _) as [enabled core]. cbn [fst snd] in *. subst enabled. rewrite E4.
  eapply somewhere_bind; apply somewhere_ret.
Qed.

Lemma setup_panics c :
  works c -> Common c = None \/ MySql c = None \/ WsServer c = None \/ IMService c = None \/ Redis c = None ->
  panics_somewhere setup.
Proof.
  intros Hw Hn. unfold setup.
  destruct (Common c) as [common |] eqn:E1; [| apply panics_bind, (MustLoad_panics c Hw); tauto].
  destruct (MySql c) as [my |] eqn:E2; [| apply panics_bind, (MustLoad_panics c Hw); tauto].
  destruct (WsServer c) as [ws |] eqn:E3; [| apply panics_bind, (MustLoad_panics c Hw); tauto].
  destruct (IMService c) as [im |] eqn:E4; [| apply panics_bind, (MustLoad_panics c Hw); tauto].
  destruct Hn as [? | [? | [? | [? | E5]]]]; try done.
  eapply somewhere_bind_panics; [by eapply somewhere_MustLoad |]. rewrite E5. apply panics_bind, somewhere_panic.
Qed.

Lemma main_panics c :
  works c -> Common c = None \/ MySql c = None \/ WsServer c = None \/ IMService c = None \/ Redis c = None ->
  forall l, exists why l', setup l = (Panics why, l') /\ main l = (Panics why, l').
Proof.
  intros Hw Hn l. destruct (setup_panics c Hw Hn l) as (why & l' & E). exists why, l'. split; [done |].
  unfold main, bind. by rewrite E.
Qed.

(** [config.toml] and the documents let [MySql] and [Redis] out when no history and no offline messages are kept; [main]
    panics without them, whatever is kept. *)
Lemma main_needs_MySql_and_Redis c :
  works c -> MySql c = None \/ Redis c = None -> forall l, exists why l', main l = (Panics why, l').
Proof.
  intros Hw Hn l. destruct (main_panics c Hw ltac:(tauto) l) as (why & l' & _ & E). by exists why, l'.
Qed.

(** C34: when the libraries do what they are asked and the file has the sections [CommonConf], [WsServer], [IMRpcServer],
    [MySql] and [Redis], [main] serves, with the store the file asks for, the process [start] describes, under the RPC
    name and address of the file; when [CommonConf], [WsServer] or [IMRpcServer] is missing it panics before it
    has opened a port. *)
Theorem main_starts_the_process c :
  works c ->
  match Common c, WsServer c, IMService c with
  | Some common, Some ws, Some im =>
      is_Some (MySql c) -> is_Some (Redis c) ->
      forall l, exists l', setup l = (Val (running common ws im (Kafka c)), l') /\
        main l = must (RunRpcService (rpcOpts (running common ws im (Kafka c))) service) l'
  | _, _, _ => forall l, exists why l', setup l = (Panics why, l') /\ main l = (Panics why, l')
  end.
Proof.
  intros Hw.
  destruct (Common c) as [common |] eqn:E1; [| apply (main_panics c Hw); tauto].
  destruct (WsServer c) as [ws |] eqn:E3; [| apply (main_panics c Hw); tauto].
  destruct (IMService c) as [im |] eqn:E4; [| apply (main_panics c Hw); tauto].
  intros [my E2] [redis E5] l. destruct (setup_returns c common my ws im redis Hw E1 E2 E3 E4 E5 l) as [l' E]. exists l'.
  split; [done |]. unfold main. by rewrite (bind_Val _ _ _ _ _ E).
Qed.

(** What [main] starts is a state the invariants of the process hold in. *)
Lemma running_reachable o common ws im kafka :
  reachable (H := main_store db_Exec (store_conf common kafka)) o (process (running common ws im kafka)).
Proof. unfold running, start_with. cbv zeta. cbn [process]. apply reach_start. Qed.
End main.

(** ** A start *)

Definition demo_config (redis : option RedisConf) : Config :=
  MkConfig (Some (MkMySqlConf "localhost" 3306 "root" "root" "im-service" "utf8mb4")) redis
    (Some (MkWsServerConf "node1" "0.0.0.0" 8083 "secret"))
    (Some (MkIMRpcServerConf "0.0.0.0" 8092 "tcp" ["127.0.0.1:2379"] "im_rpc_server"))
    (Some (MkCommonConf false false "secret_key")) (Some (MkKafkaConf [])).
Definition demo_redis : RedisConf := MkRedisConf "" 6789 "" 8.

#[local] Existing Instance flip_cipher.
#[local] Instance no_redis : Redis_ unit := {|
  SAdd _ _ r := r; Expire _ _ r := r; SMembers _ r := (([], nil_error), r); Del _ r := r |}.

(** Libraries whose calls succeed. *)
Definition demo_platform (c : Config) : Platform_ unit := {|
  viper_ReadInConfig _ _ _ := ret nil_error; viper_Unmarshal := ret (nil_error, c);
  gorm_Open _ := ret nil_error; gorm_DB := ret nil_error;
  SetMaxOpenConns _ := ret tt; SetConnMaxLifetime _ := ret tt; SetMaxIdleConns _ := ret tt;
  redis_NewClient _ := ret tt; sql_Open _ := ret nil_error; sql_Ping := ret nil_error;
  sarama_NewAsyncProducer _ := ret nil_error; ants_NewPool _ := ret nil_error |}.
Definition demo_rpcx : RpcxServer_ unit unit := {|
  etcd_Start _ := ret nil_error; Plugins_Add _ := ret tt; RegisterName _ _ _ := ret nil_error; Serve _ _ := ret nil_error |}.

Lemma demo_works c : works (H := demo_platform c) c.
Proof. split; unfold succeeds; intros; eexists; reflexivity. Qed.

Definition demo_setup (redis : option RedisConf) : res (Running (D := unit) (R := unit)) * unit :=
  setup (H := demo_platform (demo_config redis)) (fun _ => ret (inl 1)) 5000 [] ([], tt) tt "too many goroutines" tt.

Lemma main_starts_the_process_witness :
  works (H := demo_platform (demo_config (Some demo_redis))) (demo_config (Some demo_redis)) /\
  exists l', demo_setup (Some demo_redis) = (Val (running (fun _ => ret (inl 1)) 5000 [] ([], tt) tt "too many goroutines"
    (MkCommonConf false false "secret_key") (MkWsServerConf "node1" "0.0.0.0" 8083 "secret")
    (MkIMRpcServerConf "0.0.0.0" 8092 "tcp" ["127.0.0.1:2379"] "im_rpc_server") (Some (MkKafkaConf []))), l').
Proof.
  split; [apply demo_works |].
  destruct (main_starts_the_process (H := demo_platform (demo_config (Some demo_redis))) (H0 := demo_rpcx) (fun _ => ret (inl 1)) 5000 [] ([], tt) tt "too many goroutines" tt
    (demo_config (Some demo_redis)) (demo_works _) ltac:(by eexists) ltac:(by eexists) tt) as (l' & E & _).
  exists l'. exact E.
Defined.

(** The comment of [config.toml] lets [Redis] out when offline messages are not kept; [main] does not. *)
Example redis_may_not_be_left_out : (demo_setup None).1 = Panics "invalid memory address or nil pointer dereference".
Proof. reflexivity. Qed.

(** The servers of etcd in the file are not given to the RPC server, which does not register itself. *)
Example etcd_is_ignored :
  match (demo_setup (Some demo_redis)).1 with Val p => sv_EtcdServers (rpcOpts p) = [] | Panics _ => False end.
Proof. vm_compute. reflexivity. Qed.
