(* ===== verification/Delivery.v ===== *)
(** * A group message on its way

    From the handler of the sender's message to the queue of the gateway's pool, for each reader of the
    channel that is connected: the composition of messaging, the channels and the gateway in the state
    of the process ([group_message_reaches_the_readers]). *)

From S2P Require Import Prelude GoStrings Json Messages GateId Channel ChannelSpec Subscription Credentials Gate GateSpec GateProps Pipeline Interfaces UserState Messaging MessagingSpec Rpc Stores System SystemSpec.

Local Open Scope Z_scope.
Local Open Scope go_scope.

(** ** The gateway's side *)

Section gateway.
Context {T : Type} `{Store_ T}.

(** The task the gateway submits for a subscriber. *)
Definition task_for (w : World) (m : option GlideMessage) (id : SubscriberID) : option (nat * option GlideMessage) :=
  task_at w m (NewID2 id).

Lemma enqueue_task id m w (st : T) :
  gate_inv w -> Z.of_nat (length (pool w)) < pool_cap w ->
  (gate_EnqueueMessage (NewID2 id) m (w, st)).2 = (set_pool (pool w ++ option_list (task_for w m id)) w, st).
Proof.
  intros Hi Hroom. destruct (EnqueueMessage_at (NewID2 id) m w Hi Hroom) as (e & E & _).
  unfold gate_EnqueueMessage, World_ChanEnv. cbn [fst snd]. by rewrite E.
Qed.

Lemma deliver_tasks m ids (st : T) : forall w,
  gate_inv w -> Z.of_nat (length (pool w) + length ids) <= pool_cap w ->
  deliver ids m (w, st) = (set_pool (pool w ++ omap (task_for w m) ids) w, st).
Proof.
  induction ids as [| id ids IH]; intros w Hi Hroom.
  - cbn [deliver omap list_omap]. rewrite app_nil_r. by destruct w.
  - cbn [length] in Hroom. cbn [deliver]. pose proof (world_enqueue_gate gate_inv (NewID2 id) m (w, st) (preserves_EnqueueMessage _ _) Hi) as Hk.
    rewrite enqueue_task in Hk |- * by (done || lia). cbn [fst snd] in Hk.
    set (w1 := set_pool _ w) in *.
    assert (E : omap (task_for w1 m) ids = omap (task_for w m) ids) by done.
    rewrite IH; [| done |].
    + rewrite E. unfold w1. cbn [pool set_pool omap list_omap]. rewrite <- app_assoc. by destruct (task_for w m id).
    + unfold w1. cbn [pool set_pool pool_cap]. rewrite length_app. destruct (task_for w m id); cbn [option_list length] in *; cbn; lia.
Qed.
End gateway.

(** The acknowledgement to a connected client. *)
Lemma enqueue_acks r c m w :
  gate_inv w -> heap w !! r = Some c -> state c = stateRunning -> Z.of_nat (length (pool w)) < pool_cap w ->
  (EnqueueMessage (info_ID (Gate.info c)) (Some m) w).2 = set_pool (pool w ++ [(r, Some m)]) w.
Proof.
  intros Hi Hr Hs Hroom. erewrite EnqueueMessage_run; [done | | done | done | done].
  apply (gi_live _ Hi r c Hr). congruence.
Qed.

(** ** The channel's side *)

(** The subscribers that may read, in the order of the worker's loop. *)
Definition readers (g : Channel) : list SubscriberID := (filter (fun p => canRead p.2 = true) (map_to_list (subscribers g))).*1.

Lemma recipients_all g m : pm_To m = [] -> recipients g m = readers g.
Proof.
  intros Ht. unfold recipients, readers. f_equal. apply list_filter_iff. intros p. unfold receives. by rewrite Ht.
Qed.

(** A channel ready to take a message and to push it next. *)
Record ready (g : Channel) : Prop := {
  rd_open : Channel.messages_closed g = false;
  rd_empty : Channel.messages g = [];
  rd_worker : worker g = Some WLoop \/ worker g = None;
  rd_running : queueRunning g = (if worker g is Some _ then 1 else 0) }.

Section channel.
Context {T : Type} `{Store_ T}.

(** The channel's next number is [n], and the store takes the message under it. *)
Record takes (g : Channel) (w : World) (st : T) (cm : ChatMessage) (n : Z) (st' : T) : Prop := {
  tk_number : exists a b st1, nextSeq (g, (w, st)) = (Val (n, nil_error), (set_seqs a b g, (w, st1))) /\
    st_StoreChannelMessage (ch_id g) (set_cm_Seq n cm) st1 = (nil_error, st') }.

(** Within a segment the number is the one after the last, and nothing is asked of the store for it. *)
Lemma takes_in_segment g w st cm st' :
  1 < seqRemain g <= MaxInt64 -> in_int64 (seq_ g) -> seq_ g < MaxInt64 ->
  st_StoreChannelMessage (ch_id g) (set_cm_Seq (seq_ g + 1) cm) st = (nil_error, st') ->
  takes g w st cm (seq_ g + 1) st'.
Proof.
  intros Hrem Hs Hmax Hst. split. exists (seq_ g + 1), (seqRemain g - 1), st. split; [| done].
  by apply nextSeq_within.
Qed.

Lemma enqueue_ready t pm msg cm g w st n st' :
  ready g -> pm_Type pm = TypeMessage -> pm_Message pm = Some msg ->
  Deserialize (Data msg) zero_ChatMessage = (nil_error, cm) -> takes g w st cm n st' ->
  exists g', enqueue t pm (g, (w, st)) = (Val nil_error, (g', (w, st'))) /\ worker g' = Some WLoop /\
    Channel.messages g' = [with_data pm n (set_cm_Seq n cm)] /\ subscribers g' = subscribers g.
Proof.
  intros [Hc He Hw Hrun] Hty Hm Hd [(a & b & st1 & Hn & Hst)]. unfold enqueue, GetChatMessage. rewrite Hm.
  erewrite bind_Val by reflexivity. rewrite Hd, (bind_Val _ _ _ _ _ Hn). cbv beta iota zeta.
  set (pm' := with_data pm _ _). set (g1 := set_seqs a b g).
  assert (Hstore : (if pm_Type pm' =? TypeMessage then let! id := rd ch_id in Channel.env_call (StoreChannelMessage id (set_cm_Seq n cm))
    else ret nil_error) (g1, (w, st1)) = (Val nil_error, (g1, (w, st')))).
  { unfold pm'. cbn [pm_Type with_data]. rewrite Hty. unfold bind, rd, gets, Channel.env_call. cbn. by rewrite Hst. }
  rewrite (bind_Val _ _ _ _ _ Hstore).
  destruct (send_check_run t g1 (w, st') pm' (errors_New "too many messages,the group message queue is full"))
    as (g2 & Hr2 & Hm2 & Hsub & _ & _ & _ & Hc2 & Hstart & Hkeep); [done |].
  cbn [g1 set_seqs Channel.messages queueRunning worker subscribers] in *. rewrite He in *. cbn [length app] in *.
  exists g2. split; [exact Hr2 |]. split_and!; try done.
  destruct Hw as [Hw | Hw]; rewrite Hw in Hrun.
  - destruct (Hkeep ltac:(lia)) as [-> _]. done.
  - apply Hstart; [unfold queue_cap; lia | done].
Qed.

(** The worker's next step on it: the push. *)
Lemma worker_pushes t pm msg g w (st : T) :
  worker g = Some WLoop -> Channel.messages g = [pm] -> pm_To pm = [] -> pm_Message pm = msg ->
  gate_inv w -> Z.of_nat (length (pool w) + length (readers g)) <= pool_cap w ->
  exists g', wstep t (g, (w, st)) (g', (set_pool (pool w ++ omap (task_for w msg) (readers g)) w, st)).
Proof.
  intros Hw Hm Ht Hmsg Hi Hroom. set (g1 := set_activeAt t (set_queued (int32 (queued g - 1)) (Channel.set_messages [] g))).
  exists g1. eapply (w_recv t g (w, st) pm []); [done | done |]. fold g1. rewrite push_run, recipients_all, Hmsg by done.
  change (readers g1) with (readers g). by rewrite deliver_tasks.
Qed.

Lemma publish_at t ch msg g chs (x : World * T) r g' x' :
  chs !! ch = Some g -> Publish t msg (g, x) = (r, (g', x')) ->
  impl_PublishMessage t ch msg (chs, x) = (r, (<[ch := g']> chs, x')).
Proof.
  intros Hg Hp. unfold impl_PublishMessage, real_Publish, with_channel. cbn [fst snd]. by rewrite Hg, Hp.
Qed.
End channel.

(** ** From the sender's client to the readers' *)

Section process.
Context {T R : Type} `{Store_ T} `{Redis_ R}.
Abbreviation Msg_Env t := (Env_MsgEnv (T := T) (R := R) t).

(** The state of messaging with one thing to do: the channels, the gateway, the store, Redis. *)
Definition at_ (chs : gmap ChanID Channel) (w : World) (st : T) (r0 : R) (us : UserState) (sp : list spawned) : MState (Env (T := T) (R := R)) :=
  MkMState ((chs, (w, st)), r0) us [] sp.

(** The message as the channel stores it for its readers: in its sender's name, with its number. *)
Definition final_message (uid : string) (m : GlideMessage) (seq : Z) (cm : ChatMessage) : GlideMessage :=
  set_Data (Some (PChatMessagePtr (set_cm_Seq seq cm))) (set_From uid m).

Lemma core_publish_run t m cm g chs w st n st' r0 us sp uid :
  Deserialize (Data m) zero_ChatMessage = (nil_error, cm) -> chs !! To m = Some g -> ready g -> takes g w st cm n st' ->
  may_publish g (MkPublishMessage uid [] 0 TypeMessage (Some (set_From uid m))) ->
  exists g', env (PublishMessage_ (MsgEnv := Msg_Env t) (To m)
      (AsPublish (MkPublishMessage uid [] 0 TypeMessage (Some (set_From uid m))))) (at_ chs w st r0 us sp) =
      (Val nil_error, at_ (<[To m := g']> chs) w st' r0 us sp) /\
    worker g' = Some WLoop /\ subscribers g' = subscribers g /\ Channel.messages g' =
      [MkPublishMessage uid [] n TypeMessage (Some (final_message uid m n cm))].
Proof.
  intros Hd Hg Hready Htakes (Hopen & Hty & s & Hs & Hcw & Hmu & Hbl).
  set (pm := MkPublishMessage uid [] 0 TypeMessage (Some (set_From uid m))).
  destruct (enqueue_ready t pm (set_From uid m) cm g w st n st' Hready eq_refl eq_refl Hd Htakes) as (g' & Hr & Hw & Hm & Hsub).
  exists g'. split_and!; [| done | done | exact Hm].
  unfold env, zoom. cbn [at_ m_env m_userState m_tasks m_spawned PublishMessage_ Env_MsgEnv].
  unfold on_core, zoom. cbn [fst snd]. rewrite (publish_at t (To m) (AsPublish pm) g chs (w, st) (Val nil_error) g' (w, st') Hg); [done |].
  by rewrite (Publish_message_run t pm g (w, st) s).
Qed.

Lemma client_ID_run t r c chs w st r0 us sp :
  heap w !! r = Some c ->
  c_ID (H0 := Msg_Env t) (InfoOf r) (at_ chs w st r0 us sp) = (Val (info_ID (Gate.info c)), at_ chs w st r0 us sp).
Proof.
  intros Hr. unfold c_ID, env, zoom. cbn [at_ m_env info_ID_of Env_MsgEnv]. unfold on_world, zoom. cbn [fst snd].
  unfold read_ID. by rewrite (bind_Val _ _ _ _ _ (get_client_run r c w Hr)).
Qed.

Lemma client_enqueue_run r c m chs w st r0 us sp :
  gate_inv w -> heap w !! r = Some c -> state c = stateRunning -> Z.of_nat (length (pool w)) < pool_cap w ->
  m_EnqueueMessage (info_ID (Gate.info c)) m (at_ chs w st r0 us sp) =
    (Val nil_error, at_ chs (set_pool (pool w ++ [(r, Some m)]) w) st r0 us sp).
Proof.
  intros Hi Hr Hs Hroom. unfold m_EnqueueMessage, env, zoom. cbn [at_ m_env gw_EnqueueMessage Env_Gateway].
  unfold on_world, zoom. cbn [fst snd]. erewrite EnqueueMessage_run; [done | | done | done | done].
  apply (gi_live _ Hi r c Hr). congruence.
Qed.

(** The handler publishes and acknowledges. *)
Lemma group_handler_run t r c m cm g g' chs w st st' r0 us sp :
  gate_inv w -> heap w !! r = Some c -> state c = stateRunning -> Z.of_nat (length (pool w)) < pool_cap w ->
  Deserialize (Data m) zero_ChatMessage = (nil_error, cm) ->
  env (PublishMessage_ (MsgEnv := Msg_Env t) (To m)
    (AsPublish (MkPublishMessage (From m) [] 0 TypeMessage (Some m)))) (at_ chs w st r0 us sp) =
    (Val nil_error, at_ (<[To m := g']> chs) w st' r0 us sp) -> chs !! To m = Some g ->
  handleGroupMsg (H0 := Msg_Env t) (InfoOf r) m (at_ chs w st r0 us sp) =
    (Val nil_error, at_ (<[To m := g']> chs) (set_pool (pool w ++ [(r, Some (ack_message cm))]) w) st' r0 us sp).
Proof.
  intros Hi Hr Hs Hroom Hd Hpub Hg. unfold handleGroupMsg. rewrite Hd, (bind_Val _ _ _ _ _ Hpub).
  unfold ackChatMessage. erewrite (bind_Val (bind (c_ID _) _)); [reflexivity |].
  rewrite (bind_Val _ _ _ _ _ (client_ID_run t r c _ _ _ _ _ _ Hr)). by apply client_enqueue_run.
Qed.

(** C3: a group message of a connected client ends up in the queues of the readers of its channel. From the
    moment the gateway hands it over, for a channel the sender may publish to and that is idle: it is
    handled without an error, stored under the next number of the channel, the sender is acknowledged, and
    the next step of the channel's worker submits one task for every reader that is connected, to write the
    same message, in the name of the connection it came on and with that number; nothing else is submitted. *)
Theorem group_message_reaches_the_readers t t' o order r c m cm g chs w st n st' r0 us sp :
  let uid := UID (info_ID (Gate.info c)) in
  gate_inv w -> heap w !! r = Some c -> state c = stateRunning ->
  Action m = ActionGroupMessage -> Deserialize (Data m) zero_ChatMessage = (nil_error, cm) ->
  chs !! To m = Some g -> ready g -> takes g w st cm n st' ->
  may_publish g (MkPublishMessage uid [] 0 TypeMessage (Some (set_From uid m))) ->
  order ≡ₚ default_map (H0 := Msg_Env t) -> 0 < MaxMessageConcurrency o ->
  Z.of_nat (length (pool w) + 1 + length (readers g)) <= pool_cap w ->
  let acked := set_pool (pool w ++ [(r, Some (ack_message cm))]) w in
  exists s1 g' g'',
    Messaging.Handle (H0 := Msg_Env t) o (InfoOf r) m (at_ chs w st r0 us sp) = (Val nil_error, s1) /\
    run_task (H0 := Msg_Env t) o (default_chain order) 0 s1 = (Val tt, at_ (<[To m := g']> chs) acked st' r0 us sp) /\
    wstep t' (g', (acked, st'))
      (g'', (set_pool (pool acked ++ omap (task_for w (Some (final_message uid m n cm))) (readers g)) w, st')).
Proof.
  intros uid Hi Hr Hs Hact Hd Hg Hready Htakes Hmay Hp Hroom Hpool acked.
  destruct (core_publish_run t m cm g chs w st n st' r0 us sp uid Hd Hg Hready Htakes Hmay) as (g' & Hpub & Hw & Hsub & Hmsg).
  assert (Hrd : readers g' = readers g) by (unfold readers; by rewrite Hsub).
  destruct (worker_pushes t' _ _ g' acked st' Hw Hmsg eq_refl eq_refl) as (g'' & Hpush).
  { unfold acked. rewrite <- (enqueue_acks r c (ack_message cm) w) by (done || lia). by apply preserves_EnqueueMessage. }
  { rewrite Hrd. unfold acked. cbn [pool set_pool pool_cap]. rewrite length_app. cbn [length]. lia. }
  exists (MkMState ((chs, (w, st)), r0) us [(InfoOf r, set_From uid m)] sp), g', g''. split_and!.
  - rewrite (Handle_submits (H0 := Msg_Env t) o (InfoOf r) m (info_ID (Gate.info c))); [| apply client_ID_run, Hr | done].
    by rewrite Hact.
  - apply (run_only_task (H0 := Msg_Env t) o (default_chain order) (InfoOf r) (set_From uid m) (at_ chs w st r0 us sp) (Val tt)); [done |].
    apply (task_handled (H0 := Msg_Env t) o order (InfoOf r) (set_From uid m) (handleGroupMsg (H0 := Msg_Env t))); [done | |].
    + change (Action (set_From uid m)) with (Action m). by rewrite Hact.
    + apply (group_handler_run t r c (set_From uid m) cm g g'); done || lia.
  - rewrite Hrd in Hpush. exact Hpush.
Qed.
End process.

(** ** Two users in a channel *)

#[local] Existing Instances flip_cipher no_redis demo_store.

Definition two_users : World :=
  run_ops demo_w0 [OpConnect 0 "10.0.0.1" (demo_bytes 1); OpConnect 1 "10.0.0.2" (demo_bytes 2);
    OpSetClientID (demo_temp 1) (NewID2 "u1"); OpSetClientID (demo_temp 2) (NewID2 "u2"); OpPool 0; OpPool 0].

Lemma two_users_inv : gate_inv two_users.
Proof.
  apply gate_reachable_inv; [| vm_compute; reflexivity]. unfold two_users, run_ops, foldl.
  repeat (apply gate_step; [| first [exact I | split; vm_compute; reflexivity]]). apply gate_start.
Qed.

(** Three subscribers: the third is not connected. *)
Definition room : Channel :=
  Channel.set_subscribers {["u1" := MkSubscriberInfo 6; "u2" := MkSubscriberInfo 2; "u3" := MkSubscriberInfo 2]} demo_s3.1.
Definition room_members : list SubscriberID := Eval vm_compute in readers room.
Definition hello : ChatMessage := MkChatMessage "c1" 0 0 "somebody" "" 1 "hello" 9.
Definition to_room : GlideMessage := MkGlideMessage 1 3 ActionGroupMessage "somebody" "room" (Some (PBytes (encode_ChatMessage hello))) "" "" "" ∅.

Definition room_order : list (string * HandlerFunc (S := Env (T := Log * unit) (R := unit))) := default_map (H0 := Env_MsgEnv 20).
Definition room_options : Options := MkOptions true 100 "too many goroutines".
Definition no_records : Log * unit := ([], tt).

Lemma room_ready : ready room.
Proof. split; [reflexivity | reflexivity | by left | reflexivity]. Qed.
Definition recorded : Log * unit := ([MkRecord KafkaChannelMessageTopic (encode_ChatMessage (set_cm_Seq 101 hello))], tt).
Lemma room_takes w : takes room w no_records hello 101 recorded.
Proof. by apply (takes_in_segment room); vm_compute; split_and?. Qed.

(** [u1] writes to the room as [somebody]; the message is recorded with its number, [u1] is acknowledged, and
    it and [u2] get the message as [u1]'s. *)
Lemma group_message_reaches_the_readers_witness :
  let final := Some (final_message "u1" to_room 101 hello) in
  let acked := set_pool [(0%nat, Some (ack_message hello))] two_users in
  exists s1 g' g'',
    Messaging.Handle (H0 := Env_MsgEnv 20) room_options (InfoOf 0) to_room
      (at_ {["room" := room]} two_users no_records tt NewUserState []) = (Val nil_error, s1) /\
    run_task (H0 := Env_MsgEnv 20) room_options (default_chain room_order) 0 s1 =
      (Val tt, at_ (<["room" := g']> {["room" := room]}) acked recorded tt NewUserState []) /\
    wstep 30 (g', (acked, recorded))
      (g'', (set_pool [(0%nat, Some (ack_message hello)); (0%nat, final); (1%nat, final)] two_users, recorded)).
Proof.
  destruct (heap two_users !! 0%nat) as [c |] eqn:Hc; [| vm_compute in Hc; discriminate].
  assert (Hcs : state c = stateRunning /\ info_ID (Gate.info c) = NewID "g1" "u1" "").
  { assert (E : (fun c => (state c, info_ID (Gate.info c))) <$> heap two_users !! 0%nat = Some (stateRunning, NewID "g1" "u1" ""))
      by (vm_compute; reflexivity). rewrite Hc in E. by injection E. }
  destruct Hcs as [Hs Hid].
  assert (Huid : UID (info_ID (Gate.info c)) = "u1") by (rewrite Hid; reflexivity).
  pose proof (group_message_reaches_the_readers 20 30 room_options room_order 0 c to_room hello room {["room" := room]} two_users
    no_records 101 recorded tt NewUserState []) as Hth. cbv zeta in Hth. rewrite Huid in Hth.
  apply Hth.
  - apply two_users_inv.
  - exact Hc.
  - exact Hs.
  - reflexivity.
  - vm_compute. reflexivity.
  - reflexivity.
  - apply room_ready.
  - apply room_takes.
  - split_and!; [reflexivity | by right |]. exists (MkSubscriberInfo 6). by split_and!.
  - reflexivity.
  - reflexivity.
  - by vm_compute.
Defined.
