(* ===== verification/ChatDelivery.v ===== *)
(** * A chat message on its way

    From the handler of the sender's message to the bytes on the receiver's connection, when a device of
    the receiver is connected ([chat_message_reaches_the_connection]); to the offline store when none is
    ([chat_message_kept_offline]). *)

From S2P Require Import Prelude GoStrings Json Messages GateId Channel Subscription Credentials Gate GateSpec GateProps Pipeline Interfaces UserState Messaging MessagingSpec Stores System SystemSpec Delivery.

Local Open Scope Z_scope.
Local Open Scope go_scope.

Section process.
Context {T R : Type} `{Store_ T} `{Redis_ R}.
Abbreviation Msg_Env t := (Env_MsgEnv (T := T) (R := R) t).

(** The gateway is given a message for an ID. *)
Lemma enqueue_at i m chs w (st : T) (r0 : R) us sp :
  gate_inv w -> Z.of_nat (length (pool w)) < pool_cap w ->
  exists e, m_EnqueueMessage i m (at_ chs w st r0 us sp) =
      (Val e, at_ chs (set_pool (pool w ++ option_list (task_at w (Some m) i)) w) st r0 us sp) /\
    (e = nil_error <-> is_Some (task_at w (Some m) i)).
Proof.
  intros Hi Hroom. destruct (EnqueueMessage_at i (Some m) w Hi Hroom) as (e & E & He). exists e. split; [| done].
  unfold m_EnqueueMessage, env, zoom. cbn [at_ m_env gw_EnqueueMessage Env_Gateway].
  unfold on_world, zoom. cbn [fst snd]. by rewrite E.
Qed.

(** The tasks for the devices of a user. *)
Definition device_tasks (w : World) (m : option GlideMessage) (uid : string) (ds : list string) : list (nat * option GlideMessage) :=
  omap (fun d => task_at w m (NewID "" uid d)) ds.

Lemma dispatch_at uid m chs (st : T) (r0 : R) us sp ds : forall ok w,
  gate_inv w -> Z.of_nat (length (pool w) + length ds) <= pool_cap w ->
  exists ok', dispatch_devices ds uid m ok (at_ chs w st r0 us sp) =
      (Val ok', at_ chs (set_pool (pool w ++ device_tasks w (Some m) uid ds) w) st r0 us sp) /\
    (ok' = false <-> ok = false /\ device_tasks w (Some m) uid ds = []).
Proof.
  induction ds as [| d ds IH]; intros ok w Hi Hroom; cbn [dispatch_devices].
  - exists ok. split; [| naive_solver]. change (device_tasks w (Some m) uid []) with (@nil (nat * option GlideMessage)).
    rewrite app_nil_r. by destruct w.
  - cbn [length] in Hroom. destruct (enqueue_at (NewID "" uid d) m chs w st r0 us sp Hi) as (e & E & He); [lia |].
    rewrite (bind_Val _ _ _ _ _ E). pose proof (gate_inv_submitted w (Some m) (NewID "" uid d) Hi) as Hi1.
    set (w1 := set_pool _ w) in *.
    assert (Et : device_tasks w (Some m) uid (d :: ds) =
      option_list (task_at w (Some m) (NewID "" uid d)) ++ device_tasks w1 (Some m) uid ds)
      by (unfold device_tasks; cbn [omap list_omap]; destruct (task_at w (Some m) (NewID "" uid d)); reflexivity).
    destruct (IH (match e with Some _ => ok | None => true end) w1 Hi1) as (ok' & -> & Hok).
    { unfold w1. cbn [pool set_pool pool_cap]. rewrite length_app. destruct (task_at w _ _); cbn; lia. }
    exists ok'. split; [unfold w1; cbn [pool set_pool]; by rewrite Et, app_assoc |].
    rewrite Hok, Et. destruct e as [e |], (task_at w (Some m) (NewID "" uid d)) as [p |]; cbn; try naive_solver.
Qed.

(** ** The handler *)

Section handler.
Context (t : Z) (r : nat) (c : UserClient) (m : GlideMessage) (chat msg : ChatMessage).
Context (chs : gmap ChanID Channel) (w : World) (st st' : T) (r0 : R) (us : UserState) (sp : list spawned).

Let uid : string := UID (info_ID (Gate.info c)).
Let sent : ChatMessage := with_sender uid (To m) chat.

Context (Hi : gate_inv w) (Hr : heap w !! r = Some c) (Hs : state c = stateRunning).
Context (Hact : Action m = ActionChatMessage) (Hd : Deserialize (Data m) zero_ChatMessage = (nil_error, chat)).
Context (Hnew : cm_Mid chat = 0) (Hst : st_StoreMessage (t / 1000) sent st = (Val (nil_error, msg), st')) (Hto : cm_To msg = To m).
Context (Hroom : Z.of_nat (length (pool w) + 5) <= pool_cap w).

(** After the acknowledgement, and with the tasks for the devices. *)
Definition acked_world : World := set_pool (pool w ++ [(r, Some (ack_message msg))]) w.
Definition pushed_world : World :=
  set_pool (pool acked_world ++ device_tasks w (Some (push_message msg)) (To m) devices) w.

Lemma stored_run :
  env (StoreMessage (MsgEnv := Msg_Env t) sent) (at_ chs w st r0 us sp) = (Val (nil_error, msg), at_ chs w st' r0 us sp).
Proof.
  unfold env, zoom. cbn [at_ m_env StoreMessage Env_MsgEnv]. unfold on_store, zoom. cbn [fst snd]. by rewrite Hst.
Qed.

Lemma acked_inv : gate_inv acked_world.
Proof.
  apply gate_inv_pool; [done |]. intros r1 m1 [Hin | Hin]%elem_of_app; [by eapply gi_pool |].
  apply list_elem_of_singleton in Hin. injection Hin as -> ->. by exists c.
Qed.

Lemma pushed_inv : gate_inv pushed_world.
Proof.
  apply gate_inv_pool; [done |]. intros r1 m1 [Hin | Hin]%elem_of_app; [by eapply (gi_pool _ acked_inv) |].
  apply list_elem_of_omap in Hin as (d & _ & Hd1). unfold task_at in Hd1.
  repeat case_match; simplify_eq. eauto.
Qed.

(** What is left to do once the devices were offered the message. *)
Lemma chat_handler_run :
  exists ok, handleChatMessage (H0 := Msg_Env t) (InfoOf r) m (at_ chs w st r0 us sp) =
      (if ok : bool then ret nil_error
       else let! _ := ackNotifyMessage msg in dispatchOffline (H0 := Msg_Env t) msg) (at_ chs pushed_world st' r0 us sp) /\
    (ok = false <-> device_tasks w (Some (push_message msg)) (To m) devices = []).
Proof.
  unfold handleChatMessage, unmarshalData. rewrite Hd, Hact, (bind_Val _ _ _ _ _ (client_ID_run t r c chs w st r0 us sp Hr)).
  cbn [cm_Mid with_sender]. rewrite Hnew. cbn [Z.eqb andb].
  rewrite bool_decide_false by discriminate. cbn [negb].
  rewrite (bind_Val _ _ _ _ _ stored_run). cbv beta iota.
  assert (Hack : ackChatMessage (H0 := Msg_Env t) (InfoOf r) msg (at_ chs w st' r0 us sp) = (Val nil_error, at_ chs acked_world st' r0 us sp)).
  { unfold ackChatMessage. rewrite (bind_Val _ _ _ _ _ (client_ID_run t r c chs w st' r0 us sp Hr)).
    apply client_enqueue_run; try done. lia. }
  rewrite (bind_Val _ _ _ _ _ Hack).
  destruct (dispatch_at (cm_To msg) (push_message msg) chs st' r0 us sp devices false acked_world acked_inv) as (ok & E & Hok).
  { unfold acked_world. cbn [pool set_pool pool_cap]. rewrite length_app. cbn. lia. }
  exists ok. rewrite Hto in *. split; [by rewrite (bind_Val _ _ _ _ _ E) |]. rewrite Hok. split; [by intros [] | done].
Qed.

(** From the entry point: the handler's state is the one the worker of messaging leaves. *)
Lemma chat_task_run o order s' :
  order ≡ₚ default_map (H0 := Msg_Env t) -> 0 < MaxMessageConcurrency o ->
  handleChatMessage (H0 := Msg_Env t) (InfoOf r) (set_From uid m) (at_ chs w st r0 us sp) = (Val nil_error, s') ->
  exists s1, Messaging.Handle (H0 := Msg_Env t) o (InfoOf r) m (at_ chs w st r0 us sp) = (Val nil_error, s1) /\
    run_task (H0 := Msg_Env t) o (default_chain order) 0 s1 = (Val tt, s').
Proof.
  intros Hp Hcap Hrun. exists (MkMState ((chs, (w, st)), r0) us [(InfoOf r, set_From uid m)] sp). split.
  - rewrite (Handle_submits (H0 := Msg_Env t) o (InfoOf r) m (info_ID (Gate.info c))); [| apply client_ID_run, Hr | done].
    by rewrite Hact.
  - apply (run_only_task (H0 := Msg_Env t) o (default_chain order) (InfoOf r) (set_From uid m) (at_ chs w st r0 us sp) (Val tt)); [done |].
    apply (task_handled (H0 := Msg_Env t) o order (InfoOf r) (set_From uid m) (handleChatMessage (H0 := Msg_Env t))); [done | | done].
    change (Action (set_From uid m)) with (Action m). by rewrite Hact.
Qed.
End handler.
End process.

(** ** The receiver's connection *)

(** One device of a user is one client. *)
Lemma task_of_device w mo uid d d' r r' mo' :
  gate_inv w -> gate_id w <> "" -> part_ok (gate_id w) -> part_ok uid -> part_ok d -> part_ok d' ->
  clients w !! route (gate_id w) (NewID "" uid d) = Some r -> task_at w mo (NewID "" uid d') = Some (r', mo') ->
  (r' = r <-> d' = d) /\ mo' = mo.
Proof.
  intros Hi Hg Hpg Hu Hd Hd' Hr Ht. unfold task_at in Ht. destruct (clients w !! route _ (NewID "" uid d')) as [r1 |] eqn:Hr1; [| done].
  destruct (heap w !! r1) as [c1 |] eqn:Hc1; [| done]. destruct (state c1); simplify_eq. split; [| done].
  rewrite !route_user in * by done. split; [| intros ->; congruence]. intros ->.
  pose proof (registered_unique w _ _ c1 Hi Hr Hc1) as E. pose proof (registered_unique w _ _ c1 Hi Hr1 Hc1) as E1.
  rewrite E in E1. apply NewID_inj in E1 as (_ & _ & ->); done.
Qed.

Lemma devices_ok d : d ∈ devices -> part_ok d.
Proof. intros Hd. repeat (apply elem_of_cons in Hd as [-> | Hd]; [done |]). by apply not_elem_of_nil in Hd. Qed.

Lemma tasks_of_device w mo uid d r c ds :
  gate_inv w -> gate_id w <> "" -> part_ok (gate_id w) -> part_ok uid -> NoDup ds -> ds ⊆ devices -> d ∈ devices ->
  clients w !! route (gate_id w) (NewID "" uid d) = Some r -> heap w !! r = Some c -> state c = stateRunning ->
  tasks_of r (device_tasks w mo uid ds) = if decide (d ∈ ds) then [mo] else [].
Proof.
  intros Hi Hg Hpg Hu Hnd Hsub Hd Hr Hc Hs. induction Hnd as [| d' ds Hnot Hnd IH]; [done |].
  assert (Hd' : d' ∈ devices) by (apply Hsub; constructor).
  assert (IH' := IH (fun x Hx => Hsub x (list_elem_of_further _ _ _ Hx))). clear IH.
  assert (E : tasks_of r (device_tasks w mo uid (d' :: ds)) = (if decide (d' = d) then [mo] else []) ++ tasks_of r (device_tasks w mo uid ds)).
  { unfold device_tasks at 1. cbn [omap list_omap]. destruct (task_at w mo (NewID "" uid d')) as [[r' mo'] |] eqn:Ht.
    - destruct (task_of_device w mo uid d d' r r' mo' Hi Hg Hpg Hu (devices_ok d Hd) (devices_ok d' Hd') Hr Ht) as [Hiff ->].
      unfold tasks_of. cbn [omap list_omap fst snd]. destruct (decide (r' = r)), (decide (d' = d)); naive_solver.
    - destruct (decide (d' = d)) as [-> | Hne]; [| done].
      exfalso. unfold task_at in Ht. by rewrite Hr, Hc, Hs in Ht. }
  rewrite E, IH'. destruct (decide (d' = d)) as [-> | Hne].
  - rewrite (decide_True (P := d ∈ d :: ds)) by constructor. by rewrite decide_False.
  - destruct (decide (d ∈ ds)); [by rewrite decide_True by by constructor | rewrite decide_False; [done |]].
    intros [-> | ?]%elem_of_cons; done.
Qed.

Lemma devices_NoDup : NoDup devices.
Proof. repeat constructor; set_solver. Qed.

Lemma tasks_of_app r l1 l2 : tasks_of r (l1 ++ l2) = tasks_of r l1 ++ tasks_of r l2.
Proof. apply omap_app. Qed.

Section delivery.
Context {T R : Type} `{Store_ T} `{Redis_ R} `{!FillsMid T}.
Abbreviation Msg_Env t := (Env_MsgEnv (T := T) (R := R) t).

(** The delivery, with the gateway the worker of messaging leaves. *)
Lemma chat_message_delivered t o order r c m chat msg chs w st st' r0 us sp d r2 c2 :
  let sent := with_sender (UID (info_ID (Gate.info c))) (To m) chat in
  gate_inv w -> gate_id w <> "" -> part_ok (gate_id w) -> part_ok (To m) ->
  heap w !! r = Some c -> state c = stateRunning ->
  Action m = ActionChatMessage -> Deserialize (Data m) zero_ChatMessage = (nil_error, chat) -> cm_Mid chat = 0 ->
  st_StoreMessage (t / 1000) sent st = (Val (nil_error, msg), st') -> ChatMessage_ok msg ->
  order ≡ₚ default_map (H0 := Msg_Env t) -> 0 < MaxMessageConcurrency o -> Z.of_nat (length (pool w) + 5) <= pool_cap w ->
  d ∈ devices -> clients w !! route (gate_id w) (NewID "" (To m) d) = Some r2 -> r2 <> r ->
  heap w !! r2 = Some c2 -> state c2 = stateRunning -> Gate.messages c2 = [] -> tasks_of r2 (pool w) = [] ->
  exists s1 w1, Messaging.Handle (H0 := Msg_Env t) o (InfoOf r) m (at_ chs w st r0 us sp) = (Val nil_error, s1) /\
    run_task (H0 := Msg_Env t) o (default_chain order) 0 s1 = (Val tt, at_ chs w1 st' r0 us sp) /\
    gate_inv w1 /\ heap w1 !! r2 = Some c2 /\
    forall ns w2, run_pools ns w1 = (Val tt, w2) -> pool w2 = [] ->
      exists w3 c3 text m' mid, run_writes 1 r2 w2 = (Val true, w3) /\ heap w3 !! r2 = Some c3 /\
        conn c3 = conn c2 ++ [Wrote text] /\ decode_message text = (nil_error, m') /\ Action m' = ActionChatMessage /\
        Deserialize (Data m') zero_ChatMessage = (nil_error, set_Mid mid (valid_chat sent)).
Proof.
  intros sent Hi Hg Hpg Hu Hr Hs Hact Hd Hnew Hst Hok Hp Hcap Hroom Hdev Hid Hne Hr2 Hs2 Hq Hnone.
  destruct (fills_mid _ _ _ _ _ Hst) as [mid Emsg].
  assert (Hto : cm_To msg = To m) by (by rewrite Emsg).
  set (pushed := pushed_world r m msg w).
  assert (Htasks : tasks_of r2 (device_tasks w (Some (push_message msg)) (To m) devices) = [Some (push_message msg)]).
  { rewrite (tasks_of_device w _ (To m) d r2 c2 devices); try done; [by rewrite decide_True | apply devices_NoDup]. }
  destruct (chat_handler_run t r c (set_From (UID (info_ID (Gate.info c))) m) chat msg chs w st st' r0 us sp) as (ok & Hrun & Hlost); try done.
  change (To (set_From _ m)) with (To m) in Hlost.
  destruct ok; [| by rewrite (proj1 Hlost eq_refl) in Htasks].
  destruct (chat_task_run t r c m chs w st r0 us sp Hr Hact o order _ Hp Hcap Hrun) as (s1 & H1 & H2).
  exists s1, pushed. split; [exact H1 |]. split; [exact H2 |].
  assert (Hpt : tasks_of r2 (pool pushed) = [Some (push_message msg)]).
  { unfold pushed, pushed_world, acked_world. cbn [pool set_pool]. rewrite !tasks_of_app, Hnone, Htasks. cbn. by rewrite decide_False. }
  assert (Hpi : gate_inv pushed) by (apply (pushed_inv r c); done).
  split; [exact Hpi |]. split; [exact Hr2 |]. intros ns w2 Hpool Hdone.
  destruct (written_at_the_end ns r2 (push_message msg) c2 pushed w2 Hpi Hr2 Hs2 Hq Hpt Hpool Hdone) as (w3 & c3 & H3 & H4 & H5).
  destruct (chat_payload_roundtrip (push_message msg) msg) as (text & He & Hdec & Hdes); [done | done | done | done |].
  exists w3, c3, text, (received (push_message msg) (Some (encode_ChatMessage msg))), mid.
  split; [exact H3 |]. split; [exact H4 |]. split; [| split; [exact Hdec | split; [done |]]].
  - rewrite H5. unfold texts. cbn [omap list_omap encode_ptr]. by rewrite He.
  - by rewrite Hdes, Emsg.
Qed.

(** a new chat message of a connected client is read by its receiver as it was written. From the moment the
    gateway hands it over: it is handled without an error and stored; then, in whatever order the workers of
    the gateway run the tasks that wait, the next write of the client on any connected device of the receiver, which
    had nothing queued, puts on its connection one text, and that text decodes to a chat message with the
    content the sender wrote, the number the store gave it, the receiver it was sent to and, whatever
    sender it claimed, the user of the connection it came on; what is not UTF-8 in these strings is replaced. *)
Theorem chat_message_reaches_the_connection t o order r c m chat msg chs w st st' r0 us sp d r2 c2 :
  let sent := with_sender (UID (info_ID (Gate.info c))) (To m) chat in
  gate_inv w -> gate_id w <> "" -> part_ok (gate_id w) -> part_ok (To m) ->
  heap w !! r = Some c -> state c = stateRunning ->
  Action m = ActionChatMessage -> Deserialize (Data m) zero_ChatMessage = (nil_error, chat) -> cm_Mid chat = 0 ->
  st_StoreMessage (t / 1000) sent st = (Val (nil_error, msg), st') -> ChatMessage_ok msg ->
  order ≡ₚ default_map (H0 := Msg_Env t) -> 0 < MaxMessageConcurrency o -> Z.of_nat (length (pool w) + 5) <= pool_cap w ->
  d ∈ devices -> clients w !! route (gate_id w) (NewID "" (To m) d) = Some r2 -> r2 <> r ->
  heap w !! r2 = Some c2 -> state c2 = stateRunning -> Gate.messages c2 = [] -> tasks_of r2 (pool w) = [] ->
  exists s1 w1, Messaging.Handle (H0 := Msg_Env t) o (InfoOf r) m (at_ chs w st r0 us sp) = (Val nil_error, s1) /\
    run_task (H0 := Msg_Env t) o (default_chain order) 0 s1 = (Val tt, at_ chs w1 st' r0 us sp) /\
    forall ns w2, run_pools ns w1 = (Val tt, w2) -> pool w2 = [] ->
      exists w3 c3 text m' mid, run_writes 1 r2 w2 = (Val true, w3) /\ heap w3 !! r2 = Some c3 /\
        conn c3 = conn c2 ++ [Wrote text] /\ decode_message text = (nil_error, m') /\ Action m' = ActionChatMessage /\
        Deserialize (Data m') zero_ChatMessage = (nil_error, set_Mid mid (valid_chat sent)).
Proof.
  intros sent Hi Hg Hpg Hu Hr Hs Hact Hd Hnew Hst Hok Hp Hcap Hroom Hdev Hid Hne Hr2 Hs2 Hq Hnone.
  destruct (chat_message_delivered t o order r c m chat msg chs w st st' r0 us sp d r2 c2)
    as (s1 & w1 & H1 & H2 & _ & _ & H3); by eauto.
Qed.

End delivery.

(** ** From one user to another *)

#[local] Existing Instances flip_cipher no_redis demo_store.

(** The second user has read its greeting. *)
Definition greeted_users : World := run_ops two_users [OpWrite 1 (WriteMessage true)].

Lemma greeted_users_inv : gate_inv greeted_users.
Proof.
  apply gate_good_inv; [| vm_compute; reflexivity]. unfold greeted_users, run_ops, foldl.
  apply gate_op_good; [| right; apply two_users_inv].
  intros _ c Hc. assert (E : messages_closed <$> heap two_users !! 1%nat = Some false) by (vm_compute; reflexivity).
  rewrite Hc in E. by injection E.
Qed.

Lemma greeted_user r uid :
  (fun c => (state c, info_ID (Gate.info c), Gate.messages c)) <$> heap greeted_users !! r = Some (stateRunning, NewID "g1" uid "", []) ->
  exists c, heap greeted_users !! r = Some c /\ state c = stateRunning /\ info_ID (Gate.info c) = NewID "g1" uid "" /\ Gate.messages c = [].
Proof. destruct (heap greeted_users !! r) as [c |]; [| done]. intros [= ???]. by exists c. Qed.

Definition to_u2 : GlideMessage :=
  MkGlideMessage 1 3 ActionChatMessage "somebody" "u2" (Some (PBytes (encode_ChatMessage hello))) "" "" "" ∅.
Definition hello_sent : ChatMessage := with_sender "u1" "u2" hello.
Definition hello_recorded : Log * unit := ([MkRecord KafkaChatMessageTopic (encode_ChatMessage hello_sent)], tt).

(** [u1] writes to [u2] as [somebody]: [u2]'s connection gets it as [u1]'s. *)
Lemma chat_message_reaches_the_connection_witness :
  exists c1 c2 s1 w1, heap greeted_users !! 0%nat = Some c1 /\ heap greeted_users !! 1%nat = Some c2 /\
    Messaging.Handle (H0 := Env_MsgEnv 20) room_options (InfoOf 0) to_u2 (at_ ∅ greeted_users no_records tt NewUserState []) = (Val nil_error, s1) /\
    run_task (H0 := Env_MsgEnv 20) room_options (default_chain room_order) 0 s1 =
      (Val tt, at_ ∅ w1 hello_recorded tt NewUserState []) /\
    forall ns w2, run_pools ns w1 = (Val tt, w2) -> pool w2 = [] ->
      exists w3 c3 text m' mid, run_writes 1 1 w2 = (Val true, w3) /\ heap w3 !! 1%nat = Some c3 /\
        conn c3 = conn c2 ++ [Wrote text] /\ decode_message text = (nil_error, m') /\ Action m' = ActionChatMessage /\
        Deserialize (Data m') zero_ChatMessage = (nil_error, set_Mid mid hello_sent).
Proof.
  destruct (greeted_user 1 "u2") as (c2 & Hr2 & Hs2 & Hid2 & Hq2); [vm_compute; reflexivity |].
  destruct (heap greeted_users !! 0%nat) as [c1 |] eqn:Hr1; [| vm_compute in Hr1; discriminate].
  assert (E : (fun c => (state c, info_ID (Gate.info c))) <$> heap greeted_users !! 0%nat = Some (stateRunning, NewID "g1" "u1" ""))
    by (vm_compute; reflexivity).
  rewrite Hr1 in E. injection E as Hs1 Hid1.
  assert (Huid : UID (info_ID (Gate.info c1)) = "u1") by (rewrite Hid1; reflexivity).
  pose proof (chat_message_reaches_the_connection 20 room_options room_order 0 c1 to_u2 hello hello_sent ∅ greeted_users no_records
    hello_recorded tt NewUserState [] "" 1 c2) as Hth. cbv zeta in Hth. rewrite Huid in Hth.
  destruct Hth as (s1 & w1 & H1 & H2 & H3).
  - apply greeted_users_inv.
  - discriminate.
  - reflexivity.
  - reflexivity.
  - exact Hr1.
  - exact Hs1.
  - reflexivity.
  - vm_compute. reflexivity.
  - reflexivity.
  - reflexivity.
  - by vm_compute; split_and!.
  - reflexivity.
  - reflexivity.
  - by vm_compute.
  - constructor.
  - vm_compute. reflexivity.
  - discriminate.
  - exact Hr2.
  - exact Hs2.
  - exact Hq2.
  - vm_compute. reflexivity.
  - exists c1, c2, s1, w1. exact (conj eq_refl (conj Hr2 (conj H1 (conj H2 H3)))).
Defined.

(** A message for somebody who is not connected is recorded as an offline message too. *)
Definition to_nobody : GlideMessage :=
  MkGlideMessage 1 3 ActionChatMessage "u1" "u9" (Some (PBytes (encode_ChatMessage hello))) "" "" "" ∅.
Definition nobody_sent : ChatMessage := with_sender "u1" "u9" hello.
Definition nobody_recorded (topics : list string) : Log * unit :=
  ((fun topic => MkRecord topic (encode_ChatMessage nobody_sent)) <$> topics, tt).

