(* ===== verification/EndToEnd.v ===== *)
(** * From a text on one connection to a text on another

    The whole way of a chat message through the process, as steps of [System]: the sender's reader decodes
    a frame and the interceptor lets it pass ([frame_is_handed_over]); messaging takes it from the gateway's
    handler; a worker of messaging handles it; the pool of the gateway and the write loop of the receiver
    bring it to the receiver's connection ([chat_message_end_to_end]). *)

From S2P Require Import Prelude GoStrings Json Messages GateId Digest Channel Subscription WorldChannel Credentials Gate GateSpec GateTyping GateProps Pipeline Interfaces UserState Messaging MessagingSpec Stores System SystemSpec Delivery ChatDelivery Typing.

From stdpp Require Import relations.

Local Open Scope Z_scope.
Local Open Scope go_scope.

(** ** The reader and the interceptor *)

(** A client may send [m]: it has shown no credentials, or the message has the ticket it needs. *)
Definition may_send (c : UserClient) (m : GlideMessage) : Prop :=
  match credentials c with
  | None => True
  | Some cr => needs_ticket m -> has_ticket cr (info_ID (Gate.info c)) m
  end.

Lemma interceptor_passes r c m w :
  heap w !! r = Some c -> may_send c m -> MessageInterceptor r m w = (Val false, w).
Proof.
  intros Hr Hm. unfold MessageInterceptor. rewrite (bind_Val _ _ _ _ _ (get_client_run r c w Hr)).
  unfold may_send in Hm. destruct (credentials c) as [cr |]; [| done].
  fold (needs_ticket m). case_bool_decide as Hn; [| done]. destruct (Hm Hn) as (secrets & -> & Hne & Ht).
  rewrite bool_decide_false by done.
  assert (Hlen : String.length (Ticket m) = 40%nat).
  { apply (f_equal String.length) in Ht. rewrite !length_strings_ToUpper in Ht. rewrite Ht. apply length_SHA1. }
  by rewrite Hlen, bool_decide_true.
Qed.

Section reader.
Context `{BlockCipher}.

(** The gateway once it has called its handler for [m]. *)
Definition handed_over (r : nat) (c : UserClient) (m : GlideMessage) (w : World) : World :=
  add_handled (InfoOf r, m) (set_heap (<[r := with_hbLost 0 c]> (heap w)) w).

(** A frame that decodes to a message its client may send reaches the handler of the gateway. *)
Lemma frame_is_handed_over r c text m w :
  gate_inv w -> heap w !! r = Some c -> state c = stateRunning ->
  decode_message text = (nil_error, m) -> Action m <> ActionHello -> Action m <> ActionAuthenticate -> may_send c m ->
  read_loop r (ReadCh [inl text]) w = (Val true, handed_over r c m w).
Proof.
  intros Hi Hr Hs Hdec Hhello Hauth Hm.
  assert (Hid : info_ID (Gate.info c) <> "") by (eapply live_client; [by eapply gi_clients | congruence]).
  cbn [ReadCh Read]. rewrite Hdec. cbn [read_loop].
  set (w1 := set_heap (<[r := with_hbLost 0 c]> (heap w)) w).
  assert (Hr1 : heap w1 !! r = Some (with_hbLost 0 c)) by apply lookup_insert_eq.
  assert (Hpass : client_handler r m w1 = (Val tt, handed_over r c m w)).
  { unfold client_handler. rewrite (bind_Val _ _ _ _ _ (get_client_run r _ w1 Hr1)).
    change (intercepted (with_hbLost 0 c)) with (intercepted c). destruct (intercepted c); [| done].
    assert (Hint : interceptClientMessage r m w1 = (Val false, w1)).
    { unfold interceptClientMessage. unfold bind, gets. cbn [authenticator w1 set_heap].
      rewrite bool_decide_false by done. pose proof (interceptor_passes r _ m w1 Hr1 Hm) as E.
      destruct (authenticator w); [exact E | unfold on_nil; by rewrite E]. }
    by rewrite (bind_Val _ _ _ _ _ Hint). }
  rewrite (bind_Val (recovered r (runRead r (ReadMessage m))) _ w true (handed_over r c m w)); [done |].
  apply recovered_Val. unfold runRead. rewrite (bind_Val _ _ _ _ _ (get_client_run r c w Hr)).
  rewrite bool_decide_false by done. rewrite (bind_Val (upd_client r _) _ w tt w1) by (by apply upd_client_run).
  rewrite bool_decide_false by done. by rewrite (bind_Val _ _ _ _ _ Hpass).
Qed.

Lemma handed_over_inv r c m w : gate_inv w -> heap w !! r = Some c -> gate_inv (handed_over r c m w).
Proof.
  intros Hi Hr. apply gate_inv_handled, (gate_inv_client r c); [done | done | done |].
  destruct (gi_clients _ Hi _ _ Hr) as [? ? ? ?]. by split.
Qed.
End reader.

(** ** The steps of the process *)

Section process.
Context {T R : Type} `{Store_ T} `{Redis_ R} `{!FillsMid T} `{BlockCipher}.
Abbreviation Msg_Env t := (Env_MsgEnv (T := T) (R := R) t).
Abbreviation Proc := (Process (T := T) (R := R)).

(** Nothing but the gateway's calls of its handler waits: all were dispatched, and all were handled. *)
Definition quiet (chs : gmap ChanID Channel) (w : World) (st : T) (r0 : R) (us : UserState) (sp : list spawned)
    (gs : list goroutine) : Proc :=
  MkProcess (at_ chs w st r0 us sp) (length (handled w)) gs.

(** A step of a worker of the gateway's pool. *)
Definition pool_step (s s' : Proc) : Prop := exists n, s' = env_step (on_world (run_gate_op (OpPool n))) s.

Lemma pool_step_is_a_step o s s' : pool_step s s' -> step o s s'.
Proof. intros [n ->]. by apply step_gate. Qed.

Lemma world_gate_step op (s : Proc) : world (env_step (on_world (run_gate_op op)) s) = (run_gate_op op (world s)).2.
Proof. unfold env_step, on_world, zoom, world. cbn. by destruct (run_gate_op op _). Qed.

(** Steps of the pool are a run of its workers. *)
Lemma pool_steps_run s s' :
  gate_inv (world s) -> rtc pool_step s s' -> exists ns, run_pools ns (world s) = (Val tt, world s').
Proof.
  intros Hi Hs. revert Hi. induction Hs as [s | s s1 s' [n ->] _ IH]; intros Hi; [by exists [] |].
  assert (Hrun : run_pool n (world s) = (Val tt, (run_pool n (world s)).2)).
  { destruct (pool (world s) !! n) as [[r m] |] eqn:Hn; [| unfold run_pool, bind, gets; by rewrite Hn].
    destruct (gi_pool _ Hi r m) as [c Hr]; [by eapply list_elem_of_lookup_2 |]. by rewrite (run_pool_task n r m c). }
  rewrite world_gate_step in IH. cbn [run_gate_op] in IH. destruct IH as [ns Hns]; [by apply preserves_run_pool |].
  exists (n :: ns). unfold run_pools. cbn [foreach]. by rewrite (bind_Val _ _ _ _ _ Hrun).
Qed.

(** A write the loop goes on after did not panic. *)
Lemma one_write r w w' : run_writes 1 r w = (Val true, w') -> (runWrite r (WriteMessage true) w).2 = w'.
Proof.
  cbn [run_writes]. intros ([|] & w1 & Hrec & [= <-])%bind_Val_inv. unfold recovered in Hrec.
  destruct (runWrite r (WriteMessage true) w) as [[[|] | why] w2]; [by injection Hrec | done |].
  apply bind_Val_inv in Hrec as (u & w3 & _ & [=]).
Qed.

Lemma state_offered ms : forall c, state (foldl (fun c m => offered m c) c ms) = state c.
Proof.
  induction ms as [| m ms IH]; intros c; [done |]. cbn [foldl]. rewrite IH. unfold offered, queued_one.
  by destruct (state c) eqn:E; rewrite ?E; try case_match.
Qed.

Lemma blocks_itself_decoded o m (s : Proc) : Typing.received m -> blocks_itself o m s = false.
Proof. unfold Typing.received, blocks_itself, own_event. by destruct (Data m) as [[] |]. Qed.

End process.

(** ** From one user's text to another's *)

#[local] Existing Instances flip_cipher no_redis demo_store.

(** [u1] writes to [u2], as [somebody]. *)
Definition chat_text : string := default "" (Encode to_u2).
Definition chat_read : GlideMessage := (decode_message chat_text).2.
Definition chat_start : Process (T := Log * unit) (R := unit) := quiet ∅ greeted_users no_records tt NewUserState [] [].

